(* ===== verification/_CoqProject ===== *)
-Q . S2P
Prelude.v
Text.v
RootKey.v
Anchors.v
Wire.v
WireV2.v
Crypto.v
Envelope.v
EncryptTool.v
Stream.v
StreamV3.v
KemP384.v
AwsLc.v
Ffi.v
FfiLaws.v
Enforcer.v
Types.v
Hierarchy.v
AuditLog.v
AuditCli.v
F64.v
Policy.v
Threat.v
Storage.v
FileStore.v
Backup.v
Replay.v
ReplayStores.v
Signer.v
KeystoreBase.v
KeystoreWrap.v
Keystore.v
KeystoreCrypto.v
KeystoreSign.v
Migration.v
Graph.v
Doctor.v
ApiBase.v
ApiKeys.v
ApiLimit.v
Api.v
ApiServer.v
KeystoreFrame.v
KeystoreLaws.v
KeystoreCascade.v
KeystoreRuns.v
KeystoreGates.v
KeystoreInit.v
Cli.v
ApiStart.v
HashTool.v
ApiBoot.v
KeystoreOnce.v
KeystoreAuth.v
KeystoreOps.v
KeystoreSeal.v
KeystoreKeep.v
KeystoreRoundtrip.v
KeystoreAvailable.v
MigrationLaws.v
ApiLaws.v
ApiAccess.v
Examples.v
Witnesses.v
KeystoreWitnesses.v
MigrationWitnesses.v
SystemWitnesses.v
ApiWitnesses.v
FfiWitnesses.v
