(* ===== verification/Prelude.v ===== *)
(** * Citadel: a verification library

    Citadel (the Rust workspace under [src/]) is a key-management system: an
    envelope encryption crate ([citadel-envelope]), a signer
    ([citadel-signer]), a capability issuer ([citadel-core]), a keystore
    ([citadel-keystore]) that generates, wraps, rotates, revokes and destroys
    keys and uses them to encrypt, decrypt and sign, with policies, a threat
    assessor, a replay store and an audit trail, an HTTP server
    ([citadel-api]) and a command line ([citadel-cli]).  This library models
    the code as executable Rocq definitions and proves what it promises.  This
    root file holds the generic part: results, machine integers, byte and string
    slicing, digests and hexadecimal.

    ** Parts and files

    Envelope crate ([citadel-envelope/src]).
    - [Wire]: the version 1 codec, the suite table, the stream header ([wire.rs]).
    - [WireV2]: version 2: codec, KDF transcript, associated data, [seal] and
      [open] ([wire_v2.rs]), against two interfaces, [CryptoBackend] and
      [KemProvider] ([backend.rs]), whose laws are type classes.
    - [Crypto]: the RustCrypto implementations: AEAD and KDF ([aead.rs],
      [kdf.rs]) and the hybrid KEM ([kem.rs]); the laws are discharged from
      [PrimitiveLaws], the documented behaviour of the external crates.
    - [KemP384]: the second provider, P-384 with ML-KEM-1024 ([kem_p384.rs]), and
      [CitadelP384]; [AwsLc]: the backend and provider of the FIPS build
      ([backend_awslc.rs]).
    - [Envelope]: the builders of [aad.rs], the engine of [lib.rs] (format
      detection, legacy encryption), the facade of [envelope.rs], and [inspect]
      and the builders of [sdk.rs].
    - [EncryptTool]: the tool [bin/citadel-encrypt.rs] on the files of a disk.
    - [Stream], [StreamV3]: encryptor and decryptor of [stream.rs] and
      [stream_v3.rs] as state machines, and the one-call functions of the latter.

    Signer crate ([citadel-signer/src]).
    - [Signer]: ML-DSA-65 on raw bytes ([dsa.rs], [wire.rs]) and the Citadel
      Native Assertion ([assertion.rs]).

    Capability issuer ([citadel-core/src]).
    - [Enforcer]: [state_enforcer.rs]; every call is a step of a shared
      registry, with the nonce and clock readings it drew as its argument.

    Keystore crate ([citadel-keystore/src]).
    - [Types], [Hierarchy], [Policy], [Threat] (with [F64], binary64 arithmetic
      over the Standard Library's [SpecFloat]), [AuditLog] (with the verifier of
      [citadel-cli]), [Storage], [Replay]: the files of the same names.
      [StorageBackend] and [ReplayStore] are type classes with laws; the memory
      and file stores are instances that discharge them.
    - [FileStore]: the file backend of [storage.rs] as a sequence of system
      calls on a directory; [ReplayStores]: the other replay caches.
    - [Backup], [Graph], [Doctor], [Migration] (with its command): the files of
      the same names; [RootKey]: [root_key_provider.rs]; [Anchors]:
      [audit_witness.rs]; [Text]: the functions on Unicode text they use.
    - [KeystoreBase]: the keystore's state and effects.  A method of [Keystore]
      is a function [World -> World * result]; the world holds the struct's
      fields and what the process reads: the environment and a tape with one
      [Reading] (clock, random bytes, outcome of a storage or replay call) for
      each external access.  [wp] is its program logic.
    - [KeystoreWrap], [Keystore], [KeystoreCrypto], [KeystoreSign],
      [KeystoreInit]: [keystore.rs]: wrapping, life cycle and policy,
      encryption, signing, the constructors.
    - [KeystoreFrame], [KeystoreLaws], [KeystoreCascade], [KeystoreRuns],
      [KeystoreGates], [KeystoreOnce], [KeystoreAuth], [KeystoreOps],
      [KeystoreSeal], [KeystoreKeep], [KeystoreRoundtrip], [KeystoreAvailable],
      [MigrationLaws]: the theorems about it.  [Keeps R m] says that a method
      relates its start and its end by the preorder [R]; its instances, found by
      type class resolution, carry the frame ([calm]), the legal evolution of
      keys ([legal]) and the claims of the replay store ([held]) through all
      methods.

    HTTP server ([citadel-api/src/main.rs]).
    - [ApiBase]: scopes, requests, responses; [ApiKeys]: the store of API keys
      and its administration; [ApiLimit]: the rate limiter; [Api]: the handlers;
      [ApiServer]: middleware, routes and the step of the server; [ApiStart],
      [ApiBoot]: what happens before it serves.  [ApiLaws], [ApiAccess]: the
      theorems.  [HashTool]: [hash_apikey.rs].

    Command line ([citadel-cli/src]).
    - [Cli]: the commands on keys, backups and the replay store, each a process
      of its own over the stored keys; [AuditCli]: those on the audit log; the
      others are in [Migration] and [Doctor].

    C interface ([citadel-ffi/src/lib.rs]).
    - [Ffi]: the entry points over a memory of bytes, in which undefined
      behaviour is an outcome, parametric in the allocator; the functions of
      both suites are instances of [Suite].  [FfiLaws]: the theorems.

    [Examples] instantiates every interface with a concrete toy implementation;
    [Witnesses], [KeystoreWitnesses], [MigrationWitnesses], [SystemWitnesses],
    [ApiWitnesses] and [FfiWitnesses] evaluate the theorems on it.

    ** What the theorems show

    - Envelopes: encryption followed by decryption is the identity for both
      formats and for both stream formats; [decode] accepts exactly the
      canonical encodings; transcripts and associated data are injective; no
      parser panics; an encapsulation panics only when one of its two draws of
      randomness fails.  An accepted version 3 stream cannot be shortened,
      reordered or stretched ([stream_v3_untampered]).  The suites are disjoint
      ([suites_disjoint]), and the default and the FIPS build are
      interchangeable ([builds_interchangeable]).
    - End to end: [KeystoreSeal] gives every key version a ghost secret, and
      [KeystoreKeep] proves that every operation keeps the store a
      representation of those secrets.  So a ciphertext decrypts to its
      plaintext or not at all, a signature always verifies
      ([KeystoreRoundtrip]), and a decryption the gates admit succeeds
      ([KeystoreAvailable]).
    - Capabilities: authorization is granted exactly to registered, unrevoked
      keys in the right domain; a context validates at most once, only in the
      issuing instance; a revoked key is denied for ever.
    - Keystore: over any sequence of operations, a key evolves only by legal
      transitions and destroyed material is gone, also across processes
      ([cli_sessions_sound]); a ciphertext is decrypted at most once within the
      time-to-live; an authorized operation that succeeds had, at the clock
      readings of that call, a live capability and a key in the right state,
      policy, lifetime and domain; failures of decryption are
      indistinguishable; a cascade terminates and suspends what it can reach;
      migration settles.
    - Storage: a write is atomic at every system call ([put_atomic]) and files
      stay private; a backup restores the store ([disaster_recovery]); both
      for records whose material carries its tag, as what is stored does.
    - Policy and threat: exact conditions of the verdicts, hysteresis without
      oscillation, adaptation within floors.
    - Replay and audit: one claim per key; durability of the file store up to
      99 claims in a crash; the last hash of a verified log fixes the log
      ([chain_binds_history]); what the verifier does not see.
    - Hierarchy and diagnostics: validation terminates, finds a cycle exactly
      when there is one; what a clean report of the doctor means
      ([doctor_green]).
    - Server: every step is a sequence of keystore operations
      ([server_refines_keystore]); a request that reaches a handler had an
      active API key with the scope of its path, and a refused one changes
      nothing but the threat score, the trail and what the middleware keeps
      ([access_control]); a scoped key uses only keys of its own domains, and
      reads only those where the domain resolves; scoped admins cannot widen their access and the last admin stays;
      decryption answers every denial alike; the server starts only protected.

    - C interface: after any history of calls and of writes by the host, a call
      with valid pointers is free of undefined behaviour, and what is freed is
      zeroed first, whatever the host passes; the code for a panic means that
      the system's random source failed ([c_boundary_safe]); what is sealed
      through pointers opens through pointers ([c_roundtrip]).

    Several theorems prove that the code does not do what its documentation
    says, for example [restart_breaks_chain], [rewrap_under_itself_loses_key],
    [rotation_undoes_migration] and [burst_is_halved].

    ** Bounds and fuel

    Machine integers are [Z] with the wrap-around or check of the source
    written out.  [Hierarchy.detect_cycle] runs with fuel [length keys + 1]
    ([validate_reports_cycles]: enough), [Graph.build] with the number of keys
    ([forest_shows_grounded]: enough), [Keystore.cascade_loop] with the
    number of keys plus two ([revoke_cascade_suspends]: enough).  Unwrapping,
    domain resolution and the walk of the doctor recurse to the depths the code
    itself fixes (4, 10 and 6).

    ** Assumptions

    External crates (curves, ML-KEM, AES-GCM, HMAC, hashes, hex, serde,
    [f64::powf], the calendar, AWS-LC) are parameters; their laws are
    correctness and size laws only, never secrecy.  Collision resistance is
    never assumed: where it matters the theorem exhibits the collision
    ([chain_binds_history]).  [decrypt_once] assumes that identifiers drawn for
    new keys do not repeat ([fresh_ids]); so do the end-to-end theorems, for the
    part of the tape they read ([empty_at]).  The derived serializations of
    serde print and parse back; the hand-written one of the key material is
    modelled ([Types.serialize], [Types.deserialize]): it loses the variant of
    material whose text lacks its tag.  So the law of a store that serializes is
    about [storable] records ([all_tagged] ones among them), and every method of
    the keystore is proved to put no others ([wp_put]).  In the keystore the
    draws of a key or an encapsulation succeed ([rd_kem], [rd_draws]); those of
    a nonce can fail.

    ** Not modelled

    Logging by [tracing]; lock poisoning other than that of the threat
    assessor; interleaving inside one method (a method, and a request of the
    server, runs atomically); zeroisation of memory;
    the Redis store (a client of a service); the extraction of JSON, the request
    identifiers, CORS and the rest of [axum]; the status probes of the AWS-LC
    module; argument parsing and printing of the command lines;
    [citadel-envelope/src/cli.rs], which no target of the build contains; the
    wiping of copies of secrets that Rust keeps on its own stack and heap. *)

From stdpp Require Export base gmap strings list list_numbers fin_maps pretty.
From Stdlib Require Export ZArith Lia.
From Stdlib Require Import NArith.
From Stdlib Require Export Strings.Byte.

#[global] Set Default Goal Selector "!".
#[global] Open Scope Z_scope.

Declare Scope citadel_scope.
Delimit Scope citadel_scope with citadel.

(** ** Results

    [Result<T, E>] of Rust.  A function whose Rust counterpart may also panic
    (an index or a slice out of range) returns [result (fault E) T]. *)

Inductive result (E A : Type) : Type :=
| Ok (a : A)
| Err (e : E).
Arguments Ok {E A} a.
Arguments Err {E A} e.

Inductive fault (E : Type) : Type :=
| Fail (e : E)
| Panic.
Arguments Fail {E} e.
Arguments Panic {E}.

#[export] Instance result_ret {E} : MRet (result E) := fun A a => Ok a.
#[export] Instance result_bind {E} : MBind (result E) := fun A B f m =>
  match m with Ok a => f a | Err e => Err e end.
#[export] Instance result_fmap {E} : FMap (result E) := fun A B f m =>
  match m with Ok a => Ok (f a) | Err e => Err e end.

Definition is_ok {E A} (r : result E A) : bool :=
  match r with Ok _ => true | Err _ => false end.

(** [Result::map_err]. *)
Definition map_err {E F A} (f : E -> F) (r : result E A) : result F A :=
  match r with Ok a => Ok a | Err e => Err (f e) end.

(** [Option::ok_or]. *)
Definition ok_or {E A} (o : option A) (e : E) : result E A :=
  match o with Some a => Ok a | None => Err e end.

(** [if cond { return Err(e) }]. *)
Definition bail_if {E} (cond : bool) (e : E) : result E unit :=
  if cond then Err e else Ok ().

#[export] Instance result_eq_dec {E A} `{EqDecision E} `{EqDecision A} :
  EqDecision (result E A).
Proof. solve_decision. Defined.

#[export] Instance fault_eq_dec {E} `{EqDecision E} : EqDecision (fault E).
Proof. solve_decision. Defined.

Create HintDb citadel.

Section result_lemmas.
Context {E A B : Type}.
Implicit Types (m : result E A) (f : A -> result E B).

Lemma Ok_inj (a a' : A) : @Ok E A a = Ok a' -> a = a'.
Proof. by intros [=]. Qed.

Lemma bind_Ok m f b : (m ≫= f) = Ok b <-> exists a, m = Ok a /\ f a = Ok b.
Proof. destruct m; cbn; naive_solver. Qed.

Lemma bind_Err m f e :
  (m ≫= f) = Err e <-> m = Err e \/ exists a, m = Ok a /\ f a = Err e.
Proof. destruct m; cbn; naive_solver. Qed.

Lemma ok_or_Ok (o : option A) (e : E) a : ok_or o e = Ok a <-> o = Some a.
Proof. destruct o; cbn; naive_solver. Qed.

Lemma map_err_Ok {F} (g : E -> F) m a : map_err g m = Ok a <-> m = Ok a.
Proof. destruct m; cbn; naive_solver. Qed.

Lemma bail_if_Ok (b : bool) (e : E) u : bail_if b e = Ok u <-> b = false.
Proof. destruct b, u; cbn; naive_solver. Qed.

Lemma is_ok_true m : is_ok m = true <-> exists a, m = Ok a.
Proof. destruct m; cbn; naive_solver. Qed.
End result_lemmas.

(** [inv_ok H] opens a successful chain of binds into its steps. *)
Ltac inv_ok_head H :=
  lazymatch type of H with
  | bail_if _ _ = Ok _ => apply bail_if_Ok in H
  | ok_or _ _ = Ok _ => apply ok_or_Ok in H
  | map_err _ _ = Ok _ => apply map_err_Ok in H; inv_ok_head H
  | Ok _ = Ok _ => apply Ok_inj in H; subst
  | _ => idtac
  end.

Ltac inv_ok H :=
  lazymatch type of H with
  | (_ ≫= _) = Ok _ =>
      let a := fresh "x" in let H1 := fresh "Hx" in
      apply bind_Ok in H; destruct H as (a & H1 & H);
      inv_ok H1; cbn beta in H; inv_ok H
  | (match ?x with _ => _ end) = Ok _ =>
      lazymatch type of x with
      | prod _ _ =>
          let a := fresh "a" in let b := fresh "b" in
          tryif is_var x then destruct x as [a b]
          else (let E := fresh "Ep" in destruct x as [a b] eqn:E);
          inv_ok H
      | _ => idtac
      end
  | map_err _ _ = Ok _ => apply map_err_Ok in H; inv_ok H
  | _ => inv_ok_head H
  end.

(** Boolean tests of the code turned into propositions. *)
Ltac bool_hyps :=
  repeat match goal with
  | H : negb _ = true |- _ => apply negb_true_iff in H
  | H : negb _ = false |- _ => apply negb_false_iff in H
  | H : (_ || _)%bool = false |- _ => apply orb_false_iff in H; destruct H
  | H : (_ && _)%bool = true |- _ => apply andb_true_iff in H; destruct H
  | H : bool_decide _ = true |- _ => apply bool_decide_eq_true in H
  | H : bool_decide _ = false |- _ => apply bool_decide_eq_false in H
  | H : Z.ltb _ _ = true |- _ => apply Z.ltb_lt in H
  | H : Z.ltb _ _ = false |- _ => apply Z.ltb_ge in H
  | H : Z.leb _ _ = true |- _ => apply Z.leb_le in H
  | H : Z.leb _ _ = false |- _ => apply Z.leb_gt in H
  | H : Z.eqb _ _ = true |- _ => apply Z.eqb_eq in H
  | H : Z.eqb _ _ = false |- _ => apply Z.eqb_neq in H
  | H : Nat.ltb _ _ = true |- _ => apply Nat.ltb_lt in H
  | H : Nat.ltb _ _ = false |- _ => apply Nat.ltb_ge in H
  | H : Nat.leb _ _ = true |- _ => apply Nat.leb_le in H
  | H : Nat.leb _ _ = false |- _ => apply Nat.leb_gt in H
  | H : Nat.eqb _ _ = true |- _ => apply Nat.eqb_eq in H
  | H : Nat.eqb _ _ = false |- _ => apply Nat.eqb_neq in H
  end.

(** ** Bytes and machine integers

    A [u8] is a [Byte.byte]; a [u16], [u32], [u64] or [usize] is a [Z] whose
    bounds are checked where the source checks or wraps them ([usize] is the
    64-bit one of the supported targets).  Lengths of slices are [nat]. *)

#[export] Instance byte_eq_dec : EqDecision byte := Byte.byte_eq_dec.

#[export] Program Instance byte_countable : Countable byte :=
  inj_countable Byte.to_N Byte.of_N _.
Next Obligation. intros b. apply Byte.of_to_N. Qed.

Definition U16_MAX : Z := 2 ^ 16 - 1.
Definition U32_MAX : Z := 2 ^ 32 - 1.
Definition U64_MAX : Z := 2 ^ 64 - 1.

Definition saturating_sub (a b : Z) : Z := Z.max 0 (a - b).
Definition checked_add (max a b : Z) : option Z :=
  if a + b <=? max then Some (a + b) else None.
Definition wrapping_add (bits a b : Z) : Z := (a + b) mod 2 ^ bits.

(** [z as i64], and addition on [i64] in a release build. *)
Definition as_i64 (z : Z) : Z := (z + 2 ^ 63) mod 2 ^ 64 - 2 ^ 63.
Definition wrapping_add_i64 (a b : Z) : Z := as_i64 (a + b).

Definition byte_of_Z (z : Z) : byte :=
  match Byte.of_N (Z.to_N (z mod 256)) with Some b => b | None => Byte.x00 end.
Definition Z_of_byte (b : byte) : Z := Z.of_N (Byte.to_N b).

Lemma Z_of_byte_range b : 0 <= Z_of_byte b < 256.
Proof. unfold Z_of_byte. pose proof (Byte.to_N_bounded b). lia. Qed.

Lemma byte_of_Z_of_byte b : byte_of_Z (Z_of_byte b) = b.
Proof.
  unfold byte_of_Z. rewrite Z.mod_small by apply Z_of_byte_range.
  unfold Z_of_byte. by rewrite N2Z.id, Byte.of_to_N.
Qed.

Lemma Z_of_byte_of_Z z : Z_of_byte (byte_of_Z z) = z mod 256.
Proof.
  unfold byte_of_Z, Z_of_byte.
  pose proof (Z.mod_pos_bound z 256 ltac:(lia)).
  destruct (Byte.of_N (Z.to_N (z mod 256))) as [b|] eqn:E.
  - apply Byte.to_of_N in E. rewrite E, Z2N.id by lia. done.
  - apply Byte.of_N_None_iff in E. lia.
Qed.

(** Big-endian codecs: [to_be_bytes] of an [n]-byte integer and its inverse. *)
Fixpoint be_bytes (n : nat) (z : Z) : list byte :=
  match n with
  | O => []
  | S n' => be_bytes n' (z / 256) ++ [byte_of_Z z]
  end.

Definition be_val (l : list byte) : Z :=
  foldl (fun acc b => acc * 256 + Z_of_byte b) 0 l.

Lemma be_val_snoc l b : be_val (l ++ [b]) = be_val l * 256 + Z_of_byte b.
Proof. unfold be_val. by rewrite foldl_app. Qed.

Lemma length_be_bytes n z : length (be_bytes n z) = n.
Proof. revert z. induction n; intros z; cbn; rewrite ?length_app, ?IHn; cbn; lia. Qed.

Lemma be_val_bytes n z : be_val (be_bytes n z) = z mod 256 ^ Z.of_nat n.
Proof.
  revert z. induction n as [|n IH]; intros z.
  - cbn. by rewrite Z.mod_1_r.
  - cbn [be_bytes]. rewrite be_val_snoc, IH, Z_of_byte_of_Z.
    rewrite Nat2Z.inj_succ, Z.pow_succ_r, Z.rem_mul_r by lia. lia.
Qed.

Lemma be_val_bytes_small n z : 0 <= z < 256 ^ Z.of_nat n -> be_val (be_bytes n z) = z.
Proof. intros. by rewrite be_val_bytes, Z.mod_small. Qed.

Lemma be_val_range l : 0 <= be_val l < 256 ^ Z.of_nat (length l).
Proof.
  induction l as [|b l IH] using rev_ind; [done|].
  rewrite be_val_snoc, length_app; cbn [length].
  rewrite Nat2Z.inj_add, Z.pow_add_r by lia.
  pose proof (Z_of_byte_range b). change (256 ^ Z.of_nat 1) with 256. nia.
Qed.

Lemma be_bytes_val l : be_bytes (length l) (be_val l) = l.
Proof.
  induction l as [|b l IH] using rev_ind; [done|].
  rewrite be_val_snoc, length_app, Nat.add_comm; cbn [length Nat.add be_bytes].
  pose proof (Z_of_byte_range b).
  rewrite Z.div_add_l, Z.div_small, Z.add_0_r, IH by lia. f_equal.
  rewrite <- (byte_of_Z_of_byte b) at 2. unfold byte_of_Z.
  by rewrite Z.add_comm, Z.mod_add, Z.mod_small by lia.
Qed.

Lemma be_bytes_val_len n l : length l = n -> be_bytes n (be_val l) = l.
Proof. intros <-. apply be_bytes_val. Qed.

Lemma be_bytes_inj n a b :
  0 <= a < 256 ^ Z.of_nat n -> 0 <= b < 256 ^ Z.of_nat n ->
  be_bytes n a = be_bytes n b -> a = b.
Proof.
  intros Ha Hb E. rewrite <- (be_val_bytes_small n a), <- (be_val_bytes_small n b) by done.
  by rewrite E.
Qed.

Notation u16_be := (be_bytes 2).
Notation u32_be := (be_bytes 4).
Notation u64_be := (be_bytes 8).

#[export] Hint Rewrite length_be_bytes @length_app @length_take @length_drop
  @length_cons @length_replicate : len.

(** [len_solve] reduces goals on lengths to arithmetic. *)
Ltac len_solve :=
  repeat (progress (autorewrite with len in *; cbn [length] in *)); lia.

(** ** Slices

    [data[i]], [data[a..b]] and [data.get(..b)]; indices and lengths are
    [usize] values, hence [Z]. *)

Notation len x := (Z.of_nat (length x)).

Definition idx {E} (d : list byte) (i : Z) : result (fault E) byte :=
  if 0 <=? i then ok_or (d !! Z.to_nat i) Panic else Err Panic.

Definition slice {A} (d : list A) (a b : Z) : option (list A) :=
  if bool_decide (0 <= a <= b /\ b <= len d)
  then Some (take (Z.to_nat (b - a)) (drop (Z.to_nat a) d)) else None.

Definition slice_or_panic {E A} (d : list A) (a b : Z) : result (fault E) (list A) :=
  ok_or (slice d a b) Panic.

Lemma idx_lt {E} d i : 0 <= i < len d -> exists b, idx (E := E) d i = Ok b.
Proof.
  intros Hi. unfold idx. replace (0 <=? i) with true by lia.
  destruct (lookup_lt_is_Some_2 d (Z.to_nat i)) as [b ->]; [lia|]. by exists b.
Qed.

Lemma slice_Some {A} (d : list A) a b s :
  slice d a b = Some s <->
  (0 <= a <= b /\ b <= len d) /\ s = take (Z.to_nat (b - a)) (drop (Z.to_nat a) d).
Proof. unfold slice. case_bool_decide; naive_solver. Qed.

Lemma slice_in_bounds {A} (d : list A) a b :
  0 <= a <= b -> b <= len d ->
  slice d a b = Some (take (Z.to_nat (b - a)) (drop (Z.to_nat a) d)).
Proof. intros. by apply slice_Some. Qed.

Lemma slice_app {A} (x y z : list A) a b :
  a = len x -> b = len x + len y -> slice (x ++ y ++ z) a b = Some y.
Proof.
  intros -> ->. apply slice_Some. split; [len_solve|].
  rewrite Nat2Z.id, drop_app_length, take_app_le by lia.
  by rewrite firstn_all2 by lia.
Qed.

Lemma slice_to_end {A} (x y : list A) a b :
  a = len x -> b = len x + len y -> slice (x ++ y) a b = Some y.
Proof. intros. pose proof (slice_app x y [] a b) as E. rewrite app_nil_r in E. by apply E. Qed.

Lemma slice_prefix {A} (x y : list A) b : b = len x -> slice (x ++ y) 0 b = Some x.
Proof. intros. by apply (slice_app [] x y). Qed.

Lemma length_slice {A} (d : list A) a b s : slice d a b = Some s -> len s = b - a.
Proof. intros [? ->]%slice_Some. len_solve. Qed.

(** Two adjacent slices rebuild the longer one. *)
Lemma slice_split {A} (d : list A) a b c s t :
  slice d a b = Some s -> slice d b c = Some t -> slice d a c = Some (s ++ t).
Proof.
  intros [Hs ->]%slice_Some [Ht ->]%slice_Some. apply slice_Some. split; [lia|].
  replace (Z.to_nat (c - a)) with (Z.to_nat (b - a) + Z.to_nat (c - b))%nat by lia.
  rewrite <- take_take_drop, drop_drop. by repeat f_equal; lia.
Qed.

Lemma slice_full {A} (d : list A) s : slice d 0 (len d) = Some s -> s = d.
Proof. intros [_ ->]%slice_Some. rewrite Z.sub_0_r, Nat2Z.id. apply firstn_all. Qed.

Lemma slice_one {E} (d : list byte) i b : idx (E := E) d i = Ok b -> slice d i (i + 1) = Some [b].
Proof.
  unfold idx. destruct (Z.leb_spec 0 i) as [Hi|]; [|done]. intros Hb%ok_or_Ok.
  pose proof (lookup_lt_Some _ _ _ Hb). apply slice_Some. split; [lia|].
  replace (Z.to_nat (i + 1 - i)) with 1%nat by lia.
  by rewrite (drop_S _ _ _ Hb).
Qed.

(** Adjacent slices, from hypotheses on the pieces. *)
Ltac slice_chain := repeat (eapply slice_split; [eassumption|]); eassumption.

(** Every access of a decoder, as a slice. *)
Ltac decoded_pieces :=
  repeat match goal with
  | H : idx _ _ = Ok _ |- _ => apply slice_one in H
  | H : slice_or_panic _ _ _ = Ok _ |- _ =>
      apply ok_or_Ok in H; pose proof (length_slice _ _ _ _ H)
  end.

Lemma idx_Fail {E} d i (e : E) : idx d i <> Err (Fail e).
Proof. unfold idx. destruct (0 <=? i), (d !! Z.to_nat i); done. Qed.

Lemma idx_Panic {E} d i : 0 <= i < len d -> idx (E := E) d i <> Err Panic.
Proof. intros [b ->]%(idx_lt (E := E)). done. Qed.

Lemma slice_Panic {E A} (d : list A) a b :
  0 <= a <= b -> b <= len d -> slice_or_panic (E := E) d a b <> Err Panic.
Proof. intros. unfold slice_or_panic. by rewrite slice_in_bounds. Qed.

Lemma bind_no_panic {E A B} (m : result (fault E) A) (f : A -> result (fault E) B) :
  m <> Err Panic -> (forall a, m = Ok a -> f a <> Err Panic) -> (m ≫= f) <> Err Panic.
Proof. destruct m; cbn; [|congruence]. intros _ H. by apply H. Qed.

Lemma bail_no_panic {E} b (e : E) : bail_if b (Fail e) <> Err Panic.
Proof. by destruct b. Qed.

Lemma ok_or_no_panic {E A} (o : option A) (e : E) : ok_or o (Fail e) <> Err Panic.
Proof. by destruct o. Qed.

(** [no_panic] walks through a chain of binds and leaves the bounds of the
    accesses, with the guards passed so far as hypotheses. *)
Ltac no_panic :=
  repeat match goal with
  | |- (_ ≫= _) <> Err Panic =>
      apply bind_no_panic;
      [|let a := fresh "x" in let H := fresh "Hx" in
        intros a H; inv_ok_head H; cbn beta iota zeta]
  | |- bail_if _ _ <> Err Panic => apply bail_no_panic
  | |- ok_or _ (Fail _) <> Err Panic => apply ok_or_no_panic
  | |- Ok _ <> Err Panic => discriminate
  | |- Err (Fail _) <> Err Panic => discriminate
  | |- idx _ _ <> Err Panic => apply idx_Panic; bool_hyps
  | |- slice_or_panic _ _ _ <> Err Panic => apply slice_Panic; bool_hyps
  end.

(** [slice::starts_with]. *)
Definition starts_with (d pre : list byte) : bool :=
  bool_decide (take (length pre) d = pre).

Definition bytes_of_string (s : string) : list byte := String.list_byte_of_string s.

Lemma bytes_of_string_inj s t : bytes_of_string s = bytes_of_string t -> s = t.
Proof.
  intros E. rewrite <- (String.string_of_list_byte_of_string s).
  rewrite <- (String.string_of_list_byte_of_string t). unfold bytes_of_string in E. by rewrite E.
Qed.

(** ** Length-prefixed fields *)

Definition lp (n : nat) (x : list byte) : list byte :=
  be_bytes n (Z.of_nat (length x)) ++ x.

Lemma app_inj_len {A} (x y r s : list A) :
  length x = length y -> x ++ r = y ++ s -> x = y /\ r = s.
Proof. intros. by apply app_inj_1. Qed.

(** The field can be read back from the front of any continuation, so a
    sequence of such fields is uniquely decodable. *)
Lemma lp_app_inj n x y r s :
  Z.of_nat (length x) < 256 ^ Z.of_nat n -> Z.of_nat (length y) < 256 ^ Z.of_nat n ->
  lp n x ++ r = lp n y ++ s -> x = y /\ r = s.
Proof.
  unfold lp. intros Hx Hy E. rewrite <- !(assoc_L (++)) in E.
  apply app_inj_len in E as [E1 E2]; [|by rewrite !length_be_bytes].
  apply be_bytes_inj in E1; [|lia..].
  apply app_inj_len in E2; [done|lia].
Qed.

Lemma lp_inj n x y :
  Z.of_nat (length x) < 256 ^ Z.of_nat n -> Z.of_nat (length y) < 256 ^ Z.of_nat n ->
  lp n x = lp n y -> x = y.
Proof.
  intros Hx Hy E. apply (lp_app_inj n x y [] []); rewrite ?app_nil_r; done.
Qed.

(** ** The [hex] and [sha2] crates

    Third-party, hence parameters; the laws are their documented behaviour. *)

Class Digest := digest : list byte -> list byte.

Class Hex := {
  hex_encode : list byte -> string;
  hex_decode : string -> option (list byte);
}.

Definition is_hex_digit (c : Ascii.ascii) : bool :=
  let n := Ascii.nat_of_ascii c in
  ((48 <=? n) && (n <=? 57) || (97 <=? n) && (n <=? 102))%nat.

Fixpoint all_hex (s : string) : bool :=
  match s with
  | EmptyString => true
  | String.String c s => is_hex_digit c && all_hex s
  end.

Class HexLaws (H : Hex) : Prop := {
  hex_decode_encode b : hex_decode (hex_encode b) = Some b;
  hex_encode_digits b : all_hex (hex_encode b) = true;
  length_hex_encode b : String.length (hex_encode b) = (2 * length b)%nat;
  length_hex_decode s b : hex_decode s = Some b -> String.length s = (2 * length b)%nat;
}.

Class DigestLaws (D : Digest) : Prop := {
  length_digest x : length (digest x) = 32%nat;
}.

(** [str::starts_with]. *)
Definition str_starts_with (s p : string) : bool := String.prefix p s.

Lemma append_cons c p s : String.String c p +:+ s = String.String c (p +:+ s).
Proof. done. Qed.

Lemma starts_with_iff s p : str_starts_with s p = true <-> exists r, s = p +:+ r.
Proof.
  unfold str_starts_with. revert s. induction p as [|c p IH]; intros s.
  - split; [by exists s|]. by destruct s.
  - destruct s as [|d s]; [split; [done|by intros [r ?]]|].
    change ((if Ascii.ascii_dec c d then String.prefix p s else false) = true <->
            exists r, String.String d s = String.String c p +:+ r).
    destruct (Ascii.ascii_dec c d) as [->|Hn].
    + rewrite IH. split; intros [r E]; exists r; [by rewrite E|].
      rewrite append_cons in E. by injection E.
    + split; [done|]. intros [r E]. rewrite append_cons in E. by injection E as -> _.
Qed.

Lemma append_prefix p s : str_starts_with (p +:+ s) p = true.
Proof. apply starts_with_iff. by exists s. Qed.

Lemma all_hex_app p s : all_hex (p +:+ s) = all_hex p && all_hex s.
Proof.
  induction p as [|c p IH]; [done|]. rewrite append_cons. cbn [all_hex].
  by rewrite IH, andb_assoc.
Qed.

(** *** Slices of strings

    [&s[..n]] and [&s[n..]] panic unless [n] is on a character boundary. *)

Fixpoint str_take (n : nat) (s : string) : string :=
  match n, s with
  | S n, String.String c s => String.String c (str_take n s)
  | _, _ => ""
  end.
Fixpoint str_drop (n : nat) (s : string) : string :=
  match n, s with
  | S n, String.String _ s => str_drop n s
  | _, _ => s
  end.

(** Not a UTF-8 continuation byte. *)
Definition starts_char (c : Ascii.ascii) : bool :=
  let n := Ascii.nat_of_ascii c in ((n <? 128) || (192 <=? n))%nat.
Definition char_boundary (n : nat) (s : string) : bool :=
  match str_drop n s with
  | String.String c _ => starts_char c
  | EmptyString => bool_decide (n <= String.length s)%nat
  end.
Definition str_split_at {E} (n : nat) (s : string) : result (fault E) (string * string) :=
  if char_boundary n s then Ok (str_take n s, str_drop n s) else Err Panic.

(** [str::strip_prefix]. *)
Definition strip_prefix (s p : string) : option string :=
  if str_starts_with s p then Some (str_drop (String.length p) s) else None.

Lemma str_take_app p s : str_take (String.length p) (p +:+ s) = p.
Proof. induction p as [|c p IH]; [by destruct s|]. rewrite append_cons. cbn. by rewrite IH. Qed.
Lemma str_drop_app p s : str_drop (String.length p) (p +:+ s) = s.
Proof. induction p as [|c p IH]; [by destruct s|]. rewrite append_cons. cbn. by rewrite IH. Qed.

Lemma strip_prefix_app p s : strip_prefix (p +:+ s) p = Some s.
Proof. unfold strip_prefix. by rewrite append_prefix, str_drop_app. Qed.

Lemma length_str_app p s : String.length (p +:+ s) = (String.length p + String.length s)%nat.
Proof. induction p as [|c p IH]; [done|]. rewrite append_cons. cbn. by rewrite IH. Qed.

Lemma is_hex_digit_starts_char c : is_hex_digit c = true -> starts_char c = true.
Proof.
  unfold is_hex_digit, starts_char. intros H. apply orb_true_iff. left.
  apply Nat.ltb_lt. apply orb_true_iff in H as [H|H]; bool_hyps; lia.
Qed.

Lemma str_split_at_app {E} n p s :
  String.length p = n -> all_hex s = true -> str_split_at (E := E) n (p +:+ s) = Ok (p, s).
Proof.
  intros <- H. unfold str_split_at, char_boundary. rewrite str_take_app, str_drop_app.
  destruct s as [|c s].
  - rewrite bool_decide_true; [done|]. rewrite length_str_app. lia.
  - cbn in H. bool_hyps. by rewrite is_hex_digit_starts_char.
Qed.

(** *** Lists keyed by strings *)

Lemma filter_nodup {A} {B} (f : A -> B) (P : A -> Prop) `{!forall a, Decision (P a)} l :
  NoDup (f <$> l) -> NoDup (f <$> filter P l).
Proof.
  induction l as [|a l IH]; [done|]. rewrite fmap_cons, NoDup_cons, filter_cons. intros [Ha Hl].
  destruct (decide (P a)); [|by apply IH]. rewrite fmap_cons. constructor; [|by apply IH].
  intros (b & E & Hb)%list_elem_of_fmap. apply list_elem_of_filter in Hb as [_ Hb]. apply Ha. rewrite E. by apply list_elem_of_fmap_2.
Qed.
