(* ===== verification/Text.v ===== *)
(** * Text of the standard library

    Strings are UTF-8 byte strings.  White space is Unicode's [White_Space]
    property, as for [str::trim] and [str::split_whitespace]. *)

From S2P Require Import Prelude.

Module Text.

(** ** Characters *)

(** The characters of a well-formed string: each byte that starts one, with
    the continuation bytes after it. *)
Fixpoint chars (s : string) : list string :=
  match s with
  | EmptyString => []
  | String.String c s =>
      match chars s with
      | String.String d e :: r =>
          if starts_char d then String.String c "" :: String.String d e :: r
          else String.String c (String.String d e) :: r
      | l => String.String c "" :: l
      end
  end.

Definition utf8 (l : list byte) : string := String.string_of_list_byte l.

(** U+0009 to U+000D, U+0020, U+0085, U+00A0, U+1680, U+2000 to U+200A, U+2028,
    U+2029, U+202F, U+205F, U+3000. *)
Definition white_space : list string := utf8 <$> [
  [Byte.x09]; [Byte.x0a]; [Byte.x0b]; [Byte.x0c]; [Byte.x0d]; [Byte.x20];
  [Byte.xc2; Byte.x85]; [Byte.xc2; Byte.xa0]; [Byte.xe1; Byte.x9a; Byte.x80];
  [Byte.xe2; Byte.x80; Byte.x80]; [Byte.xe2; Byte.x80; Byte.x81]; [Byte.xe2; Byte.x80; Byte.x82];
  [Byte.xe2; Byte.x80; Byte.x83]; [Byte.xe2; Byte.x80; Byte.x84]; [Byte.xe2; Byte.x80; Byte.x85];
  [Byte.xe2; Byte.x80; Byte.x86]; [Byte.xe2; Byte.x80; Byte.x87]; [Byte.xe2; Byte.x80; Byte.x88];
  [Byte.xe2; Byte.x80; Byte.x89]; [Byte.xe2; Byte.x80; Byte.x8a]; [Byte.xe2; Byte.x80; Byte.xa8];
  [Byte.xe2; Byte.x80; Byte.xa9]; [Byte.xe2; Byte.x80; Byte.xaf]; [Byte.xe2; Byte.x81; Byte.x9f];
  [Byte.xe3; Byte.x80; Byte.x80]].

Definition is_white (c : string) : bool := bool_decide (c ∈ white_space).

Definition join (l : list string) : string := foldr String.append "" l.

Fixpoint drop_white (l : list string) : list string :=
  match l with c :: r => if is_white c then drop_white r else l | [] => [] end.

(** [str::trim]. *)
Definition trim (s : string) : string :=
  join (reverse (drop_white (reverse (drop_white (chars s))))).

(** The fields between separators, [acc] being the field that is open. *)
Fixpoint fields (sep : string -> bool) (l : list string) (acc : string) : list string :=
  match l with
  | [] => [acc]
  | c :: l => if sep c then acc :: fields sep l "" else fields sep l (acc +:+ c)
  end.

(** [str::split_whitespace]. *)
Definition split_whitespace (s : string) : list string :=
  filter (fun f => f <> ""%string) (fields is_white (chars s) "").

Definition newline : string := String.String (Ascii.ascii_of_nat 10) "".
(** The lines that a line feed ends, and what is after the last one. *)
Fixpoint split_lines (s : string) : list string * string :=
  match s with
  | EmptyString => ([], "")
  | String.String c s =>
      let '(ls, rest) := split_lines s in
      if bool_decide (c = Ascii.ascii_of_nat 10) then ("" :: ls, rest)
      else match ls with l :: ls => (String.String c l :: ls, rest) | [] => ([], String.String c rest) end
  end.

Fixpoint strip_cr (s : string) : string :=
  match s with
  | EmptyString => ""
  | String.String c EmptyString => if bool_decide (c = Ascii.ascii_of_nat 13) then "" else s
  | String.String c r => String.String c (strip_cr r)
  end.

(** [str::lines] and [BufRead::lines]. *)
Definition lines (s : string) : list string :=
  let '(ls, rest) := split_lines s in
  (strip_cr <$> ls) ++ (if bool_decide (rest = ""%string) then [] else [rest]).

(** Text whose last line is complete. *)
Definition complete (s : string) : Prop := (split_lines s).2 = ""%string.
(** Text without a line feed, and without a carriage return at its end. *)
Definition single_line (s : string) : Prop := split_lines s = ([], s) /\ strip_cr s = s.

(** [ends_with] and [contains]. *)
Definition ends_with (s x : string) : bool :=
  (String.length x <=? String.length s)%nat &&
  bool_decide (str_drop (String.length s - String.length x) s = x).
Fixpoint contains (s x : string) : bool :=
  str_starts_with s x || match s with EmptyString => false | String.String _ s => contains s x end.

(** ** Numbers *)

Definition digit (c : Ascii.ascii) : option Z :=
  let n := Z.of_nat (Ascii.nat_of_ascii c) in
  if (48 <=? n) && (n <=? 57) then Some (n - 48) else None.

Fixpoint digits (s : string) (acc : Z) (bound : Z) : result string Z :=
  match s with
  | EmptyString => Ok acc
  | String.String c s =>
      match digit c with
      | None => Err "invalid digit found in string"%string
      | Some d =>
          let v := acc * 10 + d in
          if bound <? v then Err "number too large to fit in target type"%string else digits s v bound
      end
  end.

(** [str::parse] to an unsigned integer of maximum [bound]. *)
Definition parse_unsigned (bound : Z) (s : string) : result string Z :=
  match s with
  | EmptyString => Err "cannot parse integer from empty string"%string
  | String.String c r =>
      if bool_decide (c = Ascii.ascii_of_nat 43) then
        match r with EmptyString => Err "invalid digit found in string"%string | _ => digits r 0 bound end
      else digits s 0 bound
  end.

(** [{:o}]. *)
Fixpoint octal_digits (fuel : nat) (n : Z) (acc : string) : string :=
  match fuel with
  | O => acc
  | S fuel =>
      let acc := String.String (Ascii.ascii_of_nat (48 + Z.to_nat (n mod 8))) acc in
      if n <? 8 then acc else octal_digits fuel (n / 8) acc
  end.
Definition octal (n : Z) : string := octal_digits 22 n "".
Fixpoint zeros (n : nat) : string := match n with O => "" | S n => String.String (Ascii.ascii_of_nat 48) (zeros n) end.
(** [{:04o}]. *)
Definition octal4 (n : Z) : string := zeros (4 - String.length (octal n)) +:+ octal n.

(** ** Lemmas *)

Lemma append_assoc s t u : s +:+ (t +:+ u) = (s +:+ t) +:+ u.
Proof. induction s as [|c s IH]; [done|]. by rewrite !append_cons, IH. Qed.

Lemma join_app a b : join (a ++ b) = join a +:+ join b.
Proof.
  unfold join. induction a as [|c a IH]; [done|]. cbn [app foldr]. rewrite IH. apply append_assoc.
Qed.

Lemma join_chars s : join (chars s) = s.
Proof.
  induction s as [|c s IH]; [done|]. cbn [chars]. destruct (chars s) as [|[|d e] r]; cbn in *.
  - by rewrite <- IH.
  - by rewrite <- IH.
  - destruct (starts_char d); cbn; by rewrite <- IH.
Qed.

Example trims : trim "  ab c  " = "ab c"%string.
Proof. by vm_compute. Qed.
Example splits : split_whitespace " Uid:  1  2 " = ["Uid:"; "1"; "2"]%string.
Proof. by vm_compute. Qed.
Example octals : octal 511 = "777"%string.
Proof. by vm_compute. Qed.

(** A string of plain characters is trimmed only at its ends. *)
Lemma drop_white_none l : Forall (fun c => is_white c = false) l -> drop_white l = l.
Proof. destruct l as [|c l]; [done|]. intros [Hc _]%Forall_cons. cbn. by rewrite Hc. Qed.

Lemma trim_none s : Forall (fun c => is_white c = false) (chars s) -> trim s = s.
Proof.
  intros H. unfold trim. rewrite (drop_white_none (chars s)) by done.
  rewrite drop_white_none by (by apply Forall_reverse). by rewrite reverse_involutive, join_chars.
Qed.

Lemma split_lines_app a b :
  complete a -> split_lines (a +:+ b) = ((split_lines a).1 ++ (split_lines b).1, (split_lines b).2).
Proof.
  unfold complete. induction a as [|c a IH]; [intros _; change ("" +:+ b) with b; by destruct (split_lines b)|].
  rewrite append_cons. cbn [split_lines]. destruct (split_lines a) as [ls rest]. cbn [fst snd] in *.
  case_bool_decide; cbn [fst snd].
  - intros E. by rewrite (IH E).
  - destruct ls as [|l ls]; cbn [fst snd]; [done|]. intros E. by rewrite (IH E).
Qed.

Lemma single_line_ended l : single_line l -> split_lines (l +:+ newline) = ([l], ""%string).
Proof.
  intros [H _]. revert H. induction l as [|c l IH]; [done|]. rewrite append_cons. cbn [split_lines].
  destruct (split_lines l) as [ls rest] eqn:E. case_bool_decide; [done|]. destruct ls as [|x ls]; [|done].
  intros [= ->]. by rewrite IH.
Qed.

Lemma lines_snoc s l :
  complete s -> single_line l -> lines (s +:+ l +:+ newline) = lines s ++ [l] /\ complete (s +:+ l +:+ newline).
Proof.
  intros Hs Hl. unfold lines, complete. rewrite split_lines_app, (single_line_ended l Hl) by done. cbn [fst snd].
  split; [|done]. unfold complete in Hs. destruct (split_lines s) as [ls rest]. cbn in Hs. subst rest. cbn [fst].
  rewrite !bool_decide_true, !app_nil_r, fmap_app by done. cbn. by rewrite (proj2 Hl).
Qed.
End Text.
