(* ===== verification/RootKey.v ===== *)
(** * Root key custody ([citadel-keystore/src/root_key_provider.rs])

    The Linux file provider and the start-up gate of the local pilot.  What the
    operating system answers in one call is a record. *)

From S2P Require Import Prelude.
From S2P Require Import Text.

Module RootKey.

(** ** Key material *)

(** [windows(2)] with the wrapping difference of each pair. *)
Fixpoint strides (key : list byte) : list Z :=
  match key with
  | a :: (b :: _) as r => (Z_of_byte b - Z_of_byte a) mod 256 :: strides r
  | _ => []
  end.

(** [key[i]]; out of range is a panic, which the callers' lengths exclude. *)
Definition at_ (key : list byte) (i : nat) : byte := nth i key Byte.x00.

Definition repeats (key : list byte) (period : nat) : bool :=
  forallb (fun i => bool_decide (at_ key i = at_ key (i mod period))) (seq 0 (length key)).

Definition validate_key_material (key : list byte) : result string unit :=
  _ ← bail_if (size (list_to_set key : gset byte) <? 16)%nat "root-key material has insufficient byte diversity"%string;
  _ ← bail_if (forallb (fun s => bool_decide (s = (Z_of_byte (at_ key 1) - Z_of_byte (at_ key 0)) mod 256)) (strides key))
        "root-key material is an arithmetic byte sequence"%string;
  bail_if (existsb (repeats key) (seq 1 16)) "root-key material repeats with a short period"%string.

(** ** The operating system *)

Inductive FileType := Regular | Directory | Symlink | Other.

#[global] Instance FileType_eq_dec : EqDecision FileType.
Proof. solve_decision. Defined.

Record Metadata := mkMeta { file_type : FileType; mode : Z; uid : Z; len : Z; nlink : Z }.

(** The answers in one call. *)
Record Os := mkOs {
  (** the path's parent, with the answer of [symlink_metadata] *)
  parent : option (string * result string Metadata);
  (** [/proc/self/status] *)
  status : result string string;
  (** [open] with [O_NOFOLLOW] for reading *)
  opened : result string unit;
  fstat : result string Metadata;
  (** what [read] gives, in order, and the error that ends it *)
  content : list byte;
  read_error : option string;
  random : list byte;
  (** [open] with [create_new], and the outcome of writing and syncing *)
  created_new : result string unit;
  written : result string unit;
}.

Definition effective_uid (o : Os) : result string Z :=
  status ← map_err (fun e => "read /proc/self/status: " +:+ e) (status o);
  line ← ok_or (List.find (fun l => str_starts_with l "Uid:") (Text.lines status))
           "effective UID is unavailable"%string;
  field ← ok_or (Text.split_whitespace line !! 2%nat) "effective UID is malformed"%string;
  map_err (fun e => "effective UID is malformed: " +:+ e) (Text.parse_unsigned U32_MAX field).

Definition is_set (m bits : Z) : bool := negb (Z.land m bits =? 0).

Definition validate_parent (o : Os) : result string unit :=
  p ← ok_or (parent o) "root-key path has no parent directory"%string;
  metadata ← map_err (fun e => "inspect " +:+ p.1 +:+ ": " +:+ e) p.2;
  _ ← bail_if (negb (bool_decide (file_type metadata = Directory)) || bool_decide (file_type metadata = Symlink))
        (p.1 +:+ " must be a real directory, not a symlink");
  let mode := Z.land (mode metadata) 4095 in
  let sticky_world_writable := is_set mode 512 && is_set mode 2 in
  _ ← bail_if (is_set mode 18 && negb sticky_world_writable)
        (p.1 +:+ " is group/world writable (mode " +:+ Text.octal mode +:+ ")");
  euid ← effective_uid o;
  bail_if (negb (uid metadata =? euid) && negb (uid metadata =? 0))
    (p.1 +:+ " owner " +:+ pretty (uid metadata) +:+ " is neither effective uid " +:+ pretty euid +:+ " nor root").

Definition validate_open_file (path : string) (o : Os) : result string unit :=
  metadata ← map_err (fun e => "inspect " +:+ path +:+ ": " +:+ e) (fstat o);
  _ ← bail_if (negb (bool_decide (file_type metadata = Regular))) (path +:+ " is not a regular file");
  let mode := Z.land (mode metadata) 511 in
  _ ← bail_if (is_set mode 63 || negb (is_set mode 256))
        (path +:+ " must be owner-readable with no group/world permissions, found " +:+ Text.octal4 mode);
  euid ← effective_uid o;
  _ ← bail_if (negb (uid metadata =? euid))
        (path +:+ " must be owned by effective uid " +:+ pretty euid +:+ ", found " +:+ pretty (uid metadata));
  _ ← bail_if (negb (len metadata =? 32))
        (path +:+ " must contain exactly 32 raw bytes, found " +:+ pretty (len metadata));
  bail_if (negb (nlink metadata =? 1))
    (path +:+ " must have exactly one hard link, found " +:+ pretty (nlink metadata)).

(** [read_exact] of 32 bytes. *)
Definition read_exact (o : Os) : result string (list byte) :=
  if (32 <=? length (content o))%nat then Ok (take 32 (content o))
  else Err (default "failed to fill whole buffer"%string (read_error o)).

(** One more [read]: the number of bytes. *)
Definition read_trailing (o : Os) : result string nat :=
  if (32 <? length (content o))%nat then Ok 1%nat
  else match read_error o with Some e => Err e | None => Ok 0%nat end.

Definition load_root_key (path : string) (o : Os) : result string (list byte) :=
  _ ← validate_parent o;
  _ ← map_err (fun e => "open " +:+ path +:+ ": " +:+ e) (opened o);
  _ ← validate_open_file path o;
  key ← map_err (fun e => "read " +:+ path +:+ ": " +:+ e) (read_exact o);
  n ← map_err (fun e => "read " +:+ path +:+ ": " +:+ e) (read_trailing o);
  _ ← bail_if (negb (bool_decide (n = 0%nat))) (path +:+ " must contain exactly 32 raw bytes");
  _ ← validate_key_material key;
  Ok key.

(** The provider is its path. *)
Definition open (path : string) (o : Os) : result string string :=
  _ ← load_root_key path o; Ok path.

(** The second record answers the calls made by [open]. *)
Definition create (path : string) (o o' : Os) : result string string :=
  _ ← validate_parent o;
  let key := take 32 (random o) in
  _ ← map_err (fun e => "create " +:+ path +:+ ": " +:+ e) (created_new o);
  _ ← map_err (fun e => "write " +:+ path +:+ ": " +:+ e) (written o);
  open path o'.

Record RootKeyCapabilities := mkCapabilities {
  provider : string;
  hardware_backed : bool;
  non_exportable : bool;
  owner_only_permissions_enforced : bool;
  symlink_rejected : bool;
}.

Definition provider_name : string := "linux-file-v1".
Definition capabilities : RootKeyCapabilities := mkCapabilities provider_name false false true true.

(** ** The local pilot *)

Record LocalPilotConfig := mkPilot { root_key_file : string; replay_store : string }.

Definition forbidden_variables : list string :=
  ["CITADEL_MASTER_KEY"; "CITADEL_ALLOW_PLAINTEXT_KEYS"; "CITADEL_ALLOW_FLAT_DEKS"; "CITADEL_API_KEY"].

(** [collect()] into a [HashMap]: the last value of a name counts. *)
Definition collect (pairs : list (string * string)) : gmap string string :=
  foldl (fun m p => <[ p.1 := p.2 ]> m) ∅ pairs.

Definition validate_pairs (pairs : list (string * string)) : result string LocalPilotConfig :=
  let values := collect pairs in
  _ ← bail_if (negb (bool_decide (values !! "CITADEL_PROFILE"%string = Some "local-pilot"%string)))
        "local pilot requires CITADEL_PROFILE=local-pilot"%string;
  _ ← match List.find (fun f => bool_decide (is_Some (values !! f))) forbidden_variables with
      | Some f => Err (f +:+ " is forbidden in local-pilot mode")
      | None => Ok ()
      end;
  _ ← bail_if (bool_decide (values !! "CITADEL_ENV"%string = Some "development"%string))
        "CITADEL_ENV=development is forbidden in local-pilot mode"%string;
  root_key_file ← ok_or (v ← values !! "CITADEL_ROOT_KEY_FILE"%string;
                         if bool_decide (v = ""%string) then None else Some v)
                    "CITADEL_ROOT_KEY_FILE is required"%string;
  replay_store ← ok_or (v ← values !! "CITADEL_REPLAY_STORE"%string;
                        if bool_decide (v = "file"%string \/ v = "redis"%string) then Some v else None)
                   "local pilot requires CITADEL_REPLAY_STORE=file or redis"%string;
  Ok (mkPilot root_key_file replay_store).

(** ** Properties *)

Lemma is_set_bit m i : 0 <= i -> is_set m (2 ^ i) = Z.testbit m i.
Proof.
  intros Hi. unfold is_set. destruct (Z.testbit m i) eqn:E.
  - apply negb_true_iff, Z.eqb_neq. intros H. apply (f_equal (fun z => Z.testbit z i)) in H.
    rewrite Z.land_spec, Z.pow2_bits_true, E, Z.bits_0 in H by done. done.
  - apply negb_false_iff, Z.eqb_eq. apply Z.bits_inj'. intros j Hj. rewrite Z.land_spec, Z.bits_0.
    destruct (decide (i = j)) as [<-|Hn]; [by rewrite E|]. by rewrite Z.pow2_bits_false, andb_false_r.
Qed.

Lemma strides_spec key d :
  forallb (fun s => bool_decide (s = d)) (strides key) = true <->
  forall i, (S i < length key)%nat -> (Z_of_byte (at_ key (S i)) - Z_of_byte (at_ key i)) mod 256 = d.
Proof.
  induction key as [|a [|b key] IH].
  - split; [|done]. intros _ i Hi. cbn in Hi. lia.
  - split; [|done]. intros _ i Hi. cbn in Hi. lia.
  - cbn [strides forallb]. rewrite andb_true_iff, bool_decide_eq_true, IH. split.
    + intros [H1 H2] [|i] Hi; [done|]. apply (H2 i). cbn in *. lia.
    + intros H. split; [by apply (H 0%nat); cbn; lia|]. intros i Hi. apply (H (S i)). cbn in *. lia.
Qed.

Lemma repeats_spec key p :
  repeats key p = true <-> forall i, (i < length key)%nat -> at_ key i = at_ key (i mod p).
Proof.
  unfold repeats. rewrite forallb_forall. split.
  - intros H i Hi. specialize (H i). rewrite bool_decide_eq_true in H. apply H, in_seq. lia.
  - intros H i Hi%in_seq. apply bool_decide_eq_true, H. lia.
Qed.

(** Weak keys: what is refused. *)
Definition arithmetic (key : list byte) : Prop :=
  exists d, forall i, (S i < length key)%nat -> (Z_of_byte (at_ key (S i)) - Z_of_byte (at_ key i)) mod 256 = d.
Definition periodic (key : list byte) : Prop :=
  exists p, (1 <= p <= 16)%nat /\ forall i, (i < length key)%nat -> at_ key i = at_ key (i mod p).

Theorem validate_key_material_iff key :
  (2 <= length key)%nat ->
  validate_key_material key = Ok () <->
  (16 <= size (list_to_set key : gset byte))%nat /\ ~ arithmetic key /\ ~ periodic key.
Proof.
  intros Hl. unfold validate_key_material.
  set (d0 := (Z_of_byte (at_ key 1) - Z_of_byte (at_ key 0)) mod 256).
  assert (Ha : forallb (fun s => bool_decide (s = d0)) (strides key) = true <-> arithmetic key).
  { rewrite strides_spec. split; [by exists d0|]. intros [d H] i Hi. rewrite (H i Hi). symmetry. by apply (H 0%nat). }
  assert (Hp : existsb (repeats key) (seq 1 16) = true <-> periodic key).
  { rewrite existsb_exists. split.
    - intros (p & Hp%in_seq & Hr). exists p. split; [lia|]. by apply repeats_spec.
    - intros (p & Hp & Hr). exists p. split; [apply in_seq; lia|]. by apply repeats_spec. }
  rewrite <- Ha, <- Hp, !not_true_iff_false.
  destruct (existsb (repeats key) (seq 1 16)), (forallb _ _), (size _ <? 16)%nat eqn:E1; cbn;
    rewrite ?Nat.ltb_lt, ?Nat.ltb_ge in E1; (split; [intros H|intros (H1 & H2 & H3)]); try done; lia.
Qed.

(** The environment the pilot starts in. *)
Theorem validate_pairs_iff pairs c :
  let env := collect pairs in
  validate_pairs pairs = Ok c <->
  env !! "CITADEL_PROFILE"%string = Some "local-pilot"%string /\
  (forall f, f ∈ forbidden_variables -> env !! f = None) /\
  env !! "CITADEL_ENV"%string <> Some "development"%string /\
  root_key_file c <> ""%string /\ env !! "CITADEL_ROOT_KEY_FILE"%string = Some (root_key_file c) /\
  (replay_store c = "file"%string \/ replay_store c = "redis"%string) /\
  env !! "CITADEL_REPLAY_STORE"%string = Some (replay_store c).
Proof.
  cbn zeta. unfold validate_pairs. generalize (collect pairs) as env. intros env.
  destruct (bool_decide (env !! "CITADEL_PROFILE"%string = _)) eqn:E1; bool_hyps; cbn -[List.find]; [|by split; [|intros (? & _)]].
  destruct (List.find _ forbidden_variables) as [f|] eqn:E2; cbn.
  { apply find_some in E2 as [Hf E2]. bool_hyps. split; [done|]. intros (_ & H & _).
    rewrite (H f (proj2 (list_elem_of_In _ _) Hf)) in E2. by destruct E2. }
  assert (Hno : forall f, f ∈ forbidden_variables -> env !! f = None).
  { intros f Hf. apply eq_None_not_Some. apply list_elem_of_In in Hf. pose proof (find_none _ _ E2 f Hf) as H.
    cbn beta in H. by bool_hyps. }
  destruct (bool_decide (env !! "CITADEL_ENV"%string = _)) eqn:E3; bool_hyps; cbn; [by split; [|intros (_ & _ & ? & _)]|].
  destruct (env !! "CITADEL_ROOT_KEY_FILE"%string) as [p|]; cbn; [|by split; [|intros (_ & _ & _ & _ & ? & _)]].
  destruct (bool_decide (p = _)) eqn:E4; bool_hyps; cbn.
  { split; [done|]. intros (_ & _ & _ & ? & [= ?] & _). congruence. }
  destruct (env !! "CITADEL_REPLAY_STORE"%string) as [r|]; cbn; [|by split; [|intros (_ & _ & _ & _ & _ & _ & ?)]].
  destruct (bool_decide (r = _ \/ _)) eqn:E5; bool_hyps; cbn.
  2: { split; [done|]. intros (_ & _ & _ & _ & _ & ? & [= ->]). done. }
  split; [by intros [= <-]|]. intros (_ & _ & _ & _ & [= ->] & _ & [= ->]). by destruct c.
Qed.

(** A key that is loaded comes from a file only its owner can use. *)
Definition private_file (m : Metadata) (euid : Z) : Prop :=
  file_type m = Regular /\ (forall i, 0 <= i < 6 -> Z.testbit (mode m) i = false) /\
  Z.testbit (mode m) 8 = true /\ uid m = euid /\ len m = 32 /\ nlink m = 1.

(** Writable by others at most where the sticky bit keeps them from replacing files. *)
Definition guarded_directory (m : Metadata) (euid : Z) : Prop :=
  file_type m = Directory /\ (uid m = euid \/ uid m = 0) /\
  (Z.testbit (mode m) 1 = false /\ Z.testbit (mode m) 4 = false \/
   Z.testbit (mode m) 9 = true /\ Z.testbit (mode m) 1 = true).

Lemma mode_bits m n i : 0 <= i < n -> Z.testbit (Z.land m (Z.ones n)) i = Z.testbit m i.
Proof. intros Hi. by rewrite Z.land_spec, Z.ones_spec_low, andb_true_r by lia. Qed.

(** A mask of several bits is clear exactly when each bit is. *)
Lemma is_set_or m a b : is_set m (Z.lor a b) = is_set m a || is_set m b.
Proof.
  unfold is_set. rewrite Z.land_lor_distr_r. destruct (Z.land m a =? 0) eqn:E1, (Z.land m b =? 0) eqn:E2; cbn;
    rewrite ?Z.eqb_eq, ?Z.eqb_neq in *.
  - by rewrite E1, E2.
  - apply negb_true_iff, Z.eqb_neq. rewrite Z.lor_eq_0_iff. tauto.
  - apply negb_true_iff, Z.eqb_neq. rewrite Z.lor_eq_0_iff. tauto.
  - apply negb_true_iff, Z.eqb_neq. rewrite Z.lor_eq_0_iff. tauto.
Qed.

Lemma others_clear m :
  is_set (Z.land m 511) 63 = false <-> forall i, 0 <= i < 6 -> Z.testbit m i = false.
Proof.
  change 63 with (Z.lor (2 ^ 0) (Z.lor (2 ^ 1) (Z.lor (2 ^ 2) (Z.lor (2 ^ 3) (Z.lor (2 ^ 4) (2 ^ 5)))))).
  change 511 with (Z.ones 9). rewrite !is_set_or, !is_set_bit, !mode_bits, !orb_false_iff by lia. split.
  - intros H i Hi. assert (i = 0 \/ i = 1 \/ i = 2 \/ i = 3 \/ i = 4 \/ i = 5) by lia. naive_solver.
  - intros H. split_and!; apply H; lia.
Qed.

Lemma guard_bits a b c :
  ((a || b) && negb (c && a))%bool = false <-> a = false /\ b = false \/ c = true /\ a = true.
Proof. destruct a, b, c; cbn; split; intros H; try destruct H as [[]|[]]; try done; auto. Qed.

Lemma directory_guarded m euid :
  (negb (bool_decide (file_type m = Directory)) || bool_decide (file_type m = Symlink) = false /\
   is_set (Z.land (mode m) 4095) 18 && negb (is_set (Z.land (mode m) 4095) 512 && is_set (Z.land (mode m) 4095) 2) = false /\
   negb (uid m =? euid) && negb (uid m =? 0) = false) <-> guarded_directory m euid.
Proof.
  change 18 with (Z.lor (2 ^ 1) (2 ^ 4)). change 512 with (2 ^ 9). change (is_set _ 2) with (is_set (Z.land (mode m) 4095) (2 ^ 1)).
  change 4095 with (Z.ones 12). rewrite is_set_or, !is_set_bit, !mode_bits, guard_bits by lia. unfold guarded_directory.
  rewrite orb_false_iff, negb_false_iff, bool_decide_eq_true, bool_decide_eq_false, <- negb_orb, negb_false_iff, orb_true_iff, !Z.eqb_eq.
  split; [intros ((E & _) & ? & ?); by split_and!|]. intros (E & ? & ?). rewrite E. by split_and!.
Qed.

Lemma validate_parent_Ok o :
  validate_parent o = Ok () <->
  exists p m euid, parent o = Some (p, Ok m) /\ effective_uid o = Ok euid /\ guarded_directory m euid.
Proof.
  unfold validate_parent. split.
  - intros H. inv_ok H. destruct x as [p r]. cbn [snd] in *. subst r. exists p, x0, x3. split_and!; [done..|].
    by apply directory_guarded.
  - intros (p & m & euid & -> & E & (H1 & H2 & H3)%directory_guarded). cbn -[Z.land is_set].
    rewrite H1. cbn -[Z.land is_set]. rewrite H2. cbn -[Z.land is_set]. rewrite E. cbn. by rewrite H3.
Qed.

Lemma file_private m euid :
  (negb (bool_decide (file_type m = Regular)) = false /\
   is_set (Z.land (mode m) 511) 63 || negb (is_set (Z.land (mode m) 511) 256) = false /\
   negb (uid m =? euid) = false /\ negb (len m =? 32) = false /\ negb (nlink m =? 1) = false) <-> private_file m euid.
Proof.
  unfold private_file. rewrite orb_false_iff, others_clear. change 256 with (2 ^ 8). change 511 with (Z.ones 9).
  rewrite is_set_bit, mode_bits, !negb_false_iff, bool_decide_eq_true, !Z.eqb_eq by lia.
  split; [intros (? & (? & ?) & ? & ? & ?)|intros (? & ? & ? & ? & ? & ?)]; by split_and!.
Qed.

Lemma validate_open_file_Ok path o :
  validate_open_file path o = Ok () <->
  exists m euid, fstat o = Ok m /\ effective_uid o = Ok euid /\ private_file m euid.
Proof.
  unfold validate_open_file. split.
  - intros H. inv_ok H. exists x, x2. split_and!; [done..|]. by apply file_private.
  - intros (m & euid & -> & E & (H1 & H2 & H3 & H4 & H5)%file_private). cbn -[Z.land is_set].
    rewrite H1. cbn -[Z.land is_set]. rewrite H2. cbn -[Z.land is_set]. rewrite E. cbn. rewrite H3. cbn. rewrite H4. cbn.
    by rewrite H5.
Qed.

(** The root key is loaded exactly when the directory is guarded, the file is a
    regular file of the effective user that no one else can use, with one link and 32
    bytes, and its content is neither short of distinct bytes nor arithmetic nor
    periodic; the key is that content. *)
Theorem load_root_key_iff path o key :
  load_root_key path o = Ok key <->
  (exists d md mf euid, parent o = Some (d, Ok md) /\ opened o = Ok () /\ fstat o = Ok mf /\
     effective_uid o = Ok euid /\ guarded_directory md euid /\ private_file mf euid) /\
  content o = key /\ read_error o = None /\ length key = 32%nat /\
  (16 <= size (list_to_set key : gset byte))%nat /\ ~ arithmetic key /\ ~ periodic key.
Proof.
  unfold load_root_key, read_exact, read_trailing. split.
  - intros H. inv_ok H. destruct (32 <=? length (content o))%nat eqn:E1; [|done]. injection Hx2 as Hx2.
    bool_hyps. subst x3. destruct (32 <? length (content o))%nat eqn:E2; [done|].
    destruct (read_error o) eqn:E3; [done|]. apply Nat.ltb_ge in E2.
    destruct x, x0, x1, x4, x5. apply validate_parent_Ok in Hx as (d & md & eu & ? & ? & ?).
    apply validate_open_file_Ok in Hx1 as (mf & eu' & ? & ? & ?). assert (eu' = eu) as -> by congruence.
    rewrite take_ge in Hx2 by lia. assert (length key = 32)%nat by (subst; lia).
    apply validate_key_material_iff in Hx5 as (? & ? & ?); [|lia]. split_and!; try done. by exists d, md, mf, eu.
  - intros ((d & md & mf & eu & Hp & Ho & Hf & He & Hg & Hm) & Hc & Hr & Hl & Hk).
    rewrite (proj2 (validate_parent_Ok o)) by (by exists d, md, eu). cbn -[take]. rewrite Ho. cbn -[take].
    rewrite (proj2 (validate_open_file_Ok path o)) by (by exists mf, eu). cbn -[take].
    rewrite Hc, Hr, Hl, take_ge by lia. cbn. by rewrite (proj2 (validate_key_material_iff key ltac:(lia)) Hk).
Qed.
End RootKey.
