(* ===== verification/Anchors.v ===== *)
(** * Anchors of the audit log ([citadel-keystore/src/audit_witness.rs])

    The witness interface and its file and no-op implementations.  The state of
    the file witness is the text of its file ([None] before it is created); the
    JSON serializer is a parameter. *)

From S2P Require Import Prelude.
From S2P Require Import Text.

Module Anchors.

Record WitnessReceipt := mkReceipt {
  entry_number : Z;
  hash_hex : string;
  timestamp : string;
  receipt_witness_id : string;
  proof : string;
}.

Class ReceiptJson := {
  to_string : WitnessReceipt -> result string string;
  from_str : string -> result string WitnessReceipt;
}.
(** A compact serialization is one line, and is read back. *)
Class ReceiptJsonLaws (J : ReceiptJson) : Prop := {
  from_to r s : to_string r = Ok s -> from_str s = Ok r;
  to_line r s : to_string r = Ok s -> Text.single_line s;
}.

(** [AuditWitness]: calls with their environment. *)
Class AuditWitness := {
  aw_state : Type;
  aw_env : Type;
  publish_hash : aw_env -> Z -> list byte -> aw_state -> aw_state * result string WitnessReceipt;
  verify_hash : aw_env -> Z -> list byte -> aw_state -> result string bool;
  get_receipt : aw_env -> Z -> aw_state -> result string WitnessReceipt;
  witness_id : string;
}.

Section witness.
Context {HX : Hex} {RJ : ReceiptJson}.

(** The clock, and the outcome of opening, writing (with the bytes that got
    into the file when it fails) and syncing. *)
Record Env := mkEnv {
  now_rfc3339 : string;
  open_error : option string;
  write_error : option (nat * string);
  sync_error : option string;
}.

(** A file that is not there is created empty. *)
Definition text_of (file : option string) : string := match file with Some t => t | None => "" end.

Definition file_publish (receipts_path : string) (e : Env) (n : Z) (hash : list byte) (file : option string) :
    option string * result string WitnessReceipt :=
  let receipt := mkReceipt n (hex_encode hash) (now_rfc3339 e) ("file:" +:+ receipts_path) ("fsync-" +:+ pretty n) in
  match open_error e with
  | Some m => (file, Err ("open receipts file: " +:+ m))
  | None =>
      let text := text_of file in
      match to_string receipt with
      | Err m => (Some text, Err ("serialize receipt: " +:+ m))
      | Ok s =>
          let line := s +:+ Text.newline in
          match write_error e with
          | Some (k, m) => (Some (text +:+ str_take k line), Err ("write receipt: " +:+ m))
          | None =>
              (Some (text +:+ line),
               match sync_error e with Some m => Err ("fsync receipts: " +:+ m) | None => Ok receipt end)
          end
      end
  end.

Fixpoint find_receipt (n : Z) (ls : list string) : result string WitnessReceipt :=
  match ls with
  | [] => Err ("receipt not found for entry " +:+ pretty n)
  | l :: ls =>
      receipt ← map_err (fun m => "parse receipt: " +:+ m) (from_str l);
      if entry_number receipt =? n then Ok receipt else find_receipt n ls
  end.

Definition file_get (e : Env) (n : Z) (file : option string) : result string WitnessReceipt :=
  match open_error e, file with
  | Some m, _ => Err ("open receipts file: " +:+ m)
  | None, None => Err "open receipts file: No such file or directory (os error 2)"%string
  | None, Some text => find_receipt n (Text.lines text)
  end.

Definition file_verify (e : Env) (n : Z) (hash : list byte) (file : option string) : result string bool :=
  receipt ← file_get e n file;
  Ok (bool_decide (hash_hex receipt = hex_encode hash)).

Definition FileWitness (receipts_path : string) : AuditWitness := {|
  aw_state := option string;
  aw_env := Env;
  publish_hash := file_publish receipts_path;
  verify_hash := file_verify;
  get_receipt := file_get;
  witness_id := "file-witness";
|}.

Definition NoOpWitness : AuditWitness := {|
  aw_state := unit;
  aw_env := Env;
  publish_hash e n hash s := (s, Ok (mkReceipt n (hex_encode hash) (now_rfc3339 e) "none" "disabled"));
  verify_hash _ _ _ _ := Ok true;
  get_receipt _ _ _ := Err "witness disabled"%string;
  witness_id := "none";
|}.

(** The variables, and the outcome of creating the file's directory. *)
Definition create_witness_from_env (witness_type path : option string) (create_dir : result string unit) :
    result string AuditWitness :=
  let t := default "none"%string witness_type in
  if bool_decide (t = "none"%string \/ t = ""%string) then Ok NoOpWitness
  else if bool_decide (t = "file"%string) then
    _ ← map_err (fun m => "create witness dir: " +:+ m) create_dir;
    Ok (FileWitness (default "./citadel-data/audit-receipts.jsonl"%string path))
  else Err ("unknown witness type '" +:+ t +:+ "' (supported: none, file)").

(** ** Properties *)

Context {HL : HexLaws _} {JL : ReceiptJsonLaws _}.

Lemma publish_Ok p e n h f f' r :
  file_publish p e n h f = (f', Ok r) ->
  entry_number r = n /\ hash_hex r = hex_encode h /\
  exists s, to_string r = Ok s /\ f' = Some (text_of f +:+ s +:+ Text.newline).
Proof.
  unfold file_publish. destruct (open_error e); [done|]. destruct (to_string _) as [s|] eqn:Es; [|done].
  destruct (write_error e) as [[? ?]|]; [done|]. destruct (sync_error e); [done|]. intros [= <- <-].
  split_and!; [done..|]. by exists s.
Qed.

Lemma find_app n ls l r :
  find_receipt n ls = Ok r -> find_receipt n (ls ++ l) = Ok r.
Proof.
  induction ls as [|x ls IH]; [done|]. cbn. destruct (from_str x) as [q|]; [|done]. cbn.
  by destruct (entry_number q =? n).
Qed.

(** The lines of a file that only successful publications wrote. *)
Definition readable (file : option string) : Prop :=
  Text.complete (text_of file) /\ Forall (fun l => is_ok (from_str l) = true) (Text.lines (text_of file)).

Lemma publish_lines p e n h f f' r :
  Text.complete (text_of f) -> file_publish p e n h f = (f', Ok r) ->
  exists s, from_str s = Ok r /\ Text.lines (text_of f') = Text.lines (text_of f) ++ [s] /\ Text.complete (text_of f').
Proof.
  intros Hc (E1 & E2 & s & Hs & ->)%publish_Ok. exists s. split; [by apply from_to|]. cbn [text_of].
  apply Text.lines_snoc; [done|]. by eapply to_line.
Qed.

Lemma readable_publish p e n h f f' r :
  readable f -> file_publish p e n h f = (f', Ok r) -> readable f'.
Proof.
  intros [Hc Hl] H. destruct (publish_lines _ _ _ _ _ _ _ Hc H) as (s & Hs & El & Hc').
  split; [done|]. rewrite El. apply Forall_app. split; [done|]. constructor; [by rewrite Hs|constructor].
Qed.

(** What was published stays what it is: no later publication changes the receipt of an entry
    that has one, or the verification of its hash. *)
Theorem receipts_are_final p e n h f f' r n0 h0 e0 r0 :
  readable f -> file_publish p e n h f = (f', Ok r) -> file_get e0 n0 f = Ok r0 ->
  file_get e0 n0 f' = Ok r0 /\ file_verify e0 n0 h0 f' = file_verify e0 n0 h0 f.
Proof.
  intros [Hc _] H Hg. destruct (publish_lines _ _ _ _ _ _ _ Hc H) as (s & _ & El & _).
  pose proof H as (_ & _ & s' & _ & ->)%publish_Ok.
  assert (G : file_get e0 n0 (Some (text_of f +:+ s' +:+ Text.newline)) = Ok r0).
  { unfold file_get in *. destruct (open_error e0); [done|]. destruct f as [t|]; [|done].
    change (text_of (Some t)) with t in *. cbn [text_of] in El. rewrite El. by apply find_app. }
  split; [done|]. unfold file_verify. by rewrite G, Hg.
Qed.

Lemma find_first n ls s r :
  Forall (fun l => is_ok (from_str l) = true) ls -> from_str s = Ok r -> entry_number r = n ->
  (forall r0, find_receipt n ls <> Ok r0) -> find_receipt n (ls ++ [s]) = Ok r.
Proof.
  intros Hl Hs Hn. induction Hl as [|x ls Hx _ IH]; cbn.
  - intros _. rewrite Hs. cbn. by rewrite Hn, Z.eqb_refl.
  - destruct (from_str x) as [q|]; [|done]. cbn. destruct (entry_number q =? n) eqn:E; [|done].
    intros H0. by destruct (H0 q).
Qed.

(** A published hash verifies, and no other, if the entry had no receipt before. If it had one,
    as after a restart of the log, whose numbers begin again, the older receipt decides. *)
Theorem verify_published p e n h f f' r e0 h0 :
  readable f -> file_publish p e n h f = (f', Ok r) -> open_error e0 = None ->
  file_verify e0 n h0 f' =
    match find_receipt n (Text.lines (text_of f)) with
    | Ok r0 => Ok (bool_decide (hash_hex r0 = hex_encode h0))
    | Err _ => Ok (bool_decide (h0 = h))
    end.
Proof.
  intros [Hc Hl] H He. destruct (publish_lines _ _ _ _ _ _ _ Hc H) as (s & Hs & El & _).
  pose proof H as (En & Eh & s' & _ & ->)%publish_Ok. cbn [text_of] in El.
  unfold file_verify, file_get. rewrite He, El.
  destruct (find_receipt n (Text.lines (text_of f))) as [r0|m] eqn:Ef.
  - by rewrite (find_app _ _ _ _ Ef).
  - rewrite (find_first n _ s r Hl Hs En) by (intros r0; by rewrite Ef). cbn. rewrite Eh. f_equal.
    apply bool_decide_ext. split; [|by intros ->].
    intros E. apply (f_equal hex_decode) in E. rewrite !hex_decode_encode in E. congruence.
Qed.

Lemma find_torn n ls x l :
  from_str x = Err l -> (forall r0, find_receipt n ls <> Ok r0) -> forall r, find_receipt n (ls ++ [x]) <> Ok r.
Proof.
  intros Hx. induction ls as [|y ls IH]; cbn; intros H0 r; [by rewrite Hx|].
  destruct (from_str y) as [q|]; [|done]. cbn in *. by destruct (entry_number q =? n); [destruct (H0 q)|apply IH].
Qed.
End witness.
End Anchors.
