(* ===== verification/Wire.v ===== *)
(** * The v1 envelope framing and the stream header ([citadel-envelope/src/wire.rs])

    Suite table, the structured v1 codec ([decode_wire_raw], [check_v1_suites],
    [decode_wire], [encode_wire]) and the 1126-byte stream header.  Slices of
    the source become [slice_or_panic], so that the absence of out-of-range
    accesses is a theorem about these definitions. *)

From S2P Require Import Prelude.

(** [DecryptionError] and [EncodingError] of [error.rs] are unit structs. *)
Inductive DecryptionError : Set := mkDecryptionError.
Inductive EncodingError : Set := mkEncodingError.

#[export] Instance DecryptionError_eq_dec : EqDecision DecryptionError.
Proof. solve_decision. Defined.
#[export] Instance EncodingError_eq_dec : EqDecision EncodingError.
Proof. solve_decision. Defined.

Notation decode_result := (result (fault DecryptionError)).
Notation reject := (Fail mkDecryptionError).

Module Wire.

(** ** Constants *)

Definition PROTOCOL_ID : list byte := bytes_of_string "citadel-env-v1".
Definition PROTOCOL_VERSION : byte := Byte.x01.
Definition SUITE_KEM_HYBRID_X25519_MLKEM768 : byte := Byte.xa3.
Definition SUITE_AEAD_AES256GCM : byte := Byte.xb1.
Definition SUITE_KEM_HYBRID_P384_MLKEM1024 : byte := Byte.xa4.
Definition SUITE_KEM_RESERVED_X25519_MLKEM1024 : byte := Byte.xa5.
Definition SUITE_KEM_RESERVED_PURE_MLKEM1024 : byte := Byte.xa6.
Definition FLAGS_V1 : byte := Byte.x00.

Definition X25519_KEY_BYTES : Z := 32.
Definition MLKEM_CIPHERTEXT_BYTES : Z := 1088.
Definition MLKEM_PUBLIC_KEY_BYTES : Z := 1184.
Definition MLKEM_SECRET_KEY_BYTES : Z := 2400.
Definition KEM_CIPHERTEXT_BYTES : Z := X25519_KEY_BYTES + MLKEM_CIPHERTEXT_BYTES.
Definition KEM_PUBLIC_KEY_BYTES : Z := X25519_KEY_BYTES + MLKEM_PUBLIC_KEY_BYTES.
Definition KEM_SECRET_KEY_BYTES : Z := X25519_KEY_BYTES + MLKEM_SECRET_KEY_BYTES.
Definition NONCE_BYTES : Z := 12.
Definition AEAD_TAG_BYTES : Z := 16.
Definition HEADER_BYTES : Z := 1 + 1 + 1 + 1 + 2.
Definition MIN_CIPHERTEXT_BYTES : Z :=
  HEADER_BYTES + KEM_CIPHERTEXT_BYTES + NONCE_BYTES + AEAD_TAG_BYTES.
Definition NONCE_OFFSET : Z := HEADER_BYTES + KEM_CIPHERTEXT_BYTES.
Definition AEAD_CT_OFFSET : Z := NONCE_OFFSET + NONCE_BYTES.

Definition STREAM_VERSION : byte := Byte.x02.
Definition FLAGS_STREAM : byte := Byte.x01.
Definition STREAM_HEADER_BYTES : Z := HEADER_BYTES + KEM_CIPHERTEXT_BYTES.
Definition STREAM_CHUNK_HEADER_BYTES : Z := 4 + 1 + NONCE_BYTES.
Definition STREAM_MIN_CHUNK_BYTES : Z := STREAM_CHUNK_HEADER_BYTES + AEAD_TAG_BYTES.

(** ** Suite table *)

Record SuiteParams := {
  suite_kem : byte;
  kem_ciphertext_bytes : Z;
  kem_public_key_bytes : Z;
  kem_secret_key_bytes : Z;
}.

#[export] Instance SuiteParams_eq_dec : EqDecision SuiteParams.
Proof. solve_decision. Defined.

Definition SUITE_TABLE : list SuiteParams := [
  {| suite_kem := SUITE_KEM_HYBRID_X25519_MLKEM768;
     kem_ciphertext_bytes := KEM_CIPHERTEXT_BYTES;
     kem_public_key_bytes := KEM_PUBLIC_KEY_BYTES;
     kem_secret_key_bytes := KEM_SECRET_KEY_BYTES |};
  {| suite_kem := SUITE_KEM_HYBRID_P384_MLKEM1024;
     kem_ciphertext_bytes := 1665;
     kem_public_key_bytes := 1665;
     kem_secret_key_bytes := 112 |} ].

(** The [while] loop over the table, as a recursion over its rows. *)
Fixpoint suite_lookup (table : list SuiteParams) (b : byte) : option SuiteParams :=
  match table with
  | [] => None
  | p :: rest => if bool_decide (suite_kem p = b) then Some p else suite_lookup rest b
  end.
Definition suite_params (b : byte) : option SuiteParams := suite_lookup SUITE_TABLE b.

Definition min_kem_ciphertext_bytes : Z :=
  foldl (fun m p => if kem_ciphertext_bytes p <? m then kem_ciphertext_bytes p else m)
    U64_MAX SUITE_TABLE.
Definition MIN_KEM_CIPHERTEXT_BYTES : Z := min_kem_ciphertext_bytes.

(** ** The v1 codec *)

Record WireComponents := {
  version : byte;
  wc_suite_kem : byte;
  wc_suite_aead : byte;
  flags : byte;
  kem_ct_len : Z;
  kem_ciphertext : list byte;
  nonce : list byte;
  aead_ciphertext : list byte;
}.

#[export] Instance WireComponents_eq_dec : EqDecision WireComponents.
Proof. solve_decision. Defined.

Definition check_v1_suites (c : WireComponents) : decode_result unit :=
  bail_if (negb (bool_decide (wc_suite_kem c = SUITE_KEM_HYBRID_X25519_MLKEM768))
           || negb (bool_decide (wc_suite_aead c = SUITE_AEAD_AES256GCM))) reject.

Definition decode_wire_raw (data : list byte) : decode_result WireComponents :=
  _ ← bail_if (len data <? MIN_CIPHERTEXT_BYTES) reject;
  version ← idx data 0;
  suite_kem ← idx data 1;
  suite_aead ← idx data 2;
  flags ← idx data 3;
  b4 ← idx data 4;
  b5 ← idx data 5;
  let kem_ct_len := be_val [b4; b5] in
  _ ← bail_if (negb (bool_decide (version = PROTOCOL_VERSION))) reject;
  _ ← bail_if (negb (bool_decide (flags = FLAGS_V1))) reject;
  _ ← bail_if (negb (kem_ct_len =? KEM_CIPHERTEXT_BYTES)) reject;
  let kem_start := HEADER_BYTES in
  let kem_end := kem_start + KEM_CIPHERTEXT_BYTES in
  let nonce_start := kem_end in
  let nonce_end := nonce_start + NONCE_BYTES in
  kem_ciphertext ← slice_or_panic data kem_start kem_end;
  nonce ← slice_or_panic data nonce_start nonce_end;
  aead_ciphertext ← slice_or_panic data nonce_end (len data);
  _ ← bail_if (len aead_ciphertext <? AEAD_TAG_BYTES) reject;
  Ok {| version := version; wc_suite_kem := suite_kem; wc_suite_aead := suite_aead;
        flags := flags; kem_ct_len := kem_ct_len; kem_ciphertext := kem_ciphertext;
        nonce := nonce; aead_ciphertext := aead_ciphertext |}.

Definition decode_wire (data : list byte) : decode_result WireComponents :=
  c ← decode_wire_raw data;
  _ ← check_v1_suites c;
  Ok c.

(** The nonce is a [[u8; 12]] in the source: its length is part of its type. *)
Definition encode_wire (kem_ct nonce aead_ct : list byte) : result EncodingError (list byte) :=
  _ ← bail_if (negb (len kem_ct =? KEM_CIPHERTEXT_BYTES)) mkEncodingError;
  _ ← bail_if (len aead_ct <? AEAD_TAG_BYTES) mkEncodingError;
  Ok ([PROTOCOL_VERSION; SUITE_KEM_HYBRID_X25519_MLKEM768; SUITE_AEAD_AES256GCM; FLAGS_V1]
        ++ u16_be (KEM_CIPHERTEXT_BYTES mod 2 ^ 16) ++ kem_ct ++ nonce ++ aead_ct).

(** ** The stream header *)

Record StreamHeader := {
  sh_version : byte;
  sh_suite_kem : byte;
  sh_suite_aead : byte;
  sh_flags : byte;
  sh_kem_ciphertext : list byte;
}.

Definition encode_stream_header (kem_ct : list byte) : result EncodingError (list byte) :=
  _ ← bail_if (negb (len kem_ct =? KEM_CIPHERTEXT_BYTES)) mkEncodingError;
  Ok ([STREAM_VERSION; SUITE_KEM_HYBRID_X25519_MLKEM768; SUITE_AEAD_AES256GCM; FLAGS_STREAM]
        ++ u16_be (KEM_CIPHERTEXT_BYTES mod 2 ^ 16) ++ kem_ct).

Definition decode_stream_header (data : list byte) : decode_result StreamHeader :=
  _ ← bail_if (len data <? STREAM_HEADER_BYTES) reject;
  version ← idx data 0;
  suite_kem ← idx data 1;
  suite_aead ← idx data 2;
  flags ← idx data 3;
  b4 ← idx data 4;
  b5 ← idx data 5;
  let kem_ct_len := be_val [b4; b5] in
  _ ← bail_if (negb (bool_decide (version = STREAM_VERSION))) reject;
  _ ← bail_if (negb (bool_decide (suite_kem = SUITE_KEM_HYBRID_X25519_MLKEM768))
               || negb (bool_decide (suite_aead = SUITE_AEAD_AES256GCM))) reject;
  _ ← bail_if (negb (bool_decide (flags = FLAGS_STREAM))) reject;
  _ ← bail_if (negb (kem_ct_len =? KEM_CIPHERTEXT_BYTES)) reject;
  kem_ciphertext ← slice_or_panic data HEADER_BYTES STREAM_HEADER_BYTES;
  Ok {| sh_version := version; sh_suite_kem := suite_kem; sh_suite_aead := suite_aead;
        sh_flags := flags; sh_kem_ciphertext := kem_ciphertext |}.

(** ** Facts about the codec *)

Lemma suite_params_kem b p : suite_params b = Some p -> suite_kem p = b.
Proof.
  unfold suite_params. induction SUITE_TABLE as [|q t IH]; cbn; [done|].
  case_bool_decide; naive_solver.
Qed.

Lemma suite_params_min b p :
  suite_params b = Some p -> MIN_KEM_CIPHERTEXT_BYTES <= kem_ciphertext_bytes p <= 1665.
Proof.
  unfold suite_params, SUITE_TABLE; cbn [suite_lookup].
  repeat case_bool_decide; intros; simplify_eq; by vm_compute.
Qed.

Lemma idx_hd {E} b d : idx (E := E) (b :: d) 0 = Ok b.
Proof. done. Qed.
Lemma idx_tl {E} b d i : 0 <= i -> idx (E := E) (b :: d) (i + 1) = idx d i.
Proof.
  intros. unfold idx. replace (0 <=? i + 1) with true by lia.
  replace (0 <=? i) with true by lia.
  by replace (Z.to_nat (i + 1)) with (S (Z.to_nat i)) by lia.
Qed.

Section roundtrip.
Context (kem_ct nonce_ aead_ct : list byte).
Context (Hkem : len kem_ct = KEM_CIPHERTEXT_BYTES) (Hnonce : len nonce_ = NONCE_BYTES).

Definition v1_header (k a f : byte) : list byte :=
  [PROTOCOL_VERSION; k; a; f] ++ u16_be (KEM_CIPHERTEXT_BYTES mod 2 ^ 16).

Lemma decode_raw_layout k a :
  AEAD_TAG_BYTES <= len aead_ct ->
  decode_wire_raw (v1_header k a FLAGS_V1 ++ kem_ct ++ nonce_ ++ aead_ct) =
  Ok {| version := PROTOCOL_VERSION; wc_suite_kem := k; wc_suite_aead := a;
        flags := FLAGS_V1; kem_ct_len := KEM_CIPHERTEXT_BYTES;
        kem_ciphertext := kem_ct; nonce := nonce_; aead_ciphertext := aead_ct |}.
Proof.
  intros Htag. unfold decode_wire_raw, slice_or_panic; cbv zeta.
  assert (Hh : len (v1_header k a FLAGS_V1) = HEADER_BYTES) by done.
  rewrite (slice_app (v1_header k a FLAGS_V1) kem_ct _ HEADER_BYTES) by lia.
  rewrite (assoc_L (++) _ kem_ct).
  rewrite (slice_app (v1_header k a FLAGS_V1 ++ kem_ct) nonce_ _
             (HEADER_BYTES + KEM_CIPHERTEXT_BYTES)) by (rewrite ?length_app; lia).
  rewrite (assoc_L (++) _ nonce_), (slice_to_end _ aead_ct) by (rewrite ?length_app; lia).
  rewrite !length_app.
  rewrite (proj2 (Z.ltb_ge _ MIN_CIPHERTEXT_BYTES)) by (unfold MIN_CIPHERTEXT_BYTES; lia).
  cbn -[Z.ltb AEAD_TAG_BYTES].
  by replace (len aead_ct <? AEAD_TAG_BYTES) with false by lia.
Qed.
End roundtrip.

Ltac unfold_sizes :=
  unfold MIN_CIPHERTEXT_BYTES, STREAM_HEADER_BYTES, HEADER_BYTES, KEM_CIPHERTEXT_BYTES,
    X25519_KEY_BYTES, MLKEM_CIPHERTEXT_BYTES, NONCE_BYTES, AEAD_TAG_BYTES in *.

(** A successful decoder read every byte of its input: the pieces of a chain of
    adjacent accesses rebuild it. *)
Lemma decode_wire_raw_layout data c :
  decode_wire_raw data = Ok c ->
  data = v1_header (wc_suite_kem c) (wc_suite_aead c) FLAGS_V1
           ++ kem_ciphertext c ++ nonce c ++ aead_ciphertext c /\
  version c = PROTOCOL_VERSION /\ flags c = FLAGS_V1 /\ kem_ct_len c = KEM_CIPHERTEXT_BYTES /\
  len (kem_ciphertext c) = KEM_CIPHERTEXT_BYTES /\ len (nonce c) = NONCE_BYTES /\
  AEAD_TAG_BYTES <= len (aead_ciphertext c).
Proof.
  intros H. unfold decode_wire_raw in H. inv_ok H. bool_hyps. subst.
  decoded_pieces.
  cbn [version wc_suite_kem wc_suite_aead flags kem_ct_len kem_ciphertext nonce aead_ciphertext].
  split; [|repeat split; try done; lia].
  symmetry. apply slice_full. unfold v1_header.
  replace (u16_be _) with [x4; x5] by (rewrite <- (be_bytes_val [x4; x5]), Hx8; done).
  change (([?a; ?b; ?c; ?d] ++ [x4; x5]) ++ ?r)
    with ([a] ++ [b] ++ [c] ++ [d] ++ [x4] ++ [x5] ++ r).
  slice_chain.
Qed.

Lemma decode_wire_layout data c :
  decode_wire data = Ok c -> 
  wc_suite_kem c = SUITE_KEM_HYBRID_X25519_MLKEM768 /\ wc_suite_aead c = SUITE_AEAD_AES256GCM /\
  decode_wire_raw data = Ok c.
Proof.
  unfold decode_wire, check_v1_suites. intros H. inv_ok H. bool_hyps. done.
Qed.

Lemma decode_wire_raw_never_panics data : decode_wire_raw data <> Err Panic.
Proof. unfold decode_wire_raw. no_panic; unfold_sizes; lia. Qed.

Lemma decode_wire_never_panics data : decode_wire data <> Err Panic.
Proof.
  unfold decode_wire, check_v1_suites. no_panic. apply decode_wire_raw_never_panics.
Qed.

Lemma decode_stream_header_never_panics data : decode_stream_header data <> Err Panic.
Proof. unfold decode_stream_header. no_panic; unfold_sizes; lia. Qed.

(** [decode_wire] accepts exactly what [encode_wire] writes. *)
Theorem decode_wire_iff_encode data c :
  decode_wire data = Ok c <->
  version c = PROTOCOL_VERSION /\ wc_suite_kem c = SUITE_KEM_HYBRID_X25519_MLKEM768 /\
  wc_suite_aead c = SUITE_AEAD_AES256GCM /\ flags c = FLAGS_V1 /\
  kem_ct_len c = KEM_CIPHERTEXT_BYTES /\ len (nonce c) = NONCE_BYTES /\
  encode_wire (kem_ciphertext c) (nonce c) (aead_ciphertext c) = Ok data.
Proof.
  split.
  - intros (Hk & Ha & H)%decode_wire_layout.
    apply decode_wire_raw_layout in H as (-> & ? & ? & ? & Hkc & ? & Htag).
    repeat split; try done. rewrite Hk, Ha. unfold encode_wire.
    rewrite (proj2 (Z.eqb_eq _ _) Hkc), (proj2 (Z.ltb_ge _ _) Htag). done.
  - intros (? & ? & ? & ? & ? & Hn & H). unfold encode_wire in H. inv_ok H. bool_hyps.
    destruct c; cbn in *. subst. unfold decode_wire.
    match goal with |- context [decode_wire_raw ?d] => change d with
      (v1_header SUITE_KEM_HYBRID_X25519_MLKEM768 SUITE_AEAD_AES256GCM FLAGS_V1
         ++ kem_ciphertext0 ++ nonce0 ++ aead_ciphertext0) end.
    by rewrite (decode_raw_layout kem_ciphertext0 nonce0 aead_ciphertext0).
Qed.

(** The stream header, with the same shape. *)
Lemma decode_stream_header_layout data h :
  decode_stream_header data = Ok h ->
  exists rest, data = [STREAM_VERSION; SUITE_KEM_HYBRID_X25519_MLKEM768; SUITE_AEAD_AES256GCM;
    FLAGS_STREAM] ++ u16_be (KEM_CIPHERTEXT_BYTES mod 2 ^ 16) ++ sh_kem_ciphertext h ++ rest /\
  len (sh_kem_ciphertext h) = KEM_CIPHERTEXT_BYTES.
Proof.
  intros H. unfold decode_stream_header in H. inv_ok H. bool_hyps. subst. decoded_pieces.
  exists (drop (Z.to_nat STREAM_HEADER_BYTES) data); cbn [sh_kem_ciphertext].
  split; [|unfold STREAM_HEADER_BYTES in *; lia].
  assert (slice data STREAM_HEADER_BYTES (len data) = Some (drop (Z.to_nat STREAM_HEADER_BYTES) data)).
  { apply slice_Some. unfold STREAM_HEADER_BYTES in *. split; [unfold_sizes; lia|].
    rewrite take_ge; [done|]. rewrite length_drop. unfold_sizes; lia. }
  symmetry. apply slice_full.
  replace (u16_be _) with [x4; x5] by (rewrite <- (be_bytes_val [x4; x5]), Hx9; done).
  change ([?a; ?b; ?c; ?d] ++ [x4; x5] ++ ?r)
    with ([a] ++ [b] ++ [c] ++ [d] ++ [x4] ++ [x5] ++ r).
  slice_chain.
Qed.

Theorem stream_header_roundtrip kem_ct out :
  encode_stream_header kem_ct = Ok out ->
  len out = STREAM_HEADER_BYTES /\
  decode_stream_header out =
    Ok {| sh_version := STREAM_VERSION; sh_suite_kem := SUITE_KEM_HYBRID_X25519_MLKEM768;
          sh_suite_aead := SUITE_AEAD_AES256GCM; sh_flags := FLAGS_STREAM;
          sh_kem_ciphertext := kem_ct |}.
Proof.
  intros H. unfold encode_stream_header in H. inv_ok H. bool_hyps.
  pose (hdr := [STREAM_VERSION; SUITE_KEM_HYBRID_X25519_MLKEM768; SUITE_AEAD_AES256GCM;
                FLAGS_STREAM] ++ u16_be (KEM_CIPHERTEXT_BYTES mod 2 ^ 16)).
  match goal with |- len ?d = _ /\ _ => change d with (hdr ++ kem_ct) end.
  assert (Hh : len hdr = HEADER_BYTES) by done.
  assert (Hl : len (hdr ++ kem_ct) = STREAM_HEADER_BYTES)
    by (rewrite length_app; unfold STREAM_HEADER_BYTES; lia).
  split; [done|]. unfold decode_stream_header, slice_or_panic.
  rewrite Hl, Z.ltb_irrefl, slice_to_end by (unfold STREAM_HEADER_BYTES; lia). done.
Qed.

End Wire.
