(* ===== verification/WireV2.v ===== *)
(** * The CTD2 envelope ([citadel-envelope/src/wire_v2.rs], [backend.rs], engine of [lib.rs])

    The interfaces [CryptoBackend] and [KemProvider] are the traits of
    [backend.rs]: primitives are third-party code, so they stay abstract, and
    what the envelope relies on is stated by the law classes [AeadLaws] and
    [KemLaws].  A call that draws randomness takes the drawn bytes as an
    argument.  [seal], [open] and the codec are translated on top of them. *)

From S2P Require Import Prelude.
From S2P Require Import Wire.

(** ** Interfaces *)

Class CryptoBackend := {
  sha256 : list byte -> list byte;
  sha3_256 : list byte -> list byte;
  hkdf_sha256 : option (list byte) -> list byte -> list byte -> Z ->
    result EncodingError (list byte);
  (** outcome of the random generator, key, plaintext, aad; returns the nonce
      and the ciphertext *)
  aead_seal : option (list byte) -> list byte -> list byte -> list byte ->
    result EncodingError (list byte * list byte);
  (** key, nonce, ciphertext, aad *)
  aead_open : list byte -> list byte -> list byte -> list byte ->
    result DecryptionError (list byte);
}.

(** The two draws of an encapsulation; [None]: the random generator fails. *)
Definition kem_draws : Type := option (list byte) * option (list byte).

(** [keygen] and [public_key_of] return no [Result]: their [None] is a panic. *)
Class KemProvider := {
  SUITE_KEM : byte;
  K_KEM_CIPHERTEXT_BYTES : Z;
  PublicKey : Type;
  SecretKey : Type;
  keygen : list byte * list byte -> option (PublicKey * SecretKey);
  (** returns the shared secret and the ciphertext *)
  encapsulate : kem_draws -> PublicKey ->
    result (fault EncodingError) (list byte * list byte);
  decapsulate : SecretKey -> list byte -> decode_result (list byte);
  public_key_bytes : PublicKey -> list byte;
  public_key_of : SecretKey -> option PublicKey;
}.

(** The random generator fills a 12-byte buffer, or fails. *)
Definition nonce_draw (rnd : option (list byte)) : Prop :=
  match rnd with Some n => len n = 12 | None => True end.

(** Documented behaviour of AES-256-GCM and of the hash used here. *)
Class AeadLaws (CB : CryptoBackend) : Prop := {
  aead_seal_sizes rnd k p a n c :
    nonce_draw rnd -> aead_seal rnd k p a = Ok (n, c) -> len n = 12 /\ len c = len p + 16;
  aead_open_seal rnd k p a n c :
    aead_seal rnd k p a = Ok (n, c) -> aead_open k n c a = Ok p;
  length_sha3_256 x : len (sha3_256 x) = 32;
}.

(** Correctness of the KEM: the ciphertext has the advertised length and the
    matching secret key, which has a public key, recovers the shared secret. *)
Class KemLaws (K : KemProvider) : Prop := {
  encapsulate_size rnd pk ss ct :
    encapsulate rnd pk = Ok (ss, ct) -> len ct = K_KEM_CIPHERTEXT_BYTES;
  public_key_total sk : is_Some (public_key_of sk);
  decapsulate_encapsulate rnd sk pk ss ct :
    public_key_of sk = Some pk -> encapsulate rnd pk = Ok (ss, ct) -> decapsulate sk ct = Ok ss;
  decapsulate_no_panic sk ct : decapsulate sk ct <> Err Panic;
}.

Module WireV2.

Definition MAGIC : list byte := bytes_of_string "CTD2".
Definition VERSION : byte := Byte.x02.
Definition FLAGS : byte := Byte.x00.
Definition SUITE_KDF : byte := Byte.xc1.
Definition SUITE_AEAD : byte := Byte.xb1.
Definition HEADER_LEN : Z := 98.
Definition TAG_LEN : Z := 16.
Definition NONCE_LEN : Z := 12.
Definition HEADER_BOUND_LEN : Z := HEADER_LEN - NONCE_LEN.
Definition MIN_ENVELOPE_LEN : Z := HEADER_LEN + Wire.KEM_CIPHERTEXT_BYTES + TAG_LEN.
Definition MIN_ENVELOPE_LEN_ANY_SUITE : Z := HEADER_LEN + Wire.MIN_KEM_CIPHERTEXT_BYTES + TAG_LEN.
Definition MAX_PLAINTEXT_LEN : Z := 64 * 1024 * 1024.
Definition MAX_AAD_LEN : Z := 64 * 1024.
Definition MAX_CONTEXT_LEN : Z := 4 * 1024.
Definition KDF_LABEL : list byte := bytes_of_string "citadel-envelope-v2/kdf" ++ [Byte.x00].
Definition AAD_LABEL : list byte := bytes_of_string "citadel-envelope-v2/aad" ++ [Byte.x00].
Definition EXTRACT_SALT_LABEL : list byte := bytes_of_string "citadel-envelope-v2/extract-salt".

Record Parts := {
  header : list byte;
  kem_ciphertext : list byte;
  nonce : list byte;
  aead_ciphertext : list byte;
  recipient_key_hash : list byte;
  plaintext_len : Z;
  suite : Wire.SuiteParams;
}.

(** [push_u16] and [push_u32] return the extended buffer. *)
Definition push_u16 (out : list byte) (value : Z) : result EncodingError (list byte) :=
  _ ← bail_if (U16_MAX <? value) mkEncodingError; Ok (out ++ u16_be value).
Definition push_u32 (out : list byte) (value : Z) : result EncodingError (list byte) :=
  _ ← bail_if (U32_MAX <? value) mkEncodingError; Ok (out ++ u32_be value).

(** [header.get(..n)]. *)
Definition get_prefix (h : list byte) (n : Z) : option (list byte) := slice h 0 n.

Definition header_bytes (suite_kem : byte) (kem_ct_len plaintext_len : Z)
    (recipient_hash context_hash nonce : list byte) : list byte :=
  MAGIC ++ [VERSION] ++ [FLAGS] ++ [suite_kem] ++ [SUITE_KDF] ++ [SUITE_AEAD] ++ [Byte.x00]
    ++ u16_be HEADER_LEN ++ u16_be kem_ct_len ++ u64_be plaintext_len
    ++ recipient_hash ++ context_hash ++ nonce.

Definition kdf_transcript (header kem_ct context : list byte) : result EncodingError (list byte) :=
  bound ← ok_or (get_prefix header HEADER_BOUND_LEN) mkEncodingError;
  out ← push_u16 KDF_LABEL (len bound);
  out ← push_u16 (out ++ bound) (len kem_ct);
  out ← push_u32 (out ++ kem_ct) (len context);
  Ok (out ++ context).

Definition associated_data (header kem_ct context caller_aad : list byte) :
    result EncodingError (list byte) :=
  bound ← ok_or (get_prefix header HEADER_BOUND_LEN) mkEncodingError;
  out ← push_u16 AAD_LABEL (len bound);
  out ← push_u16 (out ++ bound) (len kem_ct);
  out ← push_u32 (out ++ kem_ct) (len context);
  out ← push_u32 (out ++ context) (len caller_aad);
  Ok (out ++ caller_aad).

Definition decode (data : list byte) : decode_result Parts :=
  _ ← bail_if (len data <? MIN_ENVELOPE_LEN_ANY_SUITE) reject;
  header ← ok_or (get_prefix data HEADER_LEN) reject;
  magic ← slice_or_panic header 0 4;
  h4 ← idx header 4; h5 ← idx header 5; h6 ← idx header 6; h7 ← idx header 7;
  h8 ← idx header 8; h9 ← idx header 9; h10 ← idx header 10; h11 ← idx header 11;
  _ ← bail_if (negb (bool_decide (magic = MAGIC)) || negb (bool_decide (h4 = VERSION))
        || negb (bool_decide (h5 = FLAGS)) || negb (bool_decide (h7 = SUITE_KDF))
        || negb (bool_decide (h8 = SUITE_AEAD)) || negb (bool_decide (h9 = Byte.x00))
        || negb (be_val [h10; h11] =? HEADER_LEN)) reject;
  suite ← ok_or (Wire.suite_params h6) reject;
  h12 ← idx header 12; h13 ← idx header 13;
  _ ← bail_if (negb (be_val [h12; h13] =? Wire.kem_ciphertext_bytes suite)) reject;
  plen ← slice_or_panic header 14 22;
  let plaintext_len := be_val plen in
  _ ← bail_if (MAX_PLAINTEXT_LEN <? plaintext_len) reject;
  expected_len ← ok_or (n ← checked_add U64_MAX HEADER_LEN (Wire.kem_ciphertext_bytes suite);
                        n ← checked_add U64_MAX n TAG_LEN;
                        checked_add U64_MAX n plaintext_len) reject;
  _ ← bail_if (negb (len data =? expected_len)) reject;
  let kem_start := HEADER_LEN in
  let kem_end := kem_start + Wire.kem_ciphertext_bytes suite in
  nonce ← slice_or_panic header 86 98;
  recipient_key_hash ← slice_or_panic header 22 54;
  kem_ciphertext ← slice_or_panic data kem_start kem_end;
  aead_ciphertext ← slice_or_panic data kem_end (len data);
  Ok {| header := header; kem_ciphertext := kem_ciphertext; nonce := nonce;
        aead_ciphertext := aead_ciphertext; recipient_key_hash := recipient_key_hash;
        plaintext_len := plaintext_len; suite := suite |}.

(** [wire::envelope_nonce] dispatches on the magic. *)
Definition envelope_nonce (data : list byte) : decode_result (list byte) :=
  if starts_with data MAGIC then (p ← decode data; Ok (nonce p))
  else (c ← Wire.decode_wire data; Ok (Wire.nonce c)).

Section engine.
Context {CB : CryptoBackend} {K : KemProvider}.

Definition public_key_hash (pk : PublicKey) : list byte := sha3_256 (public_key_bytes pk).
Definition context_hash (context : list byte) : list byte := sha3_256 context.

Definition encode_header (plaintext_len : Z) (recipient_hash context_hash nonce : list byte) :
    result EncodingError (list byte) :=
  _ ← bail_if (MAX_PLAINTEXT_LEN <? plaintext_len) mkEncodingError;
  suite ← ok_or (Wire.suite_params SUITE_KEM) mkEncodingError;
  _ ← bail_if (negb (Wire.kem_ciphertext_bytes suite =? K_KEM_CIPHERTEXT_BYTES)) mkEncodingError;
  _ ← bail_if (U16_MAX <? K_KEM_CIPHERTEXT_BYTES) mkEncodingError;
  Ok (header_bytes SUITE_KEM K_KEM_CIPHERTEXT_BYTES plaintext_len
        recipient_hash context_hash nonce).

Definition derive_key (shared_secret transcript : list byte) : result EncodingError (list byte) :=
  hkdf_sha256 (Some (sha256 EXTRACT_SALT_LABEL)) shared_secret transcript 32.

Definition encode (header kem_ct aead_ct : list byte) : result EncodingError (list byte) :=
  _ ← bail_if (negb (len kem_ct =? K_KEM_CIPHERTEXT_BYTES) || (len aead_ct <? TAG_LEN))
        mkEncodingError;
  Ok (header ++ kem_ct ++ aead_ct).

(** A call whose error the caller propagates with [?]. *)
Definition up {A} (r : result EncodingError A) : result (fault EncodingError) A :=
  map_err Fail r.

(** [header[86..98].copy_from_slice(&nonce)]. *)
Definition patch_nonce (header nonce : list byte) : list byte :=
  take (Z.to_nat HEADER_BOUND_LEN) header ++ nonce.

Definition seal (kem_rnd : kem_draws) (aead_rnd : option (list byte))
    (pk : PublicKey) (plaintext aad context : list byte) :
    result (fault EncodingError) (list byte) :=
  _ ← bail_if ((MAX_PLAINTEXT_LEN <? len plaintext) || (MAX_AAD_LEN <? len aad)
               || (MAX_CONTEXT_LEN <? len context)) (Fail mkEncodingError);
  enc ← encapsulate kem_rnd pk;
  let '(shared_secret, kem_ct) := enc in
  header ← up (encode_header (len plaintext) (public_key_hash pk) (context_hash context)
             (replicate 12 Byte.x00));
  transcript ← up (kdf_transcript header kem_ct context);
  key ← up (derive_key shared_secret transcript);
  bound_aad ← up (associated_data header kem_ct context aad);
  sealed ← up (aead_seal aead_rnd key plaintext bound_aad);
  let '(nonce, aead_ct) := sealed in
  up (encode (patch_nonce header nonce) kem_ct aead_ct).

Definition lift_enc {A} (r : result EncodingError A) : decode_result A :=
  map_err (fun _ => reject) r.
Definition lift_dec {A} (r : result DecryptionError A) : decode_result A := map_err Fail r.

Definition open (sk : SecretKey) (ciphertext aad context : list byte) :
    decode_result (list byte) :=
  _ ← bail_if ((MAX_AAD_LEN <? len aad) || (MAX_CONTEXT_LEN <? len context)) reject;
  parts ← decode ciphertext;
  _ ← bail_if (negb (bool_decide (Wire.suite_kem (suite parts) = SUITE_KEM))) reject;
  supplied_context_hash ← slice_or_panic (header parts) 54 86;
  _ ← bail_if (negb (bool_decide (supplied_context_hash = context_hash context))) reject;
  shared_secret ← decapsulate sk (kem_ciphertext parts);
  transcript ← lift_enc (kdf_transcript (header parts) (kem_ciphertext parts) context);
  key ← lift_enc (derive_key shared_secret transcript);
  bound_aad ← lift_enc (associated_data (header parts) (kem_ciphertext parts) context aad);
  plaintext ← lift_dec (aead_open key (nonce parts) (aead_ciphertext parts) bound_aad);
  _ ← bail_if (negb (len plaintext =? plaintext_len parts)) reject;
  pk ← ok_or (public_key_of sk) Panic;
  let expected_recipient := public_key_hash pk in
  _ ← bail_if (negb (bool_decide (recipient_key_hash parts = expected_recipient))) reject;
  Ok plaintext.
End engine.

(** ** The codec *)

(** What it means for [p] to describe a well-formed envelope. *)
Definition wf_parts (p : Parts) : Prop :=
  Wire.suite_params (Wire.suite_kem (suite p)) = Some (suite p) /\
  0 <= plaintext_len p <= MAX_PLAINTEXT_LEN /\
  len (recipient_key_hash p) = 32 /\ len (nonce p) = NONCE_LEN /\
  len (kem_ciphertext p) = Wire.kem_ciphertext_bytes (suite p) /\
  len (aead_ciphertext p) = plaintext_len p + TAG_LEN /\
  exists ch, len ch = 32 /\
    header p = header_bytes (Wire.suite_kem (suite p)) (Wire.kem_ciphertext_bytes (suite p))
                 (plaintext_len p) (recipient_key_hash p) ch (nonce p).

Lemma length_header_bytes k kl pl rh ch n :
  len rh = 32 -> len ch = 32 -> len n = 12 -> len (header_bytes k kl pl rh ch n) = HEADER_LEN.
Proof.
  intros. unfold header_bytes, HEADER_LEN. rewrite !length_app, !length_be_bytes. cbn [length MAGIC].
  change (length MAGIC) with 4%nat. lia.
Qed.

Lemma suite_kem_bounds b p :
  Wire.suite_params b = Some p -> 1120 <= Wire.kem_ciphertext_bytes p <= 1665.
Proof. apply Wire.suite_params_min. Qed.

Lemma checked_add_Some m a b c : checked_add m a b = Some c <-> c = a + b /\ a + b <= m.
Proof. unfold checked_add. case (Z.leb_spec (a + b) m); naive_solver lia. Qed.

Lemma checked_add_ok m a b : a + b <= m -> checked_add m a b = Some (a + b).
Proof. intros. by apply checked_add_Some. Qed.

Lemma decode_layout data p :
  decode data = Ok p -> data = header p ++ kem_ciphertext p ++ aead_ciphertext p /\ wf_parts p.
Proof.
  intros H. unfold decode, get_prefix in H. inv_ok H.
  repeat match goal with
  | H : (_ || _)%bool = false |- _ => apply orb_false_iff in H as [? H]
  end. bool_hyps. subst.
  repeat match goal with
  | H : (_ ≫= _) = Some _ |- _ => apply bind_Some in H as (? & ?%checked_add_Some & H)
  end.
  destruct_and!. apply checked_add_Some in Hx17 as [? ?]. subst.
  apply length_slice in Hx0 as Hh. decoded_pieces.
  pose proof (Wire.suite_params_kem _ _ Hx11). subst.
  split.
  - symmetry. apply slice_full. cbn [header kem_ciphertext aead_ciphertext]. slice_chain.
  - assert (Hs : exists ch, slice x0 54 86 = Some ch)
      by (eexists; apply slice_in_bounds; unfold HEADER_LEN in *; lia).
    destruct Hs as [ch Hs]. apply length_slice in Hs as Hc.
    pose proof (be_val_range x15). unfold wf_parts, NONCE_LEN;
      cbn [header kem_ciphertext nonce aead_ciphertext recipient_key_hash plaintext_len suite].
    repeat (split; [done || lia|]). exists ch. split; [lia|].
    symmetry. apply slice_full. unfold header_bytes. rewrite Hh.
    replace (u16_be HEADER_LEN) with [x8; x9] by (rewrite <- (be_bytes_val [x8; x9]), Hx10; done).
    replace (u16_be (Wire.kem_ciphertext_bytes x11)) with [x12; x13]
      by (rewrite <- (be_bytes_val [x12; x13]), Hx14; done).
    rewrite (be_bytes_val_len 8 x15) by lia.
    change ([x8; x9] ++ [x12; x13] ++ ?r) with ([x8] ++ [x9] ++ [x12] ++ [x13] ++ r).
    slice_chain.
Qed.

Section header_fields.
Context (k : byte) (kl pl : Z) (rh ch n : list byte).
Context (Hrh : len rh = 32) (Hch : len ch = 32) (Hn : len n = 12).
Let h := header_bytes k kl pl rh ch n.

Lemma header_fixed :
  slice h 0 4 = Some MAGIC /\ slice h 14 22 = Some (u64_be pl) /\ slice h 22 54 = Some rh /\
  slice h 54 86 = Some ch /\ slice h 86 98 = Some n.
Proof.
  pose (h14 := MAGIC ++ [VERSION] ++ [FLAGS] ++ [k] ++ [SUITE_KDF] ++ [SUITE_AEAD]
                ++ [Byte.x00] ++ u16_be HEADER_LEN ++ u16_be kl).
  assert (E : h = h14 ++ u64_be pl ++ rh ++ ch ++ n) by done.
  assert (H14 : len h14 = 14) by done.
  pose proof (length_be_bytes 8 pl). rewrite E. split_and!.
  - by apply (slice_app [] MAGIC).
  - apply (slice_app h14); lia.
  - rewrite (assoc_L (++)). apply (slice_app (h14 ++ u64_be pl)); rewrite ?length_app; lia.
  - rewrite (assoc_L (++)), (assoc_L (++)).
    apply (slice_app ((h14 ++ u64_be pl) ++ rh)); rewrite ?length_app; lia.
  - rewrite !(assoc_L (++)).
    apply (slice_to_end (((h14 ++ u64_be pl) ++ rh) ++ ch)); rewrite ?length_app; lia.
Qed.

(** The first 86 bytes carry every field but the nonce. *)
Definition header_bound : list byte :=
  MAGIC ++ [VERSION] ++ [FLAGS] ++ [k] ++ [SUITE_KDF] ++ [SUITE_AEAD] ++ [Byte.x00]
    ++ u16_be HEADER_LEN ++ u16_be kl ++ u64_be pl ++ rh ++ ch.

Lemma header_bytes_bound : h = header_bound ++ n.
Proof. unfold h, header_bytes, header_bound. by rewrite <- !(assoc_L (++)). Qed.

Lemma length_header_bound : len header_bound = HEADER_BOUND_LEN.
Proof.
  pose proof (length_header_bytes k kl pl rh ch n Hrh Hch Hn) as E.
  fold h in E. rewrite header_bytes_bound, length_app in E.
  unfold HEADER_BOUND_LEN, NONCE_LEN. lia.
Qed.

Lemma get_prefix_header : get_prefix h HEADER_BOUND_LEN = Some header_bound.
Proof.
  unfold get_prefix. rewrite header_bytes_bound. pose proof length_header_bound.
  apply slice_prefix. lia.
Qed.
End header_fields.

Lemma decode_of_layout p :
  wf_parts p -> decode (header p ++ kem_ciphertext p ++ aead_ciphertext p) = Ok p.
Proof.
  intros (Hs & Hp & Hrh & Hn & Hk & Ha & ch & Hch & Hh).
  destruct p as [h kc n ac rh pl su]; unfold NONCE_LEN in *;
    cbn [header kem_ciphertext nonce aead_ciphertext recipient_key_hash plaintext_len suite] in *.
  pose proof (length_header_bytes (Wire.suite_kem su) (Wire.kem_ciphertext_bytes su) pl
                rh ch n Hrh Hch Hn) as Hl.
  pose proof (header_fixed (Wire.suite_kem su) (Wire.kem_ciphertext_bytes su) pl
                rh ch n Hrh Hch Hn) as (S0 & S14 & S22 & _ & S86).
  rewrite <- Hh in *. pose proof (Wire.suite_params_min _ _ Hs).
  assert (Hd : len (h ++ kc ++ ac) = HEADER_LEN + Wire.kem_ciphertext_bytes su + TAG_LEN + pl)
    by (rewrite !length_app; lia).
  unfold decode, get_prefix. rewrite (proj2 (Z.ltb_ge _ MIN_ENVELOPE_LEN_ANY_SUITE))
    by (rewrite Hd; unfold MIN_ENVELOPE_LEN_ANY_SUITE; lia).
  rewrite slice_prefix by lia.
  unfold slice_or_panic. cbn [ok_or mbind result_bind bail_if].
  assert (I : forall i b, (0 <=? i) = true -> h !! Z.to_nat i = Some b ->
            idx (E := DecryptionError) h i = Ok b)
    by (intros ?? Hi Hb; unfold idx; by rewrite Hi, Hb).
  rewrite (I 4 VERSION), (I 5 FLAGS), (I 6 (Wire.suite_kem su)), (I 7 SUITE_KDF),
    (I 8 SUITE_AEAD), (I 9 Byte.x00), (I 10 Byte.x00), (I 11 Byte.x62),
    (I 12 (byte_of_Z (Wire.kem_ciphertext_bytes su / 256))),
    (I 13 (byte_of_Z (Wire.kem_ciphertext_bytes su))) by (rewrite ?Hh; done).
  rewrite S0, S14, S22, S86. cbn [ok_or mbind result_bind bail_if].
  rewrite Hs. cbn [ok_or mbind result_bind bail_if].
  change [byte_of_Z (?x / 256); byte_of_Z ?x] with (u16_be x).
  rewrite !be_val_bytes_small by (unfold MAX_PLAINTEXT_LEN in *; lia).
  rewrite Z.eqb_refl, (proj2 (Z.ltb_ge MAX_PLAINTEXT_LEN pl)) by lia.
  do 3 (rewrite checked_add_ok by (unfold MAX_PLAINTEXT_LEN, HEADER_LEN, TAG_LEN, U64_MAX in *; lia);
        cbn [option_bind mbind result_bind ok_or]).
  rewrite Hd, Z.eqb_refl, (slice_app h kc ac HEADER_LEN) by lia.
  cbn [negb bail_if mbind result_bind ok_or].
  rewrite (assoc_L (++)), slice_to_end by (rewrite ?length_app; lia). done.
Qed.

(** C12: [decode] accepts exactly the canonical encodings. *)
Theorem decode_iff data p :
  decode data = Ok p <->
  wf_parts p /\ data = header p ++ kem_ciphertext p ++ aead_ciphertext p.
Proof.
  split; [intros [??]%decode_layout; done|]. intros [? ->]. by apply decode_of_layout.
Qed.

Lemma decode_never_panics data : decode data <> Err Panic.
Proof.
  unfold decode, get_prefix, HEADER_LEN. no_panic; bool_hyps.
  all: repeat match goal with
       | H : slice _ 0 98 = Some _ |- _ => apply length_slice in H
       | H : Wire.suite_params _ = Some _ |- _ => apply suite_kem_bounds in H
       | H : (_ ≫= _) = Some _ |- _ => apply bind_Some in H as (? & ?%checked_add_Some & H)
       | H : checked_add _ _ (be_val ?l) = Some _ |- _ =>
           apply checked_add_Some in H; pose proof (be_val_range l)
       end; unfold TAG_LEN in *; lia.
Qed.

(** ** Binding of the key-derivation transcript and of the associated data *)

Lemma get_prefix_len h n b : get_prefix h n = Some b -> len b = n.
Proof. intros H%length_slice. lia. Qed.

Lemma kdf_transcript_shape h kc ctx t :
  kdf_transcript h kc ctx = Ok t ->
  exists b, get_prefix h HEADER_BOUND_LEN = Some b /\
    len kc <= U16_MAX /\ len ctx <= U32_MAX /\
    t = KDF_LABEL ++ lp 2 b ++ lp 2 kc ++ lp 4 ctx.
Proof.
  unfold kdf_transcript, push_u16, push_u32, lp. intros H. inv_ok H. bool_hyps.
  repeat match goal with H : (_ ≫= _) = Ok _ |- _ => inv_ok H end. bool_hyps.
  eexists; split_and!; [done..|]. by rewrite <- !(assoc_L (++)).
Qed.

Lemma associated_data_shape h kc ctx aad t :
  associated_data h kc ctx aad = Ok t ->
  exists b, get_prefix h HEADER_BOUND_LEN = Some b /\
    len kc <= U16_MAX /\ len ctx <= U32_MAX /\ len aad <= U32_MAX /\
    t = AAD_LABEL ++ lp 2 b ++ lp 2 kc ++ lp 4 ctx ++ lp 4 aad.
Proof.
  unfold associated_data, push_u16, push_u32, lp. intros H. inv_ok H. bool_hyps.
  repeat match goal with H : (_ ≫= _) = Ok _ |- _ => inv_ok H end. bool_hyps.
  eexists; split_and!; [done..|]. by rewrite <- !(assoc_L (++)).
Qed.

Lemma bound_len_u16 h b : get_prefix h HEADER_BOUND_LEN = Some b -> len b < 256 ^ Z.of_nat 2.
Proof. intros ->%get_prefix_len. done. Qed.

Ltac lp_bounds := unfold U16_MAX, U32_MAX in *; first [eapply bound_len_u16; eassumption | cbn; lia].

(** Two envelopes with the same KDF transcript agree on the nonce-free header, the
    KEM ciphertext and the context. *)
Theorem kdf_transcript_injective h1 k1 c1 h2 k2 c2 t :
  kdf_transcript h1 k1 c1 = Ok t -> kdf_transcript h2 k2 c2 = Ok t ->
  get_prefix h1 HEADER_BOUND_LEN = get_prefix h2 HEADER_BOUND_LEN /\ k1 = k2 /\ c1 = c2.
Proof.
  intros (b1 & P1 & ? & ? & E1)%kdf_transcript_shape (b2 & P2 & ? & ? & E2)%kdf_transcript_shape.
  rewrite E1 in E2. apply app_inv_head in E2. 
  apply lp_app_inj in E2 as [-> E2]; [|lp_bounds..].
  apply lp_app_inj in E2 as [-> E2]; [|lp_bounds..].
  apply lp_inj in E2 as ->; [|lp_bounds..]. by rewrite P1, P2.
Qed.

(** Two envelopes with the same AEAD associated data agree on the nonce-free
    header, the KEM ciphertext, the context and the caller's data: no two different
    combinations are encoded alike. *)
Theorem associated_data_injective h1 k1 c1 a1 h2 k2 c2 a2 t :
  associated_data h1 k1 c1 a1 = Ok t -> associated_data h2 k2 c2 a2 = Ok t ->
  get_prefix h1 HEADER_BOUND_LEN = get_prefix h2 HEADER_BOUND_LEN /\
  k1 = k2 /\ c1 = c2 /\ a1 = a2.
Proof.
  intros (b1 & P1 & ? & ? & ? & E1)%associated_data_shape
    (b2 & P2 & ? & ? & ? & E2)%associated_data_shape.
  rewrite E1 in E2. apply app_inv_head in E2.
  apply lp_app_inj in E2 as [-> E2]; [|lp_bounds..].
  apply lp_app_inj in E2 as [-> E2]; [|lp_bounds..].
  apply lp_app_inj in E2 as [-> E2]; [|lp_bounds..].
  apply lp_inj in E2 as ->; [|lp_bounds..]. by rewrite P1, P2.
Qed.
(** ** Opening *)

Section open_facts.
Context {CB : CryptoBackend} {K : KemProvider}.

(** Everything [open] has checked when it returns a plaintext. *)
Lemma open_Ok sk data aad ctx pt :
  open sk data aad ctx = Ok pt ->
  exists p ss t key a pk, decode data = Ok p /\
    Wire.suite_kem (suite p) = SUITE_KEM /\
    slice (header p) 54 86 = Some (context_hash ctx) /\
    recipient_key_hash p = public_key_hash pk /\ public_key_of sk = Some pk /\
    len pt = plaintext_len p /\
    decapsulate sk (kem_ciphertext p) = Ok ss /\
    kdf_transcript (header p) (kem_ciphertext p) ctx = Ok t /\ derive_key ss t = Ok key /\
    associated_data (header p) (kem_ciphertext p) ctx aad = Ok a /\
    aead_open key (nonce p) (aead_ciphertext p) a = Ok pt.
Proof.
  unfold open, lift_dec, lift_enc. intros H. inv_ok H. bool_hyps. subst.
  apply ok_or_Ok in Hx2. repeat eexists; split_and?; eauto.
Qed.

Context {CL : AeadLaws CB} {KL : KemLaws K}.

Lemma open_never_panics sk data aad ctx : open sk data aad ctx <> Err Panic.
Proof.
  unfold open, lift_dec, lift_enc. no_panic; bool_hyps; [apply decode_never_panics|..].
  all: try match goal with
       | H : decode _ = Ok ?p |- _ <= len (header ?p) =>
           apply decode_layout in H as [_ (_ & ? & ? & ? & ? & ? & ch & ? & ->)];
           rewrite length_header_bytes by done; done
       end.
  all: try lia.
  all: match goal with
       | |- map_err _ ?m <> _ => by destruct m
       | |- ok_or (public_key_of ?sk) _ <> _ => by destruct (public_key_total sk) as [? ->]
       | |- _ => apply decapsulate_no_panic
       end.
Qed.

Lemma kdf_transcript_bound h h' kc ctx :
  get_prefix h HEADER_BOUND_LEN = get_prefix h' HEADER_BOUND_LEN ->
  kdf_transcript h kc ctx = kdf_transcript h' kc ctx.
Proof. unfold kdf_transcript. by intros ->. Qed.

Lemma associated_data_bound h h' kc ctx aad :
  get_prefix h HEADER_BOUND_LEN = get_prefix h' HEADER_BOUND_LEN ->
  associated_data h kc ctx aad = associated_data h' kc ctx aad.
Proof. unfold associated_data. by intros ->. Qed.

Lemma patch_nonce_header k kl pl rh ch z n :
  len rh = 32 -> len ch = 32 -> len z = 12 -> len n = 12 ->
  patch_nonce (header_bytes k kl pl rh ch z) n = header_bytes k kl pl rh ch n.
Proof.
  intros. unfold patch_nonce. rewrite !header_bytes_bound.
  pose proof (length_header_bound k kl pl rh ch z ltac:(done) ltac:(done) ltac:(done)).
  by rewrite take_app_length' by lia.
Qed.

(** The prefix bound into the key and the AAD does not depend on the nonce. *)
Lemma get_prefix_nonce k kl pl rh ch z n :
  len rh = 32 -> len ch = 32 -> len z = 12 -> len n = 12 ->
  get_prefix (header_bytes k kl pl rh ch z) HEADER_BOUND_LEN =
  get_prefix (header_bytes k kl pl rh ch n) HEADER_BOUND_LEN.
Proof. intros. by rewrite !get_prefix_header. Qed.

Theorem open_seal r1 r2 sk pk pt aad ctx out :
  nonce_draw r2 -> public_key_of sk = Some pk ->
  seal r1 r2 pk pt aad ctx = Ok out -> open sk out aad ctx = Ok pt.
Proof.
  unfold seal, encode_header, encode, up. intros Hr Hpk H. inv_ok H. bool_hyps.
  rename b into kc, b0 into ac, a0 into n, x2 into su.
  set (rh := public_key_hash pk) in *.
  set (ch := context_hash ctx) in *.
  assert (Hrh : len rh = 32) by apply length_sha3_256.
  assert (Hch : len ch = 32) by apply length_sha3_256.
  destruct (aead_seal_sizes _ _ _ _ _ _ Hr Hx8) as [Hn Hac].
  rewrite patch_nonce_header by done.
  rewrite (kdf_transcript_bound _ (header_bytes SUITE_KEM K_KEM_CIPHERTEXT_BYTES (len pt) rh ch n)),
    (associated_data_bound _ (header_bytes SUITE_KEM K_KEM_CIPHERTEXT_BYTES (len pt) rh ch n)) in *
    by (by apply get_prefix_nonce).
  set (hd := header_bytes SUITE_KEM K_KEM_CIPHERTEXT_BYTES (len pt) rh ch n) in *.
  pose proof (Wire.suite_params_kem _ _ Hx3) as Hsu.
  pose (p := {| header := hd; kem_ciphertext := kc; nonce := n; aead_ciphertext := ac;
                recipient_key_hash := rh; plaintext_len := len pt; suite := su |}).
  assert (Hp : decode (hd ++ kc ++ ac) = Ok p).
  { apply (decode_of_layout p). unfold wf_parts, TAG_LEN, NONCE_LEN; cbn -[header_bytes].
    rewrite Hsu. repeat (split; [done || lia|]). exists ch. by rewrite Hx4. }
  unfold open. rewrite !(proj2 (Z.ltb_ge _ _)) by done. cbn [orb bail_if mbind result_bind].
  rewrite Hp. cbn [mbind result_bind]. change (suite p) with su. rewrite Hsu, bool_decide_true by done.
  unfold slice_or_panic. change (header p) with hd.
  rewrite (proj1 (proj2 (proj2 (proj2 (header_fixed SUITE_KEM K_KEM_CIPHERTEXT_BYTES (len pt)
    rh ch n Hrh Hch Hn))))).
  cbn -[header_bytes decapsulate].
  rewrite bool_decide_true by done. cbn -[header_bytes decapsulate].
  rewrite (decapsulate_encapsulate _ _ _ _ _ Hpk Hx0). cbn -[header_bytes].
  rewrite Hx1; cbn -[header_bytes]. rewrite Hx6; cbn -[header_bytes].
  rewrite Hx7; cbn -[header_bytes]. rewrite (aead_open_seal _ _ _ _ _ _ Hx8). cbn -[header_bytes].
  rewrite Z.eqb_refl, Hpk. cbn -[header_bytes]. by rewrite bool_decide_true.
Qed.
End open_facts.
End WireV2.
