(* ===== verification/Crypto.v ===== *)
(** * Primitives, the hybrid KEM and the envelope engine
    ([kem.rs], [kdf.rs], [aead.rs], [backend.rs], the engine of [lib.rs])

    [Primitives] gathers the third-party functions the default build calls; the
    documented behaviour used in proofs is [PrimitiveLaws].  The hybrid
    X25519 + ML-KEM-768 provider and the RustCrypto backend are instances of
    the interfaces of [WireV2], and their laws are proved from those of the
    primitives. *)

From S2P Require Import Prelude.
From S2P Require Import Wire.
From S2P Require Import WireV2.

Class Primitives := {
  Sha256 : list byte -> list byte;
  Sha3_256 : list byte -> list byte;
  (** salt, input keying material, info, output length; [None] when the output
      is too long for the construction *)
  hkdf_expand : option (list byte) -> list byte -> list byte -> Z -> option (list byte);
  (** key, nonce, message or ciphertext, associated data *)
  gcm_encrypt : list byte -> list byte -> list byte -> list byte -> option (list byte);
  gcm_decrypt : list byte -> list byte -> list byte -> list byte -> option (list byte);
  (** X25519: secret bytes to public bytes, Diffie-Hellman, contributory test *)
  x25519_public : list byte -> list byte;
  x25519_dh : list byte -> list byte -> list byte;
  was_contributory : list byte -> bool;
  (** ML-KEM-768 *)
  EncapKey : Type;
  DecapKey : Type;
  mlkem_generate : list byte -> DecapKey;
  ek_of : DecapKey -> EncapKey;
  ek_new : list byte -> option EncapKey;
  ek_bytes : EncapKey -> list byte;
  dk_from_expanded : list byte -> option DecapKey;
  dk_bytes : DecapKey -> list byte;
  (** randomness, key; returns ciphertext and shared secret *)
  mlkem_encapsulate : list byte -> EncapKey -> list byte * list byte;
  mlkem_decapsulate : DecapKey -> list byte -> list byte;
}.

(** [hmac::Hmac<Sha256>]: key and message. *)
Class HmacSha256 := hmac : list byte -> list byte -> list byte.

(** FIPS 203, RFC 7748, SP 800-38D: sizes and correctness. *)
Class PrimitiveLaws (P : Primitives) : Prop := {
  length_Sha256 x : len (Sha256 x) = 32;
  length_Sha3_256 x : len (Sha3_256 x) = 32;
  gcm_size k n m a c : gcm_encrypt k n m a = Some c -> len c = len m + 16;
  gcm_decrypt_size k n c a m : gcm_decrypt k n c a = Some m -> len c = len m + 16;
  gcm_correct k n m a c : gcm_encrypt k n m a = Some c -> gcm_decrypt k n c a = Some m;
  length_x25519_public s : len (x25519_public s) = 32;
  x25519_comm a b : x25519_dh a (x25519_public b) = x25519_dh b (x25519_public a);
  length_ek_bytes ek : len (ek_bytes ek) = 1184;
  length_dk_bytes dk : len (dk_bytes dk) = 2400;
  ek_new_bytes ek : ek_new (ek_bytes ek) = Some ek;
  dk_from_bytes dk : dk_from_expanded (dk_bytes dk) = Some dk;
  length_mlkem_ct r ek : len (mlkem_encapsulate r ek).1 = 1088;
  mlkem_correct r dk :
    mlkem_decapsulate dk (mlkem_encapsulate r (ek_of dk)).1 = (mlkem_encapsulate r (ek_of dk)).2;
}.

Section rustcrypto.
Context {P : Primitives}.

(** ** [aead.rs] *)

Definition nonce (getrandom : option (list byte)) : result EncodingError (list byte) :=
  ok_or getrandom mkEncodingError.
Definition aead_seal (key nonce plaintext aad : list byte) : result EncodingError (list byte) :=
  ok_or (gcm_encrypt key nonce plaintext aad) mkEncodingError.
Definition aead_open (key nonce ciphertext aad : list byte) : result DecryptionError (list byte) :=
  ok_or (gcm_decrypt key nonce ciphertext aad) mkDecryptionError.

(** ** [RustCryptoBackend] *)

Definition backend_aead_seal (rnd : option (list byte)) (key plaintext aad : list byte) :
    result EncodingError (list byte * list byte) :=
  n ← nonce rnd;
  ct ← aead_seal key n plaintext aad;
  Ok (n, ct).

#[export] Instance RustCryptoBackend : CryptoBackend := {|
  sha256 := Sha256;
  sha3_256 := Sha3_256;
  hkdf_sha256 salt ikm info n := ok_or (hkdf_expand salt ikm info n) mkEncodingError;
  WireV2.aead_seal := backend_aead_seal;
  WireV2.aead_open := aead_open;
|}.

(** ** [kdf.rs]: the v1 key schedule *)

Definition ct_hash (kem_ct : list byte) : list byte := Sha3_256 kem_ct.
Definition kdf_info (ct_hash context : list byte) : list byte :=
  Wire.PROTOCOL_ID ++ bytes_of_string "|aes|" ++ ct_hash ++ context.
Definition derive_key (shared_secret ct_hash context : list byte) :
    result EncodingError (list byte) :=
  ok_or (hkdf_expand None shared_secret (kdf_info ct_hash context) 32) mkEncodingError.
End rustcrypto.

(** ** [kem.rs]: the hybrid provider *)

Module Kem.

Ltac sizes := unfold Wire.KEM_PUBLIC_KEY_BYTES, Wire.KEM_SECRET_KEY_BYTES,
  Wire.KEM_CIPHERTEXT_BYTES, Wire.X25519_KEY_BYTES, Wire.MLKEM_CIPHERTEXT_BYTES,
  Wire.MLKEM_PUBLIC_KEY_BYTES, Wire.MLKEM_SECRET_KEY_BYTES in *.

Section kem.
Context {P : Primitives}.

Record PublicKey := { pk_x25519 : list byte; mlkem_bytes : list byte }.
Record SecretKey := { sk_x25519 : list byte; mlkem : DecapKey }.

Definition PublicKey_from_parts (x : list byte) (ek : EncapKey) : PublicKey :=
  {| pk_x25519 := x; mlkem_bytes := ek_bytes ek |}.

Definition PublicKey_to_bytes (pk : PublicKey) : list byte := pk_x25519 pk ++ mlkem_bytes pk.

Definition PublicKey_from_bytes (bytes : list byte) : decode_result PublicKey :=
  _ ← bail_if (negb (len bytes =? Wire.KEM_PUBLIC_KEY_BYTES)) reject;
  x25519 ← slice_or_panic bytes 0 Wire.X25519_KEY_BYTES;
  mlkem_bytes ← slice_or_panic bytes Wire.X25519_KEY_BYTES (len bytes);
  _ ← ok_or (ek_new mlkem_bytes) reject;
  Ok {| pk_x25519 := x25519; mlkem_bytes := mlkem_bytes |}.

(** [MlKemPublicKey::new(..).expect("validated at construction")]. *)
Definition mlkem_pk {E} (pk : PublicKey) : result (fault E) EncapKey :=
  ok_or (ek_new (mlkem_bytes pk)) Panic.

Definition SecretKey_to_bytes (sk : SecretKey) : list byte := sk_x25519 sk ++ dk_bytes (mlkem sk).

Definition SecretKey_from_bytes (bytes : list byte) : decode_result SecretKey :=
  _ ← bail_if (negb (len bytes =? Wire.KEM_SECRET_KEY_BYTES)) reject;
  x25519 ← slice_or_panic bytes 0 Wire.X25519_KEY_BYTES;
  mlkem_bytes ← slice_or_panic bytes Wire.X25519_KEY_BYTES (len bytes);
  dk ← ok_or (dk_from_expanded mlkem_bytes) reject;
  Ok {| sk_x25519 := x25519; mlkem := dk |}.

Definition public_key (sk : SecretKey) : PublicKey :=
  PublicKey_from_parts (x25519_public (sk_x25519 sk)) (ek_of (mlkem sk)).

Definition keygen (rnd : list byte * list byte) : PublicKey * SecretKey :=
  let x25519_sk := rnd.1 in
  let mlkem_sk := mlkem_generate rnd.2 in
  (PublicKey_from_parts (x25519_public x25519_sk) (ek_of mlkem_sk),
   {| sk_x25519 := x25519_sk; mlkem := mlkem_sk |}).

Definition encapsulate (rnd : kem_draws) (pk : PublicKey) :
    result (fault EncodingError) (list byte * list byte) :=
  x25519_eph ← ok_or rnd.1 Panic;
  let x25519_eph_pk := x25519_public x25519_eph in
  let x25519_ss := x25519_dh x25519_eph (pk_x25519 pk) in
  _ ← bail_if (negb (was_contributory x25519_ss)) (Fail mkEncodingError);
  ek ← mlkem_pk pk;
  m ← ok_or rnd.2 Panic;
  let '(mlkem_ct, mlkem_ss) := mlkem_encapsulate m ek in
  Ok (x25519_ss ++ mlkem_ss, x25519_eph_pk ++ mlkem_ct).

Definition decapsulate (sk : SecretKey) (ct : list byte) : decode_result (list byte) :=
  _ ← bail_if (negb (len ct =? Wire.KEM_CIPHERTEXT_BYTES)) reject;
  x25519_epk ← slice_or_panic ct 0 Wire.X25519_KEY_BYTES;
  mlkem_ct ← slice_or_panic ct Wire.X25519_KEY_BYTES (len ct);
  let x25519_ss := x25519_dh (sk_x25519 sk) x25519_epk in
  _ ← bail_if (negb (was_contributory x25519_ss)) reject;
  let mlkem_ss := mlkem_decapsulate (mlkem sk) mlkem_ct in
  Ok (x25519_ss ++ mlkem_ss).

#[global] Instance HybridX25519MlKem768Provider : KemProvider := {|
  WireV2.SUITE_KEM := Wire.SUITE_KEM_HYBRID_X25519_MLKEM768;
  K_KEM_CIPHERTEXT_BYTES := Wire.KEM_CIPHERTEXT_BYTES;
  WireV2.PublicKey := PublicKey;
  WireV2.SecretKey := SecretKey;
  WireV2.keygen rnd := Some (keygen rnd);
  WireV2.encapsulate := encapsulate;
  WireV2.decapsulate := decapsulate;
  public_key_bytes := PublicKey_to_bytes;
  public_key_of sk := Some (public_key sk);
|}.



Lemma decapsulate_never_panics sk ct : decapsulate sk ct <> Err Panic.
Proof. unfold decapsulate. no_panic; sizes; lia. Qed.

Context {PL : PrimitiveLaws P}.

(** Every public key the module hands out parses again, so the [expect] of
    [mlkem_pk] cannot fail. *)
Definition valid_public_key (pk : PublicKey) : Prop :=
  len (pk_x25519 pk) = 32 /\ len (mlkem_bytes pk) = 1184 /\ is_Some (ek_new (mlkem_bytes pk)).

Lemma public_key_valid sk : valid_public_key (public_key sk).
Proof.
  unfold valid_public_key, public_key; cbn.
  rewrite length_x25519_public, length_ek_bytes, ek_new_bytes. eauto.
Qed.

Lemma PublicKey_from_bytes_valid bs pk :
  PublicKey_from_bytes bs = Ok pk -> valid_public_key pk /\ PublicKey_to_bytes pk = bs.
Proof.
  unfold PublicKey_from_bytes. intros H. inv_ok H. bool_hyps. decoded_pieces. sizes.
  split; [split_and!; cbn; [lia|lia|eauto]|]. apply slice_full. unfold PublicKey_to_bytes.
  slice_chain.
Qed.

(** With both draws at hand. *)
Lemma encapsulate_never_panics e m pk :
  valid_public_key pk -> encapsulate (Some e, Some m) pk <> Err Panic.
Proof.
  intros (_ & _ & ek & Hek). unfold encapsulate, mlkem_pk. rewrite Hek. cbn.
  no_panic. by destruct (mlkem_encapsulate _ _).
Qed.

Theorem PublicKey_roundtrip pk :
  valid_public_key pk -> PublicKey_from_bytes (PublicKey_to_bytes pk) = Ok pk.
Proof.
  intros (H1 & H2 & ek & H3). unfold PublicKey_from_bytes, PublicKey_to_bytes, slice_or_panic.
  rewrite slice_prefix, slice_to_end by (rewrite ?length_app; sizes; lia).
  rewrite length_app, (proj2 (Z.eqb_eq _ _)) by (sizes; lia). cbn. rewrite H3. by destruct pk.
Qed.

Theorem SecretKey_roundtrip sk :
  len (sk_x25519 sk) = 32 -> SecretKey_from_bytes (SecretKey_to_bytes sk) = Ok sk.
Proof.
  intros H1. pose proof (length_dk_bytes (mlkem sk)) as H2.
  unfold SecretKey_from_bytes, SecretKey_to_bytes, slice_or_panic.
  rewrite slice_prefix, slice_to_end by (rewrite ?length_app; sizes; lia).
  rewrite length_app, (proj2 (Z.eqb_eq _ _)) by (sizes; lia). cbn.
  rewrite dk_from_bytes. by destruct sk.
Qed.

(** What an encapsulation is made of. *)
Lemma encapsulate_parts rnd pk ss ct :
  encapsulate rnd pk = Ok (ss, ct) ->
  exists e m ek mct mss, ek_new (mlkem_bytes pk) = Some ek /\ mlkem_encapsulate m ek = (mct, mss) /\
    was_contributory (x25519_dh e (pk_x25519 pk)) = true /\
    ss = x25519_dh e (pk_x25519 pk) ++ mss /\ ct = x25519_public e ++ mct.
Proof.
  unfold encapsulate, mlkem_pk. intros H. inv_ok H. bool_hyps. simplify_eq. by repeat eexists.
Qed.

#[global] Instance hybrid_laws : KemLaws HybridX25519MlKem768Provider.
Proof.
  constructor; cbn -[Z.of_nat].
  - intros rnd pk ss ct (e & m & ek & mct & mss & _ & Em & _ & _ & ->)%encapsulate_parts.
    pose proof (length_mlkem_ct m ek) as Hc. rewrite Em in Hc. cbn in Hc.
    rewrite length_app. pose proof (length_x25519_public e). sizes. lia.
  - by eexists.
  - intros rnd sk pk ss ct [= <-] (e & m & ek & mct & mss & Hek & Em & Hw & -> & ->)%encapsulate_parts.
    cbn in Hek. rewrite ek_new_bytes in Hek. injection Hek as <-.
    pose proof (length_mlkem_ct m (ek_of (mlkem sk))) as Hc.
    pose proof (mlkem_correct m (mlkem sk)) as Hm. rewrite Em in Hc, Hm; cbn in Hc, Hm.
    pose proof (length_x25519_public e) as Hx1.
    unfold decapsulate, slice_or_panic.
    rewrite length_app, (proj2 (Z.eqb_eq _ _)) by (sizes; lia).
    rewrite slice_prefix, slice_to_end by (rewrite ?length_app; sizes; lia).
    cbn. rewrite x25519_comm. cbn in Hw. by rewrite Hw, Hm.
  - apply decapsulate_never_panics.
Qed.
End kem.
End Kem.

Section laws.
Context {P : Primitives} {PL : PrimitiveLaws P}.

#[export] Instance rustcrypto_aead_laws : AeadLaws RustCryptoBackend.
Proof.
  constructor; cbn -[Z.of_nat]; unfold backend_aead_seal, aead_seal, aead_open, nonce.
  - intros rnd k p a n c Hr H. inv_ok H. simplify_eq. cbn in Hr.
    split; [done|by eapply gcm_size].
  - intros rnd k p a n c H. inv_ok H. simplify_eq. by erewrite gcm_correct.
  - intros. apply length_Sha3_256.
Qed.
End laws.
