(* ===== verification/Envelope.v ===== *)
(** * Engine, canonical builders and SDK
    ([lib.rs] engine, [aad.rs], [envelope.rs], builders and [inspect] of [sdk.rs])

    The engine seals CTD2 envelopes and opens both CTD2 and v1 ones; the
    builders produce the byte strings that separate domains. *)

From S2P Require Import Prelude.
From S2P Require Import Wire.
From S2P Require Import WireV2.
From S2P Require Import Crypto.

(** ** [aad.rs] *)

Module AadBuilder.

Definition CONTEXT_PREFIX : list byte := bytes_of_string "citadel|ctx|v1|".
Definition AAD_PREFIX : list byte := bytes_of_string "citadel|aad|v1".

Inductive AadTlvType := SenderId | RecipientId | Route | TimestampUnixMs | Sequence | MsgId16.

(** [t as u8]. *)
Definition tlv_code (t : AadTlvType) : byte :=
  match t with
  | SenderId => Byte.x01 | RecipientId => Byte.x02 | Route => Byte.x03
  | TimestampUnixMs => Byte.x04 | Sequence => Byte.x05 | MsgId16 => Byte.x06
  end.

(** [&s.as_bytes()[..s.len().min(u16::MAX as usize)]]. *)
Definition truncate_u16 (s : string) : list byte :=
  take (Z.to_nat (Z.min (len (bytes_of_string s)) U16_MAX)) (bytes_of_string s).

Definition build_context (env purpose : string) : list byte :=
  let env_b := truncate_u16 env in
  let purpose_b := truncate_u16 purpose in
  CONTEXT_PREFIX ++ u16_be (len env_b mod 2 ^ 16) ++ env_b
    ++ u16_be (len purpose_b mod 2 ^ 16) ++ purpose_b.

Definition push_tlv (out : list byte) (t : AadTlvType) (v : list byte) :
    result EncodingError (list byte) :=
  _ ← bail_if (U16_MAX <? len v) mkEncodingError;
  Ok (out ++ [tlv_code t] ++ u16_be (len v mod 2 ^ 16) ++ v).

Definition build_aad (sender_id recipient_id route : string) (ts_unix_ms seq : Z)
    (msg_id : list byte) : result EncodingError (list byte) :=
  out ← push_tlv AAD_PREFIX SenderId (bytes_of_string sender_id);
  out ← push_tlv out RecipientId (bytes_of_string recipient_id);
  out ← push_tlv out Route (bytes_of_string route);
  out ← push_tlv out TimestampUnixMs (u64_be ts_unix_ms);
  out ← push_tlv out Sequence (u64_be seq);
  push_tlv out MsgId16 msg_id.

(** *** Injectivity *)

Lemma truncate_u16_len s : len (truncate_u16 s) <= U16_MAX.
Proof. unfold truncate_u16, U16_MAX. rewrite length_take. lia. Qed.

Lemma truncate_u16_id s : len (bytes_of_string s) <= U16_MAX -> truncate_u16 s = bytes_of_string s.
Proof. intros. unfold truncate_u16. rewrite Z.min_l, Nat2Z.id by done. apply firstn_all. Qed.

Lemma bytes_of_string_app s t : bytes_of_string (s ++ t)%string = bytes_of_string s ++ bytes_of_string t.
Proof.
  induction s as [|c s IH]; [done|]. exact (f_equal (cons (Ascii.byte_of_ascii c)) IH).
Qed.

(** A field as [lp] writes it. *)
Lemma u16_mod_lp v : len v <= U16_MAX -> u16_be (len v mod 2 ^ 16) ++ v = lp 2 v.
Proof. intros. unfold lp, U16_MAX in *. by rewrite Z.mod_small by lia. Qed.

Lemma build_context_lp env purpose :
  build_context env purpose =
  CONTEXT_PREFIX ++ lp 2 (truncate_u16 env) ++ lp 2 (truncate_u16 purpose).
Proof.
  unfold build_context. pose proof (truncate_u16_len env). pose proof (truncate_u16_len purpose).
  rewrite u16_mod_lp by done. rewrite (assoc_L (++) (u16_be _) (truncate_u16 env)), u16_mod_lp by done.
  done.
Qed.

Lemma build_context_inj env1 p1 env2 p2 :
  build_context env1 p1 = build_context env2 p2 ->
  truncate_u16 env1 = truncate_u16 env2 /\ truncate_u16 p1 = truncate_u16 p2.
Proof.
  pose proof (truncate_u16_len env1). pose proof (truncate_u16_len env2).
  pose proof (truncate_u16_len p1). pose proof (truncate_u16_len p2). unfold U16_MAX in *.
  rewrite !build_context_lp. intros E%app_inv_head.
  apply lp_app_inj in E as [E1 E2]; [|cbn; lia..].
  apply lp_inj in E2; [done|cbn; lia..].
Qed.

(** Distinct (environment, purpose) pairs of at most 65535 bytes each have
    distinct contexts. *)
Theorem build_context_injective env1 p1 env2 p2 :
  len (bytes_of_string env1) <= U16_MAX -> len (bytes_of_string p1) <= U16_MAX ->
  len (bytes_of_string env2) <= U16_MAX -> len (bytes_of_string p2) <= U16_MAX ->
  build_context env1 p1 = build_context env2 p2 -> env1 = env2 /\ p1 = p2.
Proof.
  intros ???? [E1 E2]%build_context_inj. rewrite !truncate_u16_id in * by done.
  split; by apply bytes_of_string_inj.
Qed.

Lemma push_tlv_shape out t v out' :
  push_tlv out t v = Ok out' -> len v <= U16_MAX /\ out' = out ++ [tlv_code t] ++ lp 2 v.
Proof. unfold push_tlv. intros H. inv_ok H. bool_hyps. by rewrite u16_mod_lp. Qed.

Lemma build_aad_shape s r rt ts seq id a :
  build_aad s r rt ts seq id = Ok a ->
  a = AAD_PREFIX ++ [Byte.x01] ++ lp 2 (bytes_of_string s) ++ [Byte.x02] ++ lp 2 (bytes_of_string r)
        ++ [Byte.x03] ++ lp 2 (bytes_of_string rt) ++ [Byte.x04] ++ lp 2 (u64_be ts)
        ++ [Byte.x05] ++ lp 2 (u64_be seq) ++ [Byte.x06] ++ lp 2 id /\
  len (bytes_of_string s) <= U16_MAX /\ len (bytes_of_string r) <= U16_MAX /\
  len (bytes_of_string rt) <= U16_MAX /\ len id <= U16_MAX.
Proof.
  unfold build_aad. intros H. inv_ok H.
  repeat match goal with H : push_tlv _ _ _ = Ok _ |- _ =>
    apply push_tlv_shape in H as [? ?] end. subst.
  split; [|done]. cbn [tlv_code]. by rewrite <- !(assoc_L (++)).
Qed.

(** The tagged associated data built for a message determines every field it was
    built from. *)
Theorem build_aad_injective s1 r1 rt1 ts1 q1 id1 s2 r2 rt2 ts2 q2 id2 a :
  0 <= ts1 <= U64_MAX -> 0 <= ts2 <= U64_MAX -> 0 <= q1 <= U64_MAX -> 0 <= q2 <= U64_MAX ->
  build_aad s1 r1 rt1 ts1 q1 id1 = Ok a -> build_aad s2 r2 rt2 ts2 q2 id2 = Ok a ->
  s1 = s2 /\ r1 = r2 /\ rt1 = rt2 /\ ts1 = ts2 /\ q1 = q2 /\ id1 = id2.
Proof.
  unfold U64_MAX. intros ???? (E1 & ? & ? & ? & ?)%build_aad_shape (E2 & ? & ? & ? & ?)%build_aad_shape.
  unfold U16_MAX in *. rewrite E1 in E2. apply app_inv_head in E2.
  do 6 (apply app_inv_head in E2;
        first [apply lp_app_inj in E2 as [?E E2]; [|rewrite ?length_be_bytes; cbn; lia..]
              |apply lp_inj in E2; [|cbn; lia..]]).
  apply be_bytes_inj in E4, E5; [|cbn; lia..]. by repeat split; try apply bytes_of_string_inj.
Qed.

(** Beyond the 65535-byte truncation the environment no longer separates
    contexts: everything after that point is dropped. *)
Theorem build_context_truncates env suffix purpose :
  U16_MAX <= len (bytes_of_string env) ->
  build_context (env ++ suffix)%string purpose = build_context env purpose.
Proof.
  intros H. assert (E : truncate_u16 (env ++ suffix) = truncate_u16 env).
  { unfold truncate_u16. rewrite bytes_of_string_app.
    rewrite !Z.min_r by (rewrite ?length_app; lia). by rewrite take_app_le by lia. }
  unfold build_context. by rewrite E.
Qed.

End AadBuilder.

(** ** The engine ([Citadel<K>] of [lib.rs]) *)

Module Engine.
Section engine.
Context {P : Primitives} {K : KemProvider}.

Definition encrypt kem_rnd aead_rnd pk plaintext aad context :
    result (fault EncodingError) (list byte) :=
  WireV2.seal kem_rnd aead_rnd pk plaintext aad context.

Definition decrypt (sk : WireV2.SecretKey) (ciphertext aad context : list byte) :
    decode_result (list byte) :=
  if starts_with ciphertext WireV2.MAGIC then WireV2.open sk ciphertext aad context
  else
    parts ← Wire.decode_wire ciphertext;
    shared_secret ← WireV2.decapsulate sk (Wire.kem_ciphertext parts);
    let ct_hash := ct_hash (Wire.kem_ciphertext parts) in
    aes_key ← map_err (fun _ => reject) (derive_key shared_secret ct_hash context);
    map_err Fail (aead_open aes_key (Wire.nonce parts) (Wire.aead_ciphertext parts) aad).

(** Compiled with the feature [legacy-envelope-v1]. *)
Definition encrypt_v1_compat kem_rnd (aead_rnd : option (list byte)) (pk : WireV2.PublicKey)
    (plaintext aad context : list byte) : result (fault EncodingError) (list byte) :=
  enc ← WireV2.encapsulate kem_rnd pk;
  let '(shared_secret, kem_ct) := enc in
  aes_key ← map_err Fail (derive_key shared_secret (ct_hash kem_ct) context);
  nonce ← map_err Fail (nonce aead_rnd);
  aead_ct ← map_err Fail (aead_seal aes_key nonce plaintext aad);
  map_err Fail (Wire.encode_wire kem_ct nonce aead_ct).

Context {PL : PrimitiveLaws P} {KL : KemLaws K}.

Lemma seal_magic r1 r2 pk pt aad ctx out :
  WireV2.seal r1 r2 pk pt aad ctx = Ok out -> starts_with out WireV2.MAGIC = true.
Proof.
  unfold WireV2.seal, WireV2.encode_header, WireV2.encode, WireV2.up. intros H. inv_ok H.
  apply bool_decide_eq_true. done.
Qed.

Lemma decode_wire_not_magic data c :
  Wire.decode_wire data = Ok c -> starts_with data WireV2.MAGIC = false.
Proof.
  intros (_ & _ & (-> & _)%Wire.decode_wire_raw_layout)%Wire.decode_wire_layout.
  by apply bool_decide_eq_false.
Qed.

Lemma open_sealed r1 r2 sk pk pt aad ctx out :
  nonce_draw r2 -> WireV2.public_key_of sk = Some pk ->
  encrypt r1 r2 pk pt aad ctx = Ok out -> decrypt sk out aad ctx = Ok pt.
Proof.
  intros Hr Hpk H. unfold decrypt. rewrite (seal_magic _ _ _ _ _ _ _ H). by eapply WireV2.open_seal.
Qed.

(** C11: What the engine encrypts to a key it decrypts with that key, under the same
    associated data and context, whatever randomness was drawn. *)
Theorem decrypt_encrypt r1 r2 sk pk pt aad ctx out :
  nonce_draw r2 -> WireV2.public_key_of sk = Some pk ->
  encrypt r1 r2 pk pt aad ctx = Ok out ->
  decrypt sk out aad ctx = Ok pt.
Proof. apply open_sealed. Qed.

(** Envelopes of the legacy format, written by the compatibility encryptor, are
    still decrypted by the current engine, which tells the two formats apart by the
    magic bytes. *)
Theorem decrypt_encrypt_v1 r1 r2 sk pk pt aad ctx out :
  nonce_draw r2 -> WireV2.public_key_of sk = Some pk ->
  encrypt_v1_compat r1 r2 pk pt aad ctx = Ok out ->
  decrypt sk out aad ctx = Ok pt.
Proof.
  unfold encrypt_v1_compat. intros Hr Hpk H. inv_ok H.
  unfold nonce in *. inv_ok Hx1. subst r2. cbn in Hr.
  assert (Hd : Wire.decode_wire out = Ok {|
    Wire.version := Wire.PROTOCOL_VERSION;
    Wire.wc_suite_kem := Wire.SUITE_KEM_HYBRID_X25519_MLKEM768;
    Wire.wc_suite_aead := Wire.SUITE_AEAD_AES256GCM; Wire.flags := Wire.FLAGS_V1;
    Wire.kem_ct_len := Wire.KEM_CIPHERTEXT_BYTES; Wire.kem_ciphertext := b;
    Wire.nonce := x0; Wire.aead_ciphertext := x1 |}) by (by apply Wire.decode_wire_iff_encode).
  unfold decrypt. rewrite (decode_wire_not_magic _ _ Hd), Hd. cbn.
  erewrite decapsulate_encapsulate by done. cbn. rewrite Hx0. cbn.
  unfold aead_seal, aead_open in *. inv_ok Hx2. by erewrite gcm_correct.
Qed.

Lemma decrypt_never_panics sk ct aad ctx : decrypt sk ct aad ctx <> Err Panic.
Proof.
  unfold decrypt. destruct (starts_with _ _); [apply WireV2.open_never_panics|].
  no_panic; try apply Wire.decode_wire_never_panics; try apply decapsulate_no_panic.
  - by destruct (derive_key _ _ _).
  - by destruct (aead_open _ _ _ _).
Qed.
End engine.
End Engine.

(** ** [envelope.rs]: sealing under the locked conventions *)

Module Facade.
Import AadBuilder.

(** [aad::generate_msg_id]. *)
Definition generate_msg_id (getrandom : option (list byte)) : result EncodingError (list byte) :=
  ok_or getrandom mkEncodingError.

Section facade.
Context {P : Primitives} {K : KemProvider}.

Definition seal_internal kem_rnd aead_rnd (pk : WireV2.PublicKey) (plaintext : list byte)
    (env purpose sender_id recipient_id route : string) (ts_unix_ms seq : Z) (msg_id : list byte) :
    result (fault EncodingError) (list byte) :=
  let ctx := build_context env purpose in
  aad_bytes ← map_err Fail (build_aad sender_id recipient_id route ts_unix_ms seq msg_id);
  Engine.encrypt kem_rnd aead_rnd pk plaintext aad_bytes ctx.

Definition open_internal (sk : WireV2.SecretKey) (ciphertext : list byte)
    (env purpose sender_id recipient_id route : string) (ts_unix_ms seq : Z) (msg_id : list byte) :
    decode_result (list byte) :=
  let ctx := build_context env purpose in
  aad_bytes ← map_err (fun _ => reject) (build_aad sender_id recipient_id route ts_unix_ms seq msg_id);
  Engine.decrypt sk ciphertext aad_bytes ctx.

Context {PL : PrimitiveLaws P} {KL : KemLaws K}.

(** A message opens under the fields it was sealed with, and sealing under fields of 65536 bytes
    or more fails; but fields of the context that agree up to their length limit are
    interchangeable ([build_context_truncates]). *)
Theorem open_seal_internal r1 r2 sk pk pt env purpose s r rt ts q m ct :
  nonce_draw r2 -> WireV2.public_key_of sk = Some pk ->
  seal_internal r1 r2 pk pt env purpose s r rt ts q m = Ok ct ->
  open_internal sk ct env purpose s r rt ts q m = Ok pt /\
  len (bytes_of_string s) <= U16_MAX /\ len (bytes_of_string r) <= U16_MAX /\ len (bytes_of_string rt) <= U16_MAX.
Proof.
  unfold seal_internal, open_internal. intros Hr Hpk H. inv_ok H. rewrite Hx. cbn. split; [by eapply Engine.open_sealed|].
  unfold build_aad, push_tlv in Hx. inv_ok Hx. bool_hyps. lia.
Qed.
End facade.
End Facade.

(** ** [sdk.rs] *)

Module Sdk.

(** [Aad] and [Context] wrap a byte vector. *)
Definition aad_for_storage (bucket object_id : string) (version : Z) : list byte :=
  bytes_of_string ("storage|" +:+ bucket +:+ "|" +:+ object_id +:+ "|v" +:+ pretty version).
Definition aad_for_database (table row_id column : string) : list byte :=
  bytes_of_string ("db|" +:+ table +:+ "|" +:+ row_id +:+ "|" +:+ column).
Definition aad_for_backup (system : string) (timestamp_unix : Z) : list byte :=
  bytes_of_string ("backup|" +:+ system +:+ "|" +:+ pretty timestamp_unix).
Definition aad_for_message (sender recipient msg_id : string) : list byte :=
  bytes_of_string ("msg|" +:+ sender +:+ "|" +:+ recipient +:+ "|" +:+ msg_id).
Definition context_for_application (app_name environment : string) : list byte :=
  bytes_of_string ("app|" +:+ app_name +:+ "|" +:+ environment).
Definition context_for_backup (system : string) (epoch : Z) : list byte :=
  bytes_of_string ("backup|" +:+ system +:+ "|epoch" +:+ pretty epoch).
Definition context_for_service (from to protocol_version : string) : list byte :=
  bytes_of_string ("service|" +:+ from +:+ "|" +:+ to +:+ "|" +:+ protocol_version).
Definition context_for_secrets (namespace key_id : string) : list byte :=
  bytes_of_string ("secrets|" +:+ namespace +:+ "|" +:+ key_id).

Record CiphertextInfo := {
  version : byte;
  kem_suite : string;
  aead_suite : string;
  total_bytes : Z;
  plaintext_bytes : Z;
  streaming : bool;
}.

Definition kem_suite_name (b : byte) : string :=
  if bool_decide (b = Wire.SUITE_KEM_HYBRID_X25519_MLKEM768) then "X25519+ML-KEM-768"
  else "unknown".
Definition aead_suite_name (b : byte) : string :=
  if bool_decide (b = Wire.SUITE_AEAD_AES256GCM) then "AES-256-GCM" else "unknown".

Definition inspect (ciphertext : list byte) : decode_result CiphertextInfo :=
  if starts_with ciphertext WireV2.MAGIC then
    parts ← WireV2.decode ciphertext;
    let b := Wire.suite_kem (WireV2.suite parts) in
    let kem_suite :=
      if bool_decide (b = Wire.SUITE_KEM_HYBRID_X25519_MLKEM768) then "X25519+ML-KEM-768"
      else if bool_decide (b = Wire.SUITE_KEM_HYBRID_P384_MLKEM1024) then "P-384+ML-KEM-1024"
      else "unknown" in
    Ok {| version := WireV2.VERSION; kem_suite := kem_suite; aead_suite := "AES-256-GCM";
          total_bytes := len ciphertext; plaintext_bytes := WireV2.plaintext_len parts;
          streaming := false |}
  else
    version_byte ← ok_or (head ciphertext) reject;
    if bool_decide (version_byte = Wire.STREAM_VERSION) then
      header ← Wire.decode_stream_header ciphertext;
      Ok {| version := Wire.sh_version header;
            kem_suite := kem_suite_name (Wire.sh_suite_kem header);
            aead_suite := aead_suite_name (Wire.sh_suite_aead header);
            total_bytes := len ciphertext; plaintext_bytes := 0; streaming := true |}
    else
      parts ← Wire.decode_wire_raw ciphertext;
      let kem_suite := kem_suite_name (Wire.wc_suite_kem parts) in
      let aead_suite := aead_suite_name (Wire.wc_suite_aead parts) in
      _ ← Wire.check_v1_suites parts;
      let plaintext_bytes := saturating_sub (len ciphertext) Wire.MIN_CIPHERTEXT_BYTES in
      Ok {| version := Wire.version parts; kem_suite := kem_suite; aead_suite := aead_suite;
            total_bytes := len ciphertext; plaintext_bytes := plaintext_bytes;
            streaming := false |}.

Lemma inspect_never_panics data : inspect data <> Err Panic.
Proof.
  unfold inspect, Wire.check_v1_suites. destruct (starts_with _ _).
  - no_panic. apply WireV2.decode_never_panics.
  - no_panic. destruct (bool_decide _).
    + no_panic. apply Wire.decode_stream_header_never_panics.
    + no_panic. apply Wire.decode_wire_raw_never_panics.
Qed.

(** No byte string, however malformed, makes a parser or the engine index out of
    range: every decoder of the crate returns an error value instead. *)
Theorem decoders_never_panic {P : Primitives} {PL : PrimitiveLaws P}
    (sk : Kem.SecretKey) (data aad ctx : list byte) :
  Wire.decode_wire data <> Err Panic /\ Wire.decode_stream_header data <> Err Panic /\
  WireV2.decode data <> Err Panic /\ WireV2.envelope_nonce data <> Err Panic /\
  inspect data <> Err Panic /\ Kem.PublicKey_from_bytes data <> Err Panic /\
  Kem.SecretKey_from_bytes data <> Err Panic /\
  Engine.decrypt (K := Kem.HybridX25519MlKem768Provider) sk data aad ctx <> Err Panic.
Proof.
  split_and!.
  - apply Wire.decode_wire_never_panics.
  - apply Wire.decode_stream_header_never_panics.
  - apply WireV2.decode_never_panics.
  - unfold WireV2.envelope_nonce. destruct (starts_with _ _); no_panic;
      auto using WireV2.decode_never_panics, Wire.decode_wire_never_panics.
  - apply inspect_never_panics.
  - unfold Kem.PublicKey_from_bytes. no_panic; Kem.sizes; lia.
  - unfold Kem.SecretKey_from_bytes. no_panic; Kem.sizes; lia.
  - apply Engine.decrypt_never_panics.
Qed.

(** What [inspect] reports about an envelope that opens is true of it. *)
Theorem inspect_of_opened {P : Primitives} {PL : PrimitiveLaws P} {K : KemProvider}
    (sk : WireV2.SecretKey) (data aad ctx pt : list byte) :
  Engine.decrypt sk data aad ctx = Ok pt ->
  exists info, inspect data = Ok info /\ streaming info = false /\
    plaintext_bytes info = len pt /\ total_bytes info = len data.
Proof.
  unfold Engine.decrypt, inspect. destruct (starts_with _ _) eqn:Hm.
  - intros (p & ? & ? & ? & ? & ? & -> & _ & _ & _ & _ & Hl & _)%WireV2.open_Ok.
    eexists; split; [done|]. cbn -[Z.of_nat]. by rewrite Hl.
  - intros H. inv_ok H. apply Wire.decode_wire_layout in Hx as (Hk & Ha & Hr).
    pose proof Hr as (Hd & Hv & _ & _ & Hkl & Hnl & _)%Wire.decode_wire_raw_layout.
    assert (Hh : head data = Some Wire.PROTOCOL_VERSION) by (rewrite Hd; done).
    assert (Hc : Wire.check_v1_suites x = Ok ())
      by (unfold Wire.check_v1_suites; rewrite Hk, Ha; done).
    rewrite Hh; cbn [ok_or mbind result_bind]. rewrite bool_decide_false by done.
    rewrite Hr; cbn [mbind result_bind]. rewrite Hc; cbn [mbind result_bind].
    eexists; split; [done|]. cbn [streaming plaintext_bytes total_bytes].
    split_and!; [done| |done].
    unfold aead_open in H. inv_ok H. apply gcm_decrypt_size in H.
    rewrite Hd at 1. rewrite !length_app.
    change (length (Wire.v1_header _ _ _)) with 6%nat. unfold saturating_sub.
    Wire.unfold_sizes. lia.
Qed.

(** The delimiter-separated builders are not injective: a separator inside an
    identifier moves the boundary between two fields. *)
Theorem sdk_builders_collide (x y z : string) :
  context_for_application (x +:+ "|" +:+ y) z = context_for_application x (y +:+ "|" +:+ z) /\
  context_for_secrets (x +:+ "|" +:+ y) z = context_for_secrets x (y +:+ "|" +:+ z) /\
  aad_for_storage (x +:+ "|" +:+ y) z 1 = aad_for_storage x (y +:+ "|" +:+ z) 1 /\
  aad_for_database (x +:+ "|" +:+ y) z "c" = aad_for_database x (y +:+ "|" +:+ z) "c".
Proof.
  unfold context_for_application, context_for_secrets, aad_for_storage, aad_for_database.
  assert (A : forall a b c : string, (a +:+ b) +:+ c = a +:+ b +:+ c)
    by (intros a b c; induction a as [|ch a IH]; [done|]; exact (f_equal (String.String ch) IH)).
  by rewrite !A.
Qed.

End Sdk.
