(* ===== verification/EncryptTool.v ===== *)
(** * The file encryption tool ([citadel-envelope/src/bin/citadel-encrypt.rs])

    Every command is a process over the files of a disk; [locate] is the file
    that the system takes a path to.  A process that dies leaves what it wrote. *)

From S2P Require Import Prelude.
From S2P Require Import Text.
From S2P Require Import Wire.
From S2P Require Import WireV2.
From S2P Require Import Crypto.
From S2P Require Import Envelope.

Module EncryptTool.

Record File := mkFile { content : list byte; mode : Z }.
Notation Disk := (gmap string File).

(** How the system answers one process: a write may be refused, or stop after
    some bytes. *)
Inductive Writing := Written | Refused (e : string) | Torn (n : nat) (e : string).
Record Env := mkEnv {
  umask : Z;
  reading : string -> option string;
  writing : string -> Writing;
}.

(** A process: [Err] is the message it dies with, or a panic. *)
Definition M (A : Type) : Type := Disk -> Disk * result (fault string) A.
#[global] Instance m_ret : MRet M := fun A a d => (d, Ok a).
#[global] Instance m_bind : MBind M := fun A B f m d =>
  match m d with (d', Ok a) => f a d' | (d', Err e) => (d', Err e) end.
Definition pure {A} (r : result (fault string) A) : M A := fun d => (d, r).
Definition die {A} (msg : string) : M A := pure (Err (Fail msg)).

(** [unwrap_or_else(|_| die(msg))]; a panic stays one. *)
Definition or_die {E A} (r : result (fault E) A) (msg : string) : M A :=
  pure (map_err (fun e => match e with Fail _ => Fail msg | Panic => Panic end) r).

Section tool.
Context {P : Primitives} (locate : string -> string).

(** [fs::read] and [fs::write]; a new file gets the mode 0666 less the umask. *)
Definition fs_read (e : Env) (path : string) : M (list byte) := fun d =>
  match reading e path, d !! locate path with
  | None, Some f => (d, Ok (content f))
  | None, None => (d, Err (Fail ("read " +:+ path +:+ ": No such file or directory (os error 2)")))
  | Some x, _ => (d, Err (Fail ("read " +:+ path +:+ ": " +:+ x)))
  end.

Definition created_mode (e : Env) (o : option File) : Z :=
  match o with Some f => mode f | None => Z.land 438 (Z.lnot (umask e)) end.

Definition fs_write (e : Env) (path : string) (data : list byte) : M unit := fun d =>
  let store c := <[locate path := mkFile c (created_mode e (d !! locate path))]> d in
  match writing e path with
  | Written => (store data, Ok ())
  | Refused x => (d, Err (Fail ("write " +:+ path +:+ ": " +:+ x)))
  | Torn n x => (store (take n data), Err (Fail ("write " +:+ path +:+ ": " +:+ x)))
  end.

(** ** Arguments *)

Definition Flags := list (string * string).

Fixpoint parse_flags (args : list string) : result (fault string) Flags :=
  match args with
  | [] => Ok []
  | k :: v :: rest =>
      if str_starts_with k "--" then flags ← parse_flags rest; Ok ((k, v) :: flags)
      else Err (Fail ("unexpected argument: " +:+ k))
  | [k] => Err (Fail ("unexpected argument: " +:+ k))
  end.

Definition parse_args (args : list string) : result (fault string) (string * Flags) :=
  match args with
  | _ :: command :: rest => flags ← parse_flags rest; Ok (command, flags)
  | _ => Err (Fail "usage")
  end.

Definition get_flag (flags : Flags) (name : string) : option string :=
  snd <$> List.find (fun kv => bool_decide (kv.1 = name)) flags.

Definition require_flag (flags : Flags) (name : string) : M string :=
  match get_flag flags name with
  | Some v => mret v
  | None => die ("missing required flag: " +:+ name)
  end.

(** ** Paths *)

(** [trim_end_matches]: every occurrence of the suffix at the end. *)
Fixpoint trim_end_fuel (n : nat) (s x : string) : string :=
  match n with
  | S n => if Text.ends_with s x then trim_end_fuel n (str_take (String.length s - String.length x) s) x else s
  | O => s
  end.
Definition trim_end_matches (s x : string) : string := trim_end_fuel (String.length s) s x.

(** [Path::components], by which [PathBuf]s compare: the root, then the names
    between slashes, without empty ones and without dots but a leading one. *)
Fixpoint names (s : string) : list string :=
  match s with
  | EmptyString => [""]
  | String.String c s =>
      if Ascii.eqb c (Ascii.ascii_of_nat 47) then "" :: names s
      else match names s with x :: l => String.String c x :: l | [] => [String.String c ""] end
  end.
Definition named (l : list string) : list string := filter (fun x => x <> "" /\ x <> ".") l.
Definition components (s : string) : list string :=
  match names s with
  | h :: l =>
      if bool_decide (h = "" /\ l <> []) then "/" :: named l
      else if bool_decide (h = ".") then "." :: named l
      else named (h :: l)
  | [] => []
  end.

Definition sealed_path (in_file : string) : string := in_file +:+ ".ctd".
Definition opened_path (in_file : string) : string :=
  if Text.ends_with in_file ".ctd" then trim_end_matches in_file ".ctd" else in_file +:+ ".dec".

(** ** The commands *)

(** [None]: the random source fails. *)
Definition cmd_keygen (e : Env) (rnd : option (list byte * list byte)) (flags : Flags) : M unit :=
  name ← require_flag flags "--name";
  rnd ← pure (ok_or rnd Panic);
  let '(pk, sk) := Kem.keygen rnd in
  let pub_path := name +:+ ".pub" in
  let sec_path := name +:+ ".sec" in
  _ ← fs_write e pub_path (Kem.PublicKey_to_bytes pk);
  fs_write e sec_path (Kem.SecretKey_to_bytes sk).

Definition cmd_seal (e : Env) kem_rnd aead_rnd (flags : Flags) : M unit :=
  key_file ← require_flag flags "--key";
  in_file ← require_flag flags "--in";
  let aad_str := default ""%string (get_flag flags "--aad") in
  let ctx_str := default "citadel-cli-v1"%string (get_flag flags "--ctx") in
  let out_file := sealed_path in_file in
  pk_bytes ← fs_read e key_file;
  pk ← or_die (Kem.PublicKey_from_bytes pk_bytes) "invalid public key file";
  plaintext ← fs_read e in_file;
  ciphertext ← or_die (Engine.encrypt kem_rnd aead_rnd pk plaintext (bytes_of_string aad_str) (bytes_of_string ctx_str))
                 "encryption failed";
  fs_write e out_file ciphertext.

Definition cmd_open (e : Env) (flags : Flags) : M unit :=
  key_file ← require_flag flags "--key";
  in_file ← require_flag flags "--in";
  let aad_str := default ""%string (get_flag flags "--aad") in
  let ctx_str := default "citadel-cli-v1"%string (get_flag flags "--ctx") in
  let out_file := opened_path in_file in
  _ ← (if bool_decide (components out_file = components in_file)
       then die "output path would overwrite input — rename the input file" else mret ());
  sk_bytes ← fs_read e key_file;
  sk ← or_die (Kem.SecretKey_from_bytes sk_bytes) "invalid secret key file";
  ciphertext ← fs_read e in_file;
  plaintext ← or_die (Engine.decrypt sk ciphertext (bytes_of_string aad_str) (bytes_of_string ctx_str))
                "decryption failed (wrong key, corrupted, or mismatched aad/context)";
  fs_write e out_file plaintext.

(** What one process draws from the random source. *)
Record Draws := mkDraws {
  dr_keygen : option (list byte * list byte);
  dr_kem : kem_draws;
  dr_aead : option (list byte);
}.

Definition dispatch (e : Env) (r : Draws) (args : list string) : M unit :=
  parsed ← pure (parse_args args);
  let '(command, flags) := parsed in
  if bool_decide (command = "keygen"%string) then cmd_keygen e (dr_keygen r) flags
  else if bool_decide (command = "seal"%string) then cmd_seal e (dr_kem r) (dr_aead r) flags
  else if bool_decide (command = "open"%string) then cmd_open e flags
  else die ("unknown command: " +:+ command).

(** The exit code: 101 after a panic. *)
Definition main (e : Env) (r : Draws) (args : list string) (d : Disk) : Disk * Z :=
  let '(d', x) := dispatch e r args d in
  (d', match x with Ok _ => 0 | Err (Fail _) => 1 | Err Panic => 101 end).

(** ** Paths that end in [.ctd] *)

Lemma append_nil s : s +:+ "" = s.
Proof. induction s as [|c s IH]; [done|]. rewrite append_cons. by rewrite IH. Qed.

Lemma list_ascii_app s x :
  String.list_ascii_of_string (s +:+ x) = String.list_ascii_of_string s ++ String.list_ascii_of_string x.
Proof. induction s as [|c s IH]; [done|]. rewrite append_cons. cbn. by rewrite IH. Qed.

Lemma str_take_length n s : (n <= String.length s)%nat -> String.length (str_take n s) = n.
Proof. revert s. induction n as [|n IH]; intros [|c s] H; cbn in *; try lia. f_equal. apply IH. lia. Qed.

Lemma take_drop_str n s : str_take n s +:+ str_drop n s = s.
Proof.
  revert s. induction n as [|n IH]; intros [|c s]; try done. cbn [str_take str_drop]. rewrite append_cons. by rewrite IH.
Qed.

Lemma ends_with_iff s x : Text.ends_with s x = true <-> exists p, s = p +:+ x.
Proof.
  unfold Text.ends_with. rewrite andb_true_iff, Nat.leb_le, bool_decide_eq_true. split.
  - intros [_ E]. exists (str_take (String.length s - String.length x) s). rewrite <- E at 2. by rewrite take_drop_str.
  - intros [p ->]. rewrite length_str_app. split; [lia|].
    replace (String.length p + String.length x - String.length x)%nat with (String.length p) by lia.
    apply str_drop_app.
Qed.

Lemma trim_end_app n p x :
  x <> ""%string -> (String.length p < n)%nat -> Text.ends_with p x = false -> trim_end_fuel n (p +:+ x) x = p.
Proof.
  intros Hx Hn Hp. destruct n as [|n]; [lia|]. cbn [trim_end_fuel].
  rewrite (proj2 (ends_with_iff _ _)) by (by exists p). rewrite length_str_app.
  replace (String.length p + String.length x - String.length x)%nat with (String.length p) by lia.
  rewrite str_take_app. destruct n; [done|]. cbn [trim_end_fuel]. by rewrite Hp.
Qed.

Lemma trim_end_shorter n s x : (String.length (trim_end_fuel n s x) <= String.length s)%nat.
Proof.
  revert s. induction n as [|n IH]; intros s; [done|]. cbn [trim_end_fuel]. destruct (Text.ends_with s x); [|done].
  etransitivity; [apply IH|]. rewrite str_take_length; lia.
Qed.

(** Opening what was sealed writes to the file that was sealed exactly if its name does not end
    in [.ctd] itself; else to a file with a shorter name. *)
Theorem opened_sealed_path p :
  if Text.ends_with p ".ctd" then (String.length (opened_path (sealed_path p)) < String.length p)%nat
  else opened_path (sealed_path p) = p.
Proof.
  unfold opened_path, sealed_path. rewrite (proj2 (ends_with_iff (p +:+ ".ctd") ".ctd")) by (by exists p). unfold trim_end_matches.
  rewrite length_str_app. destruct (Text.ends_with p ".ctd") eqn:E; [|apply trim_end_app; [done|cbn; lia|done]].
  apply ends_with_iff in E as [q ->]. rewrite length_str_app.
  replace (String.length q + String.length ".ctd" + String.length ".ctd")%nat with (S (S (String.length q + 6))) by (cbn; lia).
  assert (T : forall n p, trim_end_fuel (S n) (p +:+ ".ctd") ".ctd" = trim_end_fuel n p ".ctd").
  { intros n p. cbn [trim_end_fuel]. rewrite (proj2 (ends_with_iff (p +:+ ".ctd") ".ctd")) by (by exists p). rewrite length_str_app.
    replace (String.length p + String.length ".ctd" - String.length ".ctd")%nat with (String.length p) by lia.
    by rewrite str_take_app. }
  rewrite !T. pose proof (trim_end_shorter (String.length q + 6) q ".ctd"). cbn [String.length]. lia.
Qed.

Lemma names_app s x : Forall (fun c => c <> Ascii.ascii_of_nat 47) (String.list_ascii_of_string x) ->
  exists l y, names s = l ++ [y] /\ names (s +:+ x) = l ++ [y +:+ x].
Proof.
  intros Hx. assert (Nx : forall z, Forall (fun c => c <> Ascii.ascii_of_nat 47) (String.list_ascii_of_string z) -> names z = [z]).
  { induction z as [|c z IH]; [done|]. intros [Hc Hz]%Forall_cons. cbn [names].
    rewrite (proj2 (Ascii.eqb_neq _ _)), IH by done. done. }
  induction s as [|c s (l & y & IH1 & IH2)]; [exists [], ""%string; split; [done|by apply Nx]|].
  rewrite append_cons. cbn [names]. destruct (Ascii.eqb c _).
  - exists ("" :: l)%string, y. by rewrite IH1, IH2.
  - rewrite IH1, IH2. destruct l as [|z l]; cbn [app]; [by exists [], (String.String c y)|].
    by exists (String.String c z :: l), y.
Qed.

Lemma trim_end_rest n s :
  exists r, s = trim_end_fuel n s ".ctd" +:+ r /\
    Forall (fun c => c <> Ascii.ascii_of_nat 47) (String.list_ascii_of_string r) /\
    (Text.ends_with s ".ctd" = true -> (0 < n)%nat -> (2 <= String.length r)%nat).
Proof.
  revert s. induction n as [|n IH]; intros s; [exists ""%string; cbn; split_and!; [by rewrite append_nil|done|lia]|].
  cbn [trim_end_fuel]. destruct (Text.ends_with s ".ctd") eqn:E;
    [|exists ""%string; split_and!; [by rewrite append_nil|done..]].
  apply ends_with_iff in E as [p ->]. rewrite length_str_app.
  replace (String.length p + String.length ".ctd" - String.length ".ctd")%nat with (String.length p) by lia.
  rewrite str_take_app. destruct (IH p) as (r & E1 & E2 & _). exists (r +:+ ".ctd"). split_and!.
  - by rewrite Text.append_assoc, <- E1.
  - rewrite list_ascii_app. apply Forall_app. split; [done|]. repeat constructor; done.
  - intros _ _. rewrite length_str_app. cbn. lia.
Qed.

(** The guard of [cmd_open] against overwriting its input never fires. *)
Theorem open_guard_is_dead p : components (opened_path p) <> components p.
Proof.
  assert (H : forall s x, Forall (fun c => c <> Ascii.ascii_of_nat 47) (String.list_ascii_of_string x) ->
    (2 <= String.length x)%nat -> components (s +:+ x) <> components s).
  { intros s x Hx Hl. destruct (names_app s x Hx) as (l & y & E1 & E2).
    assert (Hy : y +:+ x <> "" /\ y +:+ x <> "."%string).
    { split; intros E; apply (f_equal String.length) in E; rewrite length_str_app in E; cbn in E; lia. }
    assert (Hne : y +:+ x <> y).
    { intros E. apply (f_equal String.length) in E. rewrite length_str_app in E. lia. }
    assert (Hk : forall l, named (l ++ [y +:+ x]) <> named (l ++ [y])).
    { intros k. unfold named. rewrite !filter_app, !filter_cons, filter_nil, (decide_True _ _ Hy). intros E.
      apply app_inv_head in E. case_decide; [by injection E|done]. }
    unfold components. rewrite E1, E2. destruct l as [|h l]; cbn [app].
    - specialize (Hk []). cbn [app] in Hk.
      assert (N : forall z : string, ~ (z = "" /\ [] <> @nil string)) by naive_solver.
      rewrite !(bool_decide_false _ (N _)), (bool_decide_false _ (proj2 Hy)). case_bool_decide; [|exact Hk].
      unfold named. rewrite filter_cons, (decide_True _ _ Hy). intros [= E]. by apply Hy.
    - assert (Hn : forall z : string, l ++ [z] <> []) by (by destruct l).
      rewrite !(bool_decide_ext (h = "" /\ l ++ _ <> []) (h = ""%string)) by naive_solver.
      case_bool_decide; [intros [= E]; by eapply Hk|]. case_bool_decide; [intros [= E]; by eapply Hk|].
      apply (Hk (h :: l)). }
  unfold opened_path. destruct (Text.ends_with p ".ctd") eqn:E; [|apply H; [|cbn; lia]; repeat constructor; done].
  destruct (trim_end_rest (String.length p) p) as (r & E1 & E2 & E3). fold (trim_end_matches p ".ctd") in E1.
  rewrite E1 at 2. apply not_eq_sym, H; [done|]. apply E3; [done|].
  apply ends_with_iff in E as [q ->]. rewrite length_str_app. cbn. lia.
Qed.
(** ** What the commands leave on the disk *)

Lemma bind_Ok_inv {A B} (m : M A) (f : A -> M B) d d' b :
  (m ≫= f) d = (d', Ok b) -> exists d1 a, m d = (d1, Ok a) /\ f a d1 = (d', Ok b).
Proof. unfold mbind, m_bind. destruct (m d) as [d1 [a|]]; [by exists d1, a|done]. Qed.

Lemma bind_step {A B} (m : M A) (f : A -> M B) d d1 a : m d = (d1, Ok a) -> (m ≫= f) d = f a d1.
Proof. unfold mbind, m_bind. by intros ->. Qed.

Lemma require_flag_Ok flags name d d' v : require_flag flags name d = (d', Ok v) -> get_flag flags name = Some v /\ d' = d.
Proof. unfold require_flag. destruct (get_flag _ _); [intros [= -> ->]|]; done. Qed.

Lemma require_flag_run flags name d v : get_flag flags name = Some v -> require_flag flags name d = (d, Ok v).
Proof. unfold require_flag. by intros ->. Qed.

Lemma pure_Ok {A} (r : result (fault string) A) d d' a : pure r d = (d', Ok a) -> r = Ok a /\ d' = d.
Proof. unfold pure. by intros [= -> ->]. Qed.

Lemma or_die_Ok {E A} (r : result (fault E) A) msg d d' a : or_die r msg d = (d', Ok a) -> r = Ok a /\ d' = d.
Proof. unfold or_die. intros [H ->]%pure_Ok. by apply map_err_Ok in H. Qed.

Lemma or_die_run {E A} (r : result (fault E) A) msg d a : r = Ok a -> or_die r msg d = (d, Ok a).
Proof. by intros ->. Qed.

Lemma fs_read_Ok e path d d' bs :
  fs_read e path d = (d', Ok bs) -> d' = d /\ exists f, d !! locate path = Some f /\ content f = bs.
Proof. unfold fs_read. destruct (reading _ _), (_ !! _) as [f|]; intros [= -> <-]; eauto. Qed.

Lemma fs_read_run e path d f :
  reading e path = None -> d !! locate path = Some f -> fs_read e path d = (d, Ok (content f)).
Proof. unfold fs_read. by intros -> ->. Qed.

Lemma fs_write_Ok e path data d d' u :
  fs_write e path data d = (d', Ok u) -> d' = <[locate path := mkFile data (created_mode e (d !! locate path))]> d.
Proof. unfold fs_write. by destruct (writing _ _); intros [=]. Qed.

Ltac inv_run H :=
  lazymatch type of H with
  | (_ ≫= _) _ = (_, Ok _) =>
      let d1 := fresh "d" in let a := fresh "a" in let H1 := fresh "R" in
      apply bind_Ok_inv in H as (d1 & a & H1 & H); cbn beta in H;
      first [apply require_flag_Ok in H1 as [H1 ->] | apply or_die_Ok in H1 as [H1 ->] | apply pure_Ok in H1 as [H1 ->]
            |apply fs_read_Ok in H1 as (-> & ? & H1 & <-)|apply fs_write_Ok in H1]; inv_run H
  | (let '(_, _) := ?x in _) _ = _ => let E := fresh "E" in destruct x as [??] eqn:E; inv_run H
  | fs_write _ _ _ _ = _ => apply fs_write_Ok in H
  | _ => idtac
  end.

(** A pair of keys on the disk. *)
Definition holds_keys (d : Disk) (name : string) (rnd : list byte * list byte) : Prop :=
  exists f g, d !! locate (name +:+ ".pub") = Some f /\ content f = Kem.PublicKey_to_bytes (Kem.keygen rnd).1 /\
    d !! locate (name +:+ ".sec") = Some g /\ content g = Kem.SecretKey_to_bytes (Kem.keygen rnd).2.

Theorem keygen_holds_keys e rnd flags name d d' :
  get_flag flags "--name" = Some name -> locate (name +:+ ".pub") <> locate (name +:+ ".sec") ->
  cmd_keygen e (Some rnd) flags d = (d', Ok ()) ->
  holds_keys d' name rnd /\
  mode <$> d' !! locate (name +:+ ".sec") = Some (created_mode e (d !! locate (name +:+ ".sec"))).
Proof.
  intros Hn Hne H. unfold cmd_keygen in H. inv_run H. cbn in R0. injection R0 as <-.
  rewrite Hn in R. injection R as <-. subst. split.
  - eexists _, _. rewrite lookup_insert_ne by done. rewrite !lookup_insert_eq, E. done.
  - rewrite lookup_insert_eq, lookup_insert_ne by done. done.
Qed.

(** The command does not restrict the file of the secret key: with the usual umask every user
    can read it. *)
Theorem secret_key_is_world_readable e rnd flags name d d' :
  get_flag flags "--name" = Some name -> locate (name +:+ ".pub") <> locate (name +:+ ".sec") ->
  umask e = 18 -> d !! locate (name +:+ ".sec") = None -> cmd_keygen e (Some rnd) flags d = (d', Ok ()) ->
  exists f, d' !! locate (name +:+ ".sec") = Some f /\ Z.land (mode f) 36 = 36.
Proof.
  intros Hn Hne Hu Hf H. destruct (keygen_holds_keys _ _ _ _ _ _ Hn Hne H) as [(_ & g & _ & _ & Hg & _) Hm].
  exists g. split; [done|]. rewrite Hg, Hf in Hm. injection Hm as ->. unfold created_mode. by rewrite Hu.
Qed.

(** Opening a file writes nothing, or (the beginning of) a plaintext that was authenticated. *)
Theorem open_writes_authenticated e flags d d' x :
  cmd_open e flags d = (d', x) ->
  d' = d \/ exists (sk : Kem.SecretKey) ct aad ctx pt n out m, Engine.decrypt (K := Kem.HybridX25519MlKem768Provider) sk ct aad ctx = Ok pt /\
    d' = <[out := mkFile (take n pt) m]> d /\ (is_ok x = true -> take n pt = pt).
Proof.
  unfold cmd_open, require_flag. destruct (get_flag flags "--key") as [k|]; [|intros [= <- _]; by left].
  destruct (get_flag flags "--in") as [i|]; [|intros [= <- _]; by left].
  unfold mbind, m_bind, mret, m_ret. case_bool_decide; [intros [= <- _]; by left|]. unfold fs_read.
  destruct (reading e k), (d !! locate k) as [fk|]; try (intros [= <- _]; by left). unfold or_die, pure.
  destruct (Kem.SecretKey_from_bytes (content fk)) as [sk|[]]; try (intros [= <- _]; by left). cbn [map_err].
  destruct (reading e i), (d !! locate i) as [fi|]; try (intros [= <- _]; by left).
  destruct (Engine.decrypt (K := Kem.HybridX25519MlKem768Provider) sk (content fi) _ _) as [pt|[]] eqn:E; try (intros [= <- _]; by left). cbn [map_err].
  unfold fs_write. destruct (writing _ _) as [|?|n ?]; intros [= <- <-]; [right|by left|right].
  - eexists sk, (content fi), _, _, pt, (length pt), (locate (opened_path i)), _. by rewrite firstn_all.
  - by eexists sk, (content fi), _, _, pt, n, (locate (opened_path i)), _.
Qed.

Context {PL : PrimitiveLaws P}.

(** On files: when a sealing with a generated public key succeeded, opening the sealed file with
    the secret key, under the same associated data and context, ends with success, and the plaintext
    is in the file that was sealed - exactly if its name did not already end in [.ctd]; else it is
    written to a file with a shorter name. *)
Theorem tool_roundtrip rnd name es eo r1 r2 sealing opening f d d1 d2 file :
  len rnd.1 = 32 -> nonce_draw r2 -> holds_keys d name rnd ->
  get_flag sealing "--key" = Some (name +:+ ".pub") -> get_flag sealing "--in" = Some f ->
  d !! locate f = Some file -> cmd_seal es r1 r2 sealing d = (d1, Ok ()) ->
  get_flag opening "--key" = Some (name +:+ ".sec") -> get_flag opening "--in" = Some (sealed_path f) ->
  get_flag opening "--aad" = get_flag sealing "--aad" -> get_flag opening "--ctx" = get_flag sealing "--ctx" ->
  d2 !! locate (sealed_path f) = d1 !! locate (sealed_path f) ->
  d2 !! locate (name +:+ ".sec") = d !! locate (name +:+ ".sec") ->
  (forall p, reading eo p = None) -> (forall p, writing eo p = Written) ->
  exists d3, cmd_open eo opening d2 = (d3, Ok ()) /\
    content <$> d3 !! locate (opened_path (sealed_path f)) = Some (content file) /\
    if Text.ends_with f ".ctd" then (String.length (opened_path (sealed_path f)) < String.length f)%nat
    else opened_path (sealed_path f) = f.
Proof.
  intros Hr Hr2 (fp & fs & Hp & Cp & Hs & Cs) K1 I1 Hf Hseal K2 I2 Ha Hc H2 H3 Hrd Hwr.
  unfold cmd_seal in Hseal. inv_run Hseal. simplify_eq.
  set (sk := (Kem.keygen rnd).2) in *.
  assert (Epk : (Kem.keygen rnd).1 = Kem.public_key sk) by done.
  rewrite Cp, Epk, (Kem.PublicKey_roundtrip _ (Kem.public_key_valid sk)) in R2. injection R2 as <-.
  rewrite lookup_insert_eq in H2. unfold cmd_open.
  erewrite (bind_step (require_flag _ _)) by by apply require_flag_run.
  erewrite (bind_step (require_flag _ _)) by by apply require_flag_run.
  rewrite bool_decide_false by apply open_guard_is_dead. erewrite (bind_step (mret ())) by done.
  rewrite (bind_step _ _ _ _ _ (fs_read_run _ _ _ _ (Hrd _) (eq_trans H3 Hs))).
  erewrite bind_step by by apply or_die_run; rewrite Cs; apply (Kem.SecretKey_roundtrip sk Hr).
  rewrite (bind_step _ _ _ _ _ (fs_read_run _ _ _ _ (Hrd _) H2)). cbn [content].
  rewrite Ha, Hc. erewrite bind_step by (apply or_die_run; eapply (Engine.open_sealed (K := Kem.HybridX25519MlKem768Provider) r1 r2 sk (Kem.public_key sk)); first [eassumption|done]).
  unfold fs_write. rewrite Hwr. eexists. split; [done|]. rewrite lookup_insert_eq. split; [done|]. apply opened_sealed_path.
Qed.
End tool.
End EncryptTool.
