(* ===== verification/Stream.v ===== *)
(** * Streaming encryption, v2 format ([citadel-envelope/src/stream.rs])

    The encryptor and the decryptor are state machines; [&mut self] methods
    take the state and return the new one next to their result, so that what an
    error leaves behind is visible. *)

From S2P Require Import Prelude.
From S2P Require Import Wire.
From S2P Require Import WireV2.
From S2P Require Import Crypto.

Module Stream.
Section stream.
Context {P : Primitives}.

Definition flag_byte (is_final : bool) : byte := if is_final then Byte.x01 else Byte.x00.

Definition chunk_info (index : Z) (is_final : bool) : list byte :=
  bytes_of_string "citadel-stream-chunk-v2|" ++ u32_be index ++ [flag_byte is_final].

Definition derive_chunk_key (stream_key : list byte) (index : Z) (is_final : bool) :
    result EncodingError (list byte) :=
  ok_or (hkdf_expand None stream_key (chunk_info index is_final) 32) mkEncodingError.

Definition make_chunk_aad (user_aad : list byte) (index : Z) (is_final : bool) : list byte :=
  bytes_of_string "citadel-stream-v2|" ++ u32_be index ++ [flag_byte is_final]
    ++ bytes_of_string "|" ++ user_aad.

Record StreamEncryptor := {
  enc_key : list byte;
  enc_header : list byte;
  next_index : Z;
  finalized : bool;
}.

Record StreamDecryptor := {
  dec_key : list byte;
  expected_index : Z;
  done_ : bool;
}.

(** [StreamEncryptor::new]; the user AAD is not used there. *)
Definition enc_new (rnd : kem_draws) (pk : Kem.PublicKey) (context : list byte) :
    result (fault EncodingError) StreamEncryptor :=
  enc ← Kem.encapsulate rnd pk;
  let '(shared_secret, kem_ct) := enc in
  stream_key ← map_err Fail (derive_key shared_secret (ct_hash kem_ct) context);
  header ← map_err Fail (Wire.encode_stream_header kem_ct);
  Ok {| enc_key := stream_key; enc_header := header; next_index := 1; finalized := false |}.

Definition encrypt_chunk (st : StreamEncryptor) (rnd : option (list byte))
    (plaintext : list byte) (is_final : bool) (aad : list byte) :
    StreamEncryptor * result EncodingError (list byte) :=
  if finalized st then (st, Err mkEncodingError) else
  let index := next_index st in
  let r : result EncodingError (Z * list byte) :=
    chunk_key ← derive_chunk_key (enc_key st) index is_final;
    nonce ← nonce rnd;
    let chunk_aad := make_chunk_aad aad index is_final in
    ct ← aead_seal chunk_key nonce plaintext chunk_aad;
    next ← ok_or (checked_add U32_MAX (next_index st) 1) mkEncodingError;
    Ok (next, u32_be index ++ [flag_byte is_final] ++ nonce ++ ct) in
  match r with
  | Err e => (st, Err e)
  | Ok (next, out) =>
      ({| enc_key := enc_key st; enc_header := enc_header st; next_index := next;
          finalized := if is_final then true else finalized st |}, Ok out)
  end.

Definition enc_chunk_count (st : StreamEncryptor) : Z := saturating_sub (next_index st) 1.

(** [StreamDecryptor::from_header]. *)
Definition dec_from_header (sk : Kem.SecretKey) (header context : list byte) :
    decode_result StreamDecryptor :=
  parts ← Wire.decode_stream_header header;
  shared_secret ← Kem.decapsulate sk (Wire.sh_kem_ciphertext parts);
  stream_key ← map_err (fun _ => reject)
    (derive_key shared_secret (ct_hash (Wire.sh_kem_ciphertext parts)) context);
  Ok {| dec_key := stream_key; expected_index := 1; done_ := false |}.

(** [match chunk_data[4] { 0 => false, 1 => true, _ => return Err(..) }]. *)
Definition parse_flag (b : byte) : decode_result bool :=
  if bool_decide (b = Byte.x00) then Ok false
  else if bool_decide (b = Byte.x01) then Ok true else Err reject.

Definition decrypt_chunk (st : StreamDecryptor) (chunk_data aad : list byte) :
    StreamDecryptor * decode_result (list byte * bool) :=
  let r : decode_result (Z * list byte * bool) :=
    _ ← bail_if (done_ st) reject;
    _ ← bail_if (len chunk_data <? Wire.STREAM_MIN_CHUNK_BYTES) reject;
    idx_bytes ← slice_or_panic chunk_data 0 4;
    let chunk_index := be_val idx_bytes in
    b ← idx chunk_data 4;
    is_final ← parse_flag b;
    nonce ← slice_or_panic chunk_data 5 17;
    aead_ct ← slice_or_panic chunk_data 17 (len chunk_data);
    _ ← bail_if (negb (chunk_index =? expected_index st)) reject;
    chunk_key ← map_err (fun _ => reject) (derive_chunk_key (dec_key st) chunk_index is_final);
    let chunk_aad := make_chunk_aad aad chunk_index is_final in
    plaintext ← map_err Fail (aead_open chunk_key nonce aead_ct chunk_aad);
    next ← ok_or (checked_add U32_MAX (expected_index st) 1) reject;
    Ok (next, plaintext, is_final) in
  match r with
  | Err e => (st, Err e)
  | Ok (next, plaintext, is_final) =>
      ({| dec_key := dec_key st; expected_index := next;
          done_ := if is_final then true else done_ st |}, Ok (plaintext, is_final))
  end.

Definition dec_chunk_count (st : StreamDecryptor) : Z := saturating_sub (expected_index st) 1.

(** ** Separation of chunk positions *)

Lemma flag_byte_inj f g : flag_byte f = flag_byte g -> f = g.
Proof. by destruct f, g. Qed.

Lemma parse_flag_byte f : parse_flag (flag_byte f) = Ok f.
Proof. by destruct f. Qed.

Lemma parse_flag_Ok b f : parse_flag b = Ok f -> b = flag_byte f.
Proof. unfold parse_flag. repeat case_bool_decide; naive_solver. Qed.

Theorem chunk_binding_injective i f a j g b :
  0 <= i <= U32_MAX -> 0 <= j <= U32_MAX ->
  (chunk_info i f = chunk_info j g -> i = j /\ f = g) /\
  (make_chunk_aad a i f = make_chunk_aad b j g -> i = j /\ f = g /\ a = b).
Proof.
  unfold U32_MAX, chunk_info, make_chunk_aad. intros ??.
  split; intros E%app_inv_head; apply app_inj_len in E as [Ei%be_bytes_inj E];
    rewrite ?length_be_bytes; try done; try (cbn; lia).
  - by injection E as Ef%flag_byte_inj.
  - cbn in E. by injection E as Ef%flag_byte_inj Ea.
Qed.

(** ** Encryptor and decryptor in step *)

Definition in_sync (e : StreamEncryptor) (d : StreamDecryptor) : Prop :=
  enc_key e = dec_key d /\ next_index e = expected_index d /\ finalized e = done_ d /\
  1 <= next_index e <= U32_MAX.

Context {PL : PrimitiveLaws P}.

Lemma new_in_sync rnd sk context e :
  enc_new rnd (Kem.public_key sk) context = Ok e ->
  exists d, dec_from_header sk (enc_header e) context = Ok d /\ in_sync e d.
Proof.
  unfold enc_new. intros H. inv_ok H.
  destruct (Wire.stream_header_roundtrip _ _ Hx1) as [_ Hd].
  eexists. unfold dec_from_header. cbn [enc_header]. rewrite Hd. cbn -[Kem.decapsulate].
  apply (decapsulate_encapsulate (KemLaws := Kem.hybrid_laws) _ sk) in Hx as Hdec; [|done].
  cbn [decapsulate Kem.HybridX25519MlKem768Provider] in Hdec. rewrite Hdec. cbn.
  rewrite Hx0. split; [done|]. unfold in_sync, U32_MAX; cbn. done.
Qed.

Lemma decrypt_encrypt_chunk e d rnd pt fin aad e' c :
  in_sync e d -> nonce_draw rnd ->
  encrypt_chunk e rnd pt fin aad = (e', Ok c) ->
  exists d', decrypt_chunk d c aad = (d', Ok (pt, fin)) /\ in_sync e' d' /\ done_ d' = fin.
Proof.
  intros (Hk & Hi & Hf & Hr) Hn. unfold encrypt_chunk.
  destruct (finalized e) eqn:Hfin; [done|].
  destruct (_ ≫= _) as [[next out]|] eqn:E; [|done]. intros [= <- <-]. inv_ok E. simplify_eq.
  unfold nonce in *. inv_ok Hx0. subst rnd. cbn in Hn.
  apply WireV2.checked_add_Some in Hx2 as [-> ?].
  unfold aead_seal in *. inv_ok Hx1.
  pose proof (gcm_size _ _ _ _ _ Hx1) as Hs. apply gcm_correct in Hx1.
  pose proof (length_be_bytes 4 (next_index e)) as H4.
  unfold decrypt_chunk. rewrite <- Hf.
  assert (Hl : len (u32_be (next_index e) ++ [flag_byte fin] ++ x0 ++ x1) = 17 + len x1)
    by (rewrite !length_app, H4; cbn [length]; lia).
  unfold slice_or_panic. rewrite Hl.
  rewrite (proj2 (Z.ltb_ge _ _))
    by (unfold Wire.STREAM_MIN_CHUNK_BYTES, Wire.STREAM_CHUNK_HEADER_BYTES; Wire.unfold_sizes; lia).
  rewrite slice_prefix by lia.
  assert (Hb : idx (E := DecryptionError)
    (u32_be (next_index e) ++ [flag_byte fin] ++ x0 ++ x1) 4 = Ok (flag_byte fin)) by done.
  rewrite Hb. rewrite (assoc_L (++)), (slice_app (u32_be (next_index e) ++ [flag_byte fin]) x0 _ 5 17)
    by (rewrite length_app, H4; cbn [length]; lia).
  rewrite (assoc_L (++)), slice_to_end by (rewrite !length_app, H4; cbn [length]; lia).
  cbn [bail_if mbind result_bind ok_or]. rewrite be_val_bytes_small by (unfold U32_MAX in *; cbn; lia).
  rewrite parse_flag_byte. cbn [mbind result_bind].
  rewrite Hi, Z.eqb_refl. cbn [negb bail_if mbind result_bind].
  rewrite <- Hk, <- Hi, Hx. cbn [map_err mbind result_bind]. unfold aead_open. rewrite Hx1.
  cbn [map_err ok_or mbind result_bind]. rewrite WireV2.checked_add_ok by lia. cbn.
  eexists. split; [done|]. unfold in_sync; cbn. destruct fin; split_and!; done || lia.
Qed.

(** ** Whole streams *)

(** A producer that encrypts the given chunks in order under one AAD, the
    last one as the final chunk, and stops at the first error. *)
Fixpoint encrypt_all (e : StreamEncryptor) (aad : list byte)
    (chunks : list (option (list byte) * list byte)) : result EncodingError (list (list byte)) :=
  match chunks with
  | [] => Ok []
  | (rnd, pt) :: rest =>
      let '(e', r) := encrypt_chunk e rnd pt (bool_decide (rest = [])) aad in
      c ← r; cs ← encrypt_all e' aad rest; Ok (c :: cs)
  end.

(** A consumer that feeds every received chunk, whatever its origin, and keeps
    what is accepted: the raw chunk, its AAD, the plaintext and the flag. *)
Fixpoint decrypt_run (d : StreamDecryptor) (inputs : list (list byte * list byte)) :
    StreamDecryptor * list (list byte * list byte * list byte * bool) :=
  match inputs with
  | [] => (d, [])
  | (c, aad) :: rest =>
      let '(d1, r) := decrypt_chunk d c aad in
      let '(d2, acc) := decrypt_run d1 rest in
      (d2, match r with Ok (pt, fin) => (c, aad, pt, fin) :: acc | Err _ => acc end)
  end.

(** A stream that was encrypted to a key, cut into chunks of any sizes, is read
    back by a decryptor made from its header: every chunk is accepted, the plaintexts
    come out in order and the decryptor is done. *)
Theorem stream_roundtrip rnd sk context aad e chunks cs :
  enc_new rnd (Kem.public_key sk) context = Ok e ->
  Forall nonce_draw chunks.*1 -> chunks <> [] ->
  encrypt_all e aad chunks = Ok cs ->
  exists d, dec_from_header sk (enc_header e) context = Ok d /\
    let '(d', acc) := decrypt_run d ((fun c => (c, aad)) <$> cs) in
    done_ d' = true /\ (fun x => x.1.2) <$> acc = chunks.*2.
Proof.
  intros (d & Hd & Hs)%new_in_sync Hn Hne He. exists d. split; [done|]. clear Hd.
  revert e d cs Hs Hn Hne He. induction chunks as [|[r pt] rest IH]; [done|].
  intros e d cs Hs Hn _ He. cbn in Hn. apply Forall_cons in Hn as [Hr Hn]. cbn in He.
  destruct (encrypt_chunk _ _ _ _ _) as [e' r'] eqn:Ee. inv_ok He. simplify_eq.
  destruct (decrypt_encrypt_chunk _ _ _ _ _ _ _ _ Hs Hr Ee) as (d1 & Ed & Hs1 & Hf).
  cbn [fmap list_fmap decrypt_run]. rewrite Ed.
  destruct rest as [|c2 rest'].
  - cbn in Hx0. injection Hx0 as <-. done.
  - specialize (IH _ _ _ Hs1 Hn ltac:(done) Hx0).
    destruct (decrypt_run d1 _) as [d2 acc]. destruct IH as [? IH].
    split; [done|]. cbn [fmap list_fmap]. by cbn; f_equal.
Qed.

(** ** What a decryptor accepts *)

(** A successful step reads the expected index and a known flag off the front
    of the chunk, and authenticates the rest under the key and AAD of that
    position. *)
Definition authentic (key : list byte) (i : Z) (a : list byte * list byte * list byte * bool) :
    Prop :=
  let '(c, aad, pt, fin) := a in
  exists k n ct, c = u32_be i ++ [flag_byte fin] ++ n ++ ct /\ len n = 12 /\
    derive_chunk_key key i fin = Ok k /\
    gcm_decrypt k n ct (make_chunk_aad aad i fin) = Some pt.

Lemma decrypt_chunk_Ok d c aad d' pt fin :
  decrypt_chunk d c aad = (d', Ok (pt, fin)) ->
  done_ d = false /\ done_ d' = fin /\ dec_key d' = dec_key d /\
  expected_index d' = expected_index d + 1 /\ expected_index d' <= U32_MAX /\
  authentic (dec_key d) (expected_index d) (c, aad, pt, fin).
Proof.
  unfold decrypt_chunk. destruct (_ ≫= _) as [[[nx p] f]|] eqn:E; [|done].
  intros [= <- <- <-]. inv_ok E. bool_hyps. simplify_eq.
  apply WireV2.checked_add_Some in Hx9 as [-> ?].
  match goal with H : parse_flag _ = _ |- _ => apply parse_flag_Ok in H; subst end.
  decoded_pieces. cbn [dec_key expected_index done_].
  split_and!; try done; [rewrite Hx; by destruct f|].
  unfold aead_open in Hx8. apply ok_or_Ok in Hx8. rewrite Hx6 in *.
  exists x7, x4, x5. split_and!; [|lia|done..].
  rewrite <- Hx6, (be_bytes_val_len 4 x1) by lia. symmetry. apply slice_full. slice_chain.
Qed.

Lemma decrypt_chunk_Err d c aad d' err : decrypt_chunk d c aad = (d', Err err) -> d' = d.
Proof. unfold decrypt_chunk. destruct (_ ≫= _) as [[[??]?]|]; naive_solver. Qed.

Theorem decrypt_chunk_never_panics d c aad : (decrypt_chunk d c aad).2 <> Err Panic.
Proof.
  unfold decrypt_chunk. destruct (_ ≫= _) as [[[??]?]|err] eqn:E; [done|]. cbn.
  intros [= ->]. revert E.
  match goal with |- ?m = ?x -> False => change (m <> x) end. no_panic; unfold parse_flag; bool_hyps;
    unfold Wire.STREAM_MIN_CHUNK_BYTES, Wire.STREAM_CHUNK_HEADER_BYTES in *;
    Wire.unfold_sizes; try lia.
  all: repeat case_bool_decide; try discriminate.
  all: match goal with |- map_err _ ?m <> _ => by destruct m end.
Qed.

(** However the input was reordered, duplicated, cut or forged: the accepted chunks
    are a prefix of the positions, in order, and only the last of them can be final. *)
Theorem decryptor_accepts_in_order d inputs d' acc :
  expected_index d = 1 -> done_ d = false -> decrypt_run d inputs = (d', acc) ->
  expected_index d' = 1 + len acc /\ expected_index d' <= U32_MAX /\
  (forall k a, acc !! k = Some a ->
     authentic (dec_key d) (1 + Z.of_nat k) a /\
     (a.2 = true <-> S k = length acc /\ done_ d' = true)) /\
  (done_ d' = true -> acc <> []).
Proof.
  intros H1 Hd0 Hrun.
  assert (G : forall i, 1 <= i <= U32_MAX -> expected_index d = i ->
    expected_index d' = i + len acc /\ expected_index d' <= U32_MAX /\
    (done_ d = true -> d' = d /\ acc = []) /\
    (done_ d = false -> done_ d' = true -> acc <> []) /\
    forall k a, acc !! k = Some a ->
     authentic (dec_key d) (i + Z.of_nat k) a /\
     (a.2 = true <-> S k = length acc /\ done_ d' = true)).
  { clear H1 Hd0. revert d d' acc Hrun. induction inputs as [|[c aad] rest IH]; intros d d' acc.
    { intros [= <- <-] i Hi <-. cbn. split_and!; try done; [lia..|].
      intros E1 E2. congruence. }
    cbn. destruct (decrypt_chunk d c aad) as [d1 r] eqn:Ec.
    destruct (decrypt_run d1 rest) as [d2 acc1] eqn:Er. intros [= <- <-] i Hi Hix.
    destruct r as [[pt fin]|err].
    2: { apply decrypt_chunk_Err in Ec as ->. by apply IH. }
    apply decrypt_chunk_Ok in Ec as (Hd & Hf & Hk & Hx & Hm & Ha).
    destruct (IH _ _ _ Er (i + 1) ltac:(lia) ltac:(lia)) as (G1 & G2 & G3 & G4 & G5).
    split_and!; [rewrite length_cons; lia|lia|congruence|done|].
    intros [|k] a Hl.
    - injection Hl as <-. rewrite Z.add_0_r, <- Hix. split; [done|]. cbn [snd]. rewrite <- Hf.
      destruct (done_ d1) eqn:Hd1.
      + destruct G3 as [-> ->]; [done|]. rewrite Hd1. cbn. naive_solver.
      + split; [done|]. intros [Hlen Hd2]. cbn in Hlen. injection Hlen as Hlen.
        symmetry in Hlen. apply nil_length_inv in Hlen. by destruct (G4 eq_refl Hd2).
    - cbn in Hl. apply G5 in Hl as [Hl1 Hl2]. rewrite Hk in Hl1. split.
      + by replace (i + Z.of_nat (S k)) with (i + 1 + Z.of_nat k) by lia.
      + cbn [length]. rewrite Hl2. naive_solver lia. }
  destruct (G 1 ltac:(done) H1) as (? & ? & ? & ? & ?). split_and!; auto.
Qed.

(** ** The last usable index *)

(** The counter is advanced before the chunk is returned, so the step at index
    [u32::MAX] always fails, and it leaves the state as it was. *)
Theorem last_index_unusable e d rnd pt fin aad c :
  next_index e = U32_MAX -> expected_index d = U32_MAX ->
  encrypt_chunk e rnd pt fin aad = (e, Err mkEncodingError) /\
  exists err, decrypt_chunk d c aad = (d, Err err).
Proof.
  intros He Hd. split.
  - unfold encrypt_chunk. destruct (finalized e); [done|].
    destruct (_ ≫= _) as [[nx out]|[]] eqn:E; [|done]. exfalso. inv_ok E.
    rewrite He in *. done.
  - unfold decrypt_chunk. destruct (_ ≫= _) as [[[nx p] f]|] eqn:E; [|naive_solver].
    exfalso. inv_ok E. rewrite Hd in *. done.
Qed.
End stream.
End Stream.
