(* ===== verification/StreamV3.v ===== *)
(** * Streaming encryption, v3 format ([citadel-envelope/src/stream_v3.rs])

    As in [Stream], the encryptor and the decryptor are state machines whose
    methods return the new state next to their result. *)

From S2P Require Import Prelude.
From S2P Require Import Wire.
From S2P Require Import WireV2.
From S2P Require Import Crypto.
From S2P Require Import Stream.

Module StreamV3.

Definition U64_MAX : Z := 2 ^ 64 - 1.

(** ** Format *)

Definition STREAM_V3_MAGIC : list byte := bytes_of_string "CTDL".
Definition STREAM_V3_VERSION : byte := Byte.x03.
Definition STREAM_V3_FLAGS : byte := Byte.x00.
Definition STREAM_V3_SUITE_KEM : byte := Wire.SUITE_KEM_HYBRID_X25519_MLKEM768.
Definition STREAM_V3_SUITE_AEAD : byte := Wire.SUITE_AEAD_AES256GCM.
Definition STREAM_V3_HEADER_BYTES : Z := 4 + 1 + 1 + 1 + 1 + 16 + 2 + 1120 + 16.
Definition STREAM_V3_CHUNK_HEADER_BYTES : Z := 8 + 1.
Definition STREAM_V3_CHUNK_MIN_BYTES : Z := STREAM_V3_CHUNK_HEADER_BYTES + 16.
Definition STREAM_V3_FINAL_TAG_BYTES : Z := 32.

Section stream.
Context {P : Primitives} {HM : HmacSha256}.

(** ** Keys *)

Definition extended_context (stream_id context : list byte) : list byte :=
  bytes_of_string "v3:" ++ stream_id ++ bytes_of_string "|" ++ context.

Definition derive_stream_key (shared_secret kem_ct stream_id context : list byte) : result EncodingError (list byte) :=
  derive_key shared_secret (ct_hash kem_ct) (extended_context stream_id context).

Definition expand (stream_key info : list byte) (n : Z) : result EncodingError (list byte) :=
  ok_or (hkdf_expand None stream_key info n) mkEncodingError.

Definition derive_header_key (stream_key : list byte) : result EncodingError (list byte) :=
  expand stream_key (bytes_of_string "citadel-v3-header-key") 32.
Definition derive_final_key (stream_key : list byte) : result EncodingError (list byte) :=
  expand stream_key (bytes_of_string "citadel-v3-final-key") 32.

Definition nonce_info (seq : Z) : list byte := bytes_of_string "citadel-v3-nonce|" ++ u64_be seq.
Definition derive_chunk_nonce (stream_key : list byte) (seq : Z) : result EncodingError (list byte) :=
  expand stream_key (nonce_info seq) 12.

Definition make_chunk_aad (stream_id : list byte) (seq : Z) (is_final : bool) (user_aad : list byte) : list byte :=
  bytes_of_string "citadel-v3-chunk|" ++ stream_id ++ u64_be seq ++ [Stream.flag_byte is_final]
    ++ bytes_of_string "|" ++ user_aad.

(** ** Encryptor *)

Record StreamV3Encryptor := mkEnc {
  e_stream_key : list byte;
  e_final_key : list byte;
  e_stream_id : list byte;
  header : list byte;
  next_seq : Z;
  finalized : bool;
}.

Definition pre_header (stream_id kem_ct : list byte) : list byte :=
  STREAM_V3_MAGIC ++ [STREAM_V3_VERSION; STREAM_V3_FLAGS; STREAM_V3_SUITE_KEM; STREAM_V3_SUITE_AEAD]
    ++ stream_id ++ u16_be Wire.KEM_CIPHERTEXT_BYTES ++ kem_ct.

Definition zero_nonce : list byte := replicate 12 Byte.x00.

(** [rnd] is drawn by the KEM, [id] by [OsRng]; the AAD is not used. *)
Definition new (rnd : kem_draws) (id : list byte) (pk : Kem.PublicKey) (context : list byte) :
    result (fault EncodingError) StreamV3Encryptor :=
  enc ← Kem.encapsulate rnd pk;
  let '(shared_secret, kem_ct) := enc in
  let stream_id := take 16 id in
  stream_key ← map_err Fail (derive_stream_key shared_secret kem_ct stream_id context);
  header_key ← map_err Fail (derive_header_key stream_key);
  final_key ← map_err Fail (derive_final_key stream_key);
  let pre := pre_header stream_id kem_ct in
  header_tag ← map_err Fail (aead_seal header_key zero_nonce [] pre);
  Ok (mkEnc stream_key final_key stream_id (pre ++ header_tag) 0 false).

Definition encrypt_chunk (st : StreamV3Encryptor) (plaintext : list byte) (is_final : bool) (aad : list byte) :
    StreamV3Encryptor * result EncodingError (list byte) :=
  if finalized st then (st, Err mkEncodingError) else
  let seq := next_seq st in
  let r : result EncodingError (Z * list byte) :=
    nonce ← derive_chunk_nonce (e_stream_key st) seq;
    ct ← aead_seal (e_stream_key st) nonce plaintext (make_chunk_aad (e_stream_id st) seq is_final aad);
    next ← ok_or (checked_add U64_MAX seq 1) mkEncodingError;
    Ok (next, u64_be seq ++ [Stream.flag_byte is_final] ++ ct) in
  match r with
  | Err e => (st, Err e)
  | Ok (next, out) =>
      (mkEnc (e_stream_key st) (e_final_key st) (e_stream_id st) (header st) next
         (if is_final then true else finalized st), Ok out)
  end.

Definition tag_of (final_key stream_id : list byte) (count : Z) : list byte := hmac final_key (stream_id ++ u64_be count).

Definition final_tag (st : StreamV3Encryptor) : result EncodingError (list byte) :=
  _ ← bail_if (negb (finalized st)) mkEncodingError;
  Ok (tag_of (e_final_key st) (e_stream_id st) (next_seq st)).

(** ** Decryptor *)

Record StreamV3Decryptor := mkDec {
  d_stream_key : list byte;
  d_final_key : list byte;
  d_stream_id : list byte;
  expected_seq : Z;
  done_ : bool;
}.

Record StreamV3Header := mkHeader { version : byte; suite_kem : byte; suite_aead : byte; stream_id : list byte }.

Definition from_header (sk : Kem.SecretKey) (header context : list byte) :
    decode_result (StreamV3Decryptor * StreamV3Header) :=
  _ ← bail_if (len header <? STREAM_V3_HEADER_BYTES) reject;
  magic ← slice_or_panic header 0 4;
  _ ← bail_if (negb (bool_decide (magic = STREAM_V3_MAGIC))) reject;
  version ← idx header 4;
  _ ← bail_if (negb (bool_decide (version = STREAM_V3_VERSION))) reject;
  flags ← idx header 5;
  _ ← bail_if (negb (bool_decide (flags = STREAM_V3_FLAGS))) reject;
  suite_kem ← idx header 6;
  _ ← bail_if (negb (bool_decide (suite_kem = STREAM_V3_SUITE_KEM))) reject;
  suite_aead ← idx header 7;
  _ ← bail_if (negb (bool_decide (suite_aead = STREAM_V3_SUITE_AEAD))) reject;
  stream_id ← slice_or_panic header 8 24;
  kem_ct_len ← slice_or_panic header 24 26;
  _ ← bail_if (negb (be_val kem_ct_len =? Wire.KEM_CIPHERTEXT_BYTES)) reject;
  kem_ct ← slice_or_panic header 26 (26 + Wire.KEM_CIPHERTEXT_BYTES);
  pre_header ← slice_or_panic header 0 (STREAM_V3_HEADER_BYTES - 16);
  header_tag ← slice_or_panic header (STREAM_V3_HEADER_BYTES - 16) STREAM_V3_HEADER_BYTES;
  shared_secret ← Kem.decapsulate sk kem_ct;
  stream_key ← map_err (fun _ => reject) (derive_stream_key shared_secret kem_ct stream_id context);
  header_key ← map_err (fun _ => reject) (derive_header_key stream_key);
  expected_tag ← map_err (fun _ => reject) (aead_seal header_key zero_nonce [] pre_header);
  _ ← bail_if (negb (bool_decide (expected_tag = header_tag))) reject;
  final_key ← map_err (fun _ => reject) (derive_final_key stream_key);
  Ok (mkDec stream_key final_key stream_id 0 false, mkHeader version suite_kem suite_aead stream_id).

Definition decrypt_chunk (st : StreamV3Decryptor) (chunk_data aad : list byte) :
    StreamV3Decryptor * decode_result (list byte * bool) :=
  let r : decode_result (Z * list byte * bool) :=
    _ ← bail_if (done_ st) reject;
    _ ← bail_if (len chunk_data <? STREAM_V3_CHUNK_MIN_BYTES) reject;
    seq_bytes ← slice_or_panic chunk_data 0 8;
    let seq := be_val seq_bytes in
    b ← idx chunk_data 8;
    is_final ← Stream.parse_flag b;
    ct ← slice_or_panic chunk_data 9 (len chunk_data);
    _ ← bail_if (negb (seq =? expected_seq st)) reject;
    nonce ← map_err (fun _ => reject) (derive_chunk_nonce (d_stream_key st) seq);
    plaintext ← map_err Fail (aead_open (d_stream_key st) nonce ct (make_chunk_aad (d_stream_id st) seq is_final aad));
    next ← ok_or (checked_add U64_MAX (expected_seq st) 1) reject;
    Ok (next, plaintext, is_final) in
  match r with
  | Err e => (st, Err e)
  | Ok (next, plaintext, is_final) =>
      (mkDec (d_stream_key st) (d_final_key st) (d_stream_id st) next (if is_final then true else done_ st),
       Ok (plaintext, is_final))
  end.

(** [verify_slice] compares the whole tag. *)
Definition verify_final_tag (st : StreamV3Decryptor) (tag : list byte) : decode_result unit :=
  _ ← bail_if (negb (done_ st)) reject;
  bail_if (negb (bool_decide (tag_of (d_final_key st) (d_stream_id st) (expected_seq st) = tag))) reject.
Definition finish := verify_final_tag.

(** ** In one call *)

Record EncryptedStreamV3 := mkStream { es_header : list byte; frames : list (list byte); es_final_tag : list byte }.

(** The last chunk is final. *)
Fixpoint encrypt_frames (enc : StreamV3Encryptor) (chunks : list (list byte)) (aad : list byte) :
    StreamV3Encryptor * result EncodingError (list (list byte)) :=
  match chunks with
  | [] => (enc, Ok [])
  | pt :: rest =>
      let '(enc, r) := encrypt_chunk enc pt (bool_decide (rest = [])) aad in
      match r with
      | Err e => (enc, Err e)
      | Ok f => let '(enc, r) := encrypt_frames enc rest aad in (enc, fs ← r; Ok (f :: fs))
      end
  end.

Definition encrypt_stream_v3 (rnd : kem_draws) (id : list byte) (pk : Kem.PublicKey)
    (plaintext_chunks : list (list byte)) (aad context : list byte) : result (fault EncodingError) EncryptedStreamV3 :=
  _ ← bail_if (bool_decide (plaintext_chunks = [])) (Fail mkEncodingError);
  enc ← new rnd id pk context;
  let '(enc', r) := encrypt_frames enc plaintext_chunks aad in
  frames ← map_err Fail r;
  final_tag ← map_err Fail (final_tag enc');
  Ok (mkStream (header enc) frames final_tag).

Fixpoint decrypt_frames (dec : StreamV3Decryptor) (chunks : list (list byte)) (aad : list byte) :
    decode_result (StreamV3Decryptor * list byte) :=
  match chunks with
  | [] => Ok (dec, [])
  | frame :: rest =>
      let '(dec, r) := decrypt_chunk dec frame aad in
      x ← r;
      let '(pt, is_final) := x in
      _ ← bail_if (negb (Bool.eqb is_final (bool_decide (rest = [])))) reject;
      y ← decrypt_frames dec rest aad;
      Ok (y.1, pt ++ y.2)
  end.

Definition decrypt_stream_v3 (sk : Kem.SecretKey) (header : list byte) (chunks : list (list byte)) (final_tag aad context : list byte) :
    decode_result (list byte) :=
  _ ← bail_if (bool_decide (chunks = [])) reject;
  d ← from_header sk header context;
  y ← decrypt_frames d.1 chunks aad;
  _ ← finish y.1 final_tag;
  Ok y.2.

Definition is_finalized (st : StreamV3Encryptor) : bool := finalized st.
Definition chunk_count (st : StreamV3Encryptor) : Z := next_seq st.
Definition is_done (st : StreamV3Decryptor) : bool := done_ st.
Definition chunks_received (st : StreamV3Decryptor) : Z := expected_seq st.

(** ** Chunk positions *)

Definition frame_of (i : Z) (is_final : bool) (ct : list byte) : list byte :=
  u64_be i ++ [Stream.flag_byte is_final] ++ ct.

Lemma u64_be_inj i j : 0 <= i <= U64_MAX -> 0 <= j <= U64_MAX -> u64_be i = u64_be j -> i = j.
Proof. unfold U64_MAX. intros ???%be_bytes_inj; [done|cbn; lia..]. Qed.

(** Under one key no two positions share a nonce. *)
Theorem nonce_info_injective i j :
  0 <= i <= U64_MAX -> 0 <= j <= U64_MAX -> nonce_info i = nonce_info j -> i = j.
Proof. intros Hi Hj E%app_inv_head. by apply u64_be_inj. Qed.

Lemma frame_of_inj i f c j g d :
  0 <= i <= U64_MAX -> 0 <= j <= U64_MAX -> frame_of i f c = frame_of j g d -> i = j /\ f = g /\ c = d.
Proof.
  intros Hi Hj E. apply app_inj_len in E as [E1 E2]; [|by rewrite !length_be_bytes].
  cbn in E2. injection E2 as Ef%Stream.flag_byte_inj ->. split_and!; [by apply u64_be_inj|done..].
Qed.

(** ** What a decryptor accepts *)

Lemma chunk_accepted d c aad d' pt fin :
  decrypt_chunk d c aad = (d', Ok (pt, fin)) ->
  done_ d = false /\ expected_seq d + 1 <= U64_MAX /\
  d' = mkDec (d_stream_key d) (d_final_key d) (d_stream_id d) (expected_seq d + 1) fin /\
  exists n ct, c = frame_of (expected_seq d) fin ct /\
    derive_chunk_nonce (d_stream_key d) (expected_seq d) = Ok n /\
    gcm_decrypt (d_stream_key d) n ct (make_chunk_aad (d_stream_id d) (expected_seq d) fin aad) = Some pt.
Proof.
  unfold decrypt_chunk. destruct (_ ≫= _) as [[[nx p] f]|] eqn:E; [|done].
  intros [= <- <- <-]. inv_ok E. bool_hyps. simplify_eq.
  match goal with H : checked_add _ _ _ = _ |- _ => apply WireV2.checked_add_Some in H as [-> ?] end.
  match goal with H : Stream.parse_flag _ = _ |- _ => apply Stream.parse_flag_Ok in H; subst end.
  decoded_pieces. split; [done|]. split; [done|].
  match goal with H : done_ d = false |- _ => rewrite H end. split; [by destruct f|].
  match goal with H : be_val _ = expected_seq d |- _ => rewrite H in *; pose proof H as He end.
  match goal with H : aead_open _ _ _ _ = _ |- _ => apply ok_or_Ok in H end.
  eexists _, _. split_and!; [|done..].
  unfold frame_of. rewrite <- He, (be_bytes_val_len 8 x1) by lia. symmetry. apply slice_full. slice_chain.
Qed.

Lemma decrypt_frames_Ok d cs aad d' out :
  decrypt_frames d cs aad = Ok (d', out) -> 0 <= expected_seq d -> cs <> [] ->
  expected_seq d + len cs <= U64_MAX /\
  d' = mkDec (d_stream_key d) (d_final_key d) (d_stream_id d) (expected_seq d + len cs) true /\
  forall k c, cs !! k = Some c ->
    exists ct, c = frame_of (expected_seq d + Z.of_nat k) (bool_decide (S k = length cs)) ct.
Proof.
  revert d out. induction cs as [|c rest IH]; [done|]. intros d out H H0 _. cbn in H.
  destruct (decrypt_chunk d c aad) as [d1 r] eqn:Ec. inv_ok H. bool_hyps. destruct x0 as [d2 out2].
  cbn [fst snd] in *. simplify_eq. apply Bool.eqb_prop in Hx0. subst b.
  apply chunk_accepted in Ec as (_ & Hm & -> & n & ct & Hc & _ & _).
  destruct (decide (rest = [])) as [->|Hr].
  { cbn in *. simplify_eq. cbn. split_and!; [lia|done|].
    intros [|k] c' Hk; [|done]. injection Hk as <-. exists ct. by rewrite Z.add_0_r. }
  rewrite bool_decide_eq_false_2 in Hc, Hx1 by done.
  destruct (IH _ _ Hx1) as (G1 & G2 & G3); [cbn; lia|done|]. cbn -[frame_of] in G1, G2, G3.
  rewrite length_cons. split_and!; [lia|cbn; rewrite G2; f_equal; lia|].
  intros [|k] c' Hk.
  - injection Hk as <-. exists ct. rewrite Z.add_0_r, bool_decide_eq_false_2 by (by destruct rest). done.
  - destruct (G3 _ _ Hk) as [ct' ->]. exists ct'. f_equal; [lia|].
    apply bool_decide_ext. lia.
Qed.

Lemma decrypt_chunk_no_panic d c aad : (decrypt_chunk d c aad).2 <> Err Panic.
Proof.
  unfold decrypt_chunk. destruct (_ ≫= _) as [[[??]?]|err] eqn:E; [done|]. cbn.
  intros [= ->]. revert E.
  match goal with |- ?m = ?x -> False => change (m <> x) end. no_panic; unfold Stream.parse_flag; bool_hyps;
    unfold STREAM_V3_CHUNK_MIN_BYTES, STREAM_V3_CHUNK_HEADER_BYTES in *; try lia.
  all: repeat case_bool_decide; try discriminate.
  all: match goal with |- map_err _ ?m <> _ => by destruct m end.
Qed.

Lemma from_header_no_panic sk h context : from_header sk h context <> Err Panic.
Proof.
  unfold from_header. no_panic; unfold STREAM_V3_HEADER_BYTES, Wire.KEM_CIPHERTEXT_BYTES,
    Wire.X25519_KEY_BYTES, Wire.MLKEM_CIPHERTEXT_BYTES in *; try lia; try apply Kem.decapsulate_never_panics.
  all: match goal with |- map_err _ ?m <> _ => by destruct m end.
Qed.

Lemma decrypt_frames_no_panic d cs aad : decrypt_frames d cs aad <> Err Panic.
Proof.
  revert d. induction cs as [|c rest IH]; intros d; cbn; [done|].
  pose proof (decrypt_chunk_no_panic d c aad) as Hp.
  destruct (decrypt_chunk d c aad) as [d1 r]. cbn in Hp. apply bind_no_panic; [done|].
  intros [pt fin] _. no_panic. apply IH.
Qed.

Theorem decrypt_stream_v3_never_panics sk h cs tag aad context :
  decrypt_stream_v3 sk h cs tag aad context <> Err Panic.
Proof.
  unfold decrypt_stream_v3, finish, verify_final_tag.
  no_panic; [apply from_header_no_panic|apply decrypt_frames_no_panic|..]; no_panic.
Qed.

(** ** What the one-call decryptor accepts *)

Lemma from_header_fresh sk h context d hd :
  from_header sk h context = Ok (d, hd) -> expected_seq d = 0 /\ done_ d = false.
Proof. unfold from_header. intros H. inv_ok H. simplify_eq. done. Qed.

(** An accepted stream has the frames [0, 1, ...], the last one final, and the
    tag of its length. *)
Lemma accepted_shape sk h cs tag aad context out :
  decrypt_stream_v3 sk h cs tag aad context = Ok out ->
  exists d hd, from_header sk h context = Ok (d, hd) /\ cs <> [] /\ len cs <= U64_MAX /\
    (exists d', decrypt_frames d cs aad = Ok (d', out)) /\
    tag = tag_of (d_final_key d) (d_stream_id d) (len cs) /\
    forall k c, cs !! k = Some c ->
      exists ct, c = frame_of (Z.of_nat k) (bool_decide (S k = length cs)) ct.
Proof.
  unfold decrypt_stream_v3, finish, verify_final_tag. intros H. inv_ok H.
  apply bool_decide_eq_false in Hx. destruct x0 as [d hd], x1 as [d' o]. cbn [fst snd] in *.
  apply from_header_fresh in Hx0 as Hf. destruct Hf as [H0 _].
  destruct (decrypt_frames_Ok _ _ _ _ _ Hx1) as (G1 & -> & G3); [lia|done|].
  rewrite H0 in *. cbn in Hx2. inv_ok Hx2. bool_hyps.
  exists d, hd. split_and!; eauto.
Qed.

(** Position decides the frame: a frame of an accepted stream that another
    accepted stream holds too stands at the same place in both and ends both or
    neither. *)
Lemma accepted_position sk h cs tag aad context out sk' h' cs' tag' aad' context' out' k k' c :
  decrypt_stream_v3 sk h cs tag aad context = Ok out ->
  decrypt_stream_v3 sk' h' cs' tag' aad' context' = Ok out' ->
  cs !! k = Some c -> cs' !! k' = Some c ->
  k = k' /\ (S k = length cs <-> S k' = length cs').
Proof.
  intros (? & ? & _ & _ & Hm & _ & _ & G)%accepted_shape (? & ? & _ & _ & Hm' & _ & _ & G')%accepted_shape Hk Hk'.
  pose proof (lookup_lt_Some _ _ _ Hk). pose proof (lookup_lt_Some _ _ _ Hk').
  destruct (G _ _ Hk) as [ct ->], (G' _ _ Hk') as [ct' E].
  apply frame_of_inj in E as (E & Ef & _); [|lia..]. split; [lia|].
  repeat case_bool_decide; naive_solver.
Qed.

(** C36: Once a version 3 stream has been accepted, nothing else can be made of its
    frames: any other list of them, shortened, reordered or with repetitions, that the
    one-call decryptor accepts under the same header, AAD and context is that same list,
    with the same final tag and the same plaintext. *)
Theorem stream_v3_untampered sk header cs cs' tag tag' aad context out out' :
  decrypt_stream_v3 sk header cs tag aad context = Ok out ->
  cs' ⊆ cs ->
  decrypt_stream_v3 sk header cs' tag' aad context = Ok out' ->
  cs' = cs /\ tag' = tag /\ out' = out.
Proof.
  intros H Hsub H'.
  assert (Hpos : forall k c, cs' !! k = Some c -> cs !! k = Some c /\ (S k = length cs' <-> S k = length cs)).
  { intros k c Hk. destruct (list_elem_of_lookup_1 cs c) as [j Hj].
    { apply Hsub. by eapply list_elem_of_lookup_2. }
    destruct (accepted_position _ _ _ _ _ _ _ _ _ _ _ _ _ _ _ _ _ H H' Hj Hk) as [-> ?]. naive_solver. }
  apply accepted_shape in H as (d & hd & Hd & Hne & _ & [d' Hf] & -> & _).
  apply accepted_shape in H' as (d2 & hd2 & Hd2 & Hne' & _ & [d2' Hf2] & -> & _).
  rewrite Hd in Hd2. injection Hd2 as <- <-.
  assert (Hlen : length cs' = length cs).
  { destruct cs' as [|c0 r] using rev_ind; [done|].
    destruct (Hpos (length r) c0) as [_ E]; [by rewrite lookup_app_r, Nat.sub_diag by lia|].
    rewrite length_app in E |- *. cbn in *. lia. }
  assert (cs' = cs) as ->; [|rewrite Hf in Hf2; naive_solver].
  apply list_eq_same_length with (length cs); [done..|].
  intros k c c' _ Hk Hk'. apply Hpos in Hk as [Hk _]. congruence.
Qed.

(** ** Reading back *)

Lemma pre_header_size id ct :
  len id = 16 -> len ct = Wire.KEM_CIPHERTEXT_BYTES -> len (pre_header id ct) = STREAM_V3_HEADER_BYTES - 16.
Proof.
  unfold pre_header. intros Hi Hc. rewrite !length_app, length_be_bytes. cbn [length].
  assert (length STREAM_V3_MAGIC = 4%nat) by done. unfold STREAM_V3_HEADER_BYTES. unfold Wire.KEM_CIPHERTEXT_BYTES, Wire.X25519_KEY_BYTES, Wire.MLKEM_CIPHERTEXT_BYTES in *. lia.
Qed.

(** Only the first 1162 bytes are read: what follows the tag is neither parsed
    nor authenticated. *)
Lemma from_header_parse sk id ct tag extra context :
  len id = 16 -> len ct = Wire.KEM_CIPHERTEXT_BYTES -> len tag = 16 ->
  from_header sk (pre_header id ct ++ tag ++ extra) context =
    (ss ← Kem.decapsulate sk ct;
     k ← map_err (fun _ => reject) (derive_stream_key ss ct id context);
     hk ← map_err (fun _ => reject) (derive_header_key k);
     t ← map_err (fun _ => reject) (aead_seal hk zero_nonce [] (pre_header id ct));
     _ ← bail_if (negb (bool_decide (t = tag))) reject;
     fk ← map_err (fun _ => reject) (derive_final_key k);
     Ok (mkDec k fk id 0 false, mkHeader STREAM_V3_VERSION STREAM_V3_SUITE_KEM STREAM_V3_SUITE_AEAD id)).
Proof.
  intros Hi Hc Ht. pose proof (pre_header_size _ _ Hi Hc) as Hp.
  pose (fixed := STREAM_V3_MAGIC ++ [STREAM_V3_VERSION; STREAM_V3_FLAGS; STREAM_V3_SUITE_KEM; STREAM_V3_SUITE_AEAD]).
  pose (n := u16_be Wire.KEM_CIPHERTEXT_BYTES).
  assert (Hfix : len fixed = 8) by done. assert (Hn : len n = 2) by done.
  set (h := pre_header id ct ++ tag ++ extra).
  assert (Hh : h = fixed ++ id ++ n ++ ct ++ tag ++ extra)
    by (unfold h, pre_header, fixed; by rewrite <- !(assoc_L (++))).
  unfold Wire.KEM_CIPHERTEXT_BYTES, Wire.X25519_KEY_BYTES, Wire.MLKEM_CIPHERTEXT_BYTES in Hc.
  assert (Hlen : len h = 1162 + len extra).
  { rewrite Hh, !length_app. lia. }
  assert (S1 : slice h 8 24 = Some id) by (rewrite Hh; apply slice_app; lia).
  assert (S2 : slice h 24 26 = Some n).
  { rewrite Hh, (assoc_L (++)). apply slice_app; rewrite length_app; lia. }
  assert (S3 : slice h 26 1146 = Some ct).
  { rewrite Hh, (assoc_L (++)), (assoc_L (++) (fixed ++ id)). apply slice_app; rewrite !length_app; lia. }
  assert (S4 : slice h 0 1146 = Some (pre_header id ct)) by (apply slice_prefix; rewrite Hp; done).
  assert (S5 : slice h 1146 1162 = Some tag)
    by (apply slice_app; rewrite Hp; unfold STREAM_V3_HEADER_BYTES; lia).
  clearbody h.
  assert (S6 : slice h 0 4 = Some STREAM_V3_MAGIC).
  { rewrite Hh. unfold fixed. rewrite <- (assoc_L (++)). by apply slice_prefix. }
  unfold from_header, slice_or_panic.
  assert (Hi4 : idx (E := DecryptionError) h 4 = Ok STREAM_V3_VERSION) by by rewrite Hh.
  assert (Hi5 : idx (E := DecryptionError) h 5 = Ok STREAM_V3_FLAGS) by by rewrite Hh.
  assert (Hi6 : idx (E := DecryptionError) h 6 = Ok STREAM_V3_SUITE_KEM) by by rewrite Hh.
  assert (Hi7 : idx (E := DecryptionError) h 7 = Ok STREAM_V3_SUITE_AEAD) by by rewrite Hh.
  rewrite (proj2 (Z.ltb_ge _ _)) by (unfold STREAM_V3_HEADER_BYTES; lia).
  change (26 + Wire.KEM_CIPHERTEXT_BYTES) with 1146. change (STREAM_V3_HEADER_BYTES - 16) with 1146.
  change STREAM_V3_HEADER_BYTES with 1162.
  rewrite S1, S2, S3, S4, S5, S6, Hi4, Hi5, Hi6, Hi7. reflexivity.
Qed.

Corollary from_header_ignores_trailing sk id ct tag extra context :
  len id = 16 -> len ct = Wire.KEM_CIPHERTEXT_BYTES -> len tag = 16 ->
  from_header sk (pre_header id ct ++ tag ++ extra) context = from_header sk (pre_header id ct ++ tag) context.
Proof.
  intros Hi Hc Ht. pose proof (from_header_parse sk id ct tag [] context Hi Hc Ht) as E.
  rewrite app_nil_r in E. by rewrite E, from_header_parse.
Qed.

Context {PL : PrimitiveLaws P}.

Definition in_sync (e : StreamV3Encryptor) (d : StreamV3Decryptor) : Prop :=
  d = mkDec (e_stream_key e) (e_final_key e) (e_stream_id e) (next_seq e) (finalized e) /\ 0 <= next_seq e.

Lemma aead_seal_size k n m a c : aead_seal k n m a = Ok c -> len c = len m + 16.
Proof. intros H%ok_or_Ok. by apply gcm_size in H. Qed.

Lemma sessions_in_sync rnd id sk context e :
  len id = 16 -> new rnd id (Kem.public_key sk) context = Ok e ->
  exists d hd, from_header sk (header e) context = Ok (d, hd) /\ in_sync e d /\
    next_seq e = 0 /\ finalized e = false.
Proof.
  unfold new. intros Hid H. inv_ok H. simplify_eq.
  rewrite (firstn_all2 id) in * by lia. cbn [header].
  apply (WireV2.encapsulate_size (KemLaws := Kem.hybrid_laws)) in Hx as Hl.
  apply (decapsulate_encapsulate (KemLaws := Kem.hybrid_laws) _ sk) in Hx as Hdec; [|done].
  cbn [decapsulate K_KEM_CIPHERTEXT_BYTES Kem.HybridX25519MlKem768Provider] in Hdec, Hl.
  apply aead_seal_size in Hx3 as Ht. rewrite <- (app_nil_r x2).
  rewrite from_header_parse, Hdec by done.
  rewrite (app_nil_r x2). cbn [mbind result_bind]. rewrite Hx0. cbn [map_err mbind result_bind].
  rewrite Hx1. cbn [map_err mbind result_bind]. rewrite Hx3. cbn [map_err mbind result_bind].
  rewrite bool_decide_eq_true_2 by done. cbn [negb bail_if mbind result_bind]. rewrite Hx2.
  eexists _, _. split; [done|]. by split.
Qed.

Lemma chunk_travels e d pt fin aad e' c :
  in_sync e d -> encrypt_chunk e pt fin aad = (e', Ok c) ->
  exists d', decrypt_chunk d c aad = (d', Ok (pt, fin)) /\ in_sync e' d' /\
    finalized e' = fin /\ e_stream_id e' = e_stream_id e.
Proof.
  intros [-> H0]. unfold encrypt_chunk.
  destruct (finalized e) eqn:Hfin; [done|].
  destruct (_ ≫= _) as [[next out]|] eqn:E; [|done]. intros [= <- <-]. inv_ok E. simplify_eq.
  apply WireV2.checked_add_Some in Hx1 as [-> ?]. apply aead_seal_size in Hx0 as Hs.
  apply ok_or_Ok, gcm_correct in Hx0.
  set (h := u64_be (next_seq e)). assert (H8 : len h = 8) by (unfold h; by rewrite length_be_bytes).
  unfold decrypt_chunk. cbn [done_ bail_if mbind result_bind]. unfold slice_or_panic.
  rewrite !length_app. rewrite (proj2 (Z.ltb_ge _ _))
    by (unfold STREAM_V3_CHUNK_MIN_BYTES, STREAM_V3_CHUNK_HEADER_BYTES; cbn [length]; lia).
  rewrite slice_prefix by lia. cbn [bail_if mbind result_bind ok_or].
  assert (Hb : idx (E := DecryptionError) (h ++ [Stream.flag_byte fin] ++ x0) 8 = Ok (Stream.flag_byte fin)) by done.
  rewrite Hb. cbn [mbind result_bind]. rewrite Stream.parse_flag_byte. cbn [mbind result_bind].
  rewrite (assoc_L (++)), slice_to_end by (rewrite ?length_app; cbn [length]; lia).
  cbn [ok_or mbind result_bind expected_seq d_stream_key d_stream_id]. unfold h.
  rewrite be_val_bytes_small by (unfold U64_MAX in *; cbn; lia).
  rewrite Z.eqb_refl. cbn [negb bail_if mbind result_bind]. rewrite Hx. cbn [map_err mbind result_bind].
  unfold aead_open. rewrite Hx0. cbn [map_err ok_or mbind result_bind].
  rewrite WireV2.checked_add_ok by lia. cbn.
  eexists. split; [done|]. unfold in_sync; cbn. destruct fin; split_and!; done || lia.
Qed.

Lemma decrypt_encrypt_frames e d chunks aad e' fs :
  chunks <> [] -> in_sync e d -> encrypt_frames e chunks aad = (e', Ok fs) ->
  length fs = length chunks /\ finalized e' = true /\
  exists d', decrypt_frames d fs aad = Ok (d', mjoin chunks) /\ in_sync e' d'.
Proof.
  revert e d fs. induction chunks as [|pt rest IH]; [done|]. intros e d fs _ Hs H. cbn in H.
  destruct (encrypt_chunk _ _ _ _) as [e1 r] eqn:Ec. destruct r as [f|]; [|done].
  destruct (chunk_travels _ _ _ _ _ _ _ Hs Ec) as (d1 & Hd & Hs1 & Hf & _).
  destruct (encrypt_frames e1 rest aad) as [e2 r] eqn:Ef. injection H as <- H. inv_ok H. simplify_eq.
  cbn [decrypt_frames]. rewrite Hd. cbn [mbind result_bind].
  destruct (decide (rest = [])) as [->|Hr].
  - cbn in Ef. simplify_eq. cbn. rewrite app_nil_r. eauto.
  - destruct (IH _ _ _ Hr Hs1 Ef) as (Hl & Hfin & d2 & Hd2 & Hs2). cbn [length]. rewrite Hd2, Hl.
    rewrite !bool_decide_eq_false_2 by (by destruct x, rest). cbn. eauto.
Qed.

(** C27: What the version 3 one-call encryptor makes of a non-empty list of chunks, of
    any sizes, the one-call decryptor turns back into their concatenation: header, every
    frame and final tag are accepted. *)
Theorem stream_v3_roundtrip rnd id sk chunks aad context es :
  len id = 16 ->
  encrypt_stream_v3 rnd id (Kem.public_key sk) chunks aad context = Ok es ->
  decrypt_stream_v3 sk (es_header es) (frames es) (es_final_tag es) aad context = Ok (mjoin chunks).
Proof.
  unfold encrypt_stream_v3. intros Hid H. inv_ok H. bool_hyps.
  destruct (sessions_in_sync _ _ _ _ _ Hid Hx0) as (d & hd & Hd & Hs & _).
  destruct (decrypt_encrypt_frames _ _ _ _ _ _ Hx Hs Ep) as (Hl & Hfin & d' & Hd' & -> & _).
  unfold final_tag in Hx2. rewrite Hfin in Hx2. inv_ok Hx2. simplify_eq.
  unfold decrypt_stream_v3. cbn [es_header frames es_final_tag].
  rewrite bool_decide_eq_false_2 by (by destruct x1, chunks). cbn [bail_if mbind result_bind].
  rewrite Hd. cbn [mbind result_bind fst]. rewrite Hd'. cbn. rewrite Hfin. cbn.
  by rewrite bool_decide_eq_true_2.
Qed.

(** The state at sequence number [u64::MAX] is terminal: neither side can take a
    step from it. *)
Theorem last_seq_unusable e d pt fin aad c :
  next_seq e = U64_MAX -> expected_seq d = U64_MAX ->
  encrypt_chunk e pt fin aad = (e, Err mkEncodingError) /\
  exists err, decrypt_chunk d c aad = (d, Err err).
Proof.
  intros He Hd. split.
  - unfold encrypt_chunk. destruct (finalized e); [done|].
    destruct (_ ≫= _) as [[nx out]|[]] eqn:E; [|done]. exfalso. inv_ok E.
    rewrite He in *. done.
  - unfold decrypt_chunk. destruct (_ ≫= _) as [[[nx p] f]|] eqn:E; [|naive_solver].
    exfalso. inv_ok E. rewrite Hd in *. done.
Qed.
End stream.
End StreamV3.
