(* ===== verification/KemP384.v ===== *)
(** * Suite [0xA4]: P-384 + ML-KEM-1024 ([citadel-envelope/src/kem_p384.rs], [CitadelP384] of [sdk.rs])

    A second implementation of [KemProvider]: the theorems of [WireV2] and of
    [Engine], which are stated for any provider, apply to it through
    [p384_laws]. *)

From S2P Require Import Prelude.
From S2P Require Import Wire.
From S2P Require Import WireV2.
From S2P Require Import Crypto.
From S2P Require Import Envelope.

(** The crates [p384] and [ml_kem] (parameter set 1024).  The operations that
    draw randomness take the drawn bytes. *)
Class P384Primitives := {
  P384PublicKey : Type;
  P384SecretKey : Type;
  p384_generate : list byte -> P384SecretKey;
  (** [EphemeralSecret::try_generate] *)
  p384_try_generate : list byte -> option P384SecretKey;
  p384_from_slice : list byte -> option P384SecretKey;
  p384_to_bytes : P384SecretKey -> list byte;
  p384_public_key : P384SecretKey -> P384PublicKey;
  from_sec1_bytes : list byte -> option P384PublicKey;
  (** [to_sec1_point(false)] *)
  to_sec1_uncompressed : P384PublicKey -> list byte;
  diffie_hellman : P384SecretKey -> P384PublicKey -> list byte;
  EncapKey1024 : Type;
  DecapKey1024 : Type;
  from_seed : list byte -> DecapKey1024;
  encapsulation_key : DecapKey1024 -> EncapKey1024;
  ek1024_new : list byte -> option EncapKey1024;
  ek1024_bytes : EncapKey1024 -> list byte;
  mlkem1024_encapsulate : list byte -> EncapKey1024 -> list byte * list byte;
  mlkem1024_decapsulate : DecapKey1024 -> list byte -> list byte;
  to_expanded_bytes : DecapKey1024 -> list byte;
}.

(** SEC 1 (an uncompressed point is its tag and two reduced coordinates), ECDH,
    and FIPS 203 (sizes, correctness, and the modulus check, by which an
    accepted encapsulation key is the encoding of what it decodes to). *)
Class P384Laws (Q : P384Primitives) : Prop := {
  length_sec1 pk : len (to_sec1_uncompressed pk) = 97;
  sec1_tag pk : head (to_sec1_uncompressed pk) = Some Byte.x04;
  from_to_sec1 pk : from_sec1_bytes (to_sec1_uncompressed pk) = Some pk;
  to_from_sec1 bs pk :
    len bs = 97 -> head bs = Some Byte.x04 -> from_sec1_bytes bs = Some pk -> to_sec1_uncompressed pk = bs;
  length_p384_to_bytes sk : len (p384_to_bytes sk) = 48;
  from_slice_to_bytes sk : p384_from_slice (p384_to_bytes sk) = Some sk;
  to_bytes_from_slice bs sk : len bs = 48 -> p384_from_slice bs = Some sk -> p384_to_bytes sk = bs;
  diffie_hellman_comm a b : diffie_hellman a (p384_public_key b) = diffie_hellman b (p384_public_key a);
  length_ek1024_bytes ek : len (ek1024_bytes ek) = 1568;
  ek1024_new_bytes ek : ek1024_new (ek1024_bytes ek) = Some ek;
  ek1024_bytes_new bs ek : len bs = 1568 -> ek1024_new bs = Some ek -> ek1024_bytes ek = bs;
  length_mlkem1024_ct r ek : len (mlkem1024_encapsulate r ek).1 = 1568;
  mlkem1024_correct r dk :
    mlkem1024_decapsulate dk (mlkem1024_encapsulate r (encapsulation_key dk)).1
    = (mlkem1024_encapsulate r (encapsulation_key dk)).2;
}.

Module KemP384.

Definition P384_POINT_BYTES : Z := 97.
Definition SEC1_TAG_UNCOMPRESSED : byte := Byte.x04.
Definition P384_SCALAR_BYTES : Z := 48.
Definition MLKEM1024_EK_BYTES : Z := 1568.
Definition MLKEM1024_CT_BYTES : Z := 1568.
Definition MLKEM_SEED_BYTES : Z := 64.
Definition P384_MLKEM1024_PUBLIC_KEY_BYTES : Z := P384_POINT_BYTES + MLKEM1024_EK_BYTES.
Definition P384_MLKEM1024_SECRET_KEY_BYTES : Z := P384_SCALAR_BYTES + MLKEM_SEED_BYTES.
Definition KEM_CIPHERTEXT_BYTES : Z := P384_POINT_BYTES + MLKEM1024_CT_BYTES.

Ltac sizes := unfold KEM_CIPHERTEXT_BYTES, P384_MLKEM1024_PUBLIC_KEY_BYTES, P384_MLKEM1024_SECRET_KEY_BYTES,
  P384_POINT_BYTES, P384_SCALAR_BYTES, MLKEM1024_EK_BYTES, MLKEM1024_CT_BYTES, MLKEM_SEED_BYTES in *.

Section kem.
Context {Q : P384Primitives}.

(** ** Points *)

Definition parse_p384_point (bytes : list byte) : option P384PublicKey :=
  if negb (len bytes =? P384_POINT_BYTES) || negb (bool_decide (head bytes = Some SEC1_TAG_UNCOMPRESSED)) then None
  else from_sec1_bytes bytes.

Definition encode_p384_point (pk : P384PublicKey) : list byte := to_sec1_uncompressed pk.

(** ** Keys *)

Record P384MlKem1024PublicKey := mkPublic { pk_p384 : P384PublicKey; pk_mlkem : EncapKey1024 }.
(** The seed is a [[u8; 64]] in the source. *)
Record P384MlKem1024SecretKey := mkSecret { sk_p384 : P384SecretKey; mlkem_seed : list byte }.

Definition mlkem_key (sk : P384MlKem1024SecretKey) : DecapKey1024 := from_seed (mlkem_seed sk).

Definition PublicKey_to_bytes (pk : P384MlKem1024PublicKey) : list byte :=
  encode_p384_point (pk_p384 pk) ++ ek1024_bytes (pk_mlkem pk).

Definition PublicKey_from_bytes (bytes : list byte) : decode_result P384MlKem1024PublicKey :=
  _ ← bail_if (negb (len bytes =? P384_MLKEM1024_PUBLIC_KEY_BYTES)) reject;
  point ← slice_or_panic bytes 0 P384_POINT_BYTES;
  p384 ← ok_or (parse_p384_point point) reject;
  mlkem_ek_bytes ← slice_or_panic bytes P384_POINT_BYTES (len bytes);
  _ ← bail_if (negb (len mlkem_ek_bytes =? MLKEM1024_EK_BYTES)) reject;
  mlkem ← ok_or (ek1024_new mlkem_ek_bytes) reject;
  Ok (mkPublic p384 mlkem).

Definition SecretKey_to_bytes (sk : P384MlKem1024SecretKey) : list byte :=
  p384_to_bytes (sk_p384 sk) ++ mlkem_seed sk.

Definition SecretKey_from_bytes (bytes : list byte) : decode_result P384MlKem1024SecretKey :=
  _ ← bail_if (negb (len bytes =? P384_MLKEM1024_SECRET_KEY_BYTES)) reject;
  scalar ← slice_or_panic bytes 0 P384_SCALAR_BYTES;
  p384 ← ok_or (p384_from_slice scalar) reject;
  seed ← slice_or_panic bytes P384_SCALAR_BYTES (len bytes);
  Ok (mkSecret p384 seed).

(** ** The provider *)

Definition public_key_of (sk : P384MlKem1024SecretKey) : P384MlKem1024PublicKey :=
  mkPublic (p384_public_key (sk_p384 sk)) (encapsulation_key (mlkem_key sk)).

(** [rnd.2] is the seed, 64 bytes of [OsRng]. *)
Definition keygen (rnd : list byte * list byte) : P384MlKem1024PublicKey * P384MlKem1024SecretKey :=
  let p384_sk := p384_generate rnd.1 in
  let seed := rnd.2 in
  (mkPublic (p384_public_key p384_sk) (encapsulation_key (from_seed seed)), mkSecret p384_sk seed).

Definition encapsulate (rnd : kem_draws) (pk : P384MlKem1024PublicKey) :
    result (fault EncodingError) (list byte * list byte) :=
  ephemeral ← ok_or (rnd.1 ≫= p384_try_generate) (Fail mkEncodingError);
  let p384_ss := diffie_hellman ephemeral (pk_p384 pk) in
  m ← ok_or rnd.2 Panic;
  let '(mlkem_ct, mlkem_ss) := mlkem1024_encapsulate m (pk_mlkem pk) in
  Ok (p384_ss ++ mlkem_ss, encode_p384_point (p384_public_key ephemeral) ++ mlkem_ct).

Definition decapsulate (sk : P384MlKem1024SecretKey) (ct : list byte) : decode_result (list byte) :=
  _ ← bail_if (negb (len ct =? KEM_CIPHERTEXT_BYTES)) reject;
  point ← slice_or_panic ct 0 P384_POINT_BYTES;
  ephemeral_pk ← ok_or (parse_p384_point point) reject;
  mlkem_ct ← slice_or_panic ct P384_POINT_BYTES (len ct);
  _ ← bail_if (negb (len mlkem_ct =? MLKEM1024_CT_BYTES)) reject;
  let p384_ss := diffie_hellman (sk_p384 sk) ephemeral_pk in
  let mlkem_ss := mlkem1024_decapsulate (mlkem_key sk) mlkem_ct in
  Ok (p384_ss ++ mlkem_ss).

(** Compiled with the feature [timing-diagnostics]. *)
Definition diagnostic_p384_ecdh_only (sk : P384MlKem1024SecretKey) (ct : list byte) : decode_result (list byte) :=
  _ ← bail_if (negb (len ct =? P384_POINT_BYTES + MLKEM1024_CT_BYTES)) reject;
  point ← slice_or_panic ct 0 P384_POINT_BYTES;
  ephemeral_pk ← ok_or (parse_p384_point point) reject;
  Ok (diffie_hellman (sk_p384 sk) ephemeral_pk).

(** For test vectors: a bad scalar panics. *)
Definition kat_hybrid_keygen (p384_scalar d z : list byte) :
    result (fault EncodingError) (P384MlKem1024PublicKey * P384MlKem1024SecretKey) :=
  p384 ← ok_or (p384_from_slice p384_scalar) Panic;
  let seed := d ++ z in
  Ok (mkPublic (p384_public_key p384) (encapsulation_key (from_seed seed)), mkSecret p384 seed).

Definition kat_hybrid_encapsulate (pk : P384MlKem1024PublicKey) (p384_ephemeral_scalar m : list byte) :
    result (fault EncodingError) (list byte * list byte) :=
  ephemeral ← ok_or (p384_from_slice p384_ephemeral_scalar) (Fail mkEncodingError);
  let p384_ss := diffie_hellman ephemeral (pk_p384 pk) in
  let '(mlkem_ct, mlkem_ss) := mlkem1024_encapsulate m (pk_mlkem pk) in
  Ok (p384_ss ++ mlkem_ss, encode_p384_point (p384_public_key ephemeral) ++ mlkem_ct).

(** Not a global instance: the suite is chosen by naming it. *)
Definition HybridP384MlKem1024Provider : KemProvider := {|
  WireV2.SUITE_KEM := Wire.SUITE_KEM_HYBRID_P384_MLKEM1024;
  K_KEM_CIPHERTEXT_BYTES := KEM_CIPHERTEXT_BYTES;
  WireV2.PublicKey := P384MlKem1024PublicKey;
  WireV2.SecretKey := P384MlKem1024SecretKey;
  WireV2.keygen rnd := Some (keygen rnd);
  WireV2.encapsulate := encapsulate;
  WireV2.decapsulate := decapsulate;
  public_key_bytes := PublicKey_to_bytes;
  WireV2.public_key_of sk := Some (public_key_of sk);
|}.
End kem.

(** [CitadelP384]. *)
Section sdk.
Context {P : Primitives} {Q : P384Primitives}.

Definition generate_keypair := keygen.
Definition seal := Engine.encrypt (K := HybridP384MlKem1024Provider).
Definition open := Engine.decrypt (K := HybridP384MlKem1024Provider).
End sdk.

(** ** The laws of the provider *)

Section laws.
Context {Q : P384Primitives} {QL : P384Laws Q}.

Lemma parse_encode_point pk : parse_p384_point (encode_p384_point pk) = Some pk.
Proof.
  unfold parse_p384_point, encode_p384_point.
  rewrite length_sec1, sec1_tag, bool_decide_eq_true_2 by done. apply from_to_sec1.
Qed.

Lemma encode_parse_point bs pk : parse_p384_point bs = Some pk -> encode_p384_point pk = bs.
Proof.
  unfold parse_p384_point. destruct (negb _ || negb _) eqn:E; [done|]. bool_hyps.
  intros Hs. apply to_from_sec1; sizes; [lia|done|done].
Qed.

Lemma p384_decapsulate_never_panics sk ct : decapsulate sk ct <> Err Panic.
Proof. unfold decapsulate. no_panic; sizes; lia. Qed.

Lemma decapsulate_size sk ct ss : decapsulate sk ct = Ok ss -> len ct = KEM_CIPHERTEXT_BYTES.
Proof. unfold decapsulate. intros H. inv_ok H. by bool_hyps. Qed.

(** What any party makes of the public key of [sk] with a scalar of its own, [sk] decapsulates. *)
Lemma decapsulate_parts sk s r ct ss :
  mlkem1024_encapsulate r (encapsulation_key (mlkem_key sk)) = (ct, ss) ->
  decapsulate sk (encode_p384_point (p384_public_key s) ++ ct)
  = Ok (diffie_hellman s (p384_public_key (sk_p384 sk)) ++ ss).
Proof.
  intros Ep. pose proof (length_mlkem1024_ct r (encapsulation_key (mlkem_key sk))) as Hc.
  pose proof (mlkem1024_correct r (mlkem_key sk)) as Hm. rewrite Ep in Hc, Hm; cbn in Hc, Hm.
  pose proof (length_sec1 (p384_public_key s)) as H97. fold (encode_p384_point (p384_public_key s)) in H97.
  unfold decapsulate, slice_or_panic.
  rewrite length_app, (proj2 (Z.eqb_eq _ _)) by (sizes; lia).
  rewrite slice_prefix, slice_to_end by (rewrite ?length_app; sizes; lia).
  cbn -[parse_p384_point Z.eqb]. rewrite parse_encode_point. cbn -[Z.eqb].
  rewrite (proj2 (Z.eqb_eq _ _)) by (sizes; lia). cbn. by rewrite diffie_hellman_comm, Hm.
Qed.

Lemma length_parts pk s r ct ss :
  mlkem1024_encapsulate r pk = (ct, ss) -> len (encode_p384_point (p384_public_key s) ++ ct) = KEM_CIPHERTEXT_BYTES.
Proof.
  intros Ep. pose proof (length_mlkem1024_ct r pk) as Hc. rewrite Ep in Hc; cbn in Hc.
  pose proof (length_sec1 (p384_public_key s)). rewrite length_app. unfold encode_p384_point. sizes. lia.
Qed.

#[global] Instance p384_laws : KemLaws HybridP384MlKem1024Provider.
Proof.
  constructor; cbn -[Z.of_nat]; unfold encapsulate.
  - intros rnd pk ss ct H. inv_ok H. simplify_eq. by eapply length_parts.
  - by eexists.
  - intros rnd sk pk ss ct [= <-] H. inv_ok H. simplify_eq. by eapply decapsulate_parts.
  - apply p384_decapsulate_never_panics.
Qed.

(** ** Key encodings *)

Lemma public_key_parses pk : PublicKey_from_bytes (PublicKey_to_bytes pk) = Ok pk.
Proof.
  destruct pk as [p e]. unfold PublicKey_from_bytes, PublicKey_to_bytes, slice_or_panic.
  cbn [pk_p384 pk_mlkem]. pose proof (length_sec1 p) as Hp. fold (encode_p384_point p) in Hp.
  pose proof (length_ek1024_bytes e) as He. rewrite length_app, (proj2 (Z.eqb_eq _ _)) by (sizes; lia).
  rewrite slice_prefix, slice_to_end by (rewrite ?length_app; sizes; lia).
  cbn -[parse_p384_point Z.eqb]. rewrite parse_encode_point. cbn -[Z.eqb].
  rewrite (proj2 (Z.eqb_eq _ _)) by (sizes; lia). cbn. by rewrite ek1024_new_bytes.
Qed.

Lemma p384_secret_key_parses sk :
  len (mlkem_seed sk) = 64 -> SecretKey_from_bytes (SecretKey_to_bytes sk) = Ok sk.
Proof.
  intros Hs. destruct sk as [p s]. unfold SecretKey_from_bytes, SecretKey_to_bytes, slice_or_panic.
  cbn [sk_p384 mlkem_seed] in *. pose proof (length_p384_to_bytes p) as Hp.
  rewrite length_app, (proj2 (Z.eqb_eq _ _)) by (sizes; lia).
  rewrite slice_prefix, slice_to_end by (rewrite ?length_app; sizes; lia).
  cbn. by rewrite from_slice_to_bytes.
Qed.

(** Public keys of the P-384 suite have exactly one encoding: a byte string parses to a
    key if and only if it is what the key serializes to, so the recipient hash of an
    envelope identifies the key. *)
Theorem p384_public_key_canonical bs pk : PublicKey_from_bytes bs = Ok pk <-> PublicKey_to_bytes pk = bs.
Proof.
  split; [|intros <-; apply public_key_parses].
  unfold PublicKey_from_bytes, PublicKey_to_bytes. intros H. inv_ok H. bool_hyps. simplify_eq.
  cbn [pk_p384 pk_mlkem].
  match goal with H : parse_p384_point _ = _ |- _ => apply encode_parse_point in H; rewrite H end.
  match goal with H : ek1024_new _ = _ |- _ => apply ek1024_bytes_new in H; [rewrite H|sizes; lia] end.
  decoded_pieces. apply slice_full. slice_chain.
Qed.

Theorem p384_secret_key_canonical bs sk :
  SecretKey_from_bytes bs = Ok sk <-> SecretKey_to_bytes sk = bs /\ len (mlkem_seed sk) = 64.
Proof.
  split; [|intros [<- Hs]; by apply p384_secret_key_parses].
  unfold SecretKey_from_bytes, SecretKey_to_bytes. intros H. inv_ok H. bool_hyps. simplify_eq.
  cbn [sk_p384 mlkem_seed]. decoded_pieces.
  match goal with H : p384_from_slice _ = _ |- _ => apply to_bytes_from_slice in H; [rewrite H|sizes; lia] end.
  split; [apply slice_full; slice_chain|sizes; lia].
Qed.
End laws.

(** ** The two suites *)

Section suites.
Context {P : Primitives} {PL : PrimitiveLaws P} {Q : P384Primitives} {QL : P384Laws Q}.

(** The P-384 engine reads back what it sealed. *)
Theorem p384_open_seal r1 r2 sk pt aad ctx out :
  nonce_draw r2 -> seal r1 r2 (public_key_of sk) pt aad ctx = Ok out -> open sk out aad ctx = Ok pt.
Proof. intros Hr. by apply (Engine.open_sealed (K := HybridP384MlKem1024Provider)). Qed.

Lemma decrypt_suite (K : KemProvider) sk data aad ctx pt :
  starts_with data WireV2.MAGIC = true -> Engine.decrypt (K := K) sk data aad ctx = Ok pt ->
  exists p, WireV2.decode data = Ok p /\ Wire.suite_kem (WireV2.suite p) = WireV2.SUITE_KEM (KemProvider := K).
Proof.
  unfold Engine.decrypt. intros -> H. apply WireV2.open_Ok in H as (p & ? & ? & ? & ? & ? & Hd & Hs & _). eauto.
Qed.

(** C37: The two suites are disjoint: what one engine opens, with whatever key, AAD and
    context, the other rejects with its one opaque error; that holds for the legacy
    format too. *)
Theorem suites_disjoint (sk : Kem.SecretKey) (sk' : P384MlKem1024SecretKey) data aad ctx aad' ctx' pt :
  (Engine.decrypt (K := Kem.HybridX25519MlKem768Provider) sk data aad ctx = Ok pt ->
   open sk' data aad' ctx' = Err reject) /\
  (open sk' data aad' ctx' = Ok pt ->
   Engine.decrypt (K := Kem.HybridX25519MlKem768Provider) sk data aad ctx = Err reject).
Proof.
  pose proof (Engine.decrypt_never_panics (K := Kem.HybridX25519MlKem768Provider) sk data aad ctx) as N.
  pose proof (Engine.decrypt_never_panics (K := HybridP384MlKem1024Provider) sk' data aad' ctx') as N'.
  assert (X : forall pt pt', Engine.decrypt (K := Kem.HybridX25519MlKem768Provider) sk data aad ctx = Ok pt ->
    open sk' data aad' ctx' = Ok pt' -> False).
  { intros q q' H H'. destruct (starts_with data WireV2.MAGIC) eqn:E.
    - apply decrypt_suite in H as (p & Hp & Hs); [|done]. apply decrypt_suite in H' as (p' & Hp' & Hs'); [|done].
      rewrite Hp in Hp'. injection Hp' as <-. rewrite Hs in Hs'. done.
    - unfold open, Engine.decrypt in H, H'. rewrite E in H, H'. inv_ok H. inv_ok H'.
      rewrite Hx in Hx2. injection Hx2 as <-. apply decapsulate_size in Hx3.
      apply Wire.decode_wire_layout in Hx as (_ & _ & (_ & _ & _ & _ & Hl & _)%Wire.decode_wire_raw_layout).
      rewrite Hl in Hx3. done. }
  unfold open in *. split; intros H.
  - destruct (Engine.decrypt _ data aad' ctx') as [q|[[]|]]; [by destruct (X _ _ H eq_refl)|done|done].
  - destruct (Engine.decrypt _ data aad ctx) as [q|[[]|]]; [by destruct (X _ _ eq_refl H)|done|done].
Qed.
End suites.
End KemP384.
