(* ===== verification/AwsLc.v ===== *)
(** * The AWS-LC backend ([citadel-envelope/src/backend_awslc.rs])

    The build with the feature [fips] routes hashing, key derivation, AEAD and
    the P-384 suite through AWS-LC.  The library is the class [AwsLcModule]; that
    it implements the same standards as the RustCrypto crates is the class
    [AwsLcLaws]. *)

From S2P Require Import Prelude.
From S2P Require Import Wire.
From S2P Require Import WireV2.
From S2P Require Import Crypto.
From S2P Require Import KemP384.

(** [aws-lc-rs].  An operation that uses the module's generator takes what it
    draws as an argument. *)
Class AwsLcModule := {
  lc_sha256 : list byte -> list byte;
  lc_sha3_256 : list byte -> list byte;
  lc_hkdf : option (list byte) -> list byte -> list byte -> Z -> option (list byte);
  (** [RandomizedNonceKey]: the nonce, the ciphertext and the tag *)
  lc_seal_randnonce : option (list byte) -> list byte -> list byte -> list byte ->
    option (list byte * (list byte * list byte));
  (** [LessSafeKey] *)
  lc_seal : list byte -> list byte -> list byte -> list byte -> option (list byte);
  lc_open : list byte -> list byte -> list byte -> list byte -> option (list byte);
  (** [agreement::PrivateKey] on [ECDH_P384] *)
  LcPrivateKey : Type;
  lc_generate : list byte -> option LcPrivateKey;
  lc_from_private_key : list byte -> option LcPrivateKey;
  lc_compute_public_key : LcPrivateKey -> option (list byte);
  lc_agree : LcPrivateKey -> list byte -> option (list byte);
  (** [kem] on [ML_KEM_1024] *)
  LcEncapsulationKey : Type;
  LcDecapsulationKey : Type;
  lc_ek_new : list byte -> option LcEncapsulationKey;
  lc_ek_bytes : LcEncapsulationKey -> option (list byte);
  lc_encapsulate : list byte -> LcEncapsulationKey -> option (list byte * list byte);
  lc_dk_generate : list byte -> option LcDecapsulationKey;
  lc_dk_new : list byte -> option LcDecapsulationKey;
  lc_dk_bytes : LcDecapsulationKey -> option (list byte);
  lc_dk_ek : LcDecapsulationKey -> option LcEncapsulationKey;
  lc_decapsulate : LcDecapsulationKey -> list byte -> option (list byte);
}.

(** The module computes the functions that the RustCrypto crates compute: FIPS 180-4
    and 202, RFC 5869, SP 800-38D, SEC 1, FIPS 203.  A private key and an
    encapsulation key of the module stand for the value they were imported from. *)
Class AwsLcLaws (P : Primitives) (Q : P384Primitives) (L : AwsLcModule) := {
  scalar_of : LcPrivateKey -> P384SecretKey;
  encap_of : LcEncapsulationKey -> EncapKey1024;
  lc_sha256_spec x : lc_sha256 x = Sha256 x;
  lc_sha3_256_spec x : lc_sha3_256 x = Sha3_256 x;
  lc_hkdf_spec salt ikm info n : lc_hkdf salt ikm info n = hkdf_expand salt ikm info n;
  lc_randnonce_spec drawn k m a n c t :
    lc_seal_randnonce drawn k m a = Some (n, (c, t)) -> len n = 12 /\ gcm_encrypt k n m a = Some (c ++ t);
  lc_open_spec k n c a : lc_open k n c a = gcm_decrypt k n c a;
  lc_import_spec bs : len bs = 48 -> scalar_of <$> lc_from_private_key bs = p384_from_slice bs;
  lc_public_spec p : lc_compute_public_key p = Some (to_sec1_uncompressed (p384_public_key (scalar_of p)));
  lc_agree_spec p bs :
    len bs = 97 -> head bs = Some Byte.x04 -> lc_agree p bs = diffie_hellman (scalar_of p) <$> from_sec1_bytes bs;
  length_diffie_hellman s pk : len (diffie_hellman s pk) = 48;
  lc_ek_spec bs : len bs = 1568 -> encap_of <$> lc_ek_new bs = ek1024_new bs;
  lc_encapsulate_spec drawn e ct ss :
    lc_encapsulate drawn e = Some (ct, ss) -> exists r, mlkem1024_encapsulate r (encap_of e) = (ct, ss);
  length_expanded dk : len (to_expanded_bytes dk) = 3168;
  lc_decapsulate_spec dk ct :
    len ct = 1568 -> (d ← lc_dk_new (to_expanded_bytes dk); lc_decapsulate d ct) = Some (mlkem1024_decapsulate dk ct);
  length_shared dk ct : len (mlkem1024_decapsulate dk ct) = 32;
}.

Module AwsLc.

Definition MLKEM1024_EK_BYTES : Z := 1568.
Definition MLKEM1024_CT_BYTES : Z := 1568.
Definition MLKEM1024_DK_EXPANDED_BYTES : Z := 3168.
Definition MLKEM_SHARED_BYTES : Z := 32.
Definition AEAD_TAG_BYTES : Z := 16.
Definition P384_POINT_BYTES : Z := 97.
Definition SEC1_TAG_UNCOMPRESSED : byte := Byte.x04.
Definition P384_SCALAR_BYTES : Z := 48.
Definition P384_SHARED_BYTES : Z := 48.

Section module.
Context {L : AwsLcModule}.

(** [.map_err(|_| EncodingError)?], [.map_err(|_| DecryptionError)?]. *)
Definition enc {A} (o : option A) : result (fault EncodingError) A := ok_or o (Fail mkEncodingError).
Definition dec {A} (o : option A) : decode_result A := ok_or o reject.

(** ** [AwsLcMlKem1024] *)

Definition mlkem_keygen (drawn : list byte) : result (fault EncodingError) (list byte * list byte) :=
  dk ← enc (lc_dk_generate drawn);
  ek ← enc (lc_dk_ek dk);
  ek_bytes ← enc (lc_ek_bytes ek);
  dk_bytes ← enc (lc_dk_bytes dk);
  _ ← bail_if (negb (len ek_bytes =? MLKEM1024_EK_BYTES) || negb (len dk_bytes =? MLKEM1024_DK_EXPANDED_BYTES))
        (Fail mkEncodingError);
  Ok (ek_bytes, dk_bytes).

Definition mlkem_encapsulate (drawn : option (list byte)) (ek_bytes : list byte) : result (fault EncodingError) (list byte * list byte) :=
  _ ← bail_if (negb (len ek_bytes =? MLKEM1024_EK_BYTES)) (Fail mkEncodingError);
  ek ← enc (lc_ek_new ek_bytes);
  r ← enc (drawn ≫= fun m => lc_encapsulate m ek);
  let '(ct, ss) := r in
  _ ← bail_if (negb (len ct =? MLKEM1024_CT_BYTES) || negb (len ss =? MLKEM_SHARED_BYTES)) (Fail mkEncodingError);
  Ok (ct, ss).

Definition mlkem_decapsulate (dk_expanded ct : list byte) : decode_result (list byte) :=
  _ ← bail_if (negb (len dk_expanded =? MLKEM1024_DK_EXPANDED_BYTES) || negb (len ct =? MLKEM1024_CT_BYTES)) reject;
  dk ← dec (lc_dk_new dk_expanded);
  ss ← dec (lc_decapsulate dk ct);
  _ ← bail_if (negb (len ss =? MLKEM_SHARED_BYTES)) reject;
  Ok ss.

(** ** [AwsLcAes256Gcm] *)

Definition seal_randnonce (drawn : option (list byte)) (key plaintext aad : list byte) :
    result EncodingError (list byte * list byte) :=
  r ← ok_or (lc_seal_randnonce drawn key plaintext aad) mkEncodingError;
  let '(nonce, (in_out, tag)) := r in
  Ok (nonce, in_out ++ tag).

(** For test vectors. *)
Definition seal (key nonce plaintext aad : list byte) : result EncodingError (list byte) :=
  ok_or (lc_seal key nonce plaintext aad) mkEncodingError.

Definition open (key nonce ciphertext aad : list byte) : result DecryptionError (list byte) :=
  _ ← bail_if (len ciphertext <? AEAD_TAG_BYTES) mkDecryptionError;
  ok_or (lc_open key nonce ciphertext aad) mkDecryptionError.

(** ** [AwsLcHash], [AwsLcHkdfSha256] *)

Definition sha256 (data : list byte) : list byte := lc_sha256 data.
Definition sha3_256 (data : list byte) : list byte := lc_sha3_256 data.
Definition derive (salt : option (list byte)) (ikm info : list byte) (okm_len : Z) : result EncodingError (list byte) :=
  ok_or (lc_hkdf salt ikm info okm_len) mkEncodingError.

(** ** [AwsLcEcdhP384] *)

Definition check_point (peer_sec1 : list byte) : bool :=
  (len peer_sec1 =? P384_POINT_BYTES) && bool_decide (head peer_sec1 = Some SEC1_TAG_UNCOMPRESSED).

Definition ecdh (scalar peer_sec1 : list byte) : decode_result (list byte) :=
  _ ← bail_if (negb (len scalar =? P384_SCALAR_BYTES)) reject;
  _ ← bail_if (negb (check_point peer_sec1)) reject;
  private ← dec (lc_from_private_key scalar);
  km ← dec (lc_agree private peer_sec1);
  _ ← bail_if (negb (len km =? P384_SHARED_BYTES)) reject;
  Ok km.

Definition ephemeral_ecdh (drawn : option (list byte)) (peer_sec1 : list byte) : result (fault EncodingError) (list byte * list byte) :=
  _ ← bail_if (negb (check_point peer_sec1)) (Fail mkEncodingError);
  private ← enc (drawn ≫= lc_generate);
  public ← enc (lc_compute_public_key private);
  _ ← bail_if (negb (check_point public)) (Fail mkEncodingError);
  km ← enc (lc_agree private peer_sec1);
  _ ← bail_if (negb (len km =? P384_SHARED_BYTES)) (Fail mkEncodingError);
  Ok (public, km).

(** ** [AwsLcHybridP384MlKem1024Provider] *)

Section provider.
Context {Q : P384Primitives}.

Definition expanded_dk_from_seed (seed : list byte) : list byte := to_expanded_bytes (from_seed seed).
Definition ek_from_seed (seed : list byte) : list byte := ek1024_bytes (encapsulation_key (from_seed seed)).

(** [r.ok()]: with it, [.expect(..)] in a computation whose [None] is a panic. *)
Definition ok {E A} (r : result E A) : option A := match r with Ok a => Some a | Err _ => None end.

(** [copy_from_slice] into an array of [n] bytes, which panics on any other length. *)
Definition exactly (n : Z) (bs : list byte) : option (list byte) := if len bs =? n then Some bs else None.

(** [rnd.1] is drawn by [SecretKey::generate], [rnd.2] is the seed. *)
Definition lc_keygen (rnd : list byte * list byte) :
    option (KemP384.P384MlKem1024PublicKey * KemP384.P384MlKem1024SecretKey) :=
  let p384_sk := p384_generate rnd.1 in
  let seed := rnd.2 in
  scalar ← exactly P384_SCALAR_BYTES (p384_to_bytes p384_sk);
  sk ← ok (KemP384.SecretKey_from_bytes (scalar ++ seed));
  point ← exactly P384_POINT_BYTES (to_sec1_uncompressed (p384_public_key p384_sk));
  pk ← ok (KemP384.PublicKey_from_bytes (point ++ ek_from_seed seed));
  Some (pk, sk).

Definition lc_kem_encapsulate (rnd : kem_draws) (pk : KemP384.P384MlKem1024PublicKey) :
    result (fault EncodingError) (list byte * list byte) :=
  let pk_bytes := KemP384.PublicKey_to_bytes pk in
  recipient_point ← slice_or_panic pk_bytes 0 P384_POINT_BYTES;
  mlkem_ek ← slice_or_panic pk_bytes P384_POINT_BYTES (len pk_bytes);
  e ← ephemeral_ecdh rnd.1 recipient_point;
  let '(eph_pub, x) := e in
  m ← mlkem_encapsulate rnd.2 mlkem_ek;
  let '(mlkem_ct, mlkem_ss) := m in
  Ok (x ++ mlkem_ss, eph_pub ++ mlkem_ct).

Definition lc_kem_decapsulate (sk : KemP384.P384MlKem1024SecretKey) (ct : list byte) : decode_result (list byte) :=
  _ ← bail_if (negb (len ct =? P384_POINT_BYTES + MLKEM1024_CT_BYTES)) reject;
  let sk_bytes := KemP384.SecretKey_to_bytes sk in
  scalar ← slice_or_panic sk_bytes 0 P384_SCALAR_BYTES;
  seed ← slice_or_panic sk_bytes P384_SCALAR_BYTES (len sk_bytes);
  point ← slice_or_panic ct 0 P384_POINT_BYTES;
  x ← ecdh scalar point;
  mlkem_ct ← slice_or_panic ct P384_POINT_BYTES (len ct);
  mlkem_ss ← mlkem_decapsulate (expanded_dk_from_seed seed) mlkem_ct;
  Ok (x ++ mlkem_ss).

(** [None] is one of the panics of the function. *)
Definition lc_public_key_of (sk : KemP384.P384MlKem1024SecretKey) : option KemP384.P384MlKem1024PublicKey :=
  let sk_bytes := KemP384.SecretKey_to_bytes sk in
  seed ← slice sk_bytes P384_SCALAR_BYTES (len sk_bytes);
  scalar ← slice sk_bytes 0 P384_SCALAR_BYTES;
  private ← lc_from_private_key scalar;
  public ← lc_compute_public_key private;
  point ← exactly P384_POINT_BYTES public;
  ok (KemP384.PublicKey_from_bytes (point ++ ek_from_seed seed)).

Definition AwsLcHybridP384MlKem1024Provider : KemProvider := {|
  WireV2.SUITE_KEM := Wire.SUITE_KEM_HYBRID_P384_MLKEM1024;
  K_KEM_CIPHERTEXT_BYTES := P384_POINT_BYTES + MLKEM1024_CT_BYTES;
  WireV2.PublicKey := KemP384.P384MlKem1024PublicKey;
  WireV2.SecretKey := KemP384.P384MlKem1024SecretKey;
  WireV2.keygen := lc_keygen;
  WireV2.encapsulate := lc_kem_encapsulate;
  WireV2.decapsulate := lc_kem_decapsulate;
  public_key_bytes := KemP384.PublicKey_to_bytes;
  WireV2.public_key_of := lc_public_key_of;
|}.
End provider.

(** ** [AwsLcBackend] *)

Definition AwsLcBackend : CryptoBackend := {|
  WireV2.sha256 := sha256;
  WireV2.sha3_256 := sha3_256;
  hkdf_sha256 := derive;
  WireV2.aead_seal := seal_randnonce;
  WireV2.aead_open := open;
|}.

(** ** Properties *)

Section laws.
Context {P : Primitives} {PL : PrimitiveLaws P} {Q : P384Primitives} {QL : P384Laws Q} {LL : AwsLcLaws P Q L}.

Lemma bind_ext {E A B} (m m' : result E A) (f g : A -> result E B) :
  m = m' -> (forall a, f a = g a) -> m ≫= f = m' ≫= g.
Proof. intros -> H. destruct m'; [apply H|done]. Qed.

Lemma secret_key_scalar {E} sk : slice_or_panic (E := E) (KemP384.SecretKey_to_bytes sk) 0 P384_SCALAR_BYTES = Ok (p384_to_bytes (KemP384.sk_p384 sk)).
Proof.
  unfold slice_or_panic, KemP384.SecretKey_to_bytes. pose proof (length_p384_to_bytes (KemP384.sk_p384 sk)).
  by rewrite slice_prefix by (unfold P384_SCALAR_BYTES; lia).
Qed.
Lemma secret_key_seed {E} sk :
  slice_or_panic (E := E) (KemP384.SecretKey_to_bytes sk) P384_SCALAR_BYTES (len (KemP384.SecretKey_to_bytes sk)) = Ok (KemP384.mlkem_seed sk).
Proof.
  unfold slice_or_panic, KemP384.SecretKey_to_bytes. pose proof (length_p384_to_bytes (KemP384.sk_p384 sk)).
  by rewrite slice_to_end by (rewrite ?length_app; unfold P384_SCALAR_BYTES; lia).
Qed.

Lemma import_scalar s : exists p, lc_from_private_key (p384_to_bytes s) = Some p /\ scalar_of p = s.
Proof.
  pose proof (lc_import_spec (p384_to_bytes s) (length_p384_to_bytes s)) as H. rewrite from_slice_to_bytes in H.
  destruct (lc_from_private_key _) as [p|]; [|done]. injection H as H. by exists p.
Qed.

(** The same agreement as [KemP384.parse_p384_point] and [diffie_hellman]. *)
Lemma ecdh_spec s bs :
  ecdh (p384_to_bytes s) bs = (pk ← ok_or (KemP384.parse_p384_point bs) reject; Ok (diffie_hellman s pk)).
Proof.
  unfold ecdh, KemP384.parse_p384_point, check_point, dec. rewrite length_p384_to_bytes. cbn [bail_if mbind result_bind].
  change P384_POINT_BYTES with KemP384.P384_POINT_BYTES. change SEC1_TAG_UNCOMPRESSED with KemP384.SEC1_TAG_UNCOMPRESSED.
  destruct (Z.eqb_spec (len bs) KemP384.P384_POINT_BYTES) as [Hl|]; [|done].
  case_bool_decide as Hh; [|done]. cbn [negb orb andb bail_if mbind result_bind].
  destruct (import_scalar s) as (p & -> & <-). cbn [ok_or mbind result_bind].
  rewrite lc_agree_spec by done. destruct (from_sec1_bytes bs) as [pk|]; [|done].
  cbn. by rewrite length_diffie_hellman.
Qed.

Lemma mlkem_decapsulate_spec seed ct :
  len ct = 1568 -> mlkem_decapsulate (expanded_dk_from_seed seed) ct = Ok (mlkem1024_decapsulate (from_seed seed) ct).
Proof.
  intros Hl. unfold mlkem_decapsulate, expanded_dk_from_seed, dec. rewrite length_expanded, Hl. cbn.
  pose proof (lc_decapsulate_spec (from_seed seed) ct Hl) as H.
  destruct (lc_dk_new _) as [d|]; [|done]. cbn in H |- *. rewrite H. cbn. by rewrite length_shared.
Qed.

(** Both providers decapsulate alike, on any ciphertext. *)
Lemma decapsulate_agree sk ct : lc_kem_decapsulate sk ct = KemP384.decapsulate sk ct.
Proof.
  unfold lc_kem_decapsulate, KemP384.decapsulate.
  change (P384_POINT_BYTES + MLKEM1024_CT_BYTES) with KemP384.KEM_CIPHERTEXT_BYTES.
  change P384_POINT_BYTES with KemP384.P384_POINT_BYTES.
  destruct (Z.eqb_spec (len ct) KemP384.KEM_CIPHERTEXT_BYTES) as [Hl|]; [|done]. cbn [negb bail_if mbind result_bind].
  rewrite secret_key_scalar, secret_key_seed. cbn [mbind result_bind].
  apply bind_ext; [done|]. intros pt. rewrite ecdh_spec.
  destruct (KemP384.parse_p384_point pt) as [pk|]; [|done]. cbn [ok_or mbind result_bind].
  destruct (slice_or_panic ct KemP384.P384_POINT_BYTES (len ct)) as [mct|] eqn:Hs; [|done]. cbn [mbind result_bind].
  apply ok_or_Ok, length_slice in Hs. KemP384.sizes.
  rewrite mlkem_decapsulate_spec, (proj2 (Z.eqb_eq _ _)) by (unfold KemP384.MLKEM1024_CT_BYTES; lia). done.
Qed.

Lemma pk_serialized s seed :
  KemP384.PublicKey_from_bytes (to_sec1_uncompressed (p384_public_key s) ++ ek_from_seed seed)
  = Ok (KemP384.mkPublic (p384_public_key s) (encapsulation_key (from_seed seed))).
Proof. apply (KemP384.public_key_parses (KemP384.mkPublic (p384_public_key s) (encapsulation_key (from_seed seed)))). Qed.

Lemma exactly_len n bs : len bs = n -> exactly n bs = Some bs.
Proof. intros <-. unfold exactly. by rewrite Z.eqb_refl. Qed.

(** Deriving the public key never panics, and gives the key of the other build. *)
Lemma lc_public_key_of_ok sk : lc_public_key_of sk = Some (KemP384.public_key_of sk).
Proof.
  unfold lc_public_key_of. pose proof (secret_key_scalar (E := unit) sk) as Hs. pose proof (secret_key_seed (E := unit) sk) as Hd.
  apply ok_or_Ok in Hs, Hd. rewrite Hs, Hd. cbn [mbind option_bind].
  destruct (import_scalar (KemP384.sk_p384 sk)) as (p & -> & Hp). cbn [mbind option_bind].
  rewrite lc_public_spec, Hp. cbn [mbind option_bind]. rewrite exactly_len by apply length_sec1.
  cbn [mbind option_bind]. by rewrite pk_serialized.
Qed.

Lemma lc_keygen_ok rnd : len rnd.2 = 64 -> lc_keygen rnd = Some (KemP384.keygen rnd).
Proof.
  intros Hs. unfold lc_keygen.
  pose proof (KemP384.p384_secret_key_parses (KemP384.mkSecret (p384_generate rnd.1) rnd.2) Hs) as Hp.
  unfold KemP384.SecretKey_to_bytes in Hp. cbn [KemP384.sk_p384 KemP384.mlkem_seed] in Hp.
  rewrite (exactly_len P384_SCALAR_BYTES) by apply length_p384_to_bytes. cbn [mbind option_bind]. rewrite Hp. cbn [ok mbind option_bind].
  rewrite exactly_len by apply length_sec1. cbn [mbind option_bind]. by rewrite pk_serialized.
Qed.

Lemma lc_encapsulate_parts rnd pk ss ct :
  lc_kem_encapsulate rnd pk = Ok (ss, ct) ->
  exists s r mct mss, mlkem1024_encapsulate r (KemP384.pk_mlkem pk) = (mct, mss) /\
    ss = diffie_hellman s (KemP384.pk_p384 pk) ++ mss /\
    ct = KemP384.encode_p384_point (p384_public_key s) ++ mct.
Proof.
  unfold lc_kem_encapsulate, ephemeral_ecdh, mlkem_encapsulate, enc, KemP384.PublicKey_to_bytes, slice_or_panic.
  pose proof (length_sec1 (KemP384.pk_p384 pk)) as Hp. fold (KemP384.encode_p384_point (KemP384.pk_p384 pk)) in Hp.
  rewrite slice_prefix by (unfold P384_POINT_BYTES; lia).
  rewrite slice_to_end by (rewrite ?length_app; unfold P384_POINT_BYTES; lia).
  intros H. cbn [ok_or mbind result_bind] in H. inv_ok H. simplify_eq. bool_hyps.
  match goal with H : lc_compute_public_key _ = _ |- _ => rewrite lc_public_spec in H; injection H as <- end.
  match goal with H : lc_agree _ _ = _ |- _ =>
    rewrite lc_agree_spec, from_to_sec1 in H by first [apply length_sec1|apply sec1_tag]; injection H as <- end.
  match goal with H : lc_ek_new _ = Some ?e, H2 : (_ ≫= fun m => lc_encapsulate m ?e) = Some _ |- _ =>
    apply bind_Some in H2 as (m & _ & H2);
    pose proof (lc_ek_spec _ (length_ek1024_bytes (KemP384.pk_mlkem pk))) as He; rewrite H, ek1024_new_bytes in He;
    injection He as He; apply lc_encapsulate_spec in H2 as [r Hr]; rewrite He in Hr end.
  by eexists _, r, _, _.
Qed.

#[global] Instance awslc_kem_laws : KemLaws AwsLcHybridP384MlKem1024Provider.
Proof.
  constructor; cbn -[Z.of_nat lc_kem_encapsulate lc_kem_decapsulate].
  - intros rnd pk ss ct (s & r & mct & mss & Hr & _ & ->)%lc_encapsulate_parts. by eapply KemP384.length_parts.
  - intros sk. rewrite lc_public_key_of_ok. by eexists.
  - intros rnd sk pk ss ct. rewrite lc_public_key_of_ok, decapsulate_agree. intros [= <-].
    intros (s & r & mct & mss & Hr & -> & ->)%lc_encapsulate_parts. by eapply KemP384.decapsulate_parts.
  - intros sk ct. rewrite decapsulate_agree. apply KemP384.p384_decapsulate_never_panics.
Qed.

Lemma open_agree k n c a : open k n c a = aead_open k n c a.
Proof.
  unfold open, aead_open, Crypto.aead_open. rewrite lc_open_spec.
  destruct (Z.ltb_spec (len c) AEAD_TAG_BYTES) as [Hl|]; [|done]. cbn.
  destruct (gcm_decrypt k n c a) as [m|] eqn:E; [|done]. apply gcm_decrypt_size in E. unfold AEAD_TAG_BYTES in Hl. lia.
Qed.

#[global] Instance awslc_aead_laws : AeadLaws AwsLcBackend.
Proof.
  constructor; cbn.
  - unfold seal_randnonce. intros rnd k p a n c _ H. inv_ok H. simplify_eq.
    apply lc_randnonce_spec in Hx as [? Hc]. by apply gcm_size in Hc.
  - unfold seal_randnonce. intros rnd k p a n c H. inv_ok H. simplify_eq.
    apply lc_randnonce_spec in Hx as [? Hc]. rewrite open_agree. unfold aead_open. by rewrite (gcm_correct _ _ _ _ _ Hc).
  - intros x. unfold sha3_256. rewrite lc_sha3_256_spec. apply length_Sha3_256.
Qed.

Lemma derive_key_agree ss t :
  WireV2.derive_key (CB := AwsLcBackend) ss t = WireV2.derive_key (CB := RustCryptoBackend) ss t.
Proof. unfold WireV2.derive_key. cbn. unfold derive, sha256. by rewrite lc_hkdf_spec, lc_sha256_spec. Qed.

(** The two builds open every envelope alike. *)
Lemma open_builds_agree sk data aad ctx :
  WireV2.open (CB := AwsLcBackend) (K := AwsLcHybridP384MlKem1024Provider) sk data aad ctx
  = WireV2.open (CB := RustCryptoBackend) (K := KemP384.HybridP384MlKem1024Provider) sk data aad ctx.
Proof.
  unfold WireV2.open. repeat match goal with |- (_ ≫= _) = (_ ≫= _) => apply bind_ext; [|intros ?] end; try done.
  - unfold WireV2.context_hash. cbn. unfold sha3_256. by rewrite lc_sha3_256_spec.
  - apply decapsulate_agree.
  - by rewrite derive_key_agree.
  - cbn. by rewrite open_agree.
  - cbn. by rewrite lc_public_key_of_ok.
  - unfold WireV2.public_key_hash. cbn [WireV2.sha3_256 public_key_bytes AwsLcBackend RustCryptoBackend
      AwsLcHybridP384MlKem1024Provider KemP384.HybridP384MlKem1024Provider].
    unfold sha3_256. by rewrite lc_sha3_256_spec.
Qed.

(** C40: The default build and the FIPS build are interchangeable for the P-384 suite:
    the FIPS build derives the same public key from a secret key, without a panic; on
    every key and every byte string the two open alike, plaintext or error, and each
    opens what the other sealed. *)
Theorem builds_interchangeable sk data aad ctx r1 r2 pt out :
  nonce_draw r2 ->
  WireV2.public_key_of (KemProvider := AwsLcHybridP384MlKem1024Provider) sk = Some (KemP384.public_key_of sk) /\
  WireV2.open (CB := AwsLcBackend) (K := AwsLcHybridP384MlKem1024Provider) sk data aad ctx
  = WireV2.open (CB := RustCryptoBackend) (K := KemP384.HybridP384MlKem1024Provider) sk data aad ctx /\
  (WireV2.seal (CB := AwsLcBackend) (K := AwsLcHybridP384MlKem1024Provider) r1 r2 (KemP384.public_key_of sk) pt aad ctx = Ok out ->
   WireV2.open (CB := RustCryptoBackend) (K := KemP384.HybridP384MlKem1024Provider) sk out aad ctx = Ok pt) /\
  (WireV2.seal (CB := RustCryptoBackend) (K := KemP384.HybridP384MlKem1024Provider) r1 r2 (KemP384.public_key_of sk) pt aad ctx = Ok out ->
   WireV2.open (CB := AwsLcBackend) (K := AwsLcHybridP384MlKem1024Provider) sk out aad ctx = Ok pt).
Proof.
  intros Hr. split_and!; [apply lc_public_key_of_ok|apply open_builds_agree| |].
  - intros H. rewrite <- open_builds_agree.
    apply (WireV2.open_seal (CB := AwsLcBackend) (K := AwsLcHybridP384MlKem1024Provider) r1 r2 _ _ _ _ _ _ Hr (lc_public_key_of_ok sk) H).
  - intros H. rewrite open_builds_agree.
    by apply (WireV2.open_seal (K := KemP384.HybridP384MlKem1024Provider) r1 r2 _ (KemP384.public_key_of sk)).
Qed.
End laws.
End module.
End AwsLc.
