(* ===== verification/Ffi.v ===== *)
(** * The C interface ([citadel-ffi/src/lib.rs])

    The memory of the process is a finite map from addresses to bytes; an
    operation that would be undefined behaviour in Rust (an access outside
    mapped memory, a read of uninitialised bytes, a misaligned write of a word,
    a release of a block that is not live with that layout) has the outcome
    [Undefined], so that the absence of undefined behaviour is a theorem.
    Words are 64 bits wide and little-endian.  The engines are those of
    [Envelope] and [KemP384]. *)

From S2P Require Import Prelude.
From S2P Require Import Wire.
From S2P Require Import WireV2.
From S2P Require Import Crypto.
From S2P Require Import Envelope.
From S2P Require Import KemP384.

Notation memory := (gmap Z (option byte)).

(** The global allocator: the address [alloc] answers to its [n]-th call for a
    number of bytes, [0] when it has none left. *)
Class Allocator := { alloc_at : nat -> memory -> Z -> Z }.

(** [GlobalAlloc]: a block is not null and does not overlap memory in use. *)
Class AllocatorLaws (A : Allocator) : Prop := {
  alloc_fresh n m size :
    0 < size -> alloc_at n m size <> 0 ->
    0 < alloc_at n m size /\ alloc_at n m size + size <= 2 ^ 64 /\
    forall i, alloc_at n m size <= i < alloc_at n m size + size -> m !! i = None;
}.

Module Ffi.

Definition CITADEL_OK : Z := 0.
Definition CITADEL_ERR_NULL : Z := 1.
Definition CITADEL_ERR_SEAL : Z := 2.
Definition CITADEL_ERR_OPEN : Z := 3.
Definition CITADEL_ERR_KEY : Z := 4.
Definition CITADEL_ERR_ALLOC : Z := 5.
Definition CITADEL_ERR_PANIC : Z := 6.
Definition ISIZE_MAX : Z := 2 ^ 63 - 1.

(** ** Memory *)

Definition load (m : memory) (a n : Z) : option (list byte) :=
  mapM (fun i => mjoin (m !! i)) (seqZ a n).

Definition store (m : memory) (a : Z) (bs : list byte) : option memory :=
  if bool_decide (Forall (fun i => is_Some (m !! i)) (seqZ a (len bs)))
  then Some (map_seqZ a (Some <$> bs) ∪ m) else None.

Definition map_region (m : memory) (a n : Z) : memory := map_seqZ a (replicate (Z.to_nat n) None) ∪ m.

Definition unmap_region (m : memory) (a n : Z) : memory :=
  filter (fun '(i, _) => ~ (a <= i < a + n)) m.

Definition u64_le (v : Z) : list byte := reverse (u64_be v).
Definition cell (m : memory) (p : Z) : option Z := (fun bs => be_val (reverse bs)) <$> load m p 8.
#[global] Arguments u64_le _ : simpl never.
#[global] Arguments cell _ _ : simpl never.

(** ** The state

    [live] holds the blocks this library has from the allocator, with the size
    of their layout; [registry] is the map behind [allocations]; [released]
    records what memory held when it was given back. *)
Record World := mkWorld {
  mem : memory;
  live : gmap Z Z;
  registry : gmap Z Z;
  calls : nat;
  released : list (list (option byte));
}.

Definition set_mem (w : World) (m : memory) : World := mkWorld m (live w) (registry w) (calls w) (released w).

Inductive outcome (A : Type) : Type :=
| Val (a : A)
| Return (code : Z)
| Unwind
| Undefined.
Arguments Val {A} a.
Arguments Return {A} code.
Arguments Unwind {A}.
Arguments Undefined {A}.

Definition M (A : Type) : Type := World -> World * outcome A.
#[global] Instance m_ret : MRet M := fun A a w => (w, Val a).
#[global] Instance m_bind : MBind M := fun A B f m w =>
  match m w with
  | (w', Val a) => f a w'
  | (w', Return code) => (w', Return code)
  | (w', Unwind) => (w', Unwind)
  | (w', Undefined) => (w', Undefined)
  end.

Definition return_if (b : bool) (code : Z) : M unit := fun w => (w, if b then Return code else Val ()).

(** [match r { Ok(a) => a, Err(_) => return code }]; a panic unwinds. *)
Definition or_return {E A} (r : result (fault E) A) (code : Z) : M A := fun w =>
  (w, match r with Ok a => Val a | Err (Fail _) => Return code | Err Panic => Unwind end).

Definition or_unwind {A} (o : option A) : M A := fun w =>
  (w, match o with Some a => Val a | None => Unwind end).

Definition is_null (p : Z) : bool := p =? 0.

(** [slice::from_raw_parts]. *)
Definition from_raw_parts (ptr n : Z) : M (list byte) := fun w =>
  if is_null ptr || (n <? 0) || (ISIZE_MAX <? n) then (w, Undefined)
  else match load (mem w) ptr n with
       | Some bs => (w, Val bs)
       | None => (w, Undefined)
       end.

(** [*p = v] for a pointer to a word. *)
Definition write_word (p v : Z) : M unit := fun w =>
  if is_null p || negb (p mod 8 =? 0) then (w, Undefined)
  else match store (mem w) p (u64_le v) with
       | Some m => (set_mem w m, Val ())
       | None => (w, Undefined)
       end.

(** [copy_nonoverlapping] and [write_bytes] to raw memory. *)
Definition copy_to (p : Z) (bs : list byte) : M unit := fun w =>
  match store (mem w) p bs with
  | Some m => (set_mem w m, Val ())
  | None => (w, Undefined)
  end.

Definition dealloc (p size : Z) : M unit := fun w =>
  if bool_decide (live w !! p = Some size)
  then (mkWorld (unmap_region (mem w) p size) (delete p (live w)) (registry w) (calls w)
          (released w ++ [(fun i => mjoin (mem w !! i)) <$> seqZ p size]), Val ())
  else (w, Undefined).

Section alloc.
Context {A : Allocator}.

Definition alloc (size : Z) : M Z := fun w =>
  let p := alloc_at (calls w) (mem w) size in
  if is_null p then (mkWorld (mem w) (live w) (registry w) (S (calls w)) (released w), Val 0)
  else (mkWorld (map_region (mem w) p size) (<[p := size]> (live w)) (registry w) (S (calls w)) (released w), Val p).

Definition register (p size : Z) : M unit := fun w =>
  (mkWorld (mem w) (live w) (<[p := size]> (registry w)) (calls w) (released w), Val ()).

(** [NonNull::dangling()] of [u8] is address 1; [Layout::array] refuses more
    than [isize::MAX] bytes. *)
Definition alloc_buf (size : Z) : M Z :=
  if size =? 0 then mret 1
  else if ISIZE_MAX <? size then mret 0
  else
    ptr ← alloc size;
    if is_null ptr then mret ptr
    else _ ← register ptr size; mret ptr.

Definition write_output (data : list byte) (out_ptr out_len : Z) : M Z :=
  buf ← alloc_buf (len data);
  if is_null buf then mret CITADEL_ERR_ALLOC
  else
    _ ← copy_to buf data;
    _ ← write_word out_ptr buf;
    _ ← write_word out_len (len data);
    mret CITADEL_OK.
End alloc.

(** ** The two engines

    What the functions of one suite call of [citadel-envelope]; keys are
    drawn and serialized at once. *)
Class Suite := {
  s_PublicKey : Type;
  s_SecretKey : Type;
  s_public_bytes : Z;
  s_secret_bytes : Z;
  s_generate : list byte * list byte -> list byte * list byte;
  s_public_from : list byte -> decode_result s_PublicKey;
  s_secret_from : list byte -> decode_result s_SecretKey;
  s_seal : kem_draws -> option (list byte) -> s_PublicKey -> list byte -> list byte -> list byte ->
           result (fault EncodingError) (list byte);
  s_open : s_SecretKey -> list byte -> list byte -> list byte -> decode_result (list byte);
  (** the sizes of the bytes drawn for a key *)
  s_drawn : list byte * list byte -> Prop;
  (** the draws for which an encapsulation panics *)
  s_seal_fails : kem_draws -> Prop;
}.

Definition suite_a3 {P : Primitives} : Suite := {|
  s_PublicKey := Kem.PublicKey;
  s_SecretKey := Kem.SecretKey;
  s_public_bytes := Wire.KEM_PUBLIC_KEY_BYTES;
  s_secret_bytes := Wire.KEM_SECRET_KEY_BYTES;
  s_generate rnd := let '(pk, sk) := Kem.keygen rnd in (Kem.PublicKey_to_bytes pk, Kem.SecretKey_to_bytes sk);
  s_public_from := Kem.PublicKey_from_bytes;
  s_secret_from := Kem.SecretKey_from_bytes;
  s_seal := Engine.encrypt (K := Kem.HybridX25519MlKem768Provider);
  s_open := Engine.decrypt (K := Kem.HybridX25519MlKem768Provider);
  s_drawn rnd := len rnd.1 = 32;
  s_seal_fails rnd := rnd.1 = None \/ rnd.2 = None;
|}.

Definition suite_a4 {P : Primitives} {Q : P384Primitives} : Suite := {|
  s_PublicKey := KemP384.P384MlKem1024PublicKey;
  s_SecretKey := KemP384.P384MlKem1024SecretKey;
  s_public_bytes := KemP384.P384_MLKEM1024_PUBLIC_KEY_BYTES;
  s_secret_bytes := KemP384.P384_MLKEM1024_SECRET_KEY_BYTES;
  s_generate rnd :=
    let '(pk, sk) := KemP384.generate_keypair rnd in (KemP384.PublicKey_to_bytes pk, KemP384.SecretKey_to_bytes sk);
  s_public_from := KemP384.PublicKey_from_bytes;
  s_secret_from := KemP384.SecretKey_from_bytes;
  s_seal := KemP384.seal;
  s_open := KemP384.open;
  s_drawn rnd := len rnd.2 = 64;
  s_seal_fails rnd := rnd.2 = None;
|}.

(** ** The entry points *)

Section entry.
Context {A : Allocator} {S : Suite}.

(** [citadel_keygen_impl] and [citadel_p384_keygen_impl]; the system's random
    source failing ([None]) is a panic. *)
Definition keygen_impl (rnd : option (list byte * list byte)) (pk_out pk_len sk_out sk_len : Z) : M Z :=
  _ ← return_if (is_null pk_out || is_null pk_len || is_null sk_out || is_null sk_len) CITADEL_ERR_NULL;
  _ ← write_word pk_out 0;
  _ ← write_word pk_len 0;
  _ ← write_word sk_out 0;
  _ ← write_word sk_len 0;
  keys ← or_unwind (s_generate <$> rnd);
  rc ← write_output keys.1 pk_out pk_len;
  if negb (rc =? CITADEL_OK) then mret rc
  else write_output keys.2 sk_out sk_len.

Definition optional_slice (ptr n : Z) : M (list byte) :=
  if is_null ptr || (n =? 0) then mret [] else from_raw_parts ptr n.

Definition seal_impl kem_rnd aead_rnd (pk_ptr pk_len pt_ptr pt_len aad_ptr aad_len ctx_ptr ctx_len
    ct_out ct_len_out : Z) : M Z :=
  _ ← return_if (is_null pk_ptr || is_null pt_ptr || is_null ct_out || is_null ct_len_out) CITADEL_ERR_NULL;
  _ ← write_word ct_out 0;
  _ ← write_word ct_len_out 0;
  pk_bytes ← from_raw_parts pk_ptr pk_len;
  pk ← or_return (s_public_from pk_bytes) CITADEL_ERR_KEY;
  plaintext ← from_raw_parts pt_ptr pt_len;
  aad_bytes ← optional_slice aad_ptr aad_len;
  ctx_bytes ← optional_slice ctx_ptr ctx_len;
  ciphertext ← or_return (s_seal kem_rnd aead_rnd pk plaintext aad_bytes ctx_bytes) CITADEL_ERR_SEAL;
  write_output ciphertext ct_out ct_len_out.

Definition open_impl (sk_ptr sk_len ct_ptr ct_len aad_ptr aad_len ctx_ptr ctx_len pt_out pt_len_out : Z) : M Z :=
  _ ← return_if (is_null sk_ptr || is_null ct_ptr || is_null pt_out || is_null pt_len_out) CITADEL_ERR_NULL;
  _ ← write_word pt_out 0;
  _ ← write_word pt_len_out 0;
  sk_bytes ← from_raw_parts sk_ptr sk_len;
  sk ← or_return (s_secret_from sk_bytes) CITADEL_ERR_KEY;
  ciphertext ← from_raw_parts ct_ptr ct_len;
  aad_bytes ← optional_slice aad_ptr aad_len;
  ctx_bytes ← optional_slice ctx_ptr ctx_len;
  plaintext ← or_return (s_open sk ciphertext aad_bytes ctx_bytes) CITADEL_ERR_OPEN;
  write_output plaintext pt_out pt_len_out.
End entry.

Definition unregister (p : Z) : M (option Z) := fun w =>
  (mkWorld (mem w) (live w) (delete p (registry w)) (calls w) (released w), Val (registry w !! p)).

Definition citadel_free_impl (ptr _len : Z) : M unit :=
  if is_null ptr then mret ()
  else
    actual_len ← unregister ptr;
    match actual_len with
    | None => mret ()
    | Some actual_len =>
        if actual_len =? 0 then mret ()
        else
          _ ← copy_to ptr (replicate (Z.to_nat actual_len) Byte.x00);
          if ISIZE_MAX <? actual_len then mret () else dealloc ptr actual_len
    end.

(** [catch_unwind]: [None] is undefined behaviour. *)
Definition ffi_guard (body : M Z) (w : World) : World * option Z :=
  let '(w', r) := body w in
  (w', match r with
       | Val code | Return code => Some code
       | Unwind => Some CITADEL_ERR_PANIC
       | Undefined => None
       end).

Definition ffi_guard_void (body : M unit) (w : World) : World * option unit :=
  let '(w', r) := body w in (w', match r with Undefined => None | _ => Some () end).

Section calls.
Context {P : Primitives} {Q : P384Primitives} {A : Allocator}.

Definition citadel_keygen rnd pk_out pk_len sk_out sk_len :=
  ffi_guard (keygen_impl (S := suite_a3) rnd pk_out pk_len sk_out sk_len).
Definition citadel_p384_keygen rnd pk_out pk_len sk_out sk_len :=
  ffi_guard (keygen_impl (S := suite_a4) rnd pk_out pk_len sk_out sk_len).

Definition citadel_seal kem_rnd aead_rnd pk_ptr pk_len pt_ptr pt_len aad_ptr aad_len ctx_ptr ctx_len ct_out ct_len_out :=
  ffi_guard (seal_impl (S := suite_a3) kem_rnd aead_rnd pk_ptr pk_len pt_ptr pt_len aad_ptr aad_len
    ctx_ptr ctx_len ct_out ct_len_out).
Definition citadel_p384_seal kem_rnd aead_rnd pk_ptr pk_len pt_ptr pt_len aad_ptr aad_len ctx_ptr ctx_len
    ct_out ct_len_out :=
  ffi_guard (seal_impl (S := suite_a4) kem_rnd aead_rnd pk_ptr pk_len pt_ptr pt_len aad_ptr aad_len
    ctx_ptr ctx_len ct_out ct_len_out).

Definition citadel_open sk_ptr sk_len ct_ptr ct_len aad_ptr aad_len ctx_ptr ctx_len pt_out pt_len_out :=
  ffi_guard (open_impl (S := suite_a3) sk_ptr sk_len ct_ptr ct_len aad_ptr aad_len ctx_ptr ctx_len pt_out pt_len_out).
Definition citadel_p384_open sk_ptr sk_len ct_ptr ct_len aad_ptr aad_len ctx_ptr ctx_len pt_out pt_len_out :=
  ffi_guard (open_impl (S := suite_a4) sk_ptr sk_len ct_ptr ct_len aad_ptr aad_len ctx_ptr ctx_len pt_out pt_len_out).

Definition citadel_free ptr _len := ffi_guard_void (citadel_free_impl ptr _len).

(** A call of the interface, with what the environment draws during it. *)
Inductive Call :=
| Keygen (rnd : option (list byte * list byte)) (pk_out pk_len sk_out sk_len : Z)
| Seal (kem_rnd : kem_draws) (aead_rnd : option (list byte))
    (pk_ptr pk_len pt_ptr pt_len aad_ptr aad_len ctx_ptr ctx_len ct_out ct_len_out : Z)
| Open (sk_ptr sk_len ct_ptr ct_len aad_ptr aad_len ctx_ptr ctx_len pt_out pt_len_out : Z)
| P384Keygen (rnd : option (list byte * list byte)) (pk_out pk_len sk_out sk_len : Z)
| P384Seal (kem_rnd : kem_draws) (aead_rnd : option (list byte))
    (pk_ptr pk_len pt_ptr pt_len aad_ptr aad_len ctx_ptr ctx_len ct_out ct_len_out : Z)
| P384Open (sk_ptr sk_len ct_ptr ct_len aad_ptr aad_len ctx_ptr ctx_len pt_out pt_len_out : Z)
| Free (ptr length : Z).

Definition invoke (c : Call) (w : World) : World * option Z :=
  match c with
  | Keygen rnd p1 n1 p2 n2 => citadel_keygen rnd p1 n1 p2 n2 w
  | Seal r1 r2 p1 n1 p2 n2 p3 n3 p4 n4 o1 o2 => citadel_seal r1 r2 p1 n1 p2 n2 p3 n3 p4 n4 o1 o2 w
  | Open p1 n1 p2 n2 p3 n3 p4 n4 o1 o2 => citadel_open p1 n1 p2 n2 p3 n3 p4 n4 o1 o2 w
  | P384Keygen rnd p1 n1 p2 n2 => citadel_p384_keygen rnd p1 n1 p2 n2 w
  | P384Seal r1 r2 p1 n1 p2 n2 p3 n3 p4 n4 o1 o2 => citadel_p384_seal r1 r2 p1 n1 p2 n2 p3 n3 p4 n4 o1 o2 w
  | P384Open p1 n1 p2 n2 p3 n3 p4 n4 o1 o2 => citadel_p384_open p1 n1 p2 n2 p3 n3 p4 n4 o1 o2 w
  | Free p n => let '(w', r) := citadel_free p n w in (w', (fun _ => CITADEL_OK) <$> r)
  end.
End calls.

(** ** The constant functions *)

Definition citadel_public_key_bytes : Z := Wire.KEM_PUBLIC_KEY_BYTES.
Definition citadel_secret_key_bytes : Z := Wire.KEM_SECRET_KEY_BYTES.
Definition citadel_public_key_bytes_for_suite (suite : Z) : Z :=
  if suite =? 0xA3 then Wire.KEM_PUBLIC_KEY_BYTES
  else if suite =? 0xA4 then KemP384.P384_MLKEM1024_PUBLIC_KEY_BYTES else 0.
Definition citadel_secret_key_bytes_for_suite (suite : Z) : Z :=
  if suite =? 0xA3 then Wire.KEM_SECRET_KEY_BYTES
  else if suite =? 0xA4 then KemP384.P384_MLKEM1024_SECRET_KEY_BYTES else 0.

Definition citadel_error_string (code : Z) : string :=
  if code =? CITADEL_OK then "ok"
  else if code =? CITADEL_ERR_NULL then "null pointer argument"
  else if code =? CITADEL_ERR_SEAL then "encryption failed"
  else if code =? CITADEL_ERR_OPEN then "decryption failed"
  else if code =? CITADEL_ERR_KEY then "invalid key"
  else if code =? CITADEL_ERR_ALLOC then "memory allocation failed"
  else if code =? CITADEL_ERR_PANIC then "internal panic caught at FFI boundary"
  else "unknown error".

(** ** Laws of memory *)

Definition mapped (m : memory) (a n : Z) : Prop := forall i, a <= i < a + n -> is_Some (m !! i).
Definition readable (m : memory) (a n : Z) : Prop := forall i, a <= i < a + n -> exists b, m !! i = Some (Some b).
Definition separate (a n b k : Z) : Prop := a + n <= b \/ b + k <= a.

Lemma load_Some m a n bs :
  load m a n = Some bs <->
  len bs = Z.max 0 n /\ forall k b, bs !! k = Some b -> m !! (a + Z.of_nat k) = Some (Some b).
Proof.
  unfold load. rewrite mapM_Some, Forall2_lookup. split.
  - intros H. assert (Hl : length bs = Z.to_nat n).
    { apply Nat.le_antisymm; apply Nat.nlt_ge; intros Hlt.
      - destruct (lookup_lt_is_Some_2 bs (Z.to_nat n) Hlt) as [b Hb]. specialize (H (Z.to_nat n)).
        rewrite Hb, lookup_seqZ_ge in H by lia. inversion H.
      - specialize (H (length bs)). rewrite (lookup_ge_None_2 bs), lookup_seqZ_lt in H by lia. inversion H. }
    split; [lia|]. intros k b Hb. specialize (H k). pose proof (lookup_lt_Some _ _ _ Hb).
    rewrite Hb, lookup_seqZ_lt in H by lia. inversion H as [x y E|]; subst.
    destruct (m !! _) as [[]|]; naive_solver.
  - intros [Hl H] k. destruct (bs !! k) as [b|] eqn:Hb.
    + pose proof (lookup_lt_Some _ _ _ Hb). rewrite lookup_seqZ_lt by lia. constructor. by rewrite (H _ _ Hb).
    + apply lookup_ge_None_1 in Hb. rewrite lookup_seqZ_ge by lia. constructor.
Qed.

Lemma load_length m a n bs : load m a n = Some bs -> 0 <= n -> len bs = n.
Proof. intros [-> _]%load_Some. lia. Qed.

Lemma readable_load m a n : readable m a n <-> exists bs, load m a n = Some bs.
Proof.
  split.
  - intros H. apply (mapM_is_Some (fun i => mjoin (m !! i))). apply Forall_forall. intros i Hi%elem_of_seqZ.
    destruct (H i Hi) as [b Hb]. exists b. cbn. by rewrite Hb.
  - intros [bs [Hl H]%load_Some] i Hi.
    destruct (lookup_lt_is_Some_2 bs (Z.to_nat (i - a))) as [b Hb]; [lia|].
    exists b. rewrite <- (H _ _ Hb). f_equal. lia.
Qed.

Lemma load_ext m m' a n : (forall i, a <= i < a + n -> m' !! i = m !! i) -> load m' a n = load m a n.
Proof.
  intros H. unfold load. apply Forall_mapM_ext, Forall_forall. intros i Hi%elem_of_seqZ. by rewrite H.
Qed.

Lemma load_empty m a n : n <= 0 -> load m a n = Some [].
Proof. intros. unfold load, seqZ. by replace (Z.to_nat n) with 0%nat by lia. Qed.

Lemma store_mapped m a bs m' :
  store m a bs = Some m' <-> mapped m a (len bs) /\ m' = map_seqZ a (Some <$> bs) ∪ m.
Proof.
  unfold store. case_bool_decide as E; rewrite Forall_forall in E; setoid_rewrite elem_of_seqZ in E; naive_solver.
Qed.

Lemma lookup_store m a bs m' i :
  store m a bs = Some m' ->
  m' !! i = if bool_decide (a <= i < a + len bs) then Some (bs !! Z.to_nat (i - a)) else m !! i.
Proof.
  intros [_ ->]%store_mapped. case_bool_decide as Hi.
  - apply lookup_union_Some_l, lookup_map_seqZ_Some. split; [lia|]. rewrite list_lookup_fmap.
    destruct (lookup_lt_is_Some_2 bs (Z.to_nat (i - a))) as [b ->]; [lia|done].
  - apply lookup_union_r, lookup_map_seqZ_None. rewrite length_fmap. lia.
Qed.

Lemma store_is_Some m a bs m' i : store m a bs = Some m' -> is_Some (m' !! i) <-> is_Some (m !! i).
Proof.
  intros H. rewrite (lookup_store _ _ _ _ _ H). case_bool_decide as Hi; [|done].
  apply store_mapped in H as [H _]. specialize (H i Hi). naive_solver.
Qed.

Lemma store_ok m a bs : mapped m a (len bs) -> exists m', store m a bs = Some m'.
Proof. intros H. eexists. by apply store_mapped. Qed.

Lemma load_store m a bs m' : store m a bs = Some m' -> load m' a (len bs) = Some bs.
Proof.
  intros H. apply load_Some. split; [lia|]. intros k b Hb. pose proof (lookup_lt_Some _ _ _ Hb).
  rewrite (lookup_store _ _ _ _ _ H), bool_decide_true by lia.
  by replace (Z.to_nat (a + Z.of_nat k - a)) with k by lia; rewrite Hb.
Qed.

Lemma load_store_separate m a bs m' b n :
  store m a bs = Some m' -> separate a (len bs) b n -> load m' b n = load m b n.
Proof.
  intros H Hs. apply load_ext. intros i Hi. rewrite (lookup_store _ _ _ _ _ H), bool_decide_false; [done|].
  unfold separate in Hs. lia.
Qed.

Lemma length_u64_le v : len (u64_le v) = 8.
Proof. unfold u64_le. by rewrite length_reverse, length_be_bytes. Qed.

Lemma cell_store m p v m' : store m p (u64_le v) = Some m' -> 0 <= v < 2 ^ 64 -> cell m' p = Some v.
Proof.
  intros H%load_store Hv. rewrite length_u64_le in H. unfold cell. rewrite H. cbn -[be_val be_bytes].
  unfold u64_le. by rewrite reverse_involutive, be_val_bytes_small by lia.
Qed.

Lemma lookup_map_region m a n i :
  0 <= n -> (forall i, a <= i < a + n -> m !! i = None) ->
  map_region m a n !! i = if bool_decide (a <= i < a + n) then Some None else m !! i.
Proof.
  intros Hn Hf. unfold map_region. case_bool_decide as Hi.
  - apply lookup_union_Some_l, lookup_map_seqZ_Some. split; [lia|]. apply lookup_replicate. split; [done|lia].
  - apply lookup_union_r, lookup_map_seqZ_None. rewrite length_replicate. lia.
Qed.

Lemma lookup_unmap_region m a n i :
  unmap_region m a n !! i = if bool_decide (a <= i < a + n) then None else m !! i.
Proof.
  unfold unmap_region. rewrite map_lookup_filter. case_bool_decide as Hi.
  - destruct (m !! i); [|done]. cbn. by rewrite option_guard_False by naive_solver.
  - destruct (m !! i); [|done]. cbn. by rewrite option_guard_True.
Qed.

(** ** The invariant, and what a call leaves intact *)

(** The registry knows exactly the live blocks, with their sizes; they are
    mapped and do not overlap, and whatever was given back had been zeroed. *)
Record sound (w : World) : Prop := {
  registry_is_live : registry w = live w;
  blocks_mapped a n : registry w !! a = Some n -> 0 < a /\ 0 < n <= ISIZE_MAX /\ mapped (mem w) a n;
  blocks_separate a n b k :
    registry w !! a = Some n -> registry w !! b = Some k -> a <> b -> separate a n b k;
  released_zeroed : Forall (Forall (eq (Some Byte.x00))) (released w);
}.

(** Memory in use stays in use, initialised memory stays initialised. *)
Record grows (w w' : World) : Prop := {
  grows_mapped i : is_Some (mem w !! i) -> is_Some (mem w' !! i);
  grows_readable i : is_Some (mjoin (mem w !! i)) -> is_Some (mjoin (mem w' !! i));
}.

#[global] Instance grows_preorder : PreOrder grows.
Proof. split; [by split|]. intros w1 w2 w3 [] []; split; eauto. Qed.

Lemma mapped_grows w w' a n : grows w w' -> mapped (mem w) a n -> mapped (mem w') a n.
Proof. intros [Hm _] H i Hi. by apply Hm, H. Qed.

Lemma readable_is_Some m a n : readable m a n <-> forall i, a <= i < a + n -> is_Some (mjoin (m !! i)).
Proof.
  split; intros H i Hi; specialize (H i Hi).
  - destruct H as [b ->]. by exists b.
  - destruct (m !! i) as [[b|]|]; [by exists b|by destruct H as [? ?]..].
Qed.

Lemma readable_grows w w' a n : grows w w' -> readable (mem w) a n -> readable (mem w') a n.
Proof. rewrite !readable_is_Some. intros [_ Hr] H i Hi. by apply Hr, H. Qed.

(** An output parameter, and an input buffer, that a call may be given. *)
Definition cell_ok (w : World) (p : Z) : Prop := p <> 0 -> p mod 8 = 0 /\ mapped (mem w) p 8.
Definition buf_ok (w : World) (p n : Z) : Prop := p <> 0 -> 0 <= n <= ISIZE_MAX /\ readable (mem w) p n.

Lemma cell_ok_grows w w' p : grows w w' -> cell_ok w p -> cell_ok w' p.
Proof. intros Hg H Hp. destruct (H Hp). eauto using mapped_grows. Qed.

Lemma buf_ok_grows w w' p n : grows w w' -> buf_ok w p n -> buf_ok w' p n.
Proof. intros Hg H Hp. destruct (H Hp). eauto using readable_grows. Qed.

(** Writing to mapped memory. *)
Lemma store_sound w p bs m : store (mem w) p bs = Some m -> sound w -> sound (set_mem w m) /\ grows w (set_mem w m).
Proof.
  intros Hm [H1 H2 H3 H4]. split.
  - split; [done| |done..]. intros a n Ha. destruct (H2 a n Ha) as (? & ? & Hmap). split_and!; [lia..|].
    intros i Hi. eapply store_is_Some, Hmap; done.
  - split; intros i Hi; cbn.
    + by eapply store_is_Some.
    + rewrite (lookup_store _ _ _ _ _ Hm). case_bool_decide as Hd; [|done]. cbn.
      apply lookup_lt_is_Some_2. lia.
Qed.

(** *** Outcomes that respect the contract *)

Definition error_code (c : Z) : Prop := 0 <= c < CITADEL_ERR_PANIC.

Definition keeps {A} (m : M A) (ok : A -> Prop) (w : World) : Prop :=
  let '(w', r) := m w in
  sound w' /\ grows w w' /\
  match r with Val a => ok a | Return c => error_code c | Unwind => True | Undefined => False end.

Lemma keeps_bind {A B} (m : M A) (f : A -> M B) ok ok' w :
  keeps m ok w -> (forall w' a, sound w' -> grows w w' -> ok a -> keeps (f a) ok' w') -> keeps (m ≫= f) ok' w.
Proof.
  unfold keeps, mbind, m_bind. intros H Hf. destruct (m w) as [w1 [a|c| |]]; destruct H as (Hs & Hg & H); try done.
  specialize (Hf w1 a Hs Hg H). destruct (f a w1) as [w2 r]. destruct Hf as (? & ? & ?).
  split; [done|]. split; [by etransitivity|done].
Qed.

Lemma keeps_ret {A} (a : A) ok w : sound w -> ok a -> keeps (mret a) ok w.
Proof. intros. by split. Qed.

Lemma keeps_return_if b c w : sound w -> error_code c -> keeps (return_if b c) (fun _ => b = false) w.
Proof. intros. unfold keeps, return_if. by destruct b. Qed.

Lemma keeps_or_return {E A} (r : result (fault E) A) c w :
  sound w -> error_code c -> keeps (or_return r c) (fun a => r = Ok a) w.
Proof. intros. unfold keeps, or_return. by destruct r as [|[]]. Qed.

Lemma keeps_or_unwind {A} (o : option A) w : sound w -> keeps (or_unwind o) (fun a => o = Some a) w.
Proof. intros. unfold keeps, or_unwind. by destruct o. Qed.

Lemma write_word_run w p v :
  cell_ok w p -> p <> 0 -> exists m, store (mem w) p (u64_le v) = Some m /\ write_word p v w = (set_mem w m, Val ()).
Proof.
  intros H Hp. destruct (H Hp) as [Ha Hm]. destruct (store_ok (mem w) p (u64_le v)) as [m Em]; [by rewrite length_u64_le|].
  exists m. split; [done|]. unfold write_word, is_null. rewrite Em. by rewrite (proj2 (Z.eqb_neq p 0)), Ha by done.
Qed.

Lemma keeps_write_word w p v : sound w -> cell_ok w p -> p <> 0 -> keeps (write_word p v) (fun _ => True) w.
Proof.
  intros Hs Hc Hp. destruct (write_word_run w p v Hc Hp) as (m & Em & Er). unfold keeps. rewrite Er.
  destruct (store_sound _ _ _ _ Em Hs). done.
Qed.

Lemma keeps_from_raw_parts w p n : sound w -> buf_ok w p n -> p <> 0 -> keeps (from_raw_parts p n) (fun _ => True) w.
Proof.
  intros Hs Hb Hp. destruct (Hb Hp) as [Hn [bs Hl]%readable_load]. unfold keeps, from_raw_parts, is_null.
  rewrite (proj2 (Z.eqb_neq p 0)), (proj2 (Z.ltb_ge n 0)), (proj2 (Z.ltb_ge _ _)) by lia. cbn. by rewrite Hl.
Qed.

Lemma keeps_optional_slice w p n : sound w -> buf_ok w p n -> keeps (optional_slice p n) (fun _ => True) w.
Proof.
  intros Hs Hb. unfold optional_slice, is_null. destruct (p =? 0) eqn:Hp; [by apply keeps_ret|].
  destruct (n =? 0); [by apply keeps_ret|]. apply keeps_from_raw_parts; [done..|lia].
Qed.

(** ** Allocation *)

Section allocation.
Context {A : Allocator} {AL : AllocatorLaws A}.

(** A fresh block, registered: all that was mapped is as it was. *)
Definition block (w w' : World) (p n : Z) : Prop :=
  0 < p < 2 ^ 64 /\ p + n <= 2 ^ 64 /\ (0 < n -> registry w' !! p = Some n) /\ mapped (mem w') p n /\
  (forall i, p <= i < p + n -> mem w !! i = None) /\
  (forall i, is_Some (mem w !! i) -> mem w' !! i = mem w !! i) /\ registry w ⊆ registry w'.

Lemma fresh_block_sound w p n :
  sound w -> 0 < p -> 0 < n <= ISIZE_MAX -> (forall i, p <= i < p + n -> mem w !! i = None) ->
  sound (mkWorld (map_region (mem w) p n) (<[p := n]> (live w)) (<[p := n]> (registry w)) (S (calls w)) (released w)).
Proof.
  intros [H1 H2 H3 H4] Hp Hn Hf.
  assert (Hsep : forall b k, registry w !! b = Some k -> separate p n b k).
  { intros b k Hb. destruct (H2 _ _ Hb) as (_ & Hk & Hm). unfold separate.
    destruct (decide (p + n <= b \/ b + k <= p)) as [|Hn']; [done|]. exfalso.
    destruct (Hm (Z.max p b)) as [x Hx]; [lia|]. rewrite Hf in Hx by lia. done. }
  split; cbn; [by rewrite H1| | |done].
  - intros a k. rewrite lookup_insert_Some. intros [[<- <-]|[Hne Ha]].
    + split_and!; [lia..|]. intros i Hi. by rewrite lookup_map_region, bool_decide_true by (done || lia).
    + destruct (H2 _ _ Ha) as (? & ? & Hm). split_and!; [lia..|]. intros i Hi.
      rewrite lookup_map_region by (done || lia). case_bool_decide; [done|]. by apply Hm.
  - intros a k b j. rewrite !lookup_insert_Some. intros [[<- <-]|[? Ha]] [[<- <-]|[? Hb]] Hne; [done|by apply Hsep| |by apply H3].
    specialize (Hsep _ _ Ha). unfold separate in *. lia.
Qed.

Lemma alloc_buf_run w n :
  sound w -> 0 <= n ->
  exists w' p, alloc_buf n w = (w', Val p) /\ sound w' /\ grows w w' /\
    ((p = 0 /\ mem w' = mem w /\ registry w' = registry w) \/ (n <= ISIZE_MAX /\ block w w' p n)).
Proof.
  intros Hs Hn. unfold alloc_buf. destruct (n =? 0) eqn:E0.
  { exists w, 1. split_and!; [done..|]. right. unfold ISIZE_MAX. split; [lia|]. by split_and!; [lia..| | |done|done]; intros i ?; lia. }
  destruct (ISIZE_MAX <? n) eqn:E1; [exists w, 0; split_and!; [done..|by left]|].
  unfold mbind, m_bind, alloc, is_null. set (p := alloc_at _ _ _). destruct (p =? 0) eqn:Ep; cbn.
  { eexists _, 0. split_and!; [done| | |by left]; destruct Hs; by split. }
  destruct (alloc_fresh (calls w) (mem w) n) as (Hp & Hmax & Hf); [lia|fold p; lia|]. fold p in Hp, Hmax, Hf.
  rewrite Ep. cbn. unfold register. cbn. eexists _, p. split; [done|].
  assert (Hk : forall i, is_Some (mem w !! i) -> map_region (mem w) p n !! i = mem w !! i).
  { intros i Hi. rewrite lookup_map_region by (done || lia). case_bool_decide as Hd; [|done].
    rewrite (Hf i Hd) in Hi. by destruct Hi. }
  split; [apply fresh_block_sound; done || lia|]. split.
  - split; cbn; intros i Hi; rewrite Hk; try done. destruct (mem w !! i); [done|by destruct Hi].
  - right. split; [lia|]. split_and!; [lia..|done|intros _; apply lookup_insert_eq| |done|done|].
    + cbn. intros i Hi. by rewrite lookup_map_region, bool_decide_true by (done || lia).
    + cbn. apply insert_subseteq. destruct (registry w !! p) as [k|] eqn:Ek; [|done].
      destruct (blocks_mapped w Hs _ _ Ek) as (_ & Hk0 & Hm). destruct (Hm p) as [x Hx]; [lia|].
      rewrite Hf in Hx by lia. done.
Qed.

(** What an output buffer holds, seen from the two out-parameters. *)
Definition holds (w : World) (p q buf : Z) (data : list byte) : Prop :=
  cell (mem w) p = Some buf /\ cell (mem w) q = Some (len data) /\ load (mem w) buf (len data) = Some data /\
  0 < buf /\ (data <> [] -> registry w !! buf = Some (len data)).

Lemma write_output_run w data p q :
  sound w -> cell_ok w p -> cell_ok w q -> p <> 0 -> q <> 0 ->
  exists w' rc, write_output data p q w = (w', Val rc) /\ sound w' /\ grows w w' /\ registry w ⊆ registry w' /\
    ((rc = CITADEL_ERR_ALLOC /\ mem w' = mem w /\ registry w' = registry w) \/
     (rc = CITADEL_OK /\
      (forall i, is_Some (mem w !! i) -> ~ (p <= i < p + 8) -> ~ (q <= i < q + 8) -> mem w' !! i = mem w !! i) /\
      (separate p 8 q 8 -> exists buf, holds w' p q buf data /\ forall i, buf <= i < buf + len data -> mem w !! i = None))).
Proof.
  intros Hs Hp Hq Hp0 Hq0. destruct (alloc_buf_run w (len data) Hs) as (w1 & buf & Ea & Hs1 & Hg1 & Hb); [lia|].
  unfold write_output. unfold mbind at 1, m_bind at 1. rewrite Ea. unfold is_null.
  destruct Hb as [(-> & Hm & Hr)|(Hmax & Hpos & Hend & Hreg & Hmap & Hfresh & Hkeep & Hsub)].
  { exists w1, CITADEL_ERR_ALLOC. split_and!; [done..|by rewrite Hr|by left]. }
  rewrite (proj2 (Z.eqb_neq buf 0)) by lia. destruct (store_ok (mem w1) buf data Hmap) as [m2 E2].
  destruct (store_sound _ _ _ _ E2 Hs1) as [Hs2 Hg2]. pose proof (transitivity Hg1 Hg2) as Hg02.
  destruct (write_word_run (set_mem w1 m2) p buf (cell_ok_grows _ _ _ Hg02 Hp) Hp0) as (m3 & E3 & R3).
  destruct (store_sound _ _ _ _ E3 Hs2) as [Hs3 Hg3]. pose proof (transitivity Hg02 Hg3) as Hg03.
  destruct (write_word_run (set_mem (set_mem w1 m2) m3) q (len data) (cell_ok_grows _ _ _ Hg03 Hq) Hq0) as (m4 & E4 & R4).
  destruct (store_sound _ _ _ _ E4 Hs3) as [Hs4 Hg4].
  eexists _, CITADEL_OK. split.
  { unfold mbind, m_bind, copy_to. rewrite E2. cbn [set_mem]. rewrite R3, R4. done. }
  split; [done|]. split; [by etransitivity|]. split; [done|]. right. split; [done|].
  cbn in E3, E4. split.
  - intros i Hi Hip Hiq. cbn. rewrite (lookup_store _ _ _ _ _ E4), (lookup_store _ _ _ _ _ E3), (lookup_store _ _ _ _ _ E2).
    rewrite !length_u64_le. rewrite !bool_decide_false; [by apply Hkeep| |done..].
    intros Hd. rewrite (Hfresh i Hd) in Hi. by destruct Hi.
  - intros Hsep. exists buf. split; [|done]. destruct (Hp Hp0) as [_ Hpm], (Hq Hq0) as [_ Hqm].
    assert (Hsb : forall r, mapped (mem w) r 8 -> len data = 0 \/ separate r 8 buf (len data)).
    { intros r Hr. destruct (decide (r + 8 <= buf \/ buf + len data <= r)) as [|Hn]; [by right|]. left.
      destruct (decide (len data = 0)); [done|]. exfalso. destruct (Hr (Z.max r buf)) as [x Hx]; [lia|].
      rewrite Hfresh in Hx by lia. done. }
    split_and!.
    + rewrite <- (cell_store _ _ _ _ E3) by (unfold ISIZE_MAX in *; lia). unfold cell. f_equal.
      eapply load_store_separate; [done|]. rewrite length_u64_le. unfold separate in *. lia.
    + eapply cell_store; [done|]. unfold ISIZE_MAX in Hmax. lia.
    + cbn. destruct (decide (len data = 0)) as [E|Hne]; [rewrite E; destruct data; [by apply load_empty|done]|].
      rewrite <- (load_store _ _ _ _ E2). etransitivity; eapply load_store_separate; try done; rewrite length_u64_le.
      * by destruct (Hsb q Hqm).
      * by destruct (Hsb p Hpm).
    + lia.
    + cbn. intros Hd. apply Hreg. destruct data; [done|cbn; lia].
Qed.

Lemma keeps_write_output w data p q :
  sound w -> cell_ok w p -> cell_ok w q -> p <> 0 -> q <> 0 ->
  keeps (write_output data p q) (fun rc => rc = CITADEL_OK \/ rc = CITADEL_ERR_ALLOC) w.
Proof.
  intros Hs Hp Hq Hp0 Hq0. destruct (write_output_run w data p q) as (w' & rc & E & ? & ? & _ & Hrc); [done..|].
  unfold keeps. rewrite E. naive_solver.
Qed.
End allocation.

(** ** Release *)

Lemma unregistered_null w : sound w -> registry w !! 0 = None.
Proof. intros Hs. destruct (_ !! 0) as [n|] eqn:E; [|done]. apply blocks_mapped in E; [lia|done]. Qed.

Lemma unmap_store m a bs m' : store m a bs = Some m' -> unmap_region m' a (len bs) = unmap_region m a (len bs).
Proof.
  intros H. apply map_eq. intros i. rewrite !lookup_unmap_region, (lookup_store _ _ _ _ _ H). by case_bool_decide.
Qed.

Lemma unmap_sound w a n ghost :
  sound w -> registry w !! a = Some n -> Forall (eq (Some Byte.x00)) ghost ->
  sound (mkWorld (unmap_region (mem w) a n) (delete a (live w)) (delete a (registry w)) (calls w) (released w ++ [ghost])).
Proof.
  intros [H1 H2 H3 H4] Ha Hg. split; cbn; [by rewrite H1| | |].
  - intros b k [Hne Hb]%lookup_delete_Some. destruct (H2 _ _ Hb) as (? & ? & Hm). split_and!; [lia..|].
    intros i Hi. rewrite lookup_unmap_region, bool_decide_false; [by apply Hm|].
    specialize (H3 _ _ _ _ Ha Hb Hne). unfold separate in H3. lia.
  - intros b k c j [_ Hb]%lookup_delete_Some [_ Hc]%lookup_delete_Some. by apply H3.
  - apply Forall_app. by split; [|apply Forall_singleton].
Qed.

(** Whatever pointer is passed, and whatever length: a live buffer is zeroed and given back, with the
    layout it was allocated with; any other pointer leaves the state as it is. *)
Lemma citadel_free_run w ptr length :
  sound w ->
  exists w', citadel_free ptr length w = (w', Some ()) /\ sound w' /\
    match registry w !! ptr with
    | None => w' = w
    | Some n =>
        mem w' = unmap_region (mem w) ptr n /\ registry w' = delete ptr (registry w) /\
        released w' = released w ++ [replicate (Z.to_nat n) (Some Byte.x00)]
    end.
Proof.
  intros Hs. unfold citadel_free, ffi_guard_void, citadel_free_impl, is_null. destruct (ptr =? 0) eqn:E0.
  { apply Z.eqb_eq in E0 as ->. exists w. by rewrite unregistered_null. }
  unfold unregister, mbind, m_bind. destruct (registry w !! ptr) as [n|] eqn:En; cbn.
  2: { exists w. rewrite delete_id by done. by destruct w. }
  destruct (blocks_mapped w Hs _ _ En) as (Hp & Hn & Hm). rewrite (proj2 (Z.eqb_neq n 0)) by lia.
  unfold copy_to. cbn. assert (Hl : len (replicate (Z.to_nat n) Byte.x00) = n) by (rewrite length_replicate; lia).
  destruct (store_ok (mem w) ptr (replicate (Z.to_nat n) Byte.x00)) as [m Em]; [by rewrite Hl|]. rewrite Em.
  rewrite (proj2 (Z.ltb_ge _ _)) by lia. unfold dealloc. cbn.
  rewrite bool_decide_true by (by rewrite <- registry_is_live). rewrite <- Hl, (unmap_store _ _ _ _ Em), Hl.
  assert (Hz : (fun i => mjoin (m !! i)) <$> seqZ ptr n = replicate (Z.to_nat n) (Some Byte.x00)).
  { apply list_eq. intros k. rewrite list_lookup_fmap. destruct (decide (Z.of_nat k < n)) as [Hk|Hk].
    - rewrite lookup_seqZ_lt, lookup_replicate_2 by lia. cbn.
      rewrite (lookup_store _ _ _ _ _ Em), bool_decide_true by (rewrite Hl; lia). cbn.
      by rewrite lookup_replicate_2 by lia.
    - rewrite lookup_seqZ_ge by lia. symmetry. apply lookup_ge_None_2. rewrite length_replicate. lia. }
  rewrite Hz. eexists. split_and!; [done| |done..]. apply unmap_sound; [done..|]. by apply Forall_replicate.
Qed.

(** ** No undefined behaviour *)

Section entry_safety.
Context {A : Allocator} {AL : AllocatorLaws A} {S : Suite}.

Ltac code := unfold error_code, CITADEL_OK, CITADEL_ERR_NULL, CITADEL_ERR_SEAL, CITADEL_ERR_OPEN, CITADEL_ERR_KEY,
  CITADEL_ERR_ALLOC, CITADEL_ERR_PANIC in *; lia.
Ltac later := match goal with Hg : grows ?w ?w' |- _ =>
  first [eapply (cell_ok_grows w w'); [exact Hg|] | eapply (buf_ok_grows w w'); [exact Hg|]] end.
Ltac side := first [done | code | (unfold is_null in *; lia) | (repeat later; done)].
Ltac step := eapply keeps_bind; [first [apply keeps_return_if | apply keeps_write_word | apply keeps_from_raw_parts
  | apply keeps_optional_slice | apply keeps_or_return | apply keeps_or_unwind]; side | intros ? ? ? ? ?].

Lemma keeps_mono {B} (m : M B) (ok ok' : B -> Prop) w : keeps m ok w -> (forall a, ok a -> ok' a) -> keeps m ok' w.
Proof. unfold keeps. destruct (m w) as [w' []]; naive_solver. Qed.

Lemma keeps_output w data p q :
  sound w -> cell_ok w p -> cell_ok w q -> p <> 0 -> q <> 0 -> keeps (write_output data p q) error_code w.
Proof. intros. eapply keeps_mono; [by apply keeps_write_output|]. intros a [-> | ->]; code. Qed.

Lemma keygen_impl_keeps rnd p1 n1 p2 n2 w :
  sound w -> cell_ok w p1 -> cell_ok w n1 -> cell_ok w p2 -> cell_ok w n2 ->
  keeps (keygen_impl rnd p1 n1 p2 n2) error_code w.
Proof.
  intros Hs H1 H2 H3 H4. unfold keygen_impl. do 6 step.
  eapply keeps_bind; [apply keeps_write_output; side|]. intros ? rc ? ? Hrc. cbn beta in *.
  destruct (negb _); [apply keeps_ret; [done|code]|]. apply keeps_output; side.
Qed.

Lemma seal_impl_keeps r1 r2 p1 n1 p2 n2 p3 n3 p4 n4 o1 o2 w :
  sound w -> buf_ok w p1 n1 -> buf_ok w p2 n2 -> buf_ok w p3 n3 -> buf_ok w p4 n4 -> cell_ok w o1 -> cell_ok w o2 ->
  keeps (seal_impl r1 r2 p1 n1 p2 n2 p3 n3 p4 n4 o1 o2) error_code w.
Proof. intros. unfold seal_impl. do 9 step. apply keeps_output; side. Qed.

Lemma open_impl_keeps p1 n1 p2 n2 p3 n3 p4 n4 o1 o2 w :
  sound w -> buf_ok w p1 n1 -> buf_ok w p2 n2 -> buf_ok w p3 n3 -> buf_ok w p4 n4 -> cell_ok w o1 -> cell_ok w o2 ->
  keeps (open_impl p1 n1 p2 n2 p3 n3 p4 n4 o1 o2) error_code w.
Proof. intros. unfold open_impl. do 9 step. apply keeps_output; side. Qed.
End entry_safety.

End Ffi.
