(* ===== verification/FfiLaws.v ===== *)
(** * Theorems on the C interface ([citadel-ffi/src/lib.rs])

    What every sequence of calls guarantees, whatever the host does to its own
    memory in between, and what the two engines promise through pointers. *)

From S2P Require Import Prelude.
From S2P Require Import Wire.
From S2P Require Import WireV2.
From S2P Require Import Crypto.
From S2P Require Import Envelope.
From S2P Require Import KemP384.
From S2P Require Import Ffi.

(** What the interface needs of an engine: sealing panics only when the system's
    random source fails. *)
Class SuiteLaws (S : Ffi.Suite) : Prop := {
  suite_keys rnd :
    Ffi.s_drawn rnd ->
    len (Ffi.s_generate rnd).1 = Ffi.s_public_bytes /\ len (Ffi.s_generate rnd).2 = Ffi.s_secret_bytes /\
    exists pk sk,
      Ffi.s_public_from (Ffi.s_generate rnd).1 = Ok pk /\ Ffi.s_secret_from (Ffi.s_generate rnd).2 = Ok sk /\
      forall r1 r2 pt aad ctx ct,
        nonce_draw r2 -> Ffi.s_seal r1 r2 pk pt aad ctx = Ok ct -> Ffi.s_open sk ct aad ctx = Ok pt;
  suite_public_no_panic bs : Ffi.s_public_from bs <> Err Panic;
  suite_secret_no_panic bs : Ffi.s_secret_from bs <> Err Panic;
  suite_seal_no_panic bs pk r1 r2 pt aad ctx :
    Ffi.s_public_from bs = Ok pk -> Ffi.s_seal r1 r2 pk pt aad ctx = Err Panic -> Ffi.s_seal_fails r1;
  suite_open_no_panic sk ct aad ctx : Ffi.s_open sk ct aad ctx <> Err Panic;
}.

Module FfiLaws.
Import Ffi.

(** ** The two engines satisfy the interface *)

Section suites.
Context {P : Primitives} {PL : PrimitiveLaws P} {Q : P384Primitives} {QL : P384Laws Q}.

Lemma seal_no_panic (K : KemProvider) r1 r2 pk pt aad ctx :
  WireV2.encapsulate r1 pk <> Err Panic -> Engine.encrypt (K := K) r1 r2 pk pt aad ctx <> Err Panic.
Proof.
  intros H. unfold Engine.encrypt, WireV2.seal, WireV2.up.
  repeat (no_panic; try match goal with
    | |- map_err Fail ?r <> Err Panic => by destruct r
    | |- (let '(_, _) := ?p in _) <> Err Panic => destruct p
    end). done.
Qed.

Lemma seal_panics (K : KemProvider) r1 r2 pk pt aad ctx :
  Engine.encrypt (K := K) r1 r2 pk pt aad ctx = Err Panic -> WireV2.encapsulate r1 pk = Err Panic.
Proof.
  intros H. destruct (WireV2.encapsulate r1 pk) as [|[]] eqn:E; [..|done];
    by destruct (seal_no_panic K r1 r2 pk pt aad ctx); [rewrite E|].
Qed.

#[export] Instance suite_a3_laws : SuiteLaws suite_a3.
Proof.
  constructor; cbn -[Z.of_nat].
  - intros rnd Hr. unfold Kem.keygen. cbn -[Z.of_nat].
    set (sk := {| Kem.sk_x25519 := rnd.1; Kem.mlkem := mlkem_generate rnd.2 |}).
    split; [|split].
    + pose proof (length_x25519_public rnd.1). pose proof (length_ek_bytes (ek_of (mlkem_generate rnd.2))).
      rewrite length_app. Kem.sizes. lia.
    + pose proof (length_dk_bytes (mlkem_generate rnd.2)). rewrite length_app. Kem.sizes. lia.
    + exists (Kem.public_key sk), sk. split_and!.
      { apply (Kem.PublicKey_roundtrip (Kem.public_key sk)), Kem.public_key_valid. }
      { by apply (Kem.SecretKey_roundtrip sk). }
      intros r1 r2 pt aad ctx ct Hr2 Hct.
      by apply (Engine.open_sealed (K := Kem.HybridX25519MlKem768Provider) r1 r2 sk (Kem.public_key sk)).
  - intros bs. unfold Kem.PublicKey_from_bytes. no_panic; Kem.sizes; lia.
  - intros bs. unfold Kem.SecretKey_from_bytes. no_panic; Kem.sizes; lia.
  - intros bs pk [[e|] [m|]] r2 pt aad ctx [Hv _]%Kem.PublicKey_from_bytes_valid; [|by auto..].
    intros []%seal_panics%Kem.encapsulate_never_panics. done.
  - intros. apply Engine.decrypt_never_panics.
Qed.

#[export] Instance suite_a4_laws : SuiteLaws suite_a4.
Proof.
  constructor; cbn -[Z.of_nat].
  - intros rnd Hr. unfold KemP384.generate_keypair, KemP384.keygen. cbn -[Z.of_nat].
    set (sk := KemP384.mkSecret (p384_generate rnd.1) rnd.2).
    split; [|split].
    + pose proof (length_sec1 (p384_public_key (p384_generate rnd.1))) as H97.
      pose proof (length_ek1024_bytes (encapsulation_key (from_seed rnd.2))) as Hek.
      unfold KemP384.PublicKey_to_bytes, KemP384.encode_p384_point. cbn -[Z.of_nat]. rewrite length_app. KemP384.sizes. lia.
    + pose proof (length_p384_to_bytes (p384_generate rnd.1)) as H48.
      unfold KemP384.SecretKey_to_bytes. cbn -[Z.of_nat]. rewrite length_app. KemP384.sizes. lia.
    + exists (KemP384.public_key_of sk), sk.
      split_and!; [apply (KemP384.public_key_parses (KemP384.public_key_of sk))
                  |by apply (KemP384.p384_secret_key_parses sk)|].
      intros r1 r2 pt aad ctx ct Hr2 Hct. by eapply KemP384.p384_open_seal.
  - intros bs. unfold KemP384.PublicKey_from_bytes. no_panic; KemP384.sizes; lia.
  - intros bs. unfold KemP384.SecretKey_from_bytes. no_panic; KemP384.sizes; lia.
  - intros bs pk [e [m|]] r2 pt aad ctx _; [|done]. intros H%seal_panics. cbn in H. unfold KemP384.encapsulate in H.
    cbn [fst snd] in H. destruct (e ≫= p384_try_generate); [|done]. cbn in H. by destruct (mlkem1024_encapsulate _ _).
  - intros. apply Engine.decrypt_never_panics.
Qed.
End suites.

(** ** Where a call can panic *)

Section panics.
Context {A : Allocator} {S : Suite} {SL : SuiteLaws S}.

Definition calm {B} (m : M B) : Prop := forall w, (m w).2 <> Unwind.

Lemma calm_bind {B C} (m : M B) (f : B -> M C) :
  calm m -> (forall w w' a, m w = (w', Val a) -> calm (f a)) -> calm (m ≫= f).
Proof.
  intros Hm Hf w. unfold mbind, m_bind. specialize (Hm w). destruct (m w) as [w' [a|c| |]] eqn:E; try done.
  by eapply Hf.
Qed.

Lemma calm_ret {B} (b : B) : calm (mret b).
Proof. by intros w. Qed.

Lemma calm_or_return {E B} (r : result (fault E) B) c : r <> Err Panic -> calm (or_return r c).
Proof. intros Hr w. by destruct r as [|[]]. Qed.

Lemma calm_return_if b c : calm (return_if b c).
Proof. intros w. by destruct b. Qed.

Lemma calm_write_word p v : calm (write_word p v).
Proof. intros w. unfold write_word. destruct (_ || _); [done|]. by destruct (store _ _ _). Qed.

Lemma calm_copy_to p bs : calm (copy_to p bs).
Proof. intros w. unfold copy_to. by destruct (store _ _ _). Qed.

Lemma calm_from_raw_parts p n : calm (from_raw_parts p n).
Proof. intros w. unfold from_raw_parts. destruct (_ || _); [done|]. by destruct (load _ _ _). Qed.

Lemma calm_optional_slice p n : calm (optional_slice p n).
Proof. unfold optional_slice. destruct (_ || _); [apply calm_ret|apply calm_from_raw_parts]. Qed.

Lemma calm_alloc_buf n : calm (alloc_buf n).
Proof.
  unfold alloc_buf. destruct (n =? 0); [apply calm_ret|]. destruct (ISIZE_MAX <? n); [apply calm_ret|].
  intros w. unfold mbind, m_bind, alloc. destruct (is_null (alloc_at _ _ _)) eqn:E; cbn; [done|]. by rewrite E.
Qed.

Lemma calm_write_output data p q : calm (write_output data p q).
Proof.
  unfold write_output. apply calm_bind; [apply calm_alloc_buf|]. intros _ _ buf _.
  destruct (is_null buf); [apply calm_ret|].
  repeat first [apply calm_bind; [first [apply calm_copy_to|apply calm_write_word]|intros _ _ _ _]]. apply calm_ret.
Qed.

Ltac calm_step := apply calm_bind; [first [apply calm_return_if | apply calm_write_word | apply calm_from_raw_parts
  | apply calm_optional_slice]|intros _ _ ? _].

Lemma seal_impl_calm r1 r2 p1 n1 p2 n2 p3 n3 p4 n4 o1 o2 :
  ~ s_seal_fails r1 -> calm (seal_impl r1 r2 p1 n1 p2 n2 p3 n3 p4 n4 o1 o2).
Proof.
  intros Hr. unfold seal_impl. do 4 calm_step. apply calm_bind; [apply calm_or_return, suite_public_no_panic|].
  intros w w' pk Hpk. do 3 calm_step. apply calm_bind; [|intros; apply calm_write_output].
  apply calm_or_return. destruct (s_public_from _) as [pk'|[]] eqn:E; [|done..]. simplify_eq/=.
  unfold or_return in Hpk. simplify_eq. intros Hp. apply Hr. by eapply suite_seal_no_panic.
Qed.

Lemma open_impl_calm p1 n1 p2 n2 p3 n3 p4 n4 o1 o2 : calm (open_impl p1 n1 p2 n2 p3 n3 p4 n4 o1 o2).
Proof.
  unfold open_impl. do 4 calm_step. apply calm_bind; [apply calm_or_return, suite_secret_no_panic|].
  intros w w' sk _. do 3 calm_step. apply calm_bind; [apply calm_or_return, suite_open_no_panic|].
  intros; apply calm_write_output.
Qed.

Lemma keygen_impl_calm keys p1 n1 p2 n2 : calm (keygen_impl (Some keys) p1 n1 p2 n2).
Proof.
  unfold keygen_impl. do 5 calm_step. apply calm_bind; [by intros w|]. intros _ _ ? _.
  apply calm_bind; [apply calm_write_output|]. intros _ _ rc _. destruct (negb _); [apply calm_ret|apply calm_write_output].
Qed.

(** What [ffi_guard] makes of a body that respects the contract. *)
Lemma ffi_guard_run (m : M Z) w :
  keeps m error_code w ->
  exists w' rc, ffi_guard m w = (w', Some rc) /\ sound w' /\ grows w w' /\ 0 <= rc <= 6 /\
    (calm m -> rc <> CITADEL_ERR_PANIC).
Proof.
  unfold keeps, ffi_guard, error_code, calm, CITADEL_ERR_PANIC. intros H. pose proof (fun Hc : calm m => Hc w) as Hw.
  unfold calm in Hw. destruct (m w) as [w' [a|c| |]]; destruct H as (? & ? & ?); [..|done].
  1,2: eexists _, _; split_and!; [done..|lia|lia|lia].
  exists w', 6. split_and!; [done..|]. naive_solver.
Qed.
End panics.

(** ** Every history of calls *)

Section histories.
Context {P : Primitives} {PL : PrimitiveLaws P} {Q : P384Primitives} {QL : P384Laws Q}.
Context {A : Allocator} {AL : AllocatorLaws A}.

(** The safety contract of the functions: every pointer is null or valid. *)
Definition respects (w : World) (c : Call) : Prop :=
  match c with
  | Keygen _ p1 n1 p2 n2 | P384Keygen _ p1 n1 p2 n2 =>
      cell_ok w p1 /\ cell_ok w n1 /\ cell_ok w p2 /\ cell_ok w n2
  | Seal _ _ p1 n1 p2 n2 p3 n3 p4 n4 o1 o2 | Open p1 n1 p2 n2 p3 n3 p4 n4 o1 o2
  | P384Seal _ _ p1 n1 p2 n2 p3 n3 p4 n4 o1 o2 | P384Open p1 n1 p2 n2 p3 n3 p4 n4 o1 o2 =>
      buf_ok w p1 n1 /\ buf_ok w p2 n2 /\ buf_ok w p3 n3 /\ buf_ok w p4 n4 /\ cell_ok w o1 /\ cell_ok w o2
  | Free _ _ => True
  end.

(** Between calls the host changes memory as it likes, as long as it leaves the
    library's buffers mapped. *)
Inductive reachable : World -> Prop :=
| reach_start m n : reachable (mkWorld m ∅ ∅ n [])
| reach_host w m :
    reachable w -> (forall a n, registry w !! a = Some n -> mapped m a n) -> reachable (set_mem w m)
| reach_call w c w' rc : reachable w -> respects w c -> invoke c w = (w', Some rc) -> reachable w'.

(** The system's random source fails at a draw whose failure the code does not
    handle: of a key, of the X25519 ephemeral key, of an ML-KEM encapsulation. *)
Definition draws_fail (c : Call) : Prop :=
  match c with
  | Keygen rnd _ _ _ _ | P384Keygen rnd _ _ _ _ => rnd = None
  | Seal (ephemeral, mlkem) _ _ _ _ _ _ _ _ _ _ _ => ephemeral = None \/ mlkem = None
  | P384Seal (_, mlkem) _ _ _ _ _ _ _ _ _ _ _ => mlkem = None
  | _ => False
  end.

Lemma invoke_run w c :
  sound w -> respects w c ->
  exists w' rc, invoke c w = (w', Some rc) /\ sound w' /\ 0 <= rc <= 6 /\
    (rc = CITADEL_ERR_PANIC -> draws_fail c).
Proof.
  intros Hs Hc.
  assert (Hg : forall m, keeps m error_code w -> (draws_fail c \/ calm m) ->
    exists w' rc, ffi_guard m w = (w', Some rc) /\ sound w' /\ 0 <= rc <= 6 /\ (rc = CITADEL_ERR_PANIC -> draws_fail c)).
  { intros m Hm Hd. destruct (ffi_guard_run m w Hm) as (w' & rc & E & ? & _ & ? & Hp).
    exists w', rc. split_and!; [done..|lia|lia|]. intros Hrc. destruct Hd as [|Hd]; [done|by destruct (Hp Hd)]. }
  destruct c as [rnd ????|???????????|?????????|rnd ????|???????????|?????????|p n]; cbn in Hc |- *.
  1,4: apply Hg; [apply keygen_impl_keeps; naive_solver|]; destruct rnd; [right; apply keygen_impl_calm|by left].
  1,3: apply Hg; [apply seal_impl_keeps; naive_solver|]; match goal with |- context [seal_impl ?r _ _ _ _ _ _ _ _ _ _ _] =>
      destruct r as [[?|] [?|]]; first [right; apply seal_impl_calm; cbn; naive_solver|left; cbn; by auto] end.
  1,2: apply Hg; [apply open_impl_keeps; naive_solver|]; right; apply open_impl_calm.
  destruct (citadel_free_run w p n Hs) as (w' & E & Hs' & _). rewrite E. exists w', CITADEL_OK.
  unfold CITADEL_OK, CITADEL_ERR_PANIC. split_and!; [done..|lia].
Qed.

Lemma reachable_sound w : reachable w -> sound w.
Proof.
  induction 1 as [m n|w m _ IH Hm|w c w' rc _ IH Hc E].
  - by split; cbn; [|intros ?? []%lookup_empty_Some|intros ???? []%lookup_empty_Some|].
  - destruct IH as [H1 H2 H3 H4]. split; cbn; [done| |done..]. intros a n Ha. destruct (H2 a n Ha) as (? & ? & _). eauto.
  - destruct (invoke_run w c IH Hc) as (? & ? & E' & ? & _). rewrite E in E'. by simplify_eq.
Qed.

(** C31: After any history of calls and of changes the host makes to its own memory, a
    call whose pointers are null or valid is free of undefined behaviour and answers one
    of the documented codes; the code for a panic is only answered when the system's
    random source failed at the draw of a key, or at a draw of the encapsulation in a
    seal. The registry agrees with the allocator, and every buffer given back had been
    zeroed - for [citadel_free] whatever pointer and length the host passes. *)
Theorem c_boundary_safe w c :
  reachable w -> respects w c ->
  exists w' rc, invoke c w = (w', Some rc) /\ 0 <= rc <= 6 /\ (rc = CITADEL_ERR_PANIC -> draws_fail c) /\
    registry w' = live w' /\ Forall (Forall (eq (Some Byte.x00))) (released w').
Proof.
  intros Hw%reachable_sound Hc. destruct (invoke_run w c Hw Hc) as (w' & rc & E & [] & ? & ?).
  exists w', rc. split_and!; first [done|lia].
Qed.
End histories.

(** ** What the calls compute *)

Section results.
Context {A : Allocator} {AL : AllocatorLaws A} {S : Suite} {SL : SuiteLaws S}.

(** A pair of out-parameters, and an input that does not overlap them. *)
Definition outputs (w : World) (p q : Z) : Prop :=
  p <> 0 /\ q <> 0 /\ cell_ok w p /\ cell_ok w q /\ separate p 8 q 8.
Definition input (w : World) (o1 o2 p n : Z) (bs : list byte) : Prop :=
  p <> 0 /\ 0 <= n <= ISIZE_MAX /\ load (mem w) p n = Some bs /\ separate o1 8 p n /\ separate o2 8 p n.
Definition optional_input (w : World) (o1 o2 p n : Z) (bs : list byte) : Prop :=
  (p = 0 \/ n = 0) /\ bs = [] \/ p <> 0 /\ n <> 0 /\ input w o1 o2 p n bs.

(** The state once the out-parameters are zeroed. *)
Definition zeroed (w w0 : World) (p q : Z) : Prop :=
  sound w0 /\ grows w w0 /\ cell (mem w0) p = Some 0 /\ cell (mem w0) q = Some 0 /\
  (forall a n, separate p 8 a n -> separate q 8 a n -> load (mem w0) a n = load (mem w) a n) /\
  registry w0 = registry w.

Lemma bind_val {B C} (m : M B) (f : B -> M C) w w' b : m w = (w', Val b) -> (m ≫= f) w = f b w'.
Proof. unfold mbind, m_bind. by intros ->. Qed.

Lemma zero_outputs w p q :
  sound w -> outputs w p q ->
  exists w0, zeroed w w0 p q /\
    forall f : M Z, ffi_guard (write_word p 0 ≫= fun _ => write_word q 0 ≫= fun _ => f) w = ffi_guard f w0.
Proof.
  intros Hs (Hp0 & Hq0 & Hp & Hq & Hsep).
  destruct (write_word_run w p 0 Hp Hp0) as (m1 & E1 & R1). destruct (store_sound _ _ _ _ E1 Hs) as [Hs1 Hg1].
  destruct (write_word_run (set_mem w m1) q 0 (cell_ok_grows _ _ _ Hg1 Hq) Hq0) as (m2 & E2 & R2).
  destruct (store_sound _ _ _ _ E2 Hs1) as [Hs2 Hg2]. cbn in E2.
  exists (set_mem (set_mem w m1) m2). split.
  - split_and!; [done|by etransitivity| | | |done].
    + rewrite <- (cell_store _ _ _ _ E1) by lia. unfold cell. f_equal. eapply load_store_separate; [done|].
      rewrite length_u64_le. unfold separate in *. lia.
    + eapply cell_store; [done|lia].
    + intros a n Ha Hb. cbn. transitivity (load m1 a n); eapply load_store_separate; try done; by rewrite length_u64_le.
  - intros f. unfold ffi_guard. by rewrite (bind_val _ _ _ _ _ R1), (bind_val _ _ _ _ _ R2).
Qed.

Lemma from_raw_parts_run w p n bs : p <> 0 -> 0 <= n <= ISIZE_MAX -> load (mem w) p n = Some bs -> from_raw_parts p n w = (w, Val bs).
Proof.
  intros Hp Hn Hl. unfold from_raw_parts, is_null.
  rewrite (proj2 (Z.eqb_neq p 0)), (proj2 (Z.ltb_ge n 0)), (proj2 (Z.ltb_ge _ _)) by lia. cbn. by rewrite Hl.
Qed.

Lemma input_run w w0 o1 o2 p n bs : zeroed w w0 o1 o2 -> input w o1 o2 p n bs -> from_raw_parts p n w0 = (w0, Val bs).
Proof.
  intros (_ & _ & _ & _ & Hl & _) (Hp & Hn & Hb & H1 & H2). apply from_raw_parts_run; [done..|]. by rewrite Hl.
Qed.

Lemma optional_input_run w w0 o1 o2 p n bs :
  zeroed w w0 o1 o2 -> optional_input w o1 o2 p n bs -> optional_slice p n w0 = (w0, Val bs).
Proof.
  intros Hz H. unfold optional_slice, is_null. destruct H as [[Hn ->]|(Hp & Hn & H)].
  - by destruct Hn as [-> | ->]; rewrite ?Z.eqb_refl, ?orb_true_r.
  - rewrite (proj2 (Z.eqb_neq p 0)), (proj2 (Z.eqb_neq n 0)) by done. by eapply input_run.
Qed.

Lemma input_not_null w o1 o2 p n bs : input w o1 o2 p n bs -> is_null p = false.
Proof. intros [Hp _]. by apply Z.eqb_neq. Qed.

Lemma outputs_not_null w p q : outputs w p q -> is_null p = false /\ is_null q = false.
Proof. intros (Hp & Hq & _). by split; apply Z.eqb_neq. Qed.

Lemma outputs_grow w w' p q : grows w w' -> outputs w p q -> outputs w' p q.
Proof. intros Hg (? & ? & ? & ? & ?). split_and!; eauto using cell_ok_grows. Qed.

(** The answer of a call that computed [r]: the result through the
    out-parameters, or its error code and both of them zero. *)
Definition answers {E} (r : result (fault E) (list byte)) (code : Z) (w' : World) (rc o1 o2 : Z) : Prop :=
  match r with
  | Ok out =>
      (rc = CITADEL_OK /\ exists buf, holds w' o1 o2 buf out) \/
      (rc = CITADEL_ERR_ALLOC /\ cell (mem w') o1 = Some 0 /\ cell (mem w') o2 = Some 0)
  | Err e =>
      rc = match e with Fail _ => code | Panic => CITADEL_ERR_PANIC end /\
      cell (mem w') o1 = Some 0 /\ cell (mem w') o2 = Some 0
  end.

Lemma write_output_answers {E} w w0 out o1 o2 code :
  zeroed w w0 o1 o2 -> outputs w o1 o2 ->
  exists w' rc, ffi_guard (write_output out o1 o2) w0 = (w', Some rc) /\ sound w' /\ answers (E := E) (Ok out) code w' rc o1 o2.
Proof.
  intros (Hs & Hg & H1 & H2 & _) Ho. destruct (outputs_grow _ _ _ _ Hg Ho) as (Hp0 & Hq0 & Hp & Hq & Hsep).
  destruct (write_output_run w0 out o1 o2) as (w' & rc & Ew & Hs' & _ & _ & Hrc); [done..|].
  exists w', rc. unfold ffi_guard. rewrite Ew. split_and!; [done..|]. cbn.
  destruct Hrc as [(-> & Hm & _)|(-> & _ & Hb)]; [right; by rewrite Hm|left].
  split; [done|]. destruct (Hb Hsep) as (buf & ? & _). by exists buf.
Qed.

(** [ffi_guard] of a computation that is over, or that goes on in a state. *)
Lemma guard_step {B} (m : M B) (f : B -> M Z) w w' b :
  m w = (w', Val b) -> ffi_guard (m ≫= f) w = ffi_guard (f b) w'.
Proof. intros H. unfold ffi_guard. by rewrite (bind_val _ _ _ _ _ H). Qed.

Lemma guard_or_return {E B} (r : result (fault E) B) code (f : B -> M Z) w :
  ffi_guard (or_return r code ≫= f) w =
    match r with
    | Ok b => ffi_guard (f b) w
    | Err (Fail _) => (w, Some code)
    | Err Panic => (w, Some CITADEL_ERR_PANIC)
    end.
Proof. by destruct r as [|[]]. Qed.

Lemma zeroed_cells w w0 o1 o2 : zeroed w w0 o1 o2 -> sound w0 /\ cell (mem w0) o1 = Some 0 /\ cell (mem w0) o2 = Some 0.
Proof. by intros (? & _ & ? & ? & _). Qed.

Lemma seal_impl_answers w r1 r2 p1 n1 p2 n2 p3 n3 p4 n4 o1 o2 pkb pt aad ctx :
  sound w -> outputs w o1 o2 -> input w o1 o2 p1 n1 pkb -> input w o1 o2 p2 n2 pt ->
  optional_input w o1 o2 p3 n3 aad -> optional_input w o1 o2 p4 n4 ctx ->
  exists w' rc, ffi_guard (seal_impl r1 r2 p1 n1 p2 n2 p3 n3 p4 n4 o1 o2) w = (w', Some rc) /\ sound w' /\
    match s_public_from pkb with
    | Ok pk => answers (s_seal r1 r2 pk pt aad ctx) CITADEL_ERR_SEAL w' rc o1 o2
    | Err e => answers (Err e) CITADEL_ERR_KEY w' rc o1 o2
    end.
Proof.
  intros Hs Ho Hpk Hpt Haad Hctx. destruct (zero_outputs w o1 o2 Hs Ho) as (w0 & Hz & Hrun).
  destruct (zeroed_cells _ _ _ _ Hz) as (Hs0 & Hc). destruct (outputs_not_null _ _ _ Ho) as [No1 No2]. unfold seal_impl.
  rewrite (input_not_null _ _ _ _ _ _ Hpk), (input_not_null _ _ _ _ _ _ Hpt), No1, No2.
  rewrite (guard_step _ _ w w ()) by done. rewrite Hrun.
  rewrite (guard_step _ _ _ _ _ (input_run _ _ _ _ _ _ _ Hz Hpk)), guard_or_return.
  destruct (s_public_from pkb) as [pk|[e|]] eqn:Epk; [|by exists w0, CITADEL_ERR_KEY|by exists w0, CITADEL_ERR_PANIC].
  rewrite (guard_step _ _ _ _ _ (input_run _ _ _ _ _ _ _ Hz Hpt)).
  rewrite (guard_step _ _ _ _ _ (optional_input_run _ _ _ _ _ _ _ Hz Haad)).
  rewrite (guard_step _ _ _ _ _ (optional_input_run _ _ _ _ _ _ _ Hz Hctx)).
  rewrite guard_or_return.
  destruct (s_seal _ _ _ _ _ _) as [ct|[e|]]; [|by exists w0, CITADEL_ERR_SEAL|by exists w0, CITADEL_ERR_PANIC]. by eapply write_output_answers.
Qed.

Lemma open_impl_answers w p1 n1 p2 n2 p3 n3 p4 n4 o1 o2 skb ct aad ctx :
  sound w -> outputs w o1 o2 -> input w o1 o2 p1 n1 skb -> input w o1 o2 p2 n2 ct ->
  optional_input w o1 o2 p3 n3 aad -> optional_input w o1 o2 p4 n4 ctx ->
  exists w' rc, ffi_guard (open_impl p1 n1 p2 n2 p3 n3 p4 n4 o1 o2) w = (w', Some rc) /\ sound w' /\
    match s_secret_from skb with
    | Ok sk => answers (s_open sk ct aad ctx) CITADEL_ERR_OPEN w' rc o1 o2
    | Err e => answers (Err e) CITADEL_ERR_KEY w' rc o1 o2
    end.
Proof.
  intros Hs Ho Hsk Hct Haad Hctx. destruct (zero_outputs w o1 o2 Hs Ho) as (w0 & Hz & Hrun).
  destruct (zeroed_cells _ _ _ _ Hz) as (Hs0 & Hc). destruct (outputs_not_null _ _ _ Ho) as [No1 No2]. unfold open_impl.
  rewrite (input_not_null _ _ _ _ _ _ Hsk), (input_not_null _ _ _ _ _ _ Hct), No1, No2.
  rewrite (guard_step _ _ w w ()) by done. rewrite Hrun.
  rewrite (guard_step _ _ _ _ _ (input_run _ _ _ _ _ _ _ Hz Hsk)), guard_or_return.
  destruct (s_secret_from skb) as [sk|[e|]]; [|by exists w0, CITADEL_ERR_KEY|by exists w0, CITADEL_ERR_PANIC].
  rewrite (guard_step _ _ _ _ _ (input_run _ _ _ _ _ _ _ Hz Hct)).
  rewrite (guard_step _ _ _ _ _ (optional_input_run _ _ _ _ _ _ _ Hz Haad)).
  rewrite (guard_step _ _ _ _ _ (optional_input_run _ _ _ _ _ _ _ Hz Hctx)).
  rewrite guard_or_return.
  destruct (s_open _ _ _ _) as [pt|[e|]]; [|by exists w0, CITADEL_ERR_OPEN|by exists w0, CITADEL_ERR_PANIC]. by eapply write_output_answers.
Qed.

(** The two pairs of out-parameters of key generation. *)
Definition two_outputs (w : World) (p1 n1 p2 n2 : Z) : Prop :=
  outputs w p1 n1 /\ outputs w p2 n2 /\
  separate p1 8 p2 8 /\ separate p1 8 n2 8 /\ separate n1 8 p2 8 /\ separate n1 8 n2 8.

Lemma cell_frame w w' p : load (mem w') p 8 = load (mem w) p 8 -> cell (mem w') p = cell (mem w) p.
Proof. unfold cell. by intros ->. Qed.

(** A second output leaves the first one as it was. *)
Lemma holds_frame w0 w1 w2 p1 n1 p2 n2 buf out :
  holds w1 p1 n1 buf out -> (forall i, buf <= i < buf + len out -> mem w0 !! i = None) ->
  mapped (mem w0) p2 8 -> mapped (mem w0) n2 8 -> mapped (mem w1) p1 8 -> mapped (mem w1) n1 8 ->
  separate p1 8 p2 8 -> separate p1 8 n2 8 -> separate n1 8 p2 8 -> separate n1 8 n2 8 ->
  (forall i, is_Some (mem w1 !! i) -> ~ (p2 <= i < p2 + 8) -> ~ (n2 <= i < n2 + 8) -> mem w2 !! i = mem w1 !! i) ->
  registry w1 ⊆ registry w2 -> holds w2 p1 n1 buf out.
Proof.
  intros (H1 & H2 & H3 & H4 & H5) Hf Mp2 Mn2 Mp1 Mn1 S1 S2 S3 S4 Hk Hr.
  assert (Hl : forall a, mapped (mem w1) a 8 -> separate a 8 p2 8 -> separate a 8 n2 8 -> cell (mem w2) a = cell (mem w1) a).
  { intros a Ma Sp Sn. apply cell_frame, load_ext. intros i Hi. unfold separate in *. apply Hk; [by apply Ma|lia..]. }
  split_and!; [by rewrite Hl|by rewrite Hl| |done|].
  - rewrite <- H3. apply load_ext. intros i Hi.
    apply Hk; [|intros Hd; by destruct (Mp2 i Hd) as [x Hx]; rewrite Hf in Hx
              |intros Hd; by destruct (Mn2 i Hd) as [x Hx]; rewrite Hf in Hx].
    destruct (proj2 (readable_load (mem w1) buf (len out)) (ex_intro _ _ H3) i Hi) as [b ->]. done.
  - intros Hd. eapply lookup_weaken; [by apply H5|done].
Qed.

Lemma keygen_impl_answers w rnd p1 n1 p2 n2 :
  sound w -> two_outputs w p1 n1 p2 n2 ->
  exists w' rc1 rc, ffi_guard (keygen_impl (Some rnd) p1 n1 p2 n2) w = (w', Some rc) /\ sound w' /\
    answers (E := unit) (Ok (s_generate rnd).1) 0 w' rc1 p1 n1 /\
    (rc1 = CITADEL_OK -> answers (E := unit) (Ok (s_generate rnd).2) 0 w' rc p2 n2) /\
    (rc1 <> CITADEL_OK -> rc = rc1 /\ cell (mem w') p2 = Some 0 /\ cell (mem w') n2 = Some 0).
Proof.
  intros Hs (Ho1 & Ho2 & S1 & S2 & S3 & S4).
  destruct (zero_outputs w p1 n1 Hs Ho1) as (w0 & Hz & Hrun).
  destruct Hz as (Hs0 & Hg0 & Z1 & Z2 & _). pose proof (outputs_grow _ _ _ _ Hg0 Ho1) as Ho1'.
  destruct (zero_outputs w0 p2 n2 Hs0 (outputs_grow _ _ _ _ Hg0 Ho2)) as (w1 & Hz1 & Hrun1).
  destruct Hz1 as (Hs1 & Hg1 & Z3 & Z4 & Hl & _).
  pose proof (outputs_grow _ _ _ _ Hg1 Ho1') as Ho1''.
  pose proof (outputs_grow _ _ _ _ (transitivity Hg0 Hg1) Ho2) as Ho2'.
  assert (Zs : cell (mem w1) p1 = Some 0 /\ cell (mem w1) n1 = Some 0).
  { split; [rewrite <- Z1|rewrite <- Z2]; apply cell_frame, Hl; unfold separate in *; lia. }
  destruct (outputs_not_null _ _ _ Ho1) as [No1 No2], (outputs_not_null _ _ _ Ho2) as [No3 No4].
  unfold keygen_impl. rewrite No1, No2, No3, No4.
  rewrite (guard_step _ _ w w ()) by done. rewrite Hrun, Hrun1, (guard_step _ _ w1 w1 (s_generate rnd)) by done.
  destruct Ho1'' as (P1 & P2 & C1 & C2 & Sp). destruct Ho2' as (P3 & P4 & C3 & C4 & Sq).
  destruct (write_output_run w1 (s_generate rnd).1 p1 n1) as (w2 & rc1 & E2 & Hs2 & Hg2 & Hr2 & [(-> & Hm & _)|(-> & Hk & Hb)]); [done..| |].
  { exists w2, CITADEL_ERR_ALLOC, CITADEL_ERR_ALLOC. rewrite (guard_step _ _ _ _ _ E2). cbn. rewrite Hm.
    split_and!; [done|done|by right|done|done]. }
  destruct (Hb Sp) as (buf & Hh & Hf). rewrite (guard_step _ _ _ _ _ E2). cbn -[write_output].
  assert (Zt : cell (mem w2) p2 = Some 0 /\ cell (mem w2) n2 = Some 0).
  { destruct (C3 P3) as [_ M3], (C4 P4) as [_ M4]. unfold separate in *.
    split; [rewrite <- Z3|rewrite <- Z4]; apply cell_frame, load_ext; intros i Hi; apply Hk; first [by apply M3|by apply M4|lia]. }
  destruct (write_output_run w2 (s_generate rnd).2 p2 n2) as (w3 & rc & E3 & Hs3 & Hg3 & Hr3 & Hrc);
    [done|by eapply cell_ok_grows..|done|done|].
  exists w3, CITADEL_OK, rc. unfold ffi_guard. rewrite E3. split_and!; [done|done| | |done].
  - left. split; [done|]. exists buf. destruct Hrc as [(_ & Hm & Hr)|(_ & Hk3 & _)].
    + unfold holds in *. rewrite Hm, Hr. done.
    + apply (holds_frame w1 w2 w3 p1 n1 p2 n2); try done;
        [by apply C3|by apply C4|eapply mapped_grows, C1; done|eapply mapped_grows, C2; done].
  - intros _. destruct Hrc as [(-> & Hm & _)|(-> & _ & Hb3)]; [right; by rewrite Hm|left].
    split; [done|]. destruct (Hb3 Sq) as (buf3 & ? & _). by exists buf3.
Qed.

(** C34: Through the C interface, whatever suite: when [citadel_seal] answers
    [CITADEL_OK] for a public key that key generation produced, its out-parameters point
    to a registered buffer with a ciphertext; and any later [citadel_open] of that
    ciphertext with the secret key, in any sound state and wherever the host keeps the
    bytes, answers the plaintext - unless no memory is left - under the same associated
    data and context. *)
Theorem c_roundtrip rnd r1 r2 w p1 n1 p2 n2 p3 n3 p4 n4 o1 o2 pt aad ctx w' :
  s_drawn rnd -> nonce_draw r2 ->
  sound w -> outputs w o1 o2 -> input w o1 o2 p1 n1 (s_generate rnd).1 -> input w o1 o2 p2 n2 pt ->
  optional_input w o1 o2 p3 n3 aad -> optional_input w o1 o2 p4 n4 ctx ->
  ffi_guard (seal_impl r1 r2 p1 n1 p2 n2 p3 n3 p4 n4 o1 o2) w = (w', Some CITADEL_OK) ->
  exists buf ct, holds w' o1 o2 buf ct /\
    forall v q1 m1 q2 m2 q3 m3 q4 m4 u1 u2,
      sound v -> outputs v u1 u2 -> input v u1 u2 q1 m1 (s_generate rnd).2 -> input v u1 u2 q2 m2 ct ->
      optional_input v u1 u2 q3 m3 aad -> optional_input v u1 u2 q4 m4 ctx ->
      exists v' rc, ffi_guard (open_impl q1 m1 q2 m2 q3 m3 q4 m4 u1 u2) v = (v', Some rc) /\
        (rc = CITADEL_OK /\ (exists out, holds v' u1 u2 out pt) \/ rc = CITADEL_ERR_ALLOC).
Proof.
  intros Hr Hr2 Hs Ho H1 H2 H3 H4 E. destruct (suite_keys rnd Hr) as (_ & _ & pk & sk & Epk & Esk & Hsk).
  destruct (seal_impl_answers w r1 r2 p1 n1 p2 n2 p3 n3 p4 n4 o1 o2 (s_generate rnd).1 pt aad ctx) as (w1 & rc & E1 & _ & Ha); [done..|].
  rewrite E in E1. injection E1 as <- <-. rewrite Epk in Ha. destruct (s_seal _ _ _ _ _ _) as [ct|[]] eqn:Ect; [|by destruct Ha..].
  destruct Ha as [(_ & buf & Hb)|[? _]]; [|done]. exists buf, ct. split; [done|].
  intros v q1 m1 q2 m2 q3 m3 q4 m4 u1 u2 Vs Vo V1 V2 V3 V4.
  destruct (open_impl_answers v q1 m1 q2 m2 q3 m3 q4 m4 u1 u2 (s_generate rnd).2 ct aad ctx) as (v' & rc & Ev & _ & Hv); [done..|].
  rewrite Esk, (Hsk _ _ _ _ _ _ Hr2 Ect) in Hv. exists v', rc. split; [done|]. naive_solver.
Qed.
End results.

(** A second [citadel_free] of a pointer is ignored, whatever length comes with it. *)
Theorem double_free_ignored w p n k w' :
  sound w -> citadel_free p n w = (w', Some ()) -> citadel_free p k w' = (w', Some ()) /\ registry w' !! p = None.
Proof.
  intros Hs E. destruct (citadel_free_run w p n Hs) as (w1 & E1 & Hs1 & H1). rewrite E in E1. injection E1 as <-.
  assert (Hp : registry w' !! p = None).
  { destruct (registry w !! p) eqn:Ep; [destruct H1 as (_ & -> & _); apply lookup_delete_eq|by rewrite H1]. }
  split; [|done]. destruct (citadel_free_run w' p k Hs1) as (w2 & E2 & _ & H2). rewrite Hp in H2. by rewrite E2, H2.
Qed.
End FfiLaws.
