(* ===== verification/Enforcer.v ===== *)
(** * The state enforcer ([citadel-core/src/state_enforcer.rs])

    Layer one of the two-layer authority: key registration and revocation,
    domain membership, and one-shot capability tokens.  The registry of issued
    tokens is behind a mutex that no panic can poison, so each critical section
    is one state change.  [OsRng] and the two clock readings of an
    authorization are arguments; clock readings are nanoseconds since the
    epoch. *)

From S2P Require Import Prelude.

Module Enforcer.

Record CapabilityToken := mkToken { tk_nonce : Z; tk_generation : Z }.

Inductive OperationType : Set := Encrypt | Decrypt | KeyRotation | KeyAccess | Sign | Verify.
Inductive LifecycleState : Set := Active | Pending | Revoked | Destroyed.

Inductive OperationParams : Set :=
| PEncrypt (recipient_key_id : option string)
| PDecrypt
| PKeyRotation (new_key_id : string)
| PKeyAccess
| PSign (payload_hash : list byte)
| PVerify.

Inductive DenialReason : Set :=
| InvalidKey (msg : string)
| InvalidKeyState (msg : string)
| DomainViolation (msg : string)
| ReplayConflict (msg : string)
| LifecycleMismatch (msg : string)
| MissingContext (msg : string)
| StaleKeyMaterial (msg : string)
| Unauthorized (msg : string).

#[global] Instance OperationType_eq_dec : EqDecision OperationType.
Proof. solve_decision. Defined.
#[global] Instance LifecycleState_eq_dec : EqDecision LifecycleState.
Proof. solve_decision. Defined.
#[global] Instance DenialReason_eq_dec : EqDecision DenialReason.
Proof. solve_decision. Defined.

(** [impl Display for DenialReason]. *)
Definition display (d : DenialReason) : string :=
  match d with
  | InvalidKey msg => "Invalid key: " +:+ msg
  | InvalidKeyState msg => "Invalid key state: " +:+ msg
  | DomainViolation msg => "Domain violation: " +:+ msg
  | ReplayConflict msg => "Replay conflict: " +:+ msg
  | LifecycleMismatch msg => "Lifecycle mismatch: " +:+ msg
  | MissingContext msg => "Missing context: " +:+ msg
  | StaleKeyMaterial msg => "Stale key material: " +:+ msg
  | Unauthorized msg => "Unauthorized: " +:+ msg
  end.

(** The derived [Debug] of the two field-less enums. *)
Definition debug_op (o : OperationType) : string :=
  match o with
  | Encrypt => "Encrypt" | Decrypt => "Decrypt" | KeyRotation => "KeyRotation"
  | KeyAccess => "KeyAccess" | Sign => "Sign" | Verify => "Verify"
  end.
Definition debug_state (l : LifecycleState) : string :=
  match l with
  | Active => "Active" | Pending => "Pending" | Revoked => "Revoked" | Destroyed => "Destroyed"
  end.

Record AuthorizedContext := {
  capability : CapabilityToken;
  operation : OperationType;
  key_id : string;
  domain_id : option string;
  lifecycle_state : LifecycleState;
  timestamp_ms : Z;
  operation_params : OperationParams;
}.

Record StateEnforcer := {
  valid_keys : gset string;
  revoked_keys : gset string;
  domain_keys : gmap string (gset string);
  issued_tokens : gmap Z Z;
  generation : Z;
  ttl_ms : Z;
  clock_skew_ms : Z;
}.

Definition CAPABILITY_TOKEN_TTL_NANOS : Z := 60000000000.
Definition as_millis_u64 (nanos : Z) : Z := (nanos `div` 1000000) mod 2 ^ 64.

(** [AuthorizedContext::new]; [now] is its own clock reading. *)
Definition context_new (cap : CapabilityToken) (op : OperationType) (key : string)
    (dom : option string) (st : LifecycleState) (params : OperationParams) (now : Z) :
    AuthorizedContext :=
  {| capability := cap; operation := op; key_id := key; domain_id := dom;
     lifecycle_state := st; timestamp_ms := as_millis_u64 now; operation_params := params |}.

(** [with_config]: the environment overrides, where they parse, replace the
    arguments; the generation is drawn from the global counter, returned
    advanced. *)
Definition with_config (env_ttl env_skew : option Z) (counter ttl skew : Z) :
    StateEnforcer * Z :=
  ({| valid_keys := ∅; revoked_keys := ∅; domain_keys := ∅; issued_tokens := ∅;
      generation := counter; ttl_ms := default ttl env_ttl;
      clock_skew_ms := default skew env_skew |},
   wrapping_add 64 counter 1).

Definition new (env_ttl env_skew : option Z) (counter : Z) : StateEnforcer * Z :=
  with_config env_ttl env_skew counter 60000 5000.

Definition set_tokens (s : StateEnforcer) (t : gmap Z Z) : StateEnforcer :=
  {| valid_keys := valid_keys s; revoked_keys := revoked_keys s; domain_keys := domain_keys s;
     issued_tokens := t; generation := generation s; ttl_ms := ttl_ms s;
     clock_skew_ms := clock_skew_ms s |}.

Definition register_key (s : StateEnforcer) (key : string) (dom : option string) : StateEnforcer :=
  {| valid_keys := {[ key ]} ∪ valid_keys s; revoked_keys := revoked_keys s;
     domain_keys := match dom with
                    | Some d => <[ d := {[ key ]} ∪ default ∅ (domain_keys s !! d) ]> (domain_keys s)
                    | None => domain_keys s
                    end;
     issued_tokens := issued_tokens s; generation := generation s; ttl_ms := ttl_ms s;
     clock_skew_ms := clock_skew_ms s |}.

Definition revoke_key (s : StateEnforcer) (key : string) : StateEnforcer :=
  {| valid_keys := valid_keys s ∖ {[ key ]}; revoked_keys := {[ key ]} ∪ revoked_keys s;
     domain_keys := (fun ks => ks ∖ {[ key ]}) <$> domain_keys s;
     issued_tokens := issued_tokens s; generation := generation s; ttl_ms := ttl_ms s;
     clock_skew_ms := clock_skew_ms s |}.

Definition validate_key (s : StateEnforcer) (key : string) (dom : option string) :
    option DenialReason :=
  if bool_decide (key ∈ revoked_keys s)
  then Some (InvalidKeyState ("Key " +:+ key +:+ " is revoked"))
  else if negb (bool_decide (key ∈ valid_keys s))
  then Some (InvalidKey ("Key " +:+ key +:+ " does not exist"))
  else match dom with
       | None => None
       | Some d =>
           match domain_keys s !! d with
           | Some ks =>
               if negb (bool_decide (key ∈ ks))
               then Some (DomainViolation
                      ("Key " +:+ key +:+ " not authorized for domain " +:+ d))
               else None
           | None => Some (DomainViolation ("Domain " +:+ d +:+ " does not exist"))
           end
       end.

(** [issued.retain(..)]. *)
Definition retain_fresh (now : Z) (issued : gmap Z Z) : gmap Z Z :=
  filter (fun p => saturating_sub now p.2 < CAPABILITY_TOKEN_TTL_NANOS) issued.

(** What an authorization draws: the token's nonce, and the readings of the
    clock in [generate_capability_token] and in [AuthorizedContext::new]. *)
Record Draw := { d_nonce : Z; d_issue : Z; d_stamp : Z }.

Definition generate_capability_token (s : StateEnforcer) (d : Draw) :
    StateEnforcer * CapabilityToken :=
  (set_tokens s (retain_fresh (d_issue d) (<[ d_nonce d := d_issue d ]> (issued_tokens s))),
   mkToken (d_nonce d) (generation s)).

Definition validate_capability (s : StateEnforcer) (now : Z) (t : CapabilityToken) :
    StateEnforcer * bool :=
  if tk_nonce t =? 0 then (s, false)
  else if negb (tk_generation t =? generation s) then (s, false)
  else let issued := retain_fresh now (issued_tokens s) in
       (set_tokens s (delete (tk_nonce t) issued),
        bool_decide (is_Some (issued !! tk_nonce t))).

(** ** Authorization *)

(** The common tail of every [authorize_*]. *)
Definition grant (s : StateEnforcer) (d : Draw) (op : OperationType) (key : string)
    (dom : option string) (params : OperationParams) :
    StateEnforcer * result DenialReason AuthorizedContext :=
  let '(s', cap) := generate_capability_token s d in
  (s', Ok (context_new cap op key dom Active params (d_stamp d))).

Definition authorize_encrypt (s : StateEnforcer) (d : Draw) (sender : string)
    (dom recipient : option string) : StateEnforcer * result DenialReason AuthorizedContext :=
  match validate_key s sender dom with
  | Some denial => (s, Err denial)
  | None =>
      match recipient with
      | Some r =>
          if negb (bool_decide (r ∈ valid_keys s))
          then (s, Err (InvalidKey ("Recipient key " +:+ r +:+ " does not exist")))
          else if bool_decide (r ∈ revoked_keys s)
          then (s, Err (InvalidKeyState ("Recipient key " +:+ r +:+ " is revoked")))
          else grant s d Encrypt sender dom (PEncrypt recipient)
      | None => grant s d Encrypt sender dom (PEncrypt recipient)
      end
  end.

Definition authorize_decrypt (s : StateEnforcer) (d : Draw) (key : string) (dom : option string) :
    StateEnforcer * result DenialReason AuthorizedContext :=
  match validate_key s key dom with
  | Some denial => (s, Err denial)
  | None => grant s d Decrypt key dom PDecrypt
  end.

Definition authorize_key_rotation (s : StateEnforcer) (d : Draw) (old_key new_key : string)
    (dom : option string) : StateEnforcer * result DenialReason AuthorizedContext :=
  match validate_key s old_key dom with
  | Some denial => (s, Err denial)
  | None =>
      if bool_decide (new_key ∈ valid_keys s)
      then (s, Err (InvalidKey ("New key ID " +:+ new_key +:+ " already exists")))
      else grant s d KeyRotation old_key dom (PKeyRotation new_key)
  end.

(** The endpoint and the method are not used. *)
Definition authorize_api_request (s : StateEnforcer) (d : Draw) (key : string)
    (dom : option string) (endpoint method : string) :
    StateEnforcer * result DenialReason AuthorizedContext :=
  match validate_key s key dom with
  | Some denial => (s, Err denial)
  | None => grant s d KeyAccess key dom PKeyAccess
  end.

Definition authorize_sign `{Digest} (s : StateEnforcer) (d : Draw) (key : string)
    (dom : option string) (message : list byte) :
    StateEnforcer * result DenialReason AuthorizedContext :=
  match validate_key s key dom with
  | Some denial => (s, Err denial)
  | None => grant s d Sign key dom (PSign (digest message))
  end.

Definition authorize_verify (s : StateEnforcer) (d : Draw) (key : string) (dom : option string) :
    StateEnforcer * result DenialReason AuthorizedContext :=
  match validate_key s key dom with
  | Some denial => (s, Err denial)
  | None => grant s d Verify key dom PVerify
  end.

(** ** Checks at the execution boundary *)

(** [AuthorizedContext::validate]; [now1] is read by [validate_capability] and
    [now2] by [validate] itself.  [ttl + skew] wraps, as in a release build. *)
Definition validate (c : AuthorizedContext) (s : StateEnforcer) (now1 now2 : Z) :
    StateEnforcer * result string unit :=
  let '(s', ok) := validate_capability s now1 (capability c) in
  if negb ok then (s', Err "StateEnforcer denied: capability token is invalid or forged"%string)
  else
    let age_ms := saturating_sub (as_millis_u64 now2) (timestamp_ms c) in
    let effective_ttl := wrapping_add 64 (ttl_ms s) (clock_skew_ms s) in
    (s', if effective_ttl <? age_ms
         then Err ("StateEnforcer denied: authorization context expired (" +:+ pretty age_ms
                   +:+ " ms old, max " +:+ pretty effective_ttl +:+ " ms [TTL "
                   +:+ pretty (ttl_ms s) +:+ " + skew " +:+ pretty (clock_skew_ms s) +:+ "])")
         else Ok ()).

(** The three [require_*_for] differ in the operation and in two words. *)
Definition require_for (op : OperationType) (requested subject : string) (c : AuthorizedContext)
    (key : string) : result string unit :=
  _ ← bail_if (negb (bool_decide (operation c = op)))
        ("StateEnforcer denied: context operation is " +:+ debug_op (operation c)
           +:+ ", not " +:+ debug_op op);
  _ ← bail_if (negb (bool_decide (key_id c = key)))
        ("StateEnforcer denied: context key_id " +:+ key_id c
           +:+ " does not match requested " +:+ requested +:+ " " +:+ key);
  _ ← bail_if (negb (bool_decide (lifecycle_state c = Active)))
        ("StateEnforcer denied: " +:+ subject +:+ " " +:+ key +:+ " lifecycle is "
           +:+ debug_state (lifecycle_state c) +:+ ", not Active");
  Ok ().

Definition require_encrypt_for : AuthorizedContext -> string -> result string unit :=
  require_for Encrypt "key" "key".
Definition require_decrypt_for : AuthorizedContext -> string -> result string unit :=
  require_for Decrypt "key" "key".
Definition require_sign_for : AuthorizedContext -> string -> result string unit :=
  require_for Sign "signing key" "signing key".

Definition require_sign_for_payload `{Digest} `{Hex} (c : AuthorizedContext) (key : string)
    (message : list byte) : result string unit :=
  _ ← require_sign_for c key;
  match operation_params c with
  | PSign payload_hash =>
      if bool_decide (payload_hash = digest message) then Ok ()
      else Err ("StateEnforcer denied: message hash mismatch (expected "
                +:+ hex_encode payload_hash +:+ ", got " +:+ hex_encode (digest message) +:+ ")")
  | _ => Err "StateEnforcer denied: wrong operation params"%string
  end.

Definition require_operation (c : AuthorizedContext) (expected : OperationType) :
    result string unit :=
  bail_if (negb (bool_decide (operation c = expected)))
    ("Operation mismatch: context is for " +:+ debug_op (operation c) +:+ " but "
     +:+ debug_op expected +:+ " was attempted").

(** ** Operations as steps *)

(** One call on a shared enforcer, with what it drew. *)
Inductive call : Type :=
| CRegister (key : string) (dom : option string)
| CRevoke (key : string)
| CEncrypt (d : Draw) (sender : string) (dom recipient : option string)
| CDecrypt (d : Draw) (key : string) (dom : option string)
| CRotate (d : Draw) (old_key new_key : string) (dom : option string)
| CApi (d : Draw) (key : string) (dom : option string) (endpoint method : string)
| CSign (d : Draw) (key : string) (dom : option string) (message : list byte)
| CVerify (d : Draw) (key : string) (dom : option string)
| CValidate (c : AuthorizedContext) (now1 now2 : Z).

Inductive answer : Type :=
| ADone
| AGrant (r : result DenialReason AuthorizedContext)
| AValid (r : result string unit).

Section steps.
Context `{Digest}.

Definition exec (s : StateEnforcer) (c : call) : StateEnforcer * answer :=
  let ag r := (r.1, AGrant r.2) in
  match c with
  | CRegister k dom => (register_key s k dom, ADone)
  | CRevoke k => (revoke_key s k, ADone)
  | CEncrypt d k dom r => ag (authorize_encrypt s d k dom r)
  | CDecrypt d k dom => ag (authorize_decrypt s d k dom)
  | CRotate d k k' dom => ag (authorize_key_rotation s d k k' dom)
  | CApi d k dom e m => ag (authorize_api_request s d k dom e m)
  | CSign d k dom m => ag (authorize_sign s d k dom m)
  | CVerify d k dom => ag (authorize_verify s d k dom)
  | CValidate ctx n1 n2 => let r := validate ctx s n1 n2 in (r.1, AValid r.2)
  end.

Fixpoint run (s : StateEnforcer) (cs : list call) : StateEnforcer * list answer :=
  match cs with
  | [] => (s, [])
  | c :: cs => let '(s1, a) := exec s c in let '(s2, l) := run s1 cs in (s2, a :: l)
  end.

(** The nonce a call draws, and the key it asks for. *)
Definition drawn (c : call) : option Draw :=
  match c with
  | CEncrypt d _ _ _ | CDecrypt d _ _ | CRotate d _ _ _ | CApi d _ _ _ _
  | CSign d _ _ _ | CVerify d _ _ => Some d
  | _ => None
  end.
Definition asks_key (c : call) : option string :=
  match c with
  | CEncrypt _ k _ _ | CDecrypt _ k _ | CRotate _ k _ _ | CApi _ k _ _ _
  | CSign _ k _ _ | CVerify _ k _ => Some k
  | _ => None
  end.
Definition asks_domain (c : call) : option string :=
  match c with
  | CEncrypt _ _ m _ | CDecrypt _ _ m | CRotate _ _ _ m | CApi _ _ m _ _
  | CSign _ _ m _ | CVerify _ _ m => m
  | _ => None
  end.
(** The extra condition of encryption (recipient) and rotation (new key). *)
Definition side_condition (s : StateEnforcer) (c : call) : Prop :=
  match c with
  | CEncrypt _ _ _ (Some r) => r ∈ valid_keys s /\ r ∉ revoked_keys s
  | CRotate _ _ n _ => n ∉ valid_keys s
  | _ => True
  end.

(** *** Key and domain authority *)

Definition key_allowed (s : StateEnforcer) (k : string) (dom : option string) : Prop :=
  k ∈ valid_keys s /\ k ∉ revoked_keys s /\
  match dom with
  | None => True
  | Some m => exists ks, domain_keys s !! m = Some ks /\ k ∈ ks
  end.

Lemma validate_key_None s k dom : validate_key s k dom = None <-> key_allowed s k dom.
Proof.
  unfold validate_key, key_allowed. repeat case_bool_decide; cbn; try naive_solver.
  destruct dom as [m|]; [|naive_solver]. destruct (domain_keys s !! m) as [ks|]; [|naive_solver].
  case_bool_decide; naive_solver.
Qed.

(** The shape all six authorizations share. *)
Lemma authorize_shape s c k :
  asks_key c = Some k ->
  exists d op ps, drawn c = Some d /\
    ((exists e, exec s c = (s, AGrant (Err e)) /\
        ~ (key_allowed s k (asks_domain c) /\ side_condition s c)) \/
     (key_allowed s k (asks_domain c) /\ side_condition s c /\
      exec s c = let r := grant s d op k (asks_domain c) ps in (r.1, AGrant r.2))).
Proof.
  assert (G : forall dom (X : StateEnforcer * result DenialReason AuthorizedContext) r (Q : Prop),
    (key_allowed s k dom -> (exists e, X = (s, Err e) /\ ~ Q) \/ Q /\ X = r) ->
    let Y := match validate_key s k dom with Some e => (s, Err e) | None => X end in
    (exists e, (Y.1, AGrant Y.2) = (s, AGrant (Err e)) /\ ~ (key_allowed s k dom /\ Q)) \/
    (key_allowed s k dom /\ Q /\ (Y.1, AGrant Y.2) = (r.1, AGrant r.2))).
  { intros dom X r Q HX Y. subst Y. destruct (validate_key s k dom) as [e|] eqn:E.
    - left. exists e. split; [done|]. rewrite <- validate_key_None. naive_solver.
    - apply validate_key_None in E as Ha.
      destruct (HX Ha) as [(e & -> & ?)|[? ->]]; [left|right]; naive_solver. }
  destruct c; intros [= ->]; cbn [exec asks_domain side_condition drawn];
    do 3 eexists; (split; [done|]); apply G; intros Ha.
  - destruct recipient as [r|]; [|right; done].
    repeat case_bool_decide; cbn [negb]; [left| right | left | left]; naive_solver.
  - right. done.
  - case_bool_decide; [left|right]; naive_solver.
  - right. done.
  - right. done.
  - right. done.
Qed.

Lemma granted_context s c k :
  asks_key c = Some k -> forall ctx, (exec s c).2 = AGrant (Ok ctx) ->
  key_id ctx = k /\ domain_id ctx = asks_domain c /\ lifecycle_state ctx = Active /\
  tk_generation (capability ctx) = generation s /\
  exists d, drawn c = Some d /\ tk_nonce (capability ctx) = d_nonce d.
Proof.
  intros (d & op & ps & Hd & [(e & -> & Hn)|(Ha & Hs & ->)])%(authorize_shape s c) ctx; cbn; [done|].
  intros [= <-]. cbn. naive_solver.
Qed.

(** C22: Every authorization answers [Ok] exactly when the key is registered, not
    revoked, a member of the requested domain, and the call's own side condition holds;
    the granted context is for that key and domain. *)
Theorem authorize_iff s c k :
  asks_key c = Some k ->
  ((exists ctx, (exec s c).2 = AGrant (Ok ctx)) <->
     key_allowed s k (asks_domain c) /\ side_condition s c) /\
  (forall ctx, (exec s c).2 = AGrant (Ok ctx) ->
     key_id ctx = k /\ domain_id ctx = asks_domain c /\ lifecycle_state ctx = Active /\
     tk_generation (capability ctx) = generation s /\
     exists d, drawn c = Some d /\ tk_nonce (capability ctx) = d_nonce d).
Proof.
  intros Hk. split; [|by apply granted_context].
  destruct (authorize_shape s c k Hk) as (d & op & ps & Hd & [(e & -> & Hn)|(Ha & Hs & ->)]); cbn;
    naive_solver.
Qed.

(** A key in a domain is a valid key. *)
Definition wf (s : StateEnforcer) : Prop :=
  forall m ks, domain_keys s !! m = Some ks -> ks ⊆ valid_keys s.

Lemma exec_keys s c :
  match c with
  | CRegister _ _ | CRevoke _ => True
  | _ => valid_keys (exec s c).1 = valid_keys s /\ revoked_keys (exec s c).1 = revoked_keys s /\
         domain_keys (exec s c).1 = domain_keys s
  end /\ generation (exec s c).1 = generation s.
Proof.
  assert (G : forall k, asks_key c = Some k ->
    valid_keys (exec s c).1 = valid_keys s /\ revoked_keys (exec s c).1 = revoked_keys s /\
    domain_keys (exec s c).1 = domain_keys s /\ generation (exec s c).1 = generation s).
  { intros k (d & op & ps & _ & [(e & -> & _)|(_ & _ & ->)])%(authorize_shape s c); done. }
  destruct c; try (destruct (G _ eq_refl) as (? & ? & ? & ?); done); try done.
  cbn. unfold validate, validate_capability. destruct (_ =? 0); [done|].
  destruct (negb (_ =? _)); [done|]. by case_bool_decide.
Qed.

Theorem wf_preserved s c : wf s -> wf (exec s c).1.
Proof.
  intros Hw. pose proof (exec_keys s c) as [Hk _]. unfold wf in *.
  destruct c; try (destruct Hk as (-> & _ & ->); exact Hw); cbn.
  - intros m ks. destruct dom as [d|].
    + rewrite lookup_insert_Some. intros [[<- <-]|[_ Hl]]; [|specialize (Hw _ _ Hl); set_solver].
      destruct (domain_keys s !! d) as [ks'|] eqn:E; cbn; [specialize (Hw _ _ E)|]; set_solver.
    + intros Hl. specialize (Hw _ _ Hl). set_solver.
  - intros m ks. rewrite lookup_fmap. intros (ks' & Hl & ->)%fmap_Some.
    specialize (Hw _ _ Hl). set_solver.
Qed.

Lemma revoked_mono s c k : k ∈ revoked_keys s -> k ∈ revoked_keys (exec s c).1.
Proof.
  intros Hr. pose proof (exec_keys s c) as [Hk _].
  destruct c; try (destruct Hk as (_ & -> & _); exact Hr); cbn; set_solver.
Qed.

Lemma run_revoked s cs k : k ∈ revoked_keys s -> k ∈ revoked_keys (run s cs).1.
Proof.
  revert s. induction cs as [|c cs IH]; intros s Hr; [done|]. cbn.
  destruct (exec s c) as [s1 a] eqn:E. destruct (run s1 cs) as [s2 l] eqn:E2. cbn.
  change s2 with (s2, l).1. rewrite <- E2. apply IH. change s1 with (s1, a).1. rewrite <- E.
  by apply revoked_mono.
Qed.

(** Once revoked, a key is denied for good: no later call, registering it again
    included, makes any authorization for it succeed. *)
Theorem revoked_denied_forever s k cs c :
  asks_key c = Some k ->
  (exec (run (revoke_key s k) cs).1 c).2 =
    AGrant (Err (InvalidKeyState ("Key " +:+ k +:+ " is revoked"))).
Proof.
  intros Hk. assert (Hr : k ∈ revoked_keys (run (revoke_key s k) cs).1)
    by (apply run_revoked; cbn; set_solver).
  destruct c; try discriminate; injection Hk as ->; cbn [exec snd];
    unfold authorize_encrypt, authorize_decrypt, authorize_key_rotation, authorize_api_request,
      authorize_sign, authorize_verify, validate_key; by rewrite bool_decide_true.
Qed.

(** *** Capability tokens *)

Lemma retain_fresh_Some now t n i :
  retain_fresh now t !! n = Some i <->
  t !! n = Some i /\ saturating_sub now i < CAPABILITY_TOKEN_TTL_NANOS.
Proof. unfold retain_fresh. by rewrite map_lookup_filter_Some. Qed.

(** A validation succeeds exactly for a token of this instance that is still
    in the registry, was issued less than a minute ago, and whose context is
    not older than the configured TTL and skew. *)
Lemma validate_Ok c s n1 n2 :
  (validate c s n1 n2).2 = Ok () <->
  tk_nonce (capability c) <> 0 /\ tk_generation (capability c) = generation s /\
  (exists i, issued_tokens s !! tk_nonce (capability c) = Some i /\
             saturating_sub n1 i < CAPABILITY_TOKEN_TTL_NANOS) /\
  saturating_sub (as_millis_u64 n2) (timestamp_ms c)
    <= wrapping_add 64 (ttl_ms s) (clock_skew_ms s).
Proof.
  unfold validate, validate_capability. destruct (Z.eqb_spec (tk_nonce (capability c)) 0) as [|].
  { cbn. naive_solver. }
  destruct (Z.eqb_spec (tk_generation (capability c)) (generation s)); cbn [negb].
  2: { cbn. naive_solver. }
  case_bool_decide as Hi; cbn [negb snd].
  - destruct Hi as [i [Hi Ht]%retain_fresh_Some].
    destruct (Z.ltb_spec (wrapping_add 64 (ttl_ms s) (clock_skew_ms s))
      (saturating_sub (as_millis_u64 n2) (timestamp_ms c))).
    + split; [done|]. intros (_ & _ & _ & ?). lia.
    + split; [|done]. intros _. split_and!; try done. by exists i.
  - split; [done|]. intros (_ & _ & (i & Hl & Ht) & _). destruct Hi. exists i.
    by apply retain_fresh_Some.
Qed.

Lemma validate_Err_absent c s n1 n2 :
  issued_tokens s !! tk_nonce (capability c) = None ->
  (validate c s n1 n2).2 =
    Err "StateEnforcer denied: capability token is invalid or forged"%string.
Proof.
  intros Hn. unfold validate, validate_capability. destruct (_ =? 0); [done|].
  destruct (negb (_ =? _)); [done|]. rewrite bool_decide_false; [done|].
  intros [i [Hi _]%retain_fresh_Some]. congruence.
Qed.

(** A step adds a token only by drawing its nonce. *)
Lemma issued_origin s c n i :
  issued_tokens (exec s c).1 !! n = Some i ->
  (exists d, drawn c = Some d /\ d_nonce d = n /\ d_issue d = i /\
     exists ctx, (exec s c).2 = AGrant (Ok ctx) /\ tk_nonce (capability ctx) = n) \/
  issued_tokens s !! n = Some i /\
    (forall ctx n1 n2, c = CValidate ctx n1 n2 -> tk_nonce (capability ctx) = n ->
       (exec s c).2 <> AValid (Ok ())).
Proof.
  destruct (asks_key c) as [k|] eqn:Hk.
  - apply (authorize_shape s) in Hk as Hs.
    destruct Hs as (d & op & ps & Hd & [(e & -> & _)|(_ & _ & ->)]).
    { right. split; [done|]. by intros ???->. }
    cbn. rewrite retain_fresh_Some, lookup_insert_Some.
    intros [[[<- <-]|[_ Hi]] _]; [left|right; split; [done|by intros ???->]].
    exists d. split_and!; try done. by eexists.
  - destruct c; try discriminate; cbn; [naive_solver..|].
    unfold validate, validate_capability.
    destruct (_ =? 0); [cbn; naive_solver|]. destruct (negb (_ =? _)); [cbn; naive_solver|].
    case_bool_decide; cbn; rewrite lookup_delete_Some, retain_fresh_Some; naive_solver.
Qed.

(** *** Histories *)

Lemma run_app s cs1 cs2 :
  run s (cs1 ++ cs2) =
    let r1 := run s cs1 in let r2 := run r1.1 cs2 in (r2.1, r1.2 ++ r2.2).
Proof.
  revert s. induction cs1 as [|c cs IH]; intros s; cbn.
  - by destruct (run s cs2).
  - destruct (exec s c) as [s1 a]. rewrite IH. cbn. by destruct (run s1 cs).
Qed.

Lemma run_snoc_state s cs c : (run s (cs ++ [c])).1 = (exec (run s cs).1 c).1.
Proof. rewrite run_app. cbn. by destruct (exec _ c). Qed.

Lemma run_generation s cs : generation (run s cs).1 = generation s.
Proof.
  induction cs as [|c cs IH] using rev_ind; [done|]. rewrite run_snoc_state, <- IH. apply exec_keys.
Qed.

Definition consumes (n : Z) (c : call) (a : answer) : Prop :=
  exists ctx n1 n2, c = CValidate ctx n1 n2 /\ tk_nonce (capability ctx) = n /\ a = AValid (Ok ()).

(** A registered nonce was drawn by a granted authorization of this very run,
    and has not been consumed since. *)
Lemma token_history s cs n i :
  issued_tokens s = ∅ -> issued_tokens (run s cs).1 !! n = Some i ->
  exists pre c post d, cs = pre ++ c :: post /\ drawn c = Some d /\ d_nonce d = n /\ d_issue d = i /\
    (exists ctx, (exec (run s pre).1 c).2 = AGrant (Ok ctx) /\ tk_nonce (capability ctx) = n) /\
    (forall mid c' rest, post = mid ++ c' :: rest ->
       ~ consumes n c' (exec (run s (pre ++ c :: mid)).1 c').2).
Proof.
  intros H0. induction cs as [|c cs IH] using rev_ind.
  { cbn. rewrite H0. by intros ?%lookup_empty_Some. }
  rewrite run_snoc_state. intros [(d & Hd & <- & <- & Hg)|[Hi Hc]]%issued_origin.
  - exists cs, c, [], d. split_and!; try done. by intros [|? ?] c' rest.
  - destruct (IH Hi) as (pre & c0 & post & d & -> & Hd & Hn & Hs & Hg & Hp).
    exists pre, c0, (post ++ [c]), d. rewrite <- (assoc_L (++)). split_and!; try done.
    intros mid c' rest. destruct rest as [|r rest _] using rev_ind.
    + intros [-> [= ->]]%app_inj_tail (ctx & n1 & n2 & -> & Hn' & Ha). by eapply Hc.
    + rewrite app_comm_cons, (assoc_L (++)). intros [Hpost _]%app_inj_tail. by eapply Hp.
Qed.

(** C23: Soundness of validation: on an enforcer started with no tokens, a context that
    validates carries the nonce of a token granted earlier in the run, by this instance,
    less than a minute ago by the registry's clock, and no validation has used it since. *)
Theorem validate_sound s cs ctx n1 n2 :
  issued_tokens s = ∅ -> (validate ctx (run s cs).1 n1 n2).2 = Ok () ->
  tk_nonce (capability ctx) <> 0 /\ tk_generation (capability ctx) = generation s /\
  exists pre c post d, cs = pre ++ c :: post /\ drawn c = Some d /\
    d_nonce d = tk_nonce (capability ctx) /\ n1 - d_issue d < CAPABILITY_TOKEN_TTL_NANOS /\
    (exists ctx', (exec (run s pre).1 c).2 = AGrant (Ok ctx') /\ capability ctx' = capability ctx) /\
    (forall mid c' rest, post = mid ++ c' :: rest ->
       ~ consumes (tk_nonce (capability ctx)) c' (exec (run s (pre ++ c :: mid)).1 c').2).
Proof.
  intros H0 (Hz & Hg & (i & Hi & Ht) & _)%validate_Ok. rewrite run_generation in Hg.
  split_and!; [done..|].
  destruct (token_history _ _ _ _ H0 Hi) as (pre & c & post & d & -> & Hd & Hn & <- & (c' & Hc & Hcn) & Hp).
  exists pre, c, post, d. split_and!; try done.
  - unfold saturating_sub in Ht. lia.
  - exists c'. split; [done|]. destruct (asks_key c) as [k|] eqn:Hk; [|by destruct c].
    pose proof (granted_context (run s pre).1 c k Hk _ Hc) as (_ & _ & _ & Hgen & _).
    rewrite run_generation in Hgen.
    destruct (capability c'), (capability ctx); cbn in *; congruence.
Qed.

Lemma absent_preserved s cs n :
  issued_tokens s !! n = None -> Forall (fun c => forall d, drawn c = Some d -> d_nonce d <> n) cs ->
  issued_tokens (run s cs).1 !! n = None.
Proof.
  intros H0. induction cs as [|c cs IH] using rev_ind; intros HF; [done|].
  apply Forall_app in HF as [HF1 HF2]. apply Forall_inv in HF2.
  rewrite run_snoc_state. apply eq_None_not_Some.
  intros [i [(d & Hd & Hn & _)|[Hi _]]%issued_origin]; [by eapply HF2|].
  rewrite IH in Hi; done.
Qed.

(** C24: Capabilities are one-shot: after any validation of a context, successful or
    expired, no sequence of calls makes it valid again, short of the generator drawing
    the same 128-bit nonce anew. *)
Theorem capability_one_shot s ctx n1 n2 cs m1 m2 :
  tk_nonce (capability ctx) <> 0 -> tk_generation (capability ctx) = generation s ->
  Forall (fun c => forall d, drawn c = Some d -> d_nonce d <> tk_nonce (capability ctx)) cs ->
  (validate ctx (run (validate ctx s n1 n2).1 cs).1 m1 m2).2 =
    Err "StateEnforcer denied: capability token is invalid or forged"%string.
Proof.
  intros Hz Hg HF. apply validate_Err_absent, absent_preserved; [|done].
  unfold validate, validate_capability. rewrite (proj2 (Z.eqb_neq _ _) Hz), Hg, Z.eqb_refl.
  cbn [negb]. case_bool_decide; cbn; apply lookup_delete_eq.
Qed.

(** A grant is usable at once: validated by the instance that issued it, with
    clocks that read no earlier and less than a minute later. *)
Theorem grant_validates s c ctx d n1 n2 :
  drawn c = Some d -> (exec s c).2 = AGrant (Ok ctx) -> d_nonce d <> 0 ->
  0 <= d_issue d <= d_stamp d -> n1 - d_issue d < CAPABILITY_TOKEN_TTL_NANOS ->
  saturating_sub (as_millis_u64 n2) (as_millis_u64 (d_stamp d))
    <= wrapping_add 64 (ttl_ms s) (clock_skew_ms s) ->
  (validate ctx (exec s c).1 n1 n2).2 = Ok ().
Proof.
  intros Hd Hx Hz Ht Hn Ha. destruct (asks_key c) as [k|] eqn:Hk; [|by destruct c].
  destruct (authorize_shape s c k Hk) as (d' & op & ps & Hd' & [(e & E & _)|(_ & _ & E)]);
    rewrite E in *; [done|]. assert (d' = d) as -> by congruence. cbn in Hx. injection Hx as <-.
  apply validate_Ok. cbn. split_and!; try done.
  exists (d_issue d). rewrite retain_fresh_Some, lookup_insert_eq.
  unfold saturating_sub, CAPABILITY_TOKEN_TTL_NANOS in *. split_and!; [done|lia..].
Qed.
End steps.
End Enforcer.
