(* ===== verification/Types.v ===== *)
(** * Keys ([citadel-keystore/src/types.rs], [error.rs], the data of [hierarchy.rs])

    Instants ([DateTime<Utc>]) and spans are their number of nanoseconds; what
    the code uses of [chrono] beyond subtraction and comparison is the class
    [Chrono].  Strings are byte strings. *)

From S2P Require Import Prelude.

(** [chrono], third-party: whole units of a span, the range-checked conversion
    from a standard [Duration] and the text of an instant. *)
Class Chrono := {
  num_days : Z -> Z;
  num_hours : Z -> Z;
  num_minutes : Z -> Z;
  num_seconds : Z -> Z;
  TimeDelta_MAX : Z;
  from_std : Z -> option Z;
  (** [DateTime - TimeDelta], which panics out of range *)
  instant_sub : Z -> Z -> option Z;
  to_rfc3339 : Z -> string;
}.

Definition NANOS_PER_SEC : Z := 1000000000.
(** [std::time::Duration], in nanoseconds. *)
Definition from_secs (s : Z) : Z := s * NANOS_PER_SEC.
Definition as_secs (d : Z) : Z := d `div` NANOS_PER_SEC.

Module Types.

(** ** Identifiers and classification *)

Inductive KeyType : Set := Root | Domain | KeyEncrypting | DataEncrypting | HybridIdentity | Signing.

Inductive KeyState : Set :=
| Pending | Active | Rotated | Expired | Revoked | Suspended | Destroyed.

#[global] Instance KeyType_eq_dec : EqDecision KeyType.
Proof. solve_decision. Defined.
#[global] Instance KeyState_eq_dec : EqDecision KeyState.
Proof. solve_decision. Defined.

Definition display_type (t : KeyType) : string :=
  match t with
  | Root => "ROOT" | Domain => "DOMAIN" | KeyEncrypting => "KEK" | DataEncrypting => "DEK"
  | HybridIdentity => "HYBRID-ID" | Signing => "SIGNING"
  end.

Definition display_state (s : KeyState) : string :=
  match s with
  | Pending => "PENDING" | Active => "ACTIVE" | Rotated => "ROTATED" | Expired => "EXPIRED"
  | Revoked => "REVOKED" | Suspended => "SUSPENDED" | Destroyed => "DESTROYED"
  end.

(** ** The lifecycle *)

Definition can_encrypt (s : KeyState) : bool := bool_decide (s = Active).
Definition can_decrypt (s : KeyState) : bool := bool_decide (s = Active \/ s = Rotated).

Definition valid_transitions (s : KeyState) : list KeyState :=
  match s with
  | Pending => [Active; Destroyed]
  | Active => [Rotated; Revoked; Expired; Suspended]
  | Rotated => [Expired; Suspended]
  | Suspended => [Active; Destroyed]
  | Expired => [Destroyed]
  | Revoked => [Destroyed]
  | Destroyed => []
  end.

Definition can_transition_to (s target : KeyState) : bool :=
  bool_decide (target ∈ valid_transitions s).

(** ** Secret key material *)

(** [Destroyed] of [SecretKeyMaterial] is [Purged] here. *)
Inductive SecretKeyMaterial : Set :=
| Encrypted (s : string)
| CitadelWrapped (s : string)
| Plaintext (s : string)
| Purged.

#[global] Instance SecretKeyMaterial_eq_dec : EqDecision SecretKeyMaterial.
Proof. solve_decision. Defined.

Definition is_encrypted (m : SecretKeyMaterial) : bool :=
  match m with Encrypted _ => true | _ => false end.
Definition is_citadel_wrapped (m : SecretKeyMaterial) : bool :=
  match m with CitadelWrapped _ => true | _ => false end.
Definition is_wrapped (m : SecretKeyMaterial) : bool := is_encrypted m || is_citadel_wrapped m.
Definition is_plaintext (m : SecretKeyMaterial) : bool :=
  match m with Plaintext _ => true | _ => false end.
Definition is_destroyed (m : SecretKeyMaterial) : bool :=
  match m with Purged => true | _ => false end.

Definition zeroize_and_destroy (m : SecretKeyMaterial) : SecretKeyMaterial := Purged.

(** The serde representation: one JSON string. *)
Definition serialize (m : SecretKeyMaterial) : string :=
  match m with
  | Encrypted v | CitadelWrapped v | Plaintext v => v
  | Purged => "DESTROYED"
  end.

Definition deserialize (raw : string) : SecretKeyMaterial :=
  if bool_decide (raw = "DESTROYED"%string) then Purged
  else if str_starts_with raw "enc:" then Encrypted raw
  else if str_starts_with raw "ckw:" then CitadelWrapped raw
  else Plaintext raw.

(** ** Wrapping modes ([hierarchy.rs]) *)

Inductive WrapAlgorithm : Set := Aes256GcmHkdfSha256 | CitadelHybridV2.

Inductive WrappingMode : Set :=
| ExternalMaster
| WrappedByKey (parent_key_id : string) (parent_version : Z) (algorithm : WrapAlgorithm)
| HsmBacked (provider key_ref : string).

#[global] Instance WrapAlgorithm_eq_dec : EqDecision WrapAlgorithm.
Proof. solve_decision. Defined.
#[global] Instance WrappingMode_eq_dec : EqDecision WrappingMode.
Proof. solve_decision. Defined.

Definition from_legacy (wrapping_key_id : option string) (wrapping_key_version : option Z)
    (citadel_wrapped : bool) : WrappingMode :=
  match wrapping_key_id, wrapping_key_version with
  | Some kid, Some kver =>
      if citadel_wrapped then WrappedByKey kid kver CitadelHybridV2 else ExternalMaster
  | _, _ => ExternalMaster
  end.

(** ** Key versions *)

Record KeyVersion := mkKeyVersion {
  version : Z;
  kv_created_at : Z;
  public_key_hex : string;
  secret_key_material : SecretKeyMaterial;
  wrapping_key_id : option string;
  wrapping_key_version : option Z;
  wrap_nonce_hex : option string;
  wrapping_mode : option WrappingMode;
}.

#[global] Instance KeyVersion_eq_dec : EqDecision KeyVersion.
Proof. solve_decision. Defined.

Definition effective_wrapping_mode (v : KeyVersion) : WrappingMode :=
  match wrapping_mode v with
  | Some wm => wm
  | None => from_legacy (wrapping_key_id v) (wrapping_key_version v)
              (is_citadel_wrapped (secret_key_material v))
  end.

Definition kv_message (v : KeyVersion) (msg : string) : string :=
  "key version " +:+ pretty (version v) +:+ msg.

Definition validate (v : KeyVersion) : result string unit :=
  match secret_key_material v with
  | Encrypted _ =>
      _ ← bail_if (bool_decide (wrap_nonce_hex v = None))
            (kv_message v " is AES-wrapped but wrap_nonce_hex is missing");
      bail_if (bool_decide (is_Some (wrapping_key_id v)))
        (kv_message v " is AES-wrapped but has a wrapping_key_id (should be None)")
  | CitadelWrapped _ =>
      _ ← bail_if (bool_decide (wrapping_key_id v = None))
            (kv_message v " is CitadelWrapped but wrapping_key_id is missing");
      _ ← bail_if (bool_decide (wrapping_key_version v = None))
            (kv_message v " is CitadelWrapped but wrapping_key_version is missing");
      bail_if (bool_decide (is_Some (wrap_nonce_hex v)))
        (kv_message v " is CitadelWrapped but wrap_nonce_hex should be None")
  | Plaintext _ | Purged =>
      bail_if (bool_decide (is_Some (wrap_nonce_hex v)))
        (kv_message v " is not AES-wrapped but wrap_nonce_hex is present")
  end.

(** ** Key metadata *)

Record KeyMetadata := mkKeyMetadata {
  id : string;
  name : string;
  key_type : KeyType;
  state : KeyState;
  policy_id : option string;
  parent_id : option string;
  created_at : Z;
  updated_at : Z;
  activated_at : option Z;
  rotated_at : option Z;
  revoked_at : option Z;
  destroyed_at : option Z;
  versions : list KeyVersion;
  current_version : Z;
  usage_count : Z;
  tags : gmap string string;
}.

#[global] Instance KeyMetadata_eq_dec : EqDecision KeyMetadata.
Proof. solve_decision. Defined.

(** [iter().find(..)]. *)
Definition get_version (m : KeyMetadata) (n : Z) : option KeyVersion :=
  List.find (fun v => version v =? n) (versions m).
Definition current_key_version (m : KeyMetadata) : option KeyVersion :=
  get_version m (current_version m).
Definition age (now : Z) (m : KeyMetadata) : option Z := (fun a => now - a) <$> activated_at m.

(** ** Errors ([error.rs]) *)

Inductive KeystoreError : Set :=
| KeyNotFound (id : string)
| InvalidTransition (id : string) (from to : KeyState)
| PolicyViolation (msg : string)
| StorageError (msg : string)
| EnvelopeError (msg : string)
| DuplicateKey (id : string)
| KeyDestroyed (id : string)
| NotActive (id : string)
| NotDecryptable (id : string)
| PolicyNotFound (id : string)
| ParentKeyNotFound (parent_id : string)
| HierarchyViolation (msg : string).

#[global] Instance KeystoreError_eq_dec : EqDecision KeystoreError.
Proof. solve_decision. Defined.

(** The arrow of the source's message is U+2192, three bytes in UTF-8. *)
Definition arrow : string :=
  String.string_of_list_byte [Byte.x20; Byte.xe2; Byte.x86; Byte.x92; Byte.x20].

Definition display_error (e : KeystoreError) : string :=
  match e with
  | KeyNotFound id => "key not found: " +:+ id
  | InvalidTransition id from to =>
      "invalid transition for " +:+ id +:+ ": " +:+ display_state from +:+ arrow +:+ display_state to
  | PolicyViolation msg => "policy violation: " +:+ msg
  | StorageError msg => "storage error: " +:+ msg
  | EnvelopeError msg => "envelope error: " +:+ msg
  | DuplicateKey id => "duplicate key: " +:+ id
  | KeyDestroyed id => "key destroyed: " +:+ id
  | NotActive id => "key not active: " +:+ id
  | NotDecryptable id => "key cannot decrypt: " +:+ id
  | PolicyNotFound id => "policy not found: " +:+ id
  | ParentKeyNotFound p =>
      "parent key not found: " +:+ p +:+ " (wrapping_key_id references a missing key)"
  | HierarchyViolation msg => "hierarchy violation: " +:+ msg
  end.

Inductive ExpirationSource : Set := GracePeriodExpired | MaxLifetimeExceeded.

Inductive ExpirationDecision : Set :=
| NotNeeded
| Required (reason : string) (source : ExpirationSource)
| Warning (reason : string) (remaining : Z) (source : ExpirationSource).

Inductive DestroyDecision : Set :=
| Safe (reason : string)
| Blocked (reason : string).

(** ** Properties *)

(** The states reachable by valid transitions. *)
Inductive reaches : KeyState -> KeyState -> Prop :=
| reaches_refl s : reaches s s
| reaches_step s t u : can_transition_to s t = true -> reaches t u -> reaches s u.

(** What the transition table promises: destruction is final and always eventually
    possible, no key becomes pending again, and a revoked or expired key can only be
    destroyed (so it never encrypts or decrypts again). *)
Theorem lifecycle_table s t :
  reaches s t ->
  (s = Destroyed -> t = Destroyed) /\
  (t = Pending -> s = Pending) /\
  (s = Revoked \/ s = Expired -> t = s \/ t = Destroyed) /\
  (s = Revoked \/ s = Expired \/ s = Destroyed -> can_encrypt t = false /\ can_decrypt t = false).
Proof.
  induction 1 as [s|s t u Hst _ IH].
  - split_and!; try done; [tauto|]. intros [->|[->| ->]]; done.
  - unfold can_transition_to in Hst. bool_hyps.
    destruct IH as (I1 & I2 & I3 & I4).
    destruct s; cbn in Hst; set_unfold in Hst; destruct_or?; subst;
      split_and!; intros; destruct_or?; try done; naive_solver.
Qed.

Lemma destroyed_reachable s : reaches s Destroyed.
Proof.
  destruct s; try (apply reaches_step with Destroyed; [done|constructor]).
  - apply reaches_step with Expired; [done|]. apply reaches_step with Destroyed; [done|constructor].
  - apply reaches_step with Expired; [done|]. apply reaches_step with Destroyed; [done|constructor].
  - constructor.
Qed.

(** ** What is written and read back *)

(** Material whose text tells its variant, as all material does that the
    keystore makes (its plaintext is hexadecimal). *)
Definition tagged (m : SecretKeyMaterial) : Prop :=
  match m with
  | Encrypted s => str_starts_with s "enc:" = true
  | CitadelWrapped s => str_starts_with s "ckw:" = true
  | Plaintext s => s <> "DESTROYED"%string /\ str_starts_with s "enc:" = false /\ str_starts_with s "ckw:" = false
  | Purged => True
  end.

Lemma tags_apart s : str_starts_with s "ckw:" = true -> str_starts_with s "enc:" = false.
Proof.
  intros [r ->]%starts_with_iff. apply not_true_iff_false. by intros [r' E]%starts_with_iff.
Qed.

(** What is read has a tag, and exactly tagged material survives the on-disk
    format, since the variant is recovered from the text alone. *)
Lemma deserialize_tagged raw : tagged (deserialize raw).
Proof.
  unfold deserialize. case_bool_decide; [done|]. destruct (str_starts_with raw "enc:") eqn:E1; [done|].
  by destruct (str_starts_with raw "ckw:") eqn:E2.
Qed.
Theorem material_roundtrip m : deserialize (serialize m) = m <-> tagged m.
Proof.
  split; [intros <-; apply deserialize_tagged|]. destruct m as [s|s|s|]; cbn [serialize tagged]; [..|done]; intros H; unfold deserialize.
  - by rewrite bool_decide_false, H by (by intros ->).
  - by rewrite bool_decide_false, (tags_apart _ H), H by (by intros ->).
  - destruct H as (H1 & -> & ->). by rewrite bool_decide_false.
Qed.

Lemma hex_tagged s : all_hex s = true -> tagged (Plaintext s).
Proof.
  intros H. assert (N : forall p, all_hex p = false -> str_starts_with s p = false).
  { intros p Hp. apply not_true_iff_false. intros [r ->]%starts_with_iff. rewrite all_hex_app, Hp in H. done. }
  cbn [tagged]. rewrite !N by done. split; [|done]. by intros ->.
Qed.

Definition map_material (f : SecretKeyMaterial -> SecretKeyMaterial) (m : KeyMetadata) : KeyMetadata :=
  mkKeyMetadata (id m) (name m) (key_type m) (state m) (policy_id m) (parent_id m) (created_at m)
    (updated_at m) (activated_at m) (rotated_at m) (revoked_at m) (destroyed_at m)
    ((fun v => mkKeyVersion (version v) (kv_created_at v) (public_key_hex v) (f (secret_key_material v))
                 (wrapping_key_id v) (wrapping_key_version v) (wrap_nonce_hex v) (wrapping_mode v)) <$> versions m)
    (current_version m) (usage_count m) (tags m).

(** The record as the derived implementations see it: the material is a bare
    text, for which [Plaintext] stands. *)
Definition as_text : KeyMetadata -> KeyMetadata := map_material (fun x => Plaintext (serialize x)).
Definition of_text : KeyMetadata -> KeyMetadata := map_material (fun x => deserialize (serialize x)).

(** All material of the record has its tag. *)
Definition all_tagged (m : KeyMetadata) : Prop := Forall (fun v => tagged (secret_key_material v)) (versions m).

Lemma of_as_text m : all_tagged m -> of_text (as_text m) = m.
Proof.
  unfold all_tagged, of_text, as_text, map_material. intros H. destruct m as [? ? ? ? ? ? ? ? ? ? ? ? vs ? ? ?]; cbn in *. f_equal.
  rewrite <- list_fmap_compose. induction H as [|v vs Hv _ IH]; [done|]. rewrite fmap_cons, IH. f_equal. destruct v; cbn in *. by rewrite (proj2 (material_roundtrip _) Hv).
Qed.
Lemma of_text_tagged m : all_tagged (of_text m).
Proof. unfold all_tagged, of_text, map_material. cbn. apply Forall_fmap, Forall_true. intros v. apply deserialize_tagged. Qed.

(** [validate] accepts exactly the consistent combinations of material and
    wrapping metadata. *)
Theorem validate_iff v :
  validate v = Ok () <->
  match secret_key_material v with
  | Encrypted _ => is_Some (wrap_nonce_hex v) /\ wrapping_key_id v = None
  | CitadelWrapped _ =>
      is_Some (wrapping_key_id v) /\ is_Some (wrapping_key_version v) /\ wrap_nonce_hex v = None
  | _ => wrap_nonce_hex v = None
  end.
Proof.
  unfold validate. destruct (secret_key_material v), (wrap_nonce_hex v), (wrapping_key_id v),
    (wrapping_key_version v); cbn; repeat case_bool_decide; cbn;
    split; intros; destruct_and?; try done;
    try (exfalso; match goal with H : ~ is_Some (Some _) |- _ => apply H; done end);
    try (match goal with H : is_Some None |- _ => by destruct H end); naive_solver.
Qed.
End Types.
