(* ===== verification/Hierarchy.v ===== *)
(** * The key hierarchy ([citadel-keystore/src/hierarchy.rs])

    Roles, the wrapping relation between them, and the validation of the
    wrapping graph of a key set, including the depth-first cycle search.  The
    search recurses on the parent links of stored data, so it takes fuel; it is
    shown that one unit more than the number of keys always suffices. *)

From stdpp Require Import relations.
From S2P Require Import Prelude.
From S2P Require Import Types.
Import Types.

Module Hierarchy.

(** ** Roles *)

Inductive KeyRole : Set := RRoot | RDomainKek | RKek | RDek | RHybridIdentityKey | RSigningKey.

#[global] Instance KeyRole_eq_dec : EqDecision KeyRole.
Proof. solve_decision. Defined.

Definition depth (r : KeyRole) : Z :=
  match r with
  | RRoot => 1 | RDomainKek => 2 | RKek => 3 | RDek => 4 | RHybridIdentityKey => 5
  | RSigningKey => 6
  end.

Definition label (r : KeyRole) : string :=
  match r with
  | RRoot => "Root" | RDomainKek => "DomainKek" | RKek => "Kek" | RDek => "Dek"
  | RHybridIdentityKey => "HybridIdentityKey" | RSigningKey => "SigningKey"
  end.

Definition can_wrap (self child : KeyRole) : bool :=
  match self, child with
  | RRoot, RDomainKek | RDomainKek, RKek | RKek, RDek | RKek, RHybridIdentityKey
  | RKek, RSigningKey => true
  | _, _ => false
  end.

Definition allow_external_master (r : KeyRole) : bool :=
  match r with RRoot | RDomainKek => true | _ => false end.

(** [impl From<KeyType> for KeyRole]; [KeyMetadata::role]. *)
Definition role_of (t : KeyType) : KeyRole :=
  match t with
  | Root => RRoot | Domain => RDomainKek | KeyEncrypting => RKek | DataEncrypting => RDek
  | HybridIdentity => RHybridIdentityKey | Signing => RSigningKey
  end.

(** ** Violations *)

Inductive ViolationKind : Set :=
| Cycle | InvalidDirection | OrphanedParent | InactiveParent | InvalidWrappingForRole.

#[global] Instance ViolationKind_eq_dec : EqDecision ViolationKind.
Proof. solve_decision. Defined.

Record GraphViolation := mkViolation { kind : ViolationKind; detail : string }.

(** U+2014 between spaces. *)
Definition dash : string :=
  String.string_of_list_byte [Byte.x20; Byte.xe2; Byte.x80; Byte.x94; Byte.x20].

Definition q (s : string) : string := "'" +:+ s +:+ "'".

(** [keys.iter().map(|k| (id, k)).collect()]: the last key of an id wins. *)
Definition by_id (keys : list KeyMetadata) : gmap string KeyMetadata :=
  foldl (fun m k => <[ id k := k ]> m) ∅ keys.

Definition parent_ref (k : KeyMetadata) : option string :=
  current_key_version k ≫= wrapping_key_id.

(** The body of the first loop. *)
Definition check_key (ids : gmap string KeyMetadata) (key : KeyMetadata) : list GraphViolation :=
  let role := role_of (key_type key) in
  match parent_ref key with
  | Some pid =>
      match ids !! pid with
      | None =>
          [mkViolation OrphanedParent ("key " +:+ q (name key) +:+ " (" +:+ label role
             +:+ ") references parent " +:+ q pid +:+ " which does not exist")]
      | Some parent =>
          let parent_role := role_of (key_type parent) in
          (if negb (can_wrap parent_role role)
           then [mkViolation InvalidDirection ("key " +:+ q (name key) +:+ " (" +:+ label role
                   +:+ ") is wrapped by " +:+ q (name parent) +:+ " (" +:+ label parent_role +:+ ")"
                   +:+ dash +:+ "invalid: " +:+ label parent_role +:+ " cannot wrap " +:+ label role)]
           else []) ++
          (if negb (bool_decide (state parent = Active \/ state parent = Rotated))
           then [mkViolation InactiveParent ("key " +:+ q (name key) +:+ " is wrapped by "
                   +:+ q (name parent) +:+ " which is in state " +:+ display_state (state parent))]
           else [])
      end
  | None =>
      if negb (allow_external_master role)
         && negb (bool_decide (role = RRoot \/ role = RDomainKek))
      then [mkViolation InvalidWrappingForRole ("key " +:+ q (name key) +:+ " (" +:+ label role
              +:+ ") has no parent but its role requires one")]
      else []
  end.

(** ** Cycle detection *)

Record Search := {
  path : list string;
  in_path : gset string;
  visited_global : gset string;
  violations : list GraphViolation;
}.

Fixpoint skip_while (x : string) (l : list string) : list string :=
  match l with
  | [] => []
  | y :: r => if bool_decide (y = x) then l else skip_while x r
  end.

Definition push_violation (s : Search) (v : GraphViolation) : Search :=
  {| path := path s; in_path := in_path s; visited_global := visited_global s;
     violations := violations s ++ [v] |}.
Definition enter (s : Search) (x : string) : Search :=
  {| path := path s ++ [x]; in_path := {[ x ]} ∪ in_path s; visited_global := visited_global s;
     violations := violations s |}.
Definition leave (s : Search) (x : string) : Search :=
  {| path := removelast (path s); in_path := in_path s ∖ {[ x ]};
     visited_global := {[ x ]} ∪ visited_global s; violations := violations s |}.

Fixpoint detect_cycle (fuel : nat) (ids : gmap string KeyMetadata) (current : string)
    (s : Search) : option Search :=
  match fuel with
  | O => None
  | S fuel =>
      if bool_decide (current ∈ in_path s) then
        let cycle := skip_while current (path s) in
        Some (push_violation s (mkViolation Cycle
          ("cycle detected: " +:+ String.concat arrow cycle +:+ arrow +:+ current)))
      else if bool_decide (current ∈ visited_global s) then Some s
      else match ids !! current with
           | None => Some s
           | Some meta =>
               let s1 := enter s current in
               match parent_ref meta with
               | Some pid => s2 ← detect_cycle fuel ids pid s1; Some (leave s2 current)
               | None => Some (leave s1 current)
               end
           end
  end.

(** The second loop: every search starts with an empty path. *)
Fixpoint cycle_loop (fuel : nat) (ids : gmap string KeyMetadata) (keys : list KeyMetadata)
    (visited : gset string) (vs : list GraphViolation) : option (list GraphViolation) :=
  match keys with
  | [] => Some vs
  | key :: rest =>
      if bool_decide (id key ∈ visited) then cycle_loop fuel ids rest visited vs
      else s ← detect_cycle fuel ids (id key)
                 {| path := []; in_path := ∅; visited_global := visited; violations := vs |};
           cycle_loop fuel ids rest (visited_global s) (violations s)
  end.

Definition validate_wrapping_graph (fuel : nat) (keys : list KeyMetadata) :
    option (list GraphViolation) :=
  let ids := by_id keys in
  cycle_loop fuel ids keys ∅ (keys ≫= check_key ids).

(** ** The wrapping graph *)

(** [step ids x y]: the stored key [x] is wrapped by [y]. *)
Definition step (ids : gmap string KeyMetadata) (x y : string) : Prop :=
  exists m, ids !! x = Some m /\ parent_ref m = Some y.

Definition cyclic (ids : gmap string KeyMetadata) : Prop := exists x, tc (step ids) x x.

Lemma step_fun ids x y z : step ids x y -> step ids x z -> y = z.
Proof. intros (m & ? & ?) (m' & ? & ?). congruence. Qed.

(** The chain of parents of [x] ends. *)
Inductive ends (ids : gmap string KeyMetadata) : string -> Prop :=
| ends_here x : (forall y, ~ step ids x y) -> ends ids x
| ends_there x y : step ids x y -> ends ids y -> ends ids x.

Lemma ends_acyclic ids x : ends ids x -> ~ tc (step ids) x x.
Proof.
  induction 1 as [x Hx|x y Hxy _ IH]; intros Hc.
  - inversion Hc; subst; by eapply Hx.
  - apply IH. inversion Hc as [? ? Hs|? z ? Hs Ht]; subst.
    + assert (y = x) as <- by (by eapply step_fun). done.
    + assert (z = y) as -> by (by eapply step_fun). by eapply tc_r.
Qed.

Lemma by_id_lookup keys : 
  (forall x m, by_id keys !! x = Some m -> m ∈ keys /\ id m = x) /\
  (forall k, k ∈ keys -> is_Some (by_id keys !! id k)).
Proof.
  unfold by_id. induction keys as [|k keys IH] using rev_ind; cbn.
  - split; [by intros ??|]. by intros ? ?%elem_of_nil.
  - rewrite foldl_app. cbn. destruct IH as [IH1 IH2]. split.
    + intros x m. rewrite lookup_insert_Some, elem_of_app. set_unfold. intros [[<- <-]|[_ ?%IH1]]; naive_solver.
    + intros k'. rewrite elem_of_app. set_unfold. rewrite lookup_insert_is_Some.
      destruct (decide (id k = id k')); naive_solver.
Qed.

Lemma by_id_size keys : (size (by_id keys) <= length keys)%nat.
Proof.
  unfold by_id. induction keys as [|k keys IH] using rev_ind; cbn; [done|].
  rewrite foldl_app, length_app. cbn. fold (by_id keys) in *. destruct (by_id keys !! id k) eqn:E.
  - rewrite map_size_insert_Some by (by eexists). lia.
  - rewrite map_size_insert_None by done. lia.
Qed.

(** *** The search *)

Section search.
Context (ids : gmap string KeyMetadata).

Definition has_cycle (vs : list GraphViolation) : Prop := exists v, v ∈ vs /\ kind v = Cycle.

(** [chain l x]: [l] is a chain of parent links that continues with [x]. *)
Fixpoint chain (l : list string) (x : string) : Prop :=
  match l with
  | [] => True
  | y :: r => step ids y (hd x r) /\ chain r x
  end.

Lemma chain_snoc l x y : chain l x -> step ids x y -> chain (l ++ [x]) y.
Proof.
  induction l as [|z l IH]; cbn; [done|]. intros [Hz Hl] Hxy. split; [|by apply IH].
  by destruct l.
Qed.

Lemma chain_tc l x z : chain l x -> z ∈ l -> tc (step ids) z x.
Proof.
  revert z. induction l as [|y l IH]; intros z; [by intros _ ?%elem_of_nil|]. cbn. intros [Hs Hl].
  rewrite elem_of_cons. intros [->|Hz]; [|by apply IH].
  destruct l as [|w l]; [by apply tc_once|]. cbn in Hs.
  eapply tc_l; [done|]. apply IH; [done|]. apply list_elem_of_here.
Qed.

Record inv (s : Search) (x : string) : Prop := {
  inv_path : in_path s = list_to_set (path s);
  inv_nodup : NoDup (path s);
  inv_dom : list_to_set (path s) ⊆ dom ids;
  inv_chain : chain (path s) x;
  inv_sound : has_cycle (violations s) -> cyclic ids;
  inv_visited : ~ has_cycle (violations s) -> forall v, v ∈ visited_global s -> ends ids v;
}.

(** What a completed search establishes. *)
Record post (s s' : Search) (x : string) : Prop := {
  post_path : path s' = path s;
  post_in_path : in_path s' = in_path s;
  post_mono : visited_global s ⊆ visited_global s';
  post_vs : forall v, v ∈ violations s -> v ∈ violations s';
  post_others : forall v, v ∈ violations s' -> v ∈ violations s \/ kind v = Cycle;
  post_sound : has_cycle (violations s') -> cyclic ids;
  post_visited : ~ has_cycle (violations s') -> forall v, v ∈ visited_global s' -> ends ids v;
  post_ends : ~ has_cycle (violations s') -> ends ids x;
}.

Lemma inv_room s x : inv s x -> x ∉ path s -> x ∈ dom ids -> (length (path s) < size ids)%nat.
Proof.
  intros [_ Hn Hd _ _ _] Hx Hxd. rewrite <- size_dom.
  assert (size (list_to_set (path s) : gset string) = length (path s)) as <-
    by (by apply size_list_to_set).
  apply subset_size. split; [done|]. intros H. apply H in Hxd. by apply elem_of_list_to_set in Hxd.
Qed.

Lemma detect_cycle_spec fuel x s :
  inv s x -> (size ids - length (path s) < fuel)%nat ->
  exists s', detect_cycle fuel ids x s = Some s' /\ post s s' x.
Proof.
  revert x s. induction fuel as [|fuel IH]; intros x s Hi Hf; [lia|]. cbn.
  pose proof Hi as [Hp Hn Hd Hc Hs Hv]. case_bool_decide as Hin.
  { eexists. split; [done|].
    assert (Hcyc : has_cycle (violations s ++ [mkViolation Cycle ("cycle detected: "
      +:+ String.concat arrow (skip_while x (path s)) +:+ arrow +:+ x)]))
      by (eexists; split; [apply elem_of_app; right; apply list_elem_of_here|done]).
    split; cbn; try done; [set_solver..| |].
    - intros v. rewrite elem_of_app. set_unfold. naive_solver.
    - intros _. exists x. apply (chain_tc (path s)); [done|]. rewrite Hp in Hin. set_solver. }
  case_bool_decide as Hvis.
  { eexists. split; [done|]. split; try done; [naive_solver|]. intros Hno. by apply Hv. }
  destruct (ids !! x) as [m|] eqn:Hm.
  2: { eexists. split; [done|]. split; try done; [naive_solver|].
       intros _. apply ends_here. intros y (m & ? & ?). congruence. }
  assert (Hxp : x ∉ path s) by (rewrite Hp in Hin; set_solver).
  assert (Hxd : x ∈ dom ids) by (by apply elem_of_dom).
  pose proof (inv_room s x Hi Hxp Hxd).
  assert (Hrm : in_path (enter s x) ∖ {[x]} = in_path s) by (cbn; set_solver).
  assert (Hpop : removelast (path (enter s x)) = path s) by (cbn; apply removelast_last).
  destruct (parent_ref m) as [pid|] eqn:Hpid.
  - assert (Hst : step ids x pid) by (by exists m).
    destruct (IH pid (enter s x)) as (s2 & -> & [P1 P2 P3 P4 P5 P6 P7 P8]).
    { split; cbn; try done.
      - rewrite Hp. set_solver.
      - apply NoDup_app. split_and!; [done| |apply NoDup_singleton]. set_solver.
      - set_solver.
      - by apply chain_snoc. }
    { cbn. rewrite length_app. cbn. lia. }
    cbn. eexists. split; [done|].
    split; cbn; rewrite ?P1, ?P2; try done; [set_solver|..].
    + intros Hno v. rewrite elem_of_union, elem_of_singleton. intros [->|?]; [|by apply P7].
      eapply ends_there; [done|]. by apply P8.
    + intros Hno. eapply ends_there; [done|]. by apply P8.
  - assert (He : ends ids x).
    { apply ends_here. intros y (m' & ? & ?). congruence. }
    eexists. split; [done|]. split; cbn -[removelast]; try done; try set_solver; try naive_solver.
Qed.

Lemma cycle_loop_spec fuel keys visited vs :
  (size ids < fuel)%nat -> (has_cycle vs -> cyclic ids) ->
  (~ has_cycle vs -> forall v, v ∈ visited -> ends ids v) ->
  exists vs', cycle_loop fuel ids keys visited vs = Some vs' /\
    (forall v, v ∈ vs -> v ∈ vs') /\ (forall v, v ∈ vs' -> v ∈ vs \/ kind v = Cycle) /\
    (has_cycle vs' -> cyclic ids) /\
    (~ has_cycle vs' -> forall k, k ∈ keys -> ends ids (id k)).
Proof.
  intros Hf. revert visited vs. induction keys as [|k keys IH]; intros visited vs Hs Hv; cbn.
  - eexists. split_and!; try done; [naive_solver|]. by intros _ ? ?%elem_of_nil.
  - case_bool_decide as Hk.
    + destruct (IH visited vs Hs Hv) as (vs' & -> & M & O & S' & E). eexists. split_and!; try done.
      intros Hno k'. rewrite elem_of_cons. intros [->|?]; [|by apply E].
      apply Hv; [|done]. intros (v & ? & ?). apply Hno. exists v. auto.
    + destruct (detect_cycle_spec fuel (id k)
        {| path := []; in_path := ∅; visited_global := visited; violations := vs |})
        as (s & -> & [P1 P2 P3 P4 P5 P6 P7 P8]).
      { split; cbn; try done; (constructor || set_solver). }
      { cbn. lia. }
      cbn. destruct (IH (visited_global s) (violations s) P6 P7) as (vs' & -> & M & O & S' & E).
      eexists. split_and!; try done; [naive_solver| |].
      * intros v [?%P5|?]%O; cbn in *; naive_solver.
      * intros Hno k'. rewrite elem_of_cons. intros [->|?]; [|by apply E].
        apply P8. intros (v & ? & ?). apply Hno. exists v. auto.
Qed.
End search.

Lemma check_key_kind ids k v : v ∈ check_key ids k -> kind v <> Cycle.
Proof.
  unfold check_key. destruct (parent_ref k) as [pid|]; [destruct (ids !! pid)|];
    repeat case_match; set_solver.
Qed.

Lemma validate_total fuel keys :
  (length keys < fuel)%nat ->
  exists vs, validate_wrapping_graph fuel keys = Some vs /\
    (has_cycle vs <-> cyclic (by_id keys)) /\
    (forall k v, k ∈ keys -> v ∈ check_key (by_id keys) k -> v ∈ vs).
Proof.
  intros Hf. unfold validate_wrapping_graph. pose proof (by_id_size keys).
  destruct (cycle_loop_spec (by_id keys) fuel keys ∅
    (keys ≫= check_key (by_id keys))) as (vs & -> & M & O & Sd & E).
  - lia.
  - intros (v & (k & Hv & _)%list_elem_of_bind & Hk). by apply check_key_kind in Hv.
  - set_solver.
  - exists vs. split_and!; [done| |].
    + split; [done|]. intros [x Hx].
      destruct (decide (Exists (fun v => kind v = Cycle) vs)) as [Hc|Hno].
      { by apply Exists_exists in Hc. }
      exfalso. assert (Hst : exists y, step (by_id keys) x y) by (inversion Hx; eauto).
      revert Hx. apply ends_acyclic.
      destruct Hst as (y & m & Hm & _). destruct (by_id_lookup keys) as [Hl _].
      destruct (Hl _ _ Hm) as [Hin <-]. apply E; [|done]. by rewrite Exists_exists in Hno.
    + intros k v Hk Hv. apply M, list_elem_of_bind. by exists k.
Qed.

(** The search terminates, whatever the key set: one unit of fuel more than the
    number of keys is enough (and more changes nothing), and it reports a cycle exactly
    when the wrapping graph has one. It keeps every finding of the first pass, and adds
    nothing but cycles. *)
Theorem validate_reports_cycles fuel keys :
  (length keys < fuel)%nat ->
  exists vs, validate_wrapping_graph fuel keys = Some vs /\
    (has_cycle vs <-> cyclic (by_id keys)) /\
    (forall v, kind v <> Cycle -> (v ∈ vs <-> exists k, k ∈ keys /\ v ∈ check_key (by_id keys) k)).
Proof.
  intros Hf. destruct (validate_total fuel keys Hf) as (vs & E & Hc & Hk). exists vs.
  split_and!; [done|done|]. intros v Hv. split; [|intros (k & ? & ?); by eapply Hk].
  intros Hin. unfold validate_wrapping_graph in E. pose proof (by_id_size keys).
  destruct (cycle_loop_spec (by_id keys) fuel keys ∅ (keys ≫= check_key (by_id keys)))
    as (vs' & E' & _ & O & _).
  - lia.
  - intros (w & (k & Hw & _)%list_elem_of_bind & ?). by apply check_key_kind in Hw.
  - set_solver.
  - rewrite E in E'. injection E' as <-. destruct (O _ Hin) as [(k & ? & ?)%list_elem_of_bind|?]; [|done].
    by exists k.
Qed.

(** ** What a clean graph means *)

(** The declarative rule for one key. *)
Definition well_wrapped (ids : gmap string KeyMetadata) (k : KeyMetadata) : Prop :=
  match parent_ref k with
  | None => allow_external_master (role_of (key_type k)) = true
  | Some pid => exists p, ids !! pid = Some p /\
      can_wrap (role_of (key_type p)) (role_of (key_type k)) = true /\
      (state p = Active \/ state p = Rotated)
  end.

Lemma check_key_nil ids k : check_key ids k = [] <-> well_wrapped ids k.
Proof.
  unfold check_key, well_wrapped. destruct (parent_ref k) as [pid|].
  - destruct (ids !! pid) as [p|]; [|by split; [|intros (? & ? & _)]].
    destruct (can_wrap (role_of (key_type p)) (role_of (key_type k))) eqn:Hw; cbn [negb].
    + case_bool_decide; cbn; (split; [|]); try done; [by exists p|].
      intros (p' & [= <-] & _ & ?). done.
    + split; [done|]. intros (p' & [= <-] & ? & _). congruence.
  - destruct (role_of (key_type k)); done.
Qed.

Lemma can_wrap_depth r c : can_wrap r c = true -> depth r < depth c.
Proof. by destruct r, c. Qed.

(** [chain_to_master ids n x]: after at most [n] parent links from the stored
    key [x], a key that only the external master wraps. *)
Fixpoint chain_to_master (ids : gmap string KeyMetadata) (n : nat) (x : string) : Prop :=
  exists m, ids !! x = Some m /\
    match parent_ref m with
    | None => allow_external_master (role_of (key_type m)) = true
    | Some pid => match n with O => False | S n => chain_to_master ids n pid end
    end.

Section clean.
Context (ids : gmap string KeyMetadata).
Context (Hww : forall x m, ids !! x = Some m -> well_wrapped ids m).

Lemma step_depth x y :
  step ids x y -> exists m p, ids !! x = Some m /\ ids !! y = Some p /\
    can_wrap (role_of (key_type p)) (role_of (key_type m)) = true.
Proof.
  intros (m & Hm & Hp). pose proof (Hww _ _ Hm) as Hw. unfold well_wrapped in Hw.
  rewrite Hp in Hw. destruct Hw as (p & ? & ? & _). eauto.
Qed.

Lemma tc_depth x y :
  tc (step ids) x y -> exists m p, ids !! x = Some m /\ ids !! y = Some p /\
    depth (role_of (key_type p)) < depth (role_of (key_type m)).
Proof.
  induction 1 as [x y (m & p & ? & ? & ?%can_wrap_depth)%step_depth
                 |x y z (m & p & Hx & Hy & ?%can_wrap_depth)%step_depth _ IH]; [naive_solver|].
  destruct IH as (m' & p' & Hm' & ? & ?). simplify_eq. exists m, p'. split_and!; try done. lia.
Qed.

Lemma clean_acyclic : ~ cyclic ids.
Proof. intros [x (m & p & ? & ? & ?)%tc_depth]. simplify_eq. lia. Qed.

Lemma clean_chain x m n :
  ids !! x = Some m -> Z.min 4 (depth (role_of (key_type m))) <= Z.of_nat n + 1 ->
  chain_to_master ids n x.
Proof.
  revert x m. induction n as [|n IH]; intros x m Hm Hd; exists m; (split; [done|]);
    pose proof (Hww _ _ Hm) as Hw; unfold well_wrapped in Hw;
    destruct (parent_ref m) as [pid|] eqn:Hp; try done;
    destruct Hw as (p & Hpl & Hc & _).
  - destruct (role_of (key_type p)), (role_of (key_type m)); done.
  - apply (IH _ p Hpl). destruct (role_of (key_type p)), (role_of (key_type m)); cbn in *; done || lia.
Qed.
End clean.

Lemma cycle_loop_acyclic keys vs :
  validate_wrapping_graph (S (length keys)) keys = Some vs -> ~ cyclic (by_id keys) ->
  forall v, v ∈ vs -> exists k, k ∈ keys /\ v ∈ check_key (by_id keys) k.
Proof.
  unfold validate_wrapping_graph. pose proof (by_id_size keys). intros Hv Hc v Hin.
  destruct (cycle_loop_spec (by_id keys) (S (length keys)) keys ∅
    (keys ≫= check_key (by_id keys))) as (vs' & E & M & O & Sd & _).
  - lia.
  - intros (w & (k & Hw & _)%list_elem_of_bind & Hk). by apply check_key_kind in Hw.
  - set_solver.
  - rewrite E in Hv. injection Hv as ->. destruct (O _ Hin) as [Hi|Hk].
    + apply list_elem_of_bind in Hi as (k & ? & ?). by exists k.
    + destruct Hc. apply Sd. by exists v.
Qed.

Lemma clean_iff keys :
  validate_wrapping_graph (S (length keys)) keys = Some [] <->
  forall k, k ∈ keys -> well_wrapped (by_id keys) k.
Proof.
  destruct (by_id_lookup keys) as [Hl Hl2].
  destruct (validate_total (S (length keys)) keys ltac:(lia)) as (vs & E & _ & Hk). split.
  - rewrite E. intros [= ->] k Hin. apply check_key_nil.
    destruct (check_key (by_id keys) k) as [|v l] eqn:Hc; [done|].
    destruct (not_elem_of_nil v). apply (Hk k); [done|]. rewrite Hc. apply list_elem_of_here.
  - intros Hw. rewrite E. f_equal. destruct vs as [|v vs]; [done|].
    destruct (cycle_loop_acyclic _ _ E) with (v := v) as (k & Hin & Hv).
    + apply clean_acyclic. intros x m [Hm _]%Hl. by apply Hw.
    + apply list_elem_of_here.
    + apply Hw, check_key_nil in Hin. rewrite Hin in Hv. by apply elem_of_nil in Hv.
Qed.

(** C38: A key set validates without findings exactly when every key follows the
    wrapping rule; the graph is then acyclic, and each key is at most three parent links
    away from one protected by the external master. *)
Theorem validate_clean_iff keys :
  (validate_wrapping_graph (S (length keys)) keys = Some [] <->
   forall k, k ∈ keys -> well_wrapped (by_id keys) k) /\
  (validate_wrapping_graph (S (length keys)) keys = Some [] ->
   ~ cyclic (by_id keys) /\ forall k, k ∈ keys -> chain_to_master (by_id keys) 3 (id k)).
Proof.
  split; [apply clean_iff|]. rewrite clean_iff. intros Hw. destruct (by_id_lookup keys) as [Hl Hl2].
  assert (Hww : forall x m, by_id keys !! x = Some m -> well_wrapped (by_id keys) m)
    by (intros x m [Hm _]%Hl; by apply Hw).
  split; [by apply clean_acyclic|]. intros k [m Hm]%Hl2. apply (clean_chain _ Hww _ m); [done|].
  destruct (role_of (key_type m)); cbn; lia.
Qed.

End Hierarchy.
