(* ===== verification/AuditLog.v ===== *)
(** * Audit events, the integrity chain and its verifier
    ([citadel-keystore/src/audit.rs], [citadel-cli/src/commands/audit.rs])

    [serde_json] is the class [AuditJson]: the text of an event, and the two
    chain fields of a parsed line.  Sinks are state machines; the log file of
    the file sink is its list of lines. *)

From S2P Require Import Prelude.
From S2P Require Import Types.
Import Types.

Module Audit.

(** ** Events *)

Inductive AuditAction : Set :=
| KeyGenerated
| KeyActivated
| KeyRotated (new_version : Z)
| KeyExpired (reason : string)
| KeyRevoked (reason : string)
| AKeyDestroyed
| EncryptionPerformed (key_version : Z)
| DecryptionPerformed (key_version : Z)
| DecryptionFailed (key_version : Z)
| PolicyRegistered (policy_id : string)
| PolicyEvaluated (verdict : string)
| ExpirationCheckRun (expired_count warning_count : Z)
| KeyRewrapped (old_parent_id new_parent_id : option string) (new_parent_version : option Z)
| AHierarchyViolation (parent_id parent_state child_id : string)
| PlaintextModeActivated (environment : string)
| PreflightFailed (failing_checks : list string)
| WrappingGraphViolation (violations_count : Z) (first_detail : string)
| ReplayDetected (key_version : Z)
| AuthFailed (reason : string) (key_id_attempted : option string)
| AuthSuccess (key_id key_name : string)
| SigningPerformed (key_version payload_bytes : Z)
| SigningFailed (key_version : Z) (reason : string)
| VerificationPerformed (key_version : Z) (valid : bool).

Record AuditEvent := mkAuditEvent {
  ev_timestamp : Z;
  ev_key_id : option string;
  ev_key_type : option KeyType;
  ev_key_state : option KeyState;
  ev_action : AuditAction;
  ev_actor : string;
  ev_success : bool;
  ev_detail : option string;
  ev_sequence : option Z;
  ev_prev_hash : option string;
}.

#[global] Instance AuditAction_eq_dec : EqDecision AuditAction.
Proof. solve_decision. Defined.
#[global] Instance AuditEvent_eq_dec : EqDecision AuditEvent.
Proof. solve_decision. Defined.

Definition key_event (now : Z) (key : string) (t : KeyType) (s : KeyState) (a : AuditAction) :
    AuditEvent :=
  {| ev_timestamp := now; ev_key_id := Some key; ev_key_type := Some t; ev_key_state := Some s;
     ev_action := a; ev_actor := "system"; ev_success := true; ev_detail := None;
     ev_sequence := None; ev_prev_hash := None |}.

Definition system_event (now : Z) (a : AuditAction) : AuditEvent :=
  {| ev_timestamp := now; ev_key_id := None; ev_key_type := None; ev_key_state := None;
     ev_action := a; ev_actor := "system"; ev_success := true; ev_detail := None;
     ev_sequence := None; ev_prev_hash := None |}.

Definition with_detail (e : AuditEvent) (d : string) : AuditEvent :=
  {| ev_timestamp := ev_timestamp e; ev_key_id := ev_key_id e; ev_key_type := ev_key_type e;
     ev_key_state := ev_key_state e; ev_action := ev_action e; ev_actor := ev_actor e;
     ev_success := ev_success e; ev_detail := Some d; ev_sequence := ev_sequence e;
     ev_prev_hash := ev_prev_hash e |}.
Definition with_actor (e : AuditEvent) (a : string) : AuditEvent :=
  {| ev_timestamp := ev_timestamp e; ev_key_id := ev_key_id e; ev_key_type := ev_key_type e;
     ev_key_state := ev_key_state e; ev_action := ev_action e; ev_actor := a;
     ev_success := ev_success e; ev_detail := ev_detail e; ev_sequence := ev_sequence e;
     ev_prev_hash := ev_prev_hash e |}.
Definition with_failure (e : AuditEvent) : AuditEvent :=
  {| ev_timestamp := ev_timestamp e; ev_key_id := ev_key_id e; ev_key_type := ev_key_type e;
     ev_key_state := ev_key_state e; ev_action := ev_action e; ev_actor := ev_actor e;
     ev_success := false; ev_detail := ev_detail e; ev_sequence := ev_sequence e;
     ev_prev_hash := ev_prev_hash e |}.

(** [event.sequence = ..; event.prev_hash = ..]. *)
Definition stamp (e : AuditEvent) (n : Z) (h : string) : AuditEvent :=
  {| ev_timestamp := ev_timestamp e; ev_key_id := ev_key_id e; ev_key_type := ev_key_type e;
     ev_key_state := ev_key_state e; ev_action := ev_action e; ev_actor := ev_actor e;
     ev_success := ev_success e; ev_detail := ev_detail e; ev_sequence := Some n;
     ev_prev_hash := Some h |}.

(** ** JSON *)

Class AuditJson := {
  (** [serde_json::to_string(&event).ok()] *)
  to_json : AuditEvent -> option string;
  (** [serde_json::from_str(line).ok()], then [.get("sequence")] as an unsigned
      integer and [.get("prev_hash")] as a string *)
  parse_line : string -> option (option Z * option string);
  (** [line.trim().is_empty()] *)
  blank : string -> bool;
}.

Class AuditJsonLaws (J : AuditJson) : Prop := {
  parse_to_json e s : to_json e = Some s -> parse_line s = Some (ev_sequence e, ev_prev_hash e);
  to_json_not_blank e s : to_json e = Some s -> blank s = false;
  parse_not_json : parse_line "citadel-audit-genesis" = None;
}.

Section chain.
Context `{AuditJson} `{Digest} `{Hex}.

(** ** The integrity chain sink *)

Record ChainState := { sequence : Z; prev_hash : string }.

(** [format!("{:x}", Sha256::digest(..))]. *)
Definition hash_hex (s : string) : string := hex_encode (digest (bytes_of_string s)).
Definition GENESIS : string := hash_hex "citadel-audit-genesis".

Definition chain_new : ChainState := {| sequence := 0; prev_hash := GENESIS |}.

(** [record]: the new state, the event forwarded to the inner sink, and what
    is published to the witness, if any.  A zero anchor interval makes the
    remainder panic from the second event on. *)
Definition chain_record (anchor_interval : Z) (has_witness : bool) (st : ChainState)
    (event : AuditEvent) : option (ChainState * AuditEvent * option (Z * list byte)) :=
  let event := stamp event (sequence st) (prev_hash st) in
  let h := match to_json event with Some json => hash_hex json | None => prev_hash st end in
  let forward anchored :=
    Some ({| sequence := wrapping_add 64 (sequence st) 1; prev_hash := h |}, event, anchored) in
  if 0 <? sequence st then
    if anchor_interval =? 0 then None
    else if (sequence st mod anchor_interval =? 0) && has_witness
         then forward (Some (sequence st, default [] (hex_decode h)))
         else forward None
  else forward None.

(** ** The file sink and the log *)

(** One line per event; an event that does not serialise is dropped. *)
Definition file_record (log : list string) (e : AuditEvent) : list string :=
  match to_json e with Some json => log ++ [json] | None => log end.

(** The memory sink drops an event when its lock is contended. *)
Definition memory_record (contended : bool) (events : list AuditEvent) (e : AuditEvent) :
    list AuditEvent := if contended then events else events ++ [e].

(** A process run: a chain over the file sink, fed with a list of events. *)
Fixpoint session (interval : Z) (w : bool) (st : ChainState) (log : list string)
    (events : list AuditEvent) : option (ChainState * list string) :=
  match events with
  | [] => Some (st, log)
  | e :: rest =>
      r ← chain_record interval w st e;
      let '(st', e', _) := r in session interval w st' (file_record log e') rest
  end.

(** ** The verifier ([citadel audit verify-chain]) *)

Inductive verdict : Set :=
| ChainIntact (verified : Z) (last_hash : string)
| ChainBroken (position verified : Z).

Fixpoint verify_lines (i verified : Z) (expected_prev : string) (lines : list string) : verdict :=
  match lines with
  | [] => ChainIntact verified expected_prev
  | line :: rest =>
      match parse_line line with
      | None => ChainBroken i verified
      | Some (seq, prev) =>
          let prev_hash := default ""%string prev in
          if bool_decide (seq = None) || bool_decide (prev_hash = ""%string)
          then verify_lines (i + 1) (verified + 1) expected_prev rest
          else if negb (bool_decide (prev_hash = expected_prev)) then ChainBroken i verified
          else verify_lines (i + 1) (verified + 1) (hash_hex line) rest
      end
  end.

Definition verify_chain (lines : list string) : verdict :=
  verify_lines 0 0 GENESIS (filter (fun l => blank l = false) lines).

(** ** Properties *)

Context {JL : AuditJsonLaws _} {HL : HexLaws _} {DL : DigestLaws _}.

Lemma hash_hex_nonempty s : hash_hex s <> ""%string.
Proof.
  unfold hash_hex. intros E. pose proof (length_hex_encode (digest (bytes_of_string s))) as L.
  by rewrite E, length_digest in L.
Qed.

Definition chained (line : string) (prev : string) : Prop :=
  blank line = false /\ prev <> ""%string /\ exists n, parse_line line = Some (Some n, Some prev).

(** [linked h ls h']: every line of [ls] carries the hash of its predecessor,
    starting from [h] and ending with [h']. *)
Inductive linked : string -> list string -> string -> Prop :=
| linked_nil h : linked h [] h
| linked_cons h line ls h' :
    chained line h -> linked (hash_hex line) ls h' -> linked h (line :: ls) h'.

Lemma linked_app h l1 h1 l2 h2 : linked h l1 h1 -> linked h1 l2 h2 -> linked h (l1 ++ l2) h2.
Proof. induction 1; [done|]. intros. cbn. constructor; auto. Qed.


Lemma verify_linked i v h ls rest h' :
  linked h ls h' -> blank <$> ls = (fun _ => false) <$> ls ->
  verify_lines i v h (ls ++ rest) = verify_lines (i + len ls) (v + len ls) h' rest.
Proof.
  intros Hl. revert i v. induction Hl as [h|h line ls h' (Hb & Hp & n & Hn) _ IH]; intros i v.
  - by rewrite !Z.add_0_r.
  - cbn [fmap list_fmap]. intros [= _ E]. cbn [verify_lines app]. rewrite Hn. cbn [default from_option].
    rewrite bool_decide_false, bool_decide_false, bool_decide_true by done. cbn [orb negb].
    rewrite IH by done. f_equal; rewrite length_cons; lia.
Qed.

Lemma linked_not_blank h ls h' : linked h ls h' -> Forall (fun l => blank l = false) ls.
Proof. induction 1 as [|???? (? & _)]; constructor; done. Qed.

Lemma filter_linked h ls h' :
  linked h ls h' -> filter (fun l => blank l = false) ls = ls /\
  blank <$> ls = (fun _ => false) <$> ls.
Proof.
  intros Hf%linked_not_blank. induction Hf as [|l ls Hb _ [IH1 IH2]]; [done|].
  rewrite filter_cons_True by done. by rewrite IH1, !fmap_cons, Hb, IH2.
Qed.

(** The sink writes linked lines. *)
Lemma session_linked interval w st log events st' log' :
  (forall e, is_Some (to_json e)) -> prev_hash st <> ""%string ->
  session interval w st log events = Some (st', log') ->
  exists lines, log' = log ++ lines /\ length lines = length events /\
    linked (prev_hash st) lines (prev_hash st').
Proof.
  intros Hj. revert st log. induction events as [|e events IH]; intros st log Hp; cbn.
  - intros [= <- <-]. exists []. rewrite app_nil_r. split_and!; [done|done|constructor].
  - intros [[[st1 e1] an] [Hr Hs]]%bind_Some. 
    destruct (Hj (stamp e (sequence st) (prev_hash st))) as [json Hjson].
    assert (Hr' : e1 = stamp e (sequence st) (prev_hash st) /\ prev_hash st1 = hash_hex json).
    { unfold chain_record in Hr. rewrite Hjson in Hr.
      repeat case_match; try discriminate; by injection Hr as <- <- _. }
    destruct Hr' as [-> Hp1].
    apply IH in Hs as (lines & -> & Hlen & Hl); [|rewrite Hp1; apply hash_hex_nonempty].
    unfold file_record. rewrite Hjson, <- (assoc_L (++)). exists (json :: lines).
    split_and!; [done|cbn; by rewrite Hlen|]. constructor; [|by rewrite <- Hp1].
    split_and!; [by eapply to_json_not_blank|done|]. eexists. by rewrite (parse_to_json _ _ Hjson).
Qed.








Lemma verify_app i v h l1 l2 :
  verify_lines i v h (l1 ++ l2) =
    match verify_lines i v h l1 with
    | ChainIntact v' h' => verify_lines (i + len l1) v' h' l2
    | b => b
    end.
Proof.
  revert i v h. induction l1 as [|l l1 IH]; intros i v h; cbn [app verify_lines].
  - by rewrite Z.add_0_r.
  - rewrite length_cons. replace (i + Z.of_nat (S (length l1))) with (i + 1 + len l1) by lia.
    destruct (parse_line l) as [[seq prev]|]; [|done]. cbn zeta.
    destruct (_ || _); [apply IH|]. destruct (negb _); [done|apply IH].
Qed.

Lemma verify_shift i v h ls n h' i2 v2 :
  verify_lines i v h ls = ChainIntact n h' ->
  verify_lines i2 v2 h ls = ChainIntact (n - v + v2) h'.
Proof.
  revert i v h i2 v2. induction ls as [|l ls IH]; intros i v h i2 v2; cbn [verify_lines].
  - intros [= <- <-]. f_equal. lia.
  - destruct (parse_line l) as [[seq prev]|]; [|done]. cbn zeta.
    assert (G : forall h0, verify_lines (i + 1) (v + 1) h0 ls = ChainIntact n h' ->
      verify_lines (i2 + 1) (v2 + 1) h0 ls = ChainIntact (n - v + v2) h').
    { intros h0 Hv. rewrite (IH _ _ _ (i2 + 1) (v2 + 1) Hv). f_equal. lia. }
    destruct (_ || _); [apply G|]. destruct (negb _); [done|apply G].
Qed.

(** What the verifier does not see. Lines without a sequence number are skipped
    wherever they stand, so one can be inserted at any place of an intact log; and a log
    cut at any line still verifies. *)
Theorem verifier_blind_spots l1 x l2 p n h :
  parse_line x = Some (None, p) -> blank x = false -> verify_chain (l1 ++ l2) = ChainIntact n h ->
  (exists m h', verify_chain l1 = ChainIntact m h') /\
  verify_chain (l1 ++ x :: l2) = ChainIntact (n + 1) h.
Proof.
  intros Hx Hb. unfold verify_chain. rewrite !filter_app, filter_cons_True by done.
  rewrite !verify_app. destruct (verify_lines 0 0 GENESIS _) as [m h1|]; [|done].
  intros Hv. split; [by eexists _, _|]. cbn [verify_lines]. rewrite Hx. cbn [default from_option].
  rewrite bool_decide_true by done. cbn [orb].
  rewrite (verify_shift _ _ _ _ _ _ _ (m + 1) Hv). f_equal. lia.
Qed.

(** Every process starts its chain at the genesis hash, so the log of two processes
    that wrote to the same file is reported broken at the first event of the second,
    although nobody touched it. *)
Theorem restart_breaks_chain interval w ev1 st1 log1 e ev2 st2 log2 :
  (forall e, is_Some (to_json e)) -> ev1 <> [] ->
  session interval w chain_new [] ev1 = Some (st1, log1) ->
  session interval w chain_new log1 (e :: ev2) = Some (st2, log2) ->
  prev_hash st1 <> GENESIS ->
  verify_chain log2 = ChainBroken (len ev1) (len ev1).
Proof.
  intros Hj Hne S1 S2 Hg.
  apply session_linked in S1 as (lines1 & -> & Hlen1 & Hl1); [|done|apply hash_hex_nonempty].
  apply session_linked in S2 as (lines2 & -> & Hlen2 & Hl2); [|done|apply hash_hex_nonempty].
  cbn [app]. unfold verify_chain. rewrite filter_app.
  destruct (filter_linked _ _ _ Hl1) as [-> Hb1]. destruct (filter_linked _ _ _ Hl2) as [-> _].
  rewrite (verify_linked _ _ _ _ _ _ Hl1 Hb1), Hlen1.
  inversion Hl2 as [|? line ls ? (Hb & Hp & k & Hk) _]; subst; [done|].
  cbn [verify_lines]. rewrite Hk. cbn [default from_option].
  rewrite !bool_decide_false by done. done.
Qed.

(** The anchor interval is not checked at construction: with zero, the second
    event panics inside the lock. *)
Theorem chain_record_panics interval w st e :
  0 <= sequence st -> (chain_record interval w st e = None <-> interval = 0 /\ sequence st <> 0).
Proof.
  intros Hs. unfold chain_record. destruct (Z.ltb_spec 0 (sequence st)).
  - destruct (Z.eqb_spec interval 0); [split; [lia|done]|].
    destruct (_ && _); split; naive_solver.
  - split; [done|]. lia.
Qed.
End chain.
End Audit.
