(* ===== verification/AuditCli.v ===== *)
(** * The audit commands ([citadel-cli/src/commands/audit.rs])

    [export] and [verify-chain] over the log file; the verifier itself is in
    [AuditLog]. *)

From S2P Require Import Prelude.
From S2P Require Import Text.
From S2P Require Import AuditLog.

(** [serde_json]: parsing a line, and printing a list of values. *)
Class JsonValues := {
  value : Type;
  value_of_line : string -> option value;
  to_string_pretty : list value -> result string string;
}.

Module AuditCli.
Import Audit.

Section commands.
Context {HD : Digest} {HX : Hex} {AJ : AuditJson} {JV : JsonValues}.

(** What [reader.lines()] yields: a line that is not valid UTF-8, or that
    cannot be read, is [None]. *)
Definition Reading : Type := list (option string).

(** The answer of the system for the log file. *)
Inductive LogFile :=
| NotFound
| Unreadable (e : string)
| Readable (r : Reading).

(** [map_while(Result::ok)]. *)
Fixpoint map_while_ok (r : Reading) : list string :=
  match r with Some l :: r => l :: map_while_ok r | _ => [] end.

Definition collected (r : Reading) : list string := filter (fun l => blank l = false) (map_while_ok r).

Definition join_lines (l : list string) : string :=
  match l with
  | [] => ""
  | x :: l => x +:+ foldr (fun y s => Text.newline +:+ y +:+ s) ""%string l
  end.

Definition format_lines (format : string) (lines : list string) : option string :=
  if bool_decide (format = "jsonl"%string) then Some (join_lines lines)
  else if bool_decide (format = "json"%string) then
    Some (match to_string_pretty (omap value_of_line lines) with Ok s => s | Err _ => "" end)
  else None.

(** [output]: the file to write, with the answer of [fs::write]; the first
    result is what was written to it, the second what was printed. *)
Definition cmd_export (log : LogFile) (output : option (result string unit)) (format : string) (limit : option nat) :
    option string * option string * Z :=
  match log with
  | Readable r =>
      let lines := collected r in
      let lines := match limit with Some n => take n lines | None => lines end in
      match format_lines format lines with
      | None => (None, None, 1)
      | Some formatted =>
          match output with
          | Some (Ok _) => (Some formatted, None, 0)
          | Some (Err _) => (None, None, 1)
          | None => (None, Some (formatted +:+ Text.newline), 0)
          end
      end
  | _ => (None, None, 1)
  end.

(** Whether the process ends with exit code 0.  (A broken chain ends with 1, or
    with a panic if the excerpt of the hash that is printed splits a character.) *)
Definition cmd_verify_chain (log : LogFile) : bool :=
  match log with
  | Readable r =>
      if bool_decide (collected r = []) then true
      else match verify_chain (map_while_ok r) with ChainIntact _ _ => true | ChainBroken _ _ => false end
  | _ => false
  end.

(** ** Theorems *)

Lemma map_while_ok_stops r1 r2 : map_while_ok (r1 ++ None :: r2) = map_while_ok r1.
Proof. induction r1 as [|[l|] r1 IH]; [done| |done]. cbn. by rewrite IH. Qed.

(** One unreadable line hides the rest of the log from the verifier and from the export: whoever
    can write to the file can change everything after it. *)
Theorem unreadable_line_hides_rest r1 r2 output format limit :
  cmd_verify_chain (Readable (r1 ++ None :: r2)) = cmd_verify_chain (Readable r1) /\
  cmd_export (Readable (r1 ++ None :: r2)) output format limit = cmd_export (Readable r1) output format limit.
Proof. unfold cmd_verify_chain, cmd_export, collected. by rewrite map_while_ok_stops. Qed.

Fixpoint ended (l : list string) : string :=
  match l with [] => "" | x :: l => x +:+ Text.newline +:+ ended l end.

Lemma ended_app l k : ended (l ++ k) = ended l +:+ ended k.
Proof. induction l as [|x l IH]; [done|]. cbn [ended app]. by rewrite IH, <- !Text.append_assoc. Qed.

Lemma join_snoc l y : join_lines (l ++ [y]) = ended l +:+ y.
Proof.
  assert (N : forall s, (s +:+ "")%string = s).
  { induction s as [|c s IH]; [done|]. rewrite append_cons. by rewrite IH. }
  destruct l as [|x l]; [cbn; by rewrite N|]. cbn [join_lines app ended].
  assert (H : foldr (fun z s => Text.newline +:+ z +:+ s) ""%string (l ++ [y]) = Text.newline +:+ ended l +:+ y).
  { induction l as [|z l IH]; [cbn; by rewrite N|]. cbn [foldr app ended]. rewrite IH. by rewrite <- !Text.append_assoc. }
  rewrite H. by rewrite !Text.append_assoc.
Qed.

Lemma lines_ended l : Forall Text.single_line l -> Text.lines (ended l) = l /\ Text.complete (ended l).
Proof.
  induction l as [|x l IH] using rev_ind; [by split|]. intros [Hl Hx]%Forall_app. rewrite Forall_singleton in Hx.
  destruct (IH Hl) as [E C]. rewrite ended_app. cbn [ended].
  destruct (Text.lines_snoc (ended l) x C Hx) as [E1 C1].
  assert (N : (Text.newline +:+ "")%string = Text.newline) by done. rewrite N. by rewrite E1, E.
Qed.

(** Text.lines of what [export] writes. *)
Lemma lines_join l : Forall (fun x => Text.single_line x /\ x <> ""%string) l -> Text.lines (join_lines l) = l.
Proof.
  destruct l as [|y l _] using rev_ind; [done|]. intros [Hl [Hy Hne]%Forall_singleton]%Forall_app.
  destruct (lines_ended l) as [E C]; [eapply Forall_impl; [exact Hl|by intros ? []]|]. rewrite join_snoc.
  unfold Text.lines in *. rewrite Text.split_lines_app by done. destruct Hy as [Hy _]. rewrite Hy. cbn [fst snd].
  unfold Text.complete in C. destruct (Text.split_lines (ended l)) as [ls rest]. cbn [snd fst] in *. subst rest.
  rewrite app_nil_r, bool_decide_false by done. rewrite bool_decide_true, app_nil_r in E by done. by rewrite E.
Qed.

Hypothesis blank_empty : blank "" = true.

Lemma collected_some l : Forall (fun x => blank x = false) l -> map_while_ok (Some <$> l) = l /\ collected (Some <$> l) = l.
Proof.
  intros H. assert (E : map_while_ok (Some <$> l) = l) by (clear H; induction l as [|x l IH]; [done|]; cbn; by rewrite IH).
  split; [done|]. unfold collected. rewrite E. induction H as [|x l Hx Hl IH]; [done|].
  rewrite filter_cons_True by done. rewrite IH; [done|]. cbn in E. by injection E.
Qed.

Lemma filter_idemp (l : list string) :
  filter (fun x => blank x = false) (filter (fun x => blank x = false) l) = filter (fun x => blank x = false) l.
Proof. induction l as [|x l IH]; [done|]. rewrite !filter_cons. case_decide; [|done]. by rewrite filter_cons_True, IH. Qed.

(** A full export in the line format is a log with the same lines, and the verifier says the same
    of it. *)
Theorem export_verifies r text :
  Forall Text.single_line (collected r) ->
  cmd_export (Readable r) (Some (Ok ())) "jsonl" None = (Some text, None, 0) ->
  Text.lines text = collected r /\
  cmd_verify_chain (Readable (Some <$> Text.lines text)) = cmd_verify_chain (Readable r).
Proof.
  intros Hs [= <-]. assert (Hb : Forall (fun x => blank x = false) (collected r)).
  { apply Forall_forall. intros x [Hx _]%list_elem_of_filter. done. }
  assert (El : Text.lines (join_lines (collected r)) = collected r).
  { apply lines_join, Forall_and. split; [done|]. eapply Forall_impl; [exact Hb|]. intros x Hx ->. congruence. }
  rewrite El. split; [done|]. destruct (collected_some _ Hb) as [E1 E2]. unfold cmd_verify_chain. rewrite E1, E2.
  case_bool_decide; [done|]. unfold verify_chain. unfold collected at 1. by rewrite filter_idemp.
Qed.
End commands.
End AuditCli.
