(* ===== verification/F64.v ===== *)
(** * IEEE 754 binary64, as the code uses it

    [f64] is the specification type of the Standard Library ([spec_float] at
    precision 53, maximal exponent 1024), whose operations round to nearest
    even; the [as] casts of Rust are written out. *)

From Stdlib Require Import SpecFloat.
From S2P Require Import Prelude.

Notation f64 := spec_float.

Module F64.

Definition of_Z (z : Z) : f64 := binary_normalize 53 1024 z 0 false.
Definition mul : f64 -> f64 -> f64 := SFmul 53 1024.
Definition add : f64 -> f64 -> f64 := SFadd 53 1024.
Definition sub : f64 -> f64 -> f64 := SFsub 53 1024.
Definition div : f64 -> f64 -> f64 := SFdiv 53 1024.
(** [x >= y], false on NaN. *)
Definition ge (x y : f64) : bool := SFleb y x.
Definition gt (x y : f64) : bool := SFltb y x.

(** The decimal literal [n / d]: the correctly rounded quotient. *)
Definition lit (n d : Z) : f64 := div (of_Z n) (of_Z d).

(** [f64::clamp(lo, hi)]; NaN stays. *)
Definition clamp (x lo hi : f64) : f64 :=
  if SFltb x lo then lo else if SFltb hi x then hi else x.

(** Truncation toward zero of a finite value. *)
Definition trunc (s : bool) (m : positive) (e : Z) : Z :=
  let v := if 0 <=? e then Zpos m * 2 ^ e else Zpos m / 2 ^ (- e) in
  if s then - v else v.

(** [x as u64], [x as u32]: saturating, NaN to zero. *)
Definition to_uint (max : Z) (x : f64) : Z :=
  match x with
  | S754_zero _ | S754_nan => 0
  | S754_infinity s => if s then 0 else max
  | S754_finite s m e => Z.max 0 (Z.min max (trunc s m e))
  end.
Definition to_u64 : f64 -> Z := to_uint U64_MAX.
Definition to_u32 : f64 -> Z := to_uint U32_MAX.

(** [x as i64]. *)
Definition to_i64 (x : f64) : Z :=
  match x with
  | S754_zero _ | S754_nan => 0
  | S754_infinity s => if s then - 2 ^ 63 else 2 ^ 63 - 1
  | S754_finite s m e => Z.max (- 2 ^ 63) (Z.min (2 ^ 63 - 1) (trunc s m e))
  end.

Lemma to_uint_range max x : 0 <= max -> 0 <= to_uint max x <= max.
Proof. intros. destruct x as [|[]| |]; cbn; lia. Qed.

(** The order on floats is transitive: comparisons are those of a key made of
    the sign, the exponent and the mantissa. *)
Lemma SFleb_trans x y z : SFleb x y = true -> SFleb y z = true -> SFleb x z = true.
Proof.
  unfold SFleb, SFcompare.
  destruct x as [sx|sx| |sx mx ex], y as [sy|sy| |sy my ey], z as [sz|sz| |sz mz ez];
    try done; try (destruct sx); try (destruct sy); try (destruct sz); try done.
  all: repeat match goal with
       | |- context [Pos.compare_cont Eq ?a ?b] =>
           change (Pos.compare_cont Eq a b) with (Pos.compare a b)
       end.
  all: destruct (Z.compare_spec ex ey), (Z.compare_spec ey ez), (Z.compare_spec ex ez); subst;
    try done; try lia.
  all: destruct (Pos.compare_spec mx my), (Pos.compare_spec my mz), (Pos.compare_spec mx mz); subst;
    try done; try lia.
Qed.

Lemma ge_trans x y z : ge x y = true -> ge y z = true -> ge x z = true.
Proof. unfold ge. eauto using SFleb_trans. Qed.

End F64.
