(* ===== verification/Policy.v ===== *)
(** * The policy engine ([citadel-keystore/src/policy.rs])

    [evaluate] is total but for one division: the percentage it logs.  A result
    of [None] is that panic. *)

From S2P Require Import Prelude.
From S2P Require Import F64.
From S2P Require Import Types.
Import Types.

Module Policy.

Inductive RotationTrigger : Set :=
| Age (d : Z)
| UsageCount (n : Z)
| ExternalSignal (s : string)
| ParentRotated.

Record KeyPolicy := mkKeyPolicy {
  pol_id : string;
  pol_name : string;
  applies_to : list KeyType;
  rotation_triggers : list RotationTrigger;
  rotation_grace_period : Z;
  max_lifetime : option Z;
  max_usage_count : option Z;
  auto_rotate : bool;
  min_versions_retained : Z;
  enforce_cryptoperiod : bool;
}.

(** [env::var("CITADEL_ENFORCE_CRYPTOPERIODS")]. *)
Definition enforce_env (v : option string) : bool :=
  match v with Some s => bool_decide (s = "true"%string \/ s = "1"%string) | None => false end.

Definition default_dek (env : option string) : KeyPolicy :=
  {| pol_id := "default-dek"; pol_name := "Default DEK Policy (NIST SP 800-57)";
     applies_to := [DataEncrypting]; rotation_triggers := [Age (from_secs (90 * 86400))];
     rotation_grace_period := from_secs (7 * 86400);
     max_lifetime := Some (from_secs (97 * 86400)); max_usage_count := None; auto_rotate := false;
     min_versions_retained := 3; enforce_cryptoperiod := enforce_env env |}.

Definition default_kek (env : option string) : KeyPolicy :=
  {| pol_id := "default-kek"; pol_name := "Default KEK Policy (NIST SP 800-57)";
     applies_to := [KeyEncrypting]; rotation_triggers := [Age (from_secs (365 * 86400))];
     rotation_grace_period := from_secs (30 * 86400);
     max_lifetime := Some (from_secs (395 * 86400)); max_usage_count := None; auto_rotate := false;
     min_versions_retained := 5; enforce_cryptoperiod := enforce_env env |}.

Definition default_root (env : option string) : KeyPolicy :=
  {| pol_id := "default-root"; pol_name := "Default Root Policy (NIST SP 800-57)";
     applies_to := [Domain]; rotation_triggers := [Age (from_secs (730 * 86400))];
     rotation_grace_period := from_secs (90 * 86400);
     max_lifetime := Some (from_secs (820 * 86400)); max_usage_count := None; auto_rotate := false;
     min_versions_retained := 10; enforce_cryptoperiod := enforce_env env |}.

Inductive PolicyVerdict : Set :=
| Compliant
| RotationNeeded (reason : string)
| PWarning (reason : string)
| UsageLimitExceeded (count limit : Z)
| PExpired (age_days limit_days : Z).

#[global] Instance PolicyVerdict_eq_dec : EqDecision PolicyVerdict.
Proof. solve_decision. Defined.

Definition needs_rotation (v : PolicyVerdict) : bool :=
  match v with RotationNeeded _ | UsageLimitExceeded _ _ => true | _ => false end.
Definition is_expired (v : PolicyVerdict) : bool :=
  match v with PExpired _ _ => true | _ => false end.

Section evaluate.
Context `{Chrono}.

Definition format_duration (d : Z) : string :=
  let days := num_days d in
  if 0 <? days then pretty days +:+ "d" else pretty (num_hours d) +:+ "h".
Definition format_std_duration (d : Z) : string :=
  let days := as_secs d `div` 86400 in
  if 0 <? days then pretty days +:+ "d" else pretty (as_secs d `div` 3600) +:+ "h".

(** [chrono::Duration::from_std(d).unwrap_or(MAX)]. *)
Definition std_or_max (d : Z) : Z := default TimeDelta_MAX (from_std d).

(** [from_secs((d.as_secs() as f64 * f) as u64)]. *)
Definition scaled (d : Z) (f : f64) : Z :=
  from_secs (F64.to_u64 (F64.mul (F64.of_Z (as_secs d)) f)).

(** The hard stop; [Some (Some v)] returns [v], [Some None] goes on, [None]
    panics. *)
Definition check_cryptoperiod (now : Z) (policy : KeyPolicy) (key : KeyMetadata) :
    option (option PolicyVerdict) :=
  if enforce_cryptoperiod policy then
    match max_lifetime policy, activated_at key with
    | Some max_lifetime, Some activated =>
        let age := now - activated in
        let max_lifetime_chrono := std_or_max max_lifetime in
        if max_lifetime_chrono <=? age
        then Some (Some (PExpired (num_days age) (as_secs max_lifetime `div` 86400)))
        else if std_or_max (scaled max_lifetime (F64.lit 8 10)) <=? age
        then if num_seconds max_lifetime_chrono =? 0 then None else Some None
        else Some None
    | _, _ => Some None
    end
  else Some None.

Definition check_usage (policy : KeyPolicy) (key : KeyMetadata) : option PolicyVerdict :=
  match max_usage_count policy with
  | Some max_count =>
      if max_count <=? usage_count key
      then Some (UsageLimitExceeded (usage_count key) max_count)
      else if F64.to_u64 (F64.mul (F64.of_Z max_count) (F64.lit 9 10)) <=? usage_count key
      then Some (PWarning ("usage " +:+ pretty (usage_count key) +:+ "/" +:+ pretty max_count
             +:+ " (" +:+ pretty ((usage_count key * 100) mod 2 ^ 64 `div` max_count) +:+ "%)"))
      else None
  | None => None
  end.

(** The [for] loop over the triggers, which returns at the first hit. *)
Fixpoint check_triggers (age : Z) (ts : list RotationTrigger) : option PolicyVerdict :=
  match ts with
  | [] => None
  | Age max_age :: ts =>
      if std_or_max max_age <=? age
      then Some (RotationNeeded ("age " +:+ format_duration age +:+ " exceeds max "
             +:+ format_std_duration max_age))
      else if std_or_max (scaled max_age (F64.lit 9 10)) <=? age
      then Some (PWarning ("age " +:+ format_duration age +:+ " approaching max "
             +:+ format_std_duration max_age))
      else check_triggers age ts
  | _ :: ts => check_triggers age ts
  end.

(** The second half of [evaluate]. *)
Definition soft_checks (now2 : Z) (policy : KeyPolicy) (key : KeyMetadata) : PolicyVerdict :=
  match check_usage policy key with
  | Some v => v
  | None =>
      match activated_at key with
      | Some activated =>
          default Compliant (check_triggers (now2 - activated) (rotation_triggers policy))
      | None => Compliant
      end
  end.

(** [now1] and [now2] are the two readings of the clock. *)
Definition evaluate (now1 now2 : Z) (policy : KeyPolicy) (key : KeyMetadata) :
    option PolicyVerdict :=
  if negb (bool_decide (state key = Active)) then Some Compliant else
  hard ← check_cryptoperiod now1 policy key;
  match hard with
  | Some v => Some v
  | None => Some (soft_checks now2 policy key)
  end.

(** ** Properties *)

Lemma check_triggers_verdict age ts v :
  check_triggers age ts = Some v -> (exists r, v = RotationNeeded r) \/ (exists r, v = PWarning r).
Proof.
  induction ts as [|[] ts IH]; cbn; try done.
  repeat (case_match; [intros [= <-]; eauto|]). done.
Qed.

Lemma check_usage_verdict p k v :
  check_usage p k = Some v ->
  (exists c l, v = UsageLimitExceeded c l) \/ (exists r, v = PWarning r).
Proof. unfold check_usage. repeat case_match; intros [=]; subst; eauto. Qed.

Lemma soft_checks_not_expired now2 p k : is_expired (soft_checks now2 p k) = false.
Proof.
  unfold soft_checks. destruct (check_usage p k) eqn:Eu.
  - apply check_usage_verdict in Eu. naive_solver.
  - destruct (activated_at k); [|done].
    destruct (check_triggers _ _) eqn:Et; [|done]. apply check_triggers_verdict in Et. naive_solver.
Qed.

(** The hard stop fires exactly for an active key whose policy enforces its
    cryptoperiod and whose age has reached the maximal lifetime. *)
Theorem expired_iff now1 now2 p k :
  (exists v, evaluate now1 now2 p k = Some v /\ is_expired v = true) <->
  state k = Active /\ enforce_cryptoperiod p = true /\
  exists l a, max_lifetime p = Some l /\ activated_at k = Some a /\ std_or_max l <= now1 - a.
Proof.
  unfold evaluate, check_cryptoperiod. case_bool_decide as Hs; cbn [negb].
  2: { split; [naive_solver|tauto]. }
  pose proof (soft_checks_not_expired now2 p k) as R.
  set (soft := soft_checks now2 p k) in *. clearbody soft.
  assert (N : forall r, r = None \/ r = Some soft ->
    ~ (exists v, r = Some v /\ is_expired v = true)).
  { intros r [->| ->] (v & [=] & Hv). congruence. }
  split.
  - destruct (enforce_cryptoperiod p); [|intros []%N; by right].
    destruct (max_lifetime p) as [l|]; [|intros []%N; by right].
    destruct (activated_at k) as [a|]; [|intros []%N; by right].
    destruct (Z.leb_spec (std_or_max l) (now1 - a)); [intros _; split_and!; [done..|by exists l, a]|].
    destruct (_ <=? _); [destruct (_ =? 0)|]; intros []%N; auto.
  - intros (_ & -> & l & a & -> & -> & Hl). apply Z.leb_le in Hl. rewrite Hl. cbn. eauto.
Qed.

(** A key that is not active is never flagged. *)
Lemma inactive_compliant now1 now2 p k :
  state k <> Active -> evaluate now1 now2 p k = Some Compliant.
Proof. intros. unfold evaluate. by rewrite bool_decide_false. Qed.

(** The log line divides by the lifetime in whole seconds: an enforced
    lifetime below one second makes every evaluation before expiry panic, and
    nothing else does. *)
Theorem evaluate_panics_iff now1 now2 p k :
  evaluate now1 now2 p k = None <->
  state k = Active /\ enforce_cryptoperiod p = true /\
  exists l a, max_lifetime p = Some l /\ activated_at k = Some a /\
    std_or_max (scaled l (F64.lit 8 10)) <= now1 - a < std_or_max l /\
    num_seconds (std_or_max l) = 0.
Proof.
  unfold evaluate, check_cryptoperiod. case_bool_decide as Hs; cbn [negb].
  2: { split; [done|tauto]. }
  destruct (enforce_cryptoperiod p); [|cbn; naive_solver].
  destruct (max_lifetime p) as [l|]; [|cbn; naive_solver].
  destruct (activated_at k) as [a|] eqn:Ea; [|cbn; naive_solver].
  destruct (Z.leb_spec (std_or_max l) (now1 - a)).
  { cbn. split; [done|]. intros (_ & _ & ? & ? & [= <-] & [= <-] & ? & _). lia. }
  destruct (Z.leb_spec (std_or_max (scaled l (F64.lit 8 10))) (now1 - a)).
  2: { cbn. split; [done|]. intros (_ & _ & ? & ? & [= <-] & [= <-] & ? & _). lia. }
  destruct (Z.eqb_spec (num_seconds (std_or_max l)) 0); cbn.
  - split; [|done]. intros _. split_and!; try done. exists l, a. split_and!; done.
  - split; [done|]. intros (_ & _ & ? & ? & [= <-] & [= <-] & _ & ?). done.
Qed.

(** Only age triggers are ever consulted: the usage-count, external-signal and
    parent-rotated triggers of a policy have no effect. *)
Definition is_age (t : RotationTrigger) : Prop := match t with Age _ => True | _ => False end.
#[local] Instance is_age_dec t : Decision (is_age t).
Proof. destruct t; apply _. Defined.

Lemma check_triggers_age_only age ts :
  check_triggers age ts = check_triggers age (filter is_age ts).
Proof.
  induction ts as [|[] ts IH]; rewrite ?filter_cons_True, ?filter_cons_False by (cbn; tauto);
    cbn [check_triggers]; rewrite ?IH; done.
Qed.

Definition age_triggers_only (p : KeyPolicy) : KeyPolicy :=
  {| pol_id := pol_id p; pol_name := pol_name p; applies_to := applies_to p;
     rotation_triggers := filter is_age (rotation_triggers p);
     rotation_grace_period := rotation_grace_period p; max_lifetime := max_lifetime p;
     max_usage_count := max_usage_count p; auto_rotate := auto_rotate p;
     min_versions_retained := min_versions_retained p;
     enforce_cryptoperiod := enforce_cryptoperiod p |}.

Theorem other_triggers_ignored now1 now2 p k :
  evaluate now1 now2 p k = evaluate now1 now2 (age_triggers_only p) k.
Proof.
  unfold evaluate, check_cryptoperiod, soft_checks, check_usage; cbn [enforce_cryptoperiod max_lifetime
    max_usage_count rotation_triggers age_triggers_only].
  destruct (activated_at k); [|done]. by rewrite <- check_triggers_age_only.
Qed.

(** Without a usage limit or a hard stop, an active key is compliant exactly
    when it is below the warning threshold of every age trigger; and it is
    asked to rotate exactly when it has exceeded some age trigger and every
    earlier one is below its warning threshold. *)
Definition below (age : Z) (t : RotationTrigger) : Prop :=
  match t with
  | Age d => age < std_or_max d /\ age < std_or_max (scaled d (F64.lit 9 10))
  | _ => True
  end.

Lemma check_triggers_None age ts : check_triggers age ts = None <-> Forall (below age) ts.
Proof.
  induction ts as [|t ts IH]; cbn; [by split|]. rewrite Forall_cons, <- IH.
  destruct t; cbn; [|tauto..]. repeat case_match; bool_hyps; split; try done; intros; lia || tauto.
Qed.

Lemma check_triggers_rotate age ts :
  (exists r, check_triggers age ts = Some (RotationNeeded r)) <->
  exists l1 d l2, ts = l1 ++ Age d :: l2 /\ Forall (below age) l1 /\ std_or_max d <= age.
Proof.
  induction ts as [|t ts IH].
  - cbn. split; [naive_solver|]. intros ([|? ?] & ? & ? & [=] & _).
  - assert (E : (exists l1 d l2, t :: ts = l1 ++ Age d :: l2 /\ Forall (below age) l1 /\ std_or_max d <= age)
      <-> (exists d, t = Age d /\ std_or_max d <= age) \/
          (below age t /\ exists l1 d l2, ts = l1 ++ Age d :: l2 /\ Forall (below age) l1 /\ std_or_max d <= age)).
    { split.
      - intros ([|t' l1] & d & l2 & [= -> ->] & Hb & Hd); [left; eauto|right].
        apply Forall_cons in Hb as [??]. split; [done|]. by exists l1, d, l2.
      - intros [(d & -> & Hd)|(Hb & l1 & d & l2 & -> & Hb1 & Hd)]; [by exists [], d, ts|].
        exists (t :: l1), d, l2. split_and!; [done|by constructor|done]. }
    rewrite E, <- IH. clear E IH. destruct t as [d| | |]; cbn [check_triggers below].
    2-4: naive_solver.
    destruct (Z.leb_spec (std_or_max d) age).
    { split; [left; eauto|]. intros _. by eexists. }
    destruct (Z.leb_spec (std_or_max (scaled d (F64.lit 9 10))) age).
    + split; [naive_solver|]. intros [(? & [= <-] & ?)|[[??] _]]; lia.
    + split; [intros; right; auto|]. intros [(? & [= <-] & ?)|[_ ?]]; [lia|done].
Qed.

(** For an active key under a policy without usage limit or enforced lifetime, the
    verdict is compliant exactly when the key is below the warning threshold of every
    age trigger; it asks for rotation exactly when some age trigger is reached and every
    earlier trigger is still below its warning threshold. *)
Theorem rotation_needed_iff now1 now2 p k a :
  state k = Active -> enforce_cryptoperiod p = false -> max_usage_count p = None ->
  activated_at k = Some a ->
  (evaluate now1 now2 p k = Some Compliant <-> Forall (below (now2 - a)) (rotation_triggers p)) /\
  ((exists v, evaluate now1 now2 p k = Some v /\ needs_rotation v = true) <->
   exists l1 d l2, rotation_triggers p = l1 ++ Age d :: l2 /\
     Forall (below (now2 - a)) l1 /\ std_or_max d <= now2 - a).
Proof.
  intros Hs He Hu Ha. unfold evaluate, check_cryptoperiod, soft_checks, check_usage.
  rewrite bool_decide_true, He, Hu, Ha by done. cbn [negb mbind option_bind].
  rewrite <- check_triggers_None, <- check_triggers_rotate. split.
  - destruct (check_triggers _ _) eqn:E; cbn; [|done]. split; [|done].
    intros [= ->]. apply check_triggers_verdict in E. naive_solver.
  - destruct (check_triggers _ _) eqn:E; cbn; [|naive_solver].
    apply check_triggers_verdict in E. naive_solver.
Qed.
End evaluate.
End Policy.
