(* ===== verification/Threat.v ===== *)
(** * Adaptive threat levels ([citadel-keystore/src/threat.rs])

    The assessor is a state machine; its methods return the new state and the
    audit events they send.  [None] is the panic of an instant subtraction out
    of chrono's range.  Each reading of the clock is an argument of its own. *)

From Stdlib Require Import Sorted.
From S2P Require Import Prelude.
From S2P Require Import F64.
From S2P Require Import Types.
From S2P Require Import Policy.
From S2P Require Import AuditLog.
Import Types Policy Audit.

(** [f64::powf] (not specified to the last bit) and [format!("{:.1}")]. *)
Class FloatLib := {
  powf : f64 -> f64 -> f64;
  fmt1 : f64 -> string;
}.

Module Threat.

(** ** Levels and events *)

Inductive ThreatLevel : Set := Low | Guarded | Elevated | High | Critical.

#[global] Instance ThreatLevel_eq_dec : EqDecision ThreatLevel.
Proof. solve_decision. Defined.

Definition value (l : ThreatLevel) : Z :=
  match l with Low => 1 | Guarded => 2 | Elevated => 3 | High => 4 | Critical => 5 end.

Definition label (l : ThreatLevel) : string :=
  match l with
  | Low => "LOW" | Guarded => "GUARDED" | Elevated => "ELEVATED" | High => "HIGH"
  | Critical => "CRITICAL"
  end.

Definition color (l : ThreatLevel) : string :=
  match l with
  | Low => "#22c55e" | Guarded => "#3b82f6" | Elevated => "#eab308" | High => "#f97316"
  | Critical => "#ef4444"
  end.

(** The derived [Ord]. *)
Definition level_lt (a b : ThreatLevel) : bool := value a <? value b.

Definition from_score (score : f64) : ThreatLevel :=
  let n := F64.to_u32 score in
  if n <=? 1 then Low else if n =? 2 then Guarded else if n =? 3 then Elevated
  else if n =? 4 then High else Critical.

Definition display (l : ThreatLevel) : string :=
  "Level " +:+ pretty (value l) +:+ " (" +:+ label l +:+ ")".

Inductive ThreatEventKind : Set :=
| DecryptionFailure | RapidAccessPattern | AnomalousAccess | ExternalAdvisory | AuthFailure
| KeyEnumeration | ManualEscalation | ManualDeescalation | Heartbeat.

#[global] Instance ThreatEventKind_eq_dec : EqDecision ThreatEventKind.
Proof. solve_decision. Defined.

Record ThreatEvent := mkThreatEvent {
  timestamp : Z;
  te_kind : ThreatEventKind;
  severity : f64;
  te_detail : option string;
}.

(** [ThreatEvent::new]. *)
Definition event_new (now : Z) (k : ThreatEventKind) (sev : f64) : ThreatEvent :=
  {| timestamp := now; te_kind := k; severity := F64.clamp sev (F64.of_Z 0) (F64.of_Z 10);
     te_detail := None |}.
Definition with_detail (e : ThreatEvent) (d : string) : ThreatEvent :=
  {| timestamp := timestamp e; te_kind := te_kind e; severity := severity e; te_detail := Some d |}.

Record ThreatConfig := {
  window : Z;
  decay_rate : f64;
  thresholds : f64 * f64 * f64 * f64;
  max_events : nat;
  hysteresis : f64;
}.

Definition default_config : ThreatConfig :=
  {| window := from_secs 3600; decay_rate := F64.lit 95 100;
     thresholds := (F64.of_Z 5, F64.of_Z 15, F64.of_Z 30, F64.of_Z 50);
     max_events := Z.to_nat 10000; hysteresis := F64.lit 2 10 |}.

Record ThreatAssessor := mkAssessor {
  config : ThreatConfig;
  events : list ThreatEvent;
  current : ThreatLevel;
  manual_override : option ThreatLevel;
  has_audit : bool;
  level_history : list (Z * ThreatLevel * string);
}.

Definition assessor_new (now : Z) (c : ThreatConfig) : ThreatAssessor :=
  {| config := c; events := []; current := Low; manual_override := None; has_audit := false;
     level_history := [(now, Low, "initialized"%string)] |}.
Definition with_audit (a : ThreatAssessor) : ThreatAssessor :=
  {| config := config a; events := events a; current := current a;
     manual_override := manual_override a; has_audit := true; level_history := level_history a |}.

Definition set_events (a : ThreatAssessor) (es : list ThreatEvent) : ThreatAssessor :=
  {| config := config a; events := es; current := current a; manual_override := manual_override a;
     has_audit := has_audit a; level_history := level_history a |}.
Definition set_override (a : ThreatAssessor) (o : option ThreatLevel) : ThreatAssessor :=
  {| config := config a; events := events a; current := current a; manual_override := o;
     has_audit := has_audit a; level_history := level_history a |}.
Definition set_level (a : ThreatAssessor) (l : ThreatLevel) (t : Z) (reason : string) :
    ThreatAssessor :=
  {| config := config a; events := events a; current := l; manual_override := manual_override a;
     has_audit := has_audit a; level_history := level_history a ++ [(t, l, reason)] |}.

(** The arrow of the two format strings is stored doubly encoded in the source
    file; these are its seven bytes, between spaces. *)
Definition odd_arrow : string :=
  String.string_of_list_byte [Byte.x20; Byte.xc3; Byte.xa2; Byte.xe2; Byte.x80; Byte.xa0; Byte.xe2;
    Byte.x80; Byte.x99; Byte.x20].

Section assessor.
Context `{Chrono} `{FloatLib}.

Definition compute_score (now : Z) (a : ThreatAssessor) : f64 :=
  foldl (fun score e =>
           let age_minutes := F64.of_Z (Z.max 0 (num_minutes (now - timestamp e))) in
           F64.add score (F64.mul (severity e) (powf (decay_rate (config a)) age_minutes)))
    (F64.of_Z 0) (events a).

(** The [if]/[else if] ladder over four bounds. *)
Definition ladder (score : f64) (t : f64 * f64 * f64 * f64) : ThreatLevel :=
  let '(t0, t1, t2, t3) := t in
  if F64.ge score t3 then Critical else if F64.ge score t2 then High
  else if F64.ge score t1 then Elevated else if F64.ge score t0 then Guarded else Low.

Definition relax (h : f64) (t : f64 * f64 * f64 * f64) : f64 * f64 * f64 * f64 :=
  let '(t0, t1, t2, t3) := t in
  let g x := F64.mul x (F64.sub (F64.of_Z 1) h) in (g t0, g t1, g t2, g t3).

Definition raw_level (c : ThreatConfig) (score : f64) : ThreatLevel := ladder score (thresholds c).
Definition de_escalation_level (c : ThreatConfig) (score : f64) : ThreatLevel :=
  ladder score (relax (hysteresis c) (thresholds c)).

Definition next_level (a : ThreatAssessor) (score : f64) : ThreatLevel :=
  match manual_override a with
  | Some manual => manual
  | None =>
      let raw := raw_level (config a) score in
      let de := de_escalation_level (config a) score in
      if level_lt (current a) raw then raw
      else if level_lt de (current a) then de
      else current a
  end.

Definition recompute_level (t_score t_hist t_audit : Z) (a : ThreatAssessor) :
    ThreatAssessor * list AuditEvent :=
  let score := compute_score t_score a in
  let new_level := next_level a score in
  if bool_decide (new_level = current a) then (a, [])
  else
    let old := current a in
    let reason := "score " +:+ fmt1 score +:+ odd_arrow +:+ label new_level
                  +:+ " (was " +:+ label old +:+ ")" in
    (set_level a new_level t_hist reason,
     if has_audit a
     then [Audit.with_detail (system_event t_audit (PolicyEvaluated
             ("threat level changed: " +:+ display old +:+ odd_arrow +:+ display new_level))) reason]
     else []).

(** [while front < cutoff { pop_front }]. *)
Fixpoint drop_old (cutoff : Z) (es : list ThreatEvent) : list ThreatEvent :=
  match es with
  | e :: r => if timestamp e <? cutoff then drop_old cutoff r else es
  | [] => []
  end.

Definition prune_old_events (now : Z) (a : ThreatAssessor) : option ThreatAssessor :=
  cutoff ← instant_sub now (default TimeDelta_MAX (from_std (window (config a))));
  let es := drop_old cutoff (events a) in
  Some (set_events a (drop (length es - max_events (config a)) es)).

Definition apply_manual (a : ThreatAssessor) (k : ThreatEventKind) : ThreatAssessor :=
  match k with
  | ManualEscalation =>
      set_override a (Some match current a with
        | Low => Guarded | Guarded => Elevated | Elevated => High | High | Critical => Critical
        end)
  | ManualDeescalation => set_override a None
  | _ => a
  end.

Definition record_event (t_prune t_score t_hist t_audit : Z) (e : ThreatEvent)
    (a : ThreatAssessor) : option (ThreatAssessor * list AuditEvent) :=
  let a := apply_manual a (te_kind e) in
  a ← prune_old_events t_prune (set_events a (events a ++ [e]));
  Some (recompute_level t_score t_hist t_audit a).

Definition record_events (t_prune t_score t_hist t_audit : Z) (es : list ThreatEvent)
    (a : ThreatAssessor) : option (ThreatAssessor * list AuditEvent) :=
  a ← prune_old_events t_prune (set_events a (events a ++ es));
  Some (recompute_level t_score t_hist t_audit a).

Definition reset (t_hist t_audit : Z) (a : ThreatAssessor) : ThreatAssessor * list AuditEvent :=
  let old := current a in
  let a := {| config := config a; events := []; current := Low; manual_override := None;
              has_audit := has_audit a; level_history := level_history a |} in
  if bool_decide (old = Low) then (a, [])
  else
    let reason := "threat state reset (was " +:+ label old +:+ ")" in
    (set_level a Low t_hist reason,
     if has_audit a
     then [Audit.with_detail (system_event t_audit (PolicyEvaluated
             ("threat level changed: " +:+ display old +:+ arrow +:+ display Low
              +:+ " (reset)"))) reason]
     else []).

Definition current_level (t_score t_hist t_audit : Z) (a : ThreatAssessor) :
    ThreatAssessor * list AuditEvent * ThreatLevel :=
  let '(a, evs) := recompute_level t_score t_hist t_audit a in
  (a, evs, default (current a) (manual_override a)).

Definition raw_score (now : Z) (a : ThreatAssessor) : f64 := compute_score now a.
Definition event_count (a : ThreatAssessor) : nat := length (events a).
Definition recent_events (a : ThreatAssessor) (n : nat) : list ThreatEvent :=
  take n (rev (events a)).

Record SecurityMetrics := {
  threat_level : ThreatLevel;
  m_raw_score : f64;
  quantum_resistance : f64;
  classical_security : f64;
  side_channel_resistance : f64;
  adaptive_defense : f64;
  key_hygiene : f64;
  overall : f64;
  events_in_window : nat;
  time_since_last_event : option Z;
}.

Definition clamp100 (x : f64) : f64 := F64.clamp x (F64.of_Z 0) (F64.of_Z 100).

Definition security_metrics (t_score t_hist t_audit t_raw t_last : Z)
    (total_keys compliant_keys : Z) (a : ThreatAssessor) :
    ThreatAssessor * list AuditEvent * SecurityMetrics :=
  let '(a, evs, level) := current_level t_score t_hist t_audit a in
  let lv := F64.of_Z (value level) in
  let up := F64.sub lv (F64.of_Z 1) in
  let penalty base k := clamp100 (F64.sub (F64.of_Z base) (F64.mul up (F64.of_Z k))) in
  let quantum := penalty 95 2 in
  let classical := penalty 98 1 in
  let side := penalty 90 3 in
  let adaptive := clamp100 (F64.add (F64.of_Z 60) (F64.mul lv (F64.of_Z 8))) in
  let hygiene := if 0 <? total_keys
                 then F64.mul (F64.div (F64.of_Z compliant_keys) (F64.of_Z total_keys)) (F64.of_Z 100)
                 else F64.of_Z 100 in
  let weigh x n := F64.mul x (F64.lit n 100) in
  let overall := clamp100 (F64.add (F64.add (F64.add (F64.add (weigh quantum 25)
                   (weigh classical 20)) (weigh side 15)) (weigh adaptive 20)) (weigh hygiene 20)) in
  (a, evs,
   {| threat_level := level; m_raw_score := compute_score t_raw a; quantum_resistance := quantum;
      classical_security := classical; side_channel_resistance := side;
      adaptive_defense := adaptive; key_hygiene := hygiene; overall := overall;
      events_in_window := length (events a);
      time_since_last_event := (fun e => Z.max 0 (t_last - timestamp e)) <$> last (events a) |}).
End assessor.

(** ** The policy adapter *)

Definition FLOOR_ROTATION_AGE : Z := from_secs 86400.
Definition FLOOR_GRACE_PERIOD : Z := from_secs 43200.
Definition FLOOR_MAX_LIFETIME : Z := from_secs (30 * 86400).
Definition FLOOR_USAGE_COUNT : Z := 100.

Record ScalingFactors := mkFactors { f_age : f64; f_grace : f64; f_lifetime : f64; f_usage : f64 }.

Definition scaling_factor (l : ThreatLevel) : ScalingFactors :=
  match l with
  | Low => mkFactors (F64.of_Z 1) (F64.of_Z 1) (F64.of_Z 1) (F64.of_Z 1)
  | Guarded => mkFactors (F64.lit 75 100) (F64.lit 8 10) (F64.lit 8 10) (F64.lit 8 10)
  | Elevated => mkFactors (F64.lit 5 10) (F64.lit 5 10) (F64.lit 6 10) (F64.lit 6 10)
  | High => mkFactors (F64.lit 3 10) (F64.lit 3 10) (F64.lit 4 10) (F64.lit 4 10)
  | Critical => mkFactors (F64.lit 2 10) (F64.lit 1 10) (F64.lit 25 100) (F64.lit 25 100)
  end.

Definition adapt_trigger (f : f64) (t : RotationTrigger) : RotationTrigger :=
  match t with
  | Age d => Age (Z.min (Z.max (scaled d f) FLOOR_ROTATION_AGE) d)
  | other => other
  end.

Definition adapt (base : KeyPolicy) (level : ThreatLevel) : KeyPolicy :=
  let factor := scaling_factor level in
  {| pol_id := pol_id base;
     pol_name := pol_name base +:+ " [threat:" +:+ label level +:+ "]";
     applies_to := applies_to base;
     rotation_triggers := adapt_trigger (f_age factor) <$> rotation_triggers base;
     rotation_grace_period :=
       Z.min (Z.max (scaled (rotation_grace_period base) (f_grace factor)) FLOOR_GRACE_PERIOD)
         (rotation_grace_period base);
     max_lifetime := (fun d => Z.min (Z.max (scaled d (f_lifetime factor)) FLOOR_MAX_LIFETIME) d)
                       <$> max_lifetime base;
     max_usage_count :=
       (fun c => Z.min (Z.max (F64.to_u64 (F64.mul (F64.of_Z c) (f_usage factor))) FLOOR_USAGE_COUNT) c)
         <$> max_usage_count base;
     auto_rotate := if negb (level_lt level Elevated) then true else auto_rotate base;
     min_versions_retained := min_versions_retained base;
     enforce_cryptoperiod := enforce_cryptoperiod base |}.

(** The [find_map] of [summarize]. *)
Fixpoint first_age (ts : list RotationTrigger) : option Z :=
  match ts with [] => None | Age d :: _ => Some d | _ :: ts => first_age ts end.

Record AdaptationSummary := {
  policy_name : string;
  s_threat_level : ThreatLevel;
  base_rotation_age : option Z;
  effective_rotation_age : option Z;
  base_grace_period : Z;
  effective_grace_period : Z;
  base_max_lifetime : option Z;
  effective_max_lifetime : option Z;
  base_usage_limit : option Z;
  effective_usage_limit : option Z;
  auto_rotate_forced : bool;
}.

Definition summarize (base : KeyPolicy) (level : ThreatLevel) : AdaptationSummary :=
  let adapted := adapt base level in
  {| policy_name := pol_name base; s_threat_level := level;
     base_rotation_age := first_age (rotation_triggers base);
     effective_rotation_age := first_age (rotation_triggers adapted);
     base_grace_period := rotation_grace_period base;
     effective_grace_period := rotation_grace_period adapted;
     base_max_lifetime := max_lifetime base; effective_max_lifetime := max_lifetime adapted;
     base_usage_limit := max_usage_count base; effective_usage_limit := max_usage_count adapted;
     auto_rotate_forced := negb (level_lt level Elevated) && negb (auto_rotate base) |}.
(** ** Level transitions *)

(** The bound of a level in a row of thresholds. *)
Definition bound (t : f64 * f64 * f64 * f64) (l : ThreatLevel) : option f64 :=
  let '(t0, t1, t2, t3) := t in
  match l with
  | Low => None | Guarded => Some t0 | Elevated => Some t1 | High => Some t2 | Critical => Some t3
  end.

Lemma ladder_spec s t :
  (forall b, bound t (ladder s t) = Some b -> F64.ge s b = true) /\
  (forall l b, value (ladder s t) < value l -> bound t l = Some b -> F64.ge s b = false).
Proof.
  destruct t as [[[t0 t1] t2] t3]. unfold ladder.
  destruct (F64.ge s t3) eqn:E3, (F64.ge s t2) eqn:E2, (F64.ge s t1) eqn:E1, (F64.ge s t0) eqn:E0;
    cbn; (split; [intros b [=]; subst; done|]); intros [] b Hl [=]; subst; done || (cbn in Hl; lia).
Qed.

Lemma bound_Some t l : l <> Low -> is_Some (bound t l).
Proof. destruct t as [[[??]?]?], l; done. Qed.

(** Every relaxed threshold is below the threshold itself. *)
Definition sane (c : ThreatConfig) : Prop :=
  forall l b b', bound (thresholds c) l = Some b ->
    bound (relax (hysteresis c) (thresholds c)) l = Some b' -> F64.ge b b' = true.

Lemma default_sane : sane default_config.
Proof. intros [] b b' [=] [=]; subst; by vm_compute. Qed.

Lemma value_inj a b : value a = value b -> a = b.
Proof. by destruct a, b. Qed.

Lemma raw_le_de c s : sane c -> value (raw_level c s) <= value (de_escalation_level c s).
Proof.
  intros Hs. unfold raw_level, de_escalation_level.
  destruct (ladder_spec s (thresholds c)) as [H1 _].
  destruct (ladder_spec s (relax (hysteresis c) (thresholds c))) as [_ H2].
  apply Z.nlt_ge. intros Hlt.
  assert (Hn : ladder s (thresholds c) <> Low).
  { intros E. rewrite E in Hlt. by destruct (ladder s (relax _ _)). }
  destruct (bound_Some (thresholds c) _ Hn) as [b Eb].
  destruct (bound_Some (relax (hysteresis c) (thresholds c)) _ Hn) as [b' Eb'].
  specialize (H1 _ Eb). specialize (H2 _ _ Hlt Eb'). specialize (Hs _ _ _ Eb Eb').
  by rewrite (F64.ge_trans _ _ _ H1 Hs) in H2.
Qed.

Definition at_level (a : ThreatAssessor) (l : ThreatLevel) : ThreatAssessor :=
  {| config := config a; events := events a; current := l; manual_override := manual_override a;
     has_audit := has_audit a; level_history := level_history a |}.

(** One recomputation: up to the level whose threshold the score has reached; down
    only past every relaxed threshold above the new level; otherwise the level holds. At
    a given score the result is a fixed point, so a score that hovers cannot make the
    level oscillate. *)
Theorem level_transition a s :
  manual_override a = None ->
  let l := next_level a s in
  (l = current a \/
   value (current a) < value l /\
     (forall b, bound (thresholds (config a)) l = Some b -> F64.ge s b = true) \/
   value l < value (current a) /\
     (forall l' b, value l < value l' ->
        bound (relax (hysteresis (config a)) (thresholds (config a))) l' = Some b ->
        F64.ge s b = false)) /\
  (sane (config a) -> next_level (at_level a l) s = l).
Proof.
  intros Hm l. subst l. split.
  - unfold next_level, level_lt. rewrite Hm.
    destruct (Z.ltb_spec (value (current a)) (value (raw_level (config a) s))).
    { right; left. split; [done|]. apply ladder_spec. }
    destruct (Z.ltb_spec (value (de_escalation_level (config a) s)) (value (current a))); [|by left].
    right; right. split; [done|]. apply ladder_spec.
  - intros Hs. pose proof (raw_le_de _ s Hs). unfold next_level, level_lt.
    cbn [manual_override at_level config current]. rewrite Hm.
    repeat match goal with
    | |- context [?x <? ?y] => destruct (Z.ltb_spec x y); try lia
    end; done.
Qed.

(** ** Runs of the assessor *)

Section runs.
Context `{Chrono} `{FloatLib}.

Inductive op : Type :=
| OEvent (e : ThreatEvent)
| OBatch (es : list ThreatEvent)
| OReset
| OQuery.

(** An operation with its clock readings. *)
Definition exec (t : Z * Z * Z * Z) (o : op) (a : ThreatAssessor) : option ThreatAssessor :=
  let '(tp, ts, th, ta) := t in
  match o with
  | OEvent e => fst <$> record_event tp ts th ta e a
  | OBatch es => fst <$> record_events tp ts th ta es a
  | OReset => Some (reset th ta a).1
  | OQuery => Some (current_level ts th ta a).1.1
  end.

Fixpoint run (os : list ((Z * Z * Z * Z) * op)) (a : ThreatAssessor) : option ThreatAssessor :=
  match os with
  | [] => Some a
  | (t, o) :: os => a ← exec t o a; run os a
  end.

Lemma recompute_frame ts th ta a :
  let a' := (recompute_level ts th ta a).1 in
  config a' = config a /\ events a' = events a /\ manual_override a' = manual_override a /\
  current a' = next_level a (compute_score ts a).
Proof. unfold recompute_level. case_bool_decide; cbn; done. Qed.

Lemma prune_frame tp a a' :
  prune_old_events tp a = Some a' ->
  config a' = config a /\ current a' = current a /\ manual_override a' = manual_override a /\
  level_history a' = level_history a /\ has_audit a' = has_audit a.
Proof. unfold prune_old_events. by intros (c & _ & [= <-])%bind_Some. Qed.

Lemma apply_manual_frame a k :
  config (apply_manual a k) = config a /\ current (apply_manual a k) = current a /\
  level_history (apply_manual a k) = level_history a.
Proof. by destruct k. Qed.

Lemma drop_old_suffix c es : exists l, es = l ++ drop_old c es.
Proof.
  induction es as [|e es [l IH]]; [by exists []|]. cbn.
  destruct (_ <? _); [exists (e :: l); cbn; by f_equal|by exists []].
Qed.

Lemma drop_old_sorted c es :
  StronglySorted (fun x y => timestamp x <= timestamp y) es ->
  Forall (fun e => c <= timestamp e) (drop_old c es).
Proof.
  induction 1 as [|e es _ IH HF]; cbn; [constructor|].
  destruct (Z.ltb_spec (timestamp e) c); [done|]. constructor; [done|].
  eapply Forall_impl; [done|]. cbn. lia.
Qed.

(** The window after an event: a suffix of what was there, no longer than the
    configured maximum, and within the time window when time stamps are in
    order. *)
Theorem window_bounded tp ts th ta e a a' evs :
  record_event tp ts th ta e a = Some (a', evs) ->
  (length (events a') <= max_events (config a))%nat /\
  (exists l, events a ++ [e] = l ++ events a') /\
  (forall cutoff, instant_sub tp (default TimeDelta_MAX (from_std (window (config a)))) = Some cutoff ->
     StronglySorted (fun x y => timestamp x <= timestamp y) (events a ++ [e]) ->
     Forall (fun x => cutoff <= timestamp x) (events a')).
Proof.
  unfold record_event. intros (a1 & Hp & [= Ha])%bind_Some.
  pose proof (recompute_frame ts th ta a1) as (_ & He & _). rewrite Ha in He. cbn in He.
  rewrite He. clear Ha He. unfold prune_old_events in Hp.
  apply bind_Some in Hp as (c & Hc & [= <-]).
  destruct (apply_manual_frame a (te_kind e)) as (Hcfg & _).
  assert (Hev : events (apply_manual a (te_kind e)) = events a) by (by destruct (te_kind e)).
  cbn [set_events events config] in *. rewrite Hcfg, Hev in *.
  destruct (drop_old_suffix c (events a ++ [e])) as [l Hl]. split_and!.
  - rewrite length_drop. lia.
  - exists (l ++ take (length (drop_old c (events a ++ [e])) - max_events (config a))
      (drop_old c (events a ++ [e]))).
    rewrite <- (assoc_L (++)), take_drop. exact Hl.
  - intros c' Hc' Hs. rewrite Hc in Hc'. injection Hc' as <-.
    apply Forall_drop. by apply drop_old_sorted.
Qed.

(** *** Manual override *)

Definition next_up (l : ThreatLevel) : ThreatLevel :=
  match l with Low => Guarded | Guarded => Elevated | Elevated => High | _ => Critical end.

Definition releases (o : op) : Prop :=
  match o with OEvent e => te_kind e = ManualDeescalation | OReset => True | _ => False end.
Definition escalates (o : op) : Prop :=
  match o with OEvent e => te_kind e = ManualEscalation | _ => False end.

Lemma exec_override t o a a' l :
  exec t o a = Some a' -> ~ releases o -> manual_override a = Some l -> current a = l ->
  exists l', manual_override a' = Some l' /\ current a' = l' /\ value l <= value l' /\
    (~ escalates o -> l' = l) /\ (escalates o -> l' = next_up l).
Proof.
  destruct t as [[[tp ts] th] ta].
  assert (R : forall b l0, manual_override b = Some l0 ->
    manual_override (recompute_level ts th ta b).1 = Some l0 /\
    current (recompute_level ts th ta b).1 = l0).
  { intros b l0 Hb. destruct (recompute_frame ts th ta b) as (_ & _ & -> & ->).
    unfold next_level. by rewrite Hb. }
  destruct o as [e|es| |]; cbn [exec releases escalates]; intros Hx Hr Hm Hc.
  - apply fmap_Some in Hx as ([a2 ev] & Hx & ->). unfold record_event in Hx.
    apply bind_Some in Hx as (b & Hb & [= Hre]). apply prune_frame in Hb as (_ & _ & Hmb & _).
    cbn [set_events manual_override] in Hmb.
    assert (Hle : exists l', manual_override b = Some l' /\ value l <= value l' /\
      (te_kind e <> ManualEscalation -> l' = l) /\ (te_kind e = ManualEscalation -> l' = next_up l)).
    { rewrite Hmb. destruct (te_kind e) eqn:Ek; cbn [apply_manual set_override manual_override];
        try (exists l; split_and!; done).
      rewrite Hc. exists (next_up l). split_and!; [by destruct l|by destruct l|done|done]. }
    destruct Hle as (l' & Hl' & ? & ? & ?). exists l'.
    destruct (R b l' Hl') as [R1 R2]. rewrite Hre in R1, R2. done.
  - apply fmap_Some in Hx as ([a2 ev] & Hx & ->). unfold record_events in Hx.
    apply bind_Some in Hx as (b & Hb & [= Hre]). apply prune_frame in Hb as (_ & _ & Hmb & _).
    cbn [set_events manual_override] in Hmb. rewrite Hm in Hmb.
    destruct (R b l Hmb) as [R1 R2]. rewrite Hre in R1, R2. exists l. split_and!; done.
  - by destruct Hr.
  - injection Hx as <-. unfold current_level. destruct (R a l Hm) as [R1 R2].
    destruct (recompute_level ts th ta a) as [b ev]. cbn in *. exists l. split_and!; done.
Qed.

(** After a manual escalation the level never drops below the escalated one,
    whatever events, batches, queries and decay follow, until an operator de-escalates
    or resets. *)
Theorem manual_escalation_sticks t e a a1 os a2 ts th ta :
  te_kind e = ManualEscalation -> exec t (OEvent e) a = Some a1 ->
  Forall (fun p => ~ releases p.2) os -> run os a1 = Some a2 ->
  current a1 = next_up (current a) /\
  value (current a1) <= value (current_level ts th ta a2).2 /\
  (Forall (fun p => ~ escalates p.2) os -> (current_level ts th ta a2).2 = current a1).
Proof.
  intros Hk Hx. destruct t as [[[tp ts'] th'] ta']. cbn in Hx.
  apply fmap_Some in Hx as ([a' ev] & Hx & ->). unfold record_event in Hx.
  apply bind_Some in Hx as (b & Hb & [= Hre]). apply prune_frame in Hb as (_ & _ & Hmb & _).
  rewrite Hk in Hmb. cbn in Hmb.
  destruct (recompute_frame ts' th' ta' b) as (_ & _ & Hm & Hc).
  unfold next_level in Hc. rewrite Hmb in Hc, Hm. rewrite Hre in Hm, Hc. cbn [fst] in *.
  assert (Hn : current a' = next_up (current a)) by (rewrite Hc; by destruct (current a)).
  rewrite <- Hc in Hm. intros HF Hr.
  assert (G : forall l, manual_override a' = Some l -> current a' = l ->
    exists l', manual_override a2 = Some l' /\ value l <= value l' /\
      (Forall (fun p => ~ escalates p.2) os -> l' = l)).
  { clear Hn Hc Hm Hre Hmb ev. revert a' Hr. induction HF as [|[t o] os Ho _ IH]; intros a' Hr l Hm Hc.
    - injection Hr as <-. exists l. done.
    - cbn in Hr. apply bind_Some in Hr as (a3 & Hx & Hr).
      destruct (exec_override _ _ _ _ _ Hx Ho Hm Hc) as (l' & Hm' & Hc' & Hle & He & _).
      destruct (IH _ Hr l' Hm' Hc') as (l2 & ? & ? & Hl2). exists l2. split_and!; [done|lia|].
      intros [Ho' HF']%Forall_cons. rewrite (Hl2 HF'). by apply He. }
  destruct (G _ Hm eq_refl) as (l' & Hl' & Hle & He). split; [done|].
  unfold current_level. destruct (recompute_frame ts th ta a2) as (_ & _ & Hm2 & _).
  destruct (recompute_level ts th ta a2) as [b2 ev2]. cbn in *. rewrite Hm2, Hl'. done.
Qed.

(** *** The history *)

(** The last entry is the current level. *)
Definition history_ok (a : ThreatAssessor) : Prop :=
  exists t r, last (level_history a) = Some (t, current a, r).

Lemma recompute_history ts th ta a : history_ok a -> history_ok (recompute_level ts th ta a).1.
Proof.
  unfold recompute_level. case_bool_decide; [done|]. intros _. cbn. unfold history_ok. cbn.
  rewrite last_snoc. eauto.
Qed.

Theorem history_preserved t o a a' : exec t o a = Some a' -> history_ok a -> history_ok a'.
Proof.
  destruct t as [[[tp ts] th] ta]. destruct o as [e|es| |]; cbn [exec].
  - intros ([a2 ev] & Hx & ->)%fmap_Some Hh. unfold record_event in Hx.
    apply bind_Some in Hx as (b & Hb & [= Hre]). change a2 with (a2, ev).1. rewrite <- Hre.
    apply recompute_history. apply prune_frame in Hb as (_ & Hc & _ & Hl & _).
    destruct (apply_manual_frame a (te_kind e)) as (_ & Hc' & Hl').
    unfold history_ok. cbn in Hc, Hl. by rewrite Hl, Hc, Hl', Hc'.
  - intros ([a2 ev] & Hx & ->)%fmap_Some Hh. unfold record_events in Hx.
    apply bind_Some in Hx as (b & Hb & [= Hre]). change a2 with (a2, ev).1. rewrite <- Hre.
    apply recompute_history. apply prune_frame in Hb as (_ & Hc & _ & Hl & _).
    unfold history_ok. cbn in Hc, Hl. by rewrite Hl, Hc.
  - intros [= <-] Hh. unfold reset, history_ok in *. case_bool_decide as E; cbn.
    + by rewrite E in Hh.
    + rewrite last_snoc. eauto.
  - intros [= <-] Hh. unfold current_level. pose proof (recompute_history ts th ta a Hh).
    by destruct (recompute_level ts th ta a).
Qed.
End runs.

(** ** Adaptation *)

(** [tightened lo d d']: [d'] is no looser than [d], and compression stopped at
    the floor [lo]. *)
Definition tightened (lo d d' : Z) : Prop := Z.min lo d <= d' <= d.

Definition tightened_trigger (t t' : RotationTrigger) : Prop :=
  match t, t' with
  | Age d, Age d' => tightened FLOOR_ROTATION_AGE d d'
  | Age _, _ => False
  | t, t' => t' = t
  end.

(** At every level the adapted policy is at least as strict as its base, and no
    parameter is compressed below its floor (or below the base, where the base is under
    the floor); auto-rotation is only ever switched on. *)
Theorem adapt_bounds base level :
  let p := adapt base level in
  Forall2 tightened_trigger (rotation_triggers base) (rotation_triggers p) /\
  tightened FLOOR_GRACE_PERIOD (rotation_grace_period base) (rotation_grace_period p) /\
  option_Forall2 (tightened FLOOR_MAX_LIFETIME) (max_lifetime base) (max_lifetime p) /\
  option_Forall2 (tightened FLOOR_USAGE_COUNT) (max_usage_count base) (max_usage_count p) /\
  (auto_rotate base = true -> auto_rotate p = true) /\
  (auto_rotate p = true <-> auto_rotate base = true \/ 3 <= value level) /\
  pol_id p = pol_id base /\ enforce_cryptoperiod p = enforce_cryptoperiod base.
Proof.
  cbn. split_and!; try done.
  - apply Forall2_fmap_r, Forall_Forall2_diag, Forall_true.
    intros []; cbn; try done. unfold tightened. lia.
  - unfold tightened. lia.
  - destruct (max_lifetime base); constructor. unfold tightened. lia.
  - destruct (max_usage_count base); constructor. unfold tightened. lia.
  - destruct level; cbn; done.
  - destruct level; cbn; split; intros; destruct_or?; try done; try lia; auto.
Qed.
End Threat.
