(* ===== verification/Storage.v ===== *)
(** * Storage backends ([citadel-keystore/src/storage.rs])

    The trait [StorageBackend] as an interface over an abstract state, with the
    keys a reader would see ([st_view]); an environment carries whatever makes a
    call fail.  A failed write may or may not have landed: the file backend can
    report an error after the rename.  The in-memory backend is an instance. *)

From Stdlib Require Import Ascii.
From S2P Require Import Prelude.
From S2P Require Import Types.
Import Types.

(** An identifier that names a file of the key directory: not empty, and
    without a separator.  Generated identifiers are hexadecimal. *)
Fixpoint no_separator (s : string) : bool :=
  match s with
  | EmptyString => true
  | String.String c s => negb (Ascii.eqb c "/"%char) && no_separator s
  end.
Definition plain_id (k : string) : bool := negb (bool_decide (k = ""%string)) && no_separator k.

Lemma hex_plain s : all_hex s = true -> s <> ""%string -> plain_id s = true.
Proof.
  intros H Hn. unfold plain_id. rewrite bool_decide_false by done. cbn. clear Hn. revert H.
  induction s as [|c s IH]; [done|]. cbn [all_hex no_separator]. intros [Hc Hs]%andb_true_iff.
  rewrite (IH Hs), andb_true_r. apply negb_true_iff, Ascii.eqb_neq. by intros ->.
Qed.

Class StorageBackend := {
  st_state : Type;
  st_env : Type;
  st_get : st_env -> string -> st_state -> result KeystoreError (option KeyMetadata);
  st_put : st_env -> KeyMetadata -> st_state -> st_state * result KeystoreError unit;
  st_delete : st_env -> string -> st_state -> st_state * result KeystoreError unit;
  st_list : st_env -> st_state -> result KeystoreError (list KeyMetadata);
  st_list_by_state : st_env -> KeyState -> st_state -> result KeystoreError (list KeyMetadata);
  st_list_by_parent : st_env -> string -> st_state -> result KeystoreError (list KeyMetadata);
  st_overwrite : st_env -> string -> st_state -> st_state * result KeystoreError unit;
  st_view : st_state -> gmap string KeyMetadata;
  (** the material that reads back as it was written *)
  st_keeps : SecretKeyMaterial -> Prop;
}.

Definition storable {S : StorageBackend} (m : KeyMetadata) : Prop :=
  Forall (fun v => st_keeps (secret_key_material v)) (versions m).

Class StorageLaws (S : StorageBackend) : Prop := {
  keeps_tagged x : tagged x -> st_keeps x;
  view_storable k m s : st_view s !! k = Some m -> storable m;
  get_view e k s r : st_get e k s = Ok r -> r = st_view s !! k;
  put_view e m s : storable m ->
    st_view (st_put e m s).1 = <[ id m := m ]> (st_view s) \/
    (st_put e m s).2 <> Ok () /\ st_view (st_put e m s).1 = st_view s;
  delete_view e k s :
    st_view (st_delete e k s).1 = delete k (st_view s) \/
    (st_delete e k s).2 <> Ok () /\ st_view (st_delete e k s).1 = st_view s;
  (** listings are complete where every key has a plain identifier *)
  list_view e s l :
    st_list e s = Ok l -> (forall k m, st_view s !! k = Some m -> plain_id k = true) ->
    forall m, m ∈ l <-> exists k, st_view s !! k = Some m;
  list_by_state_view e t s l :
    st_list_by_state e t s = Ok l -> (forall k m, st_view s !! k = Some m -> plain_id k = true) ->
    forall m, m ∈ l <-> state m = t /\ exists k, st_view s !! k = Some m;
  list_by_parent_view e p s l :
    st_list_by_parent e p s = Ok l -> (forall k m, st_view s !! k = Some m -> plain_id k = true) ->
    forall m, m ∈ l <-> parent_id m = Some p /\ exists k, st_view s !! k = Some m;
  (** each key is listed once, where keys are stored under their identifiers *)
  list_by_parent_nodup e p s l :
    st_list_by_parent e p s = Ok l -> (forall k m, st_view s !! k = Some m -> id m = k) ->
    NoDup (id <$> l);
  (** overwriting may make the one key unreadable *)
  overwrite_view e k s :
    st_view (st_overwrite e k s).1 = st_view s \/
    st_view (st_overwrite e k s).1 = delete k (st_view s);
}.

Module Storage.

(** The map behind the lock; the lock is never poisoned. *)
Definition InMemoryBackend : Type := gmap string KeyMetadata.

Definition mem_get (id : string) (keys : InMemoryBackend) :
    result KeystoreError (option KeyMetadata) := Ok (keys !! id).
Definition mem_put (meta : KeyMetadata) (keys : InMemoryBackend) :
    InMemoryBackend * result KeystoreError unit := (<[ id meta := meta ]> keys, Ok ()).
Definition mem_delete (id : string) (keys : InMemoryBackend) :
    InMemoryBackend * result KeystoreError unit := (delete id keys, Ok ()).
Definition mem_list (keys : InMemoryBackend) : result KeystoreError (list KeyMetadata) :=
  Ok ((map_to_list keys).*2).
Definition mem_list_by_state (st : KeyState) (keys : InMemoryBackend) :
    result KeystoreError (list KeyMetadata) :=
  Ok (filter (fun k => state k = st) (map_to_list keys).*2).
Definition mem_list_by_parent (p : string) (keys : InMemoryBackend) :
    result KeystoreError (list KeyMetadata) :=
  Ok (filter (fun k => parent_id k = Some p) (map_to_list keys).*2).
(** The trait's default method. *)
Definition overwrite_default (id : string) (keys : InMemoryBackend) :
    InMemoryBackend * result KeystoreError unit := (keys, Ok ()).

#[export] Instance InMemory : StorageBackend := {
  st_state := InMemoryBackend;
  st_env := unit;
  st_get _ := mem_get;
  st_put _ := mem_put;
  st_delete _ := mem_delete;
  st_list _ := mem_list;
  st_list_by_state _ := mem_list_by_state;
  st_list_by_parent _ := mem_list_by_parent;
  st_overwrite _ := overwrite_default;
  st_view keys := keys;
  st_keeps _ := True;
}.

Lemma values_elem (keys : InMemoryBackend) m :
  m ∈ (map_to_list keys).*2 <-> exists k, keys !! k = Some m.
Proof.
  rewrite list_elem_of_fmap. split.
  - intros ([k m'] & -> & Hk%elem_of_map_to_list). by exists k.
  - intros [k Hk]. exists (k, m). split; [done|]. by apply elem_of_map_to_list.
Qed.

Lemma ids_nodup P `{forall m, Decision (P m)} (l : list (string * KeyMetadata)) :
  NoDup l.*1 -> (forall p, p ∈ l -> id p.2 = p.1) -> NoDup (id <$> filter P l.*2).
Proof.
  induction l as [|[k m] l IH]; intros Hnd He; [constructor|].
  rewrite !fmap_cons in Hnd. apply NoDup_cons in Hnd as [Hn Hnd]. rewrite fmap_cons.
  assert (Hl : NoDup (id <$> filter P l.*2))
    by (apply IH; [done|]; intros p Hp; apply He; by apply list_elem_of_further).
  rewrite filter_cons. cbn [snd]. destruct (decide (P m)); [|exact Hl]. cbn. constructor; [|exact Hl].
  pose proof (He (k, m) (list_elem_of_here _ _)) as Hkm. cbn in Hkm. rewrite Hkm.
  intros (m' & -> & Hm')%list_elem_of_fmap. apply list_elem_of_filter in Hm' as [_ Hm'].
  apply list_elem_of_fmap in Hm' as ([k' m0] & -> & Hp). apply Hn, list_elem_of_fmap.
  exists (k', m0). split; [|done]. cbn. apply (He (k', m0)). by apply list_elem_of_further.
Qed.

#[export] Instance InMemory_laws : StorageLaws InMemory.
Proof.
  split; cbn.
  - done.
  - intros k m s _. by apply Forall_true.
  - by intros _ k s r [= <-].
  - by left.
  - by left.
  - intros _ s l [= <-] _ m. apply values_elem.
  - intros _ t s l [= <-] _ m. by rewrite list_elem_of_filter, values_elem.
  - intros _ p s l [= <-] _ m. by rewrite list_elem_of_filter, values_elem.
  - intros _ p s l [= <-] Hk. apply ids_nodup; [apply NoDup_fst_map_to_list|].
    intros [k m] Hp%elem_of_map_to_list. by apply Hk.
  - by left.
Qed.
End Storage.
