(* ===== verification/FileStore.v ===== *)
(** * The file backend ([citadel-keystore/src/storage.rs], from line 108)

    One file [<id>.json] per key in one directory.  The directory is a map from
    names, relative to it, to contents and permission bits; a system call fails
    as the environment of the operation says, and a failed write can leave a
    part of the data.  A write goes through [<id>.tmp] and a rename: the states
    of the directory between two system calls are those a crash can leave
    behind.  The directory itself stays accessible, so that [Path::exists]
    answers truthfully; what survives a power failure is not modelled. *)

From Stdlib Require Import Ascii.
From S2P Require Import Prelude.
From S2P Require Import Types.
From S2P Require Import Storage.
Import Types.

(** [serde_json] and the derived implementations on a record whose material is
    a text ([as_text]). *)
Class KeyJson := {
  print_key : KeyMetadata -> result string (list byte);
  parse_key : list byte -> result string KeyMetadata;
}.

(** What was printed parses back; zeros are not JSON. *)
Class KeyJsonLaws (J : KeyJson) : Prop := {
  parse_print m b : print_key (as_text m) = Ok b -> parse_key b = Ok (as_text m);
  zeros_not_json n m : parse_key (replicate n Byte.x00) <> Ok m;
}.

(** [to_string_pretty] and [from_str] on [KeyMetadata]: the implementations for
    [SecretKeyMaterial] choose the text, and the variant from the text. *)
Definition key_to_json `{KeyJson} (m : KeyMetadata) : result string (list byte) := print_key (as_text m).
Definition key_of_json `{KeyJson} (b : list byte) : result string KeyMetadata := m ← parse_key b; Ok (of_text m).

Lemma key_of_to_json `{KeyJsonLaws} m b : all_tagged m -> key_to_json m = Ok b -> key_of_json b = Ok m.
Proof. unfold key_to_json, key_of_json. intros Hs Hb. rewrite (parse_print _ _ Hb). cbn. by rewrite of_as_text. Qed.
Lemma key_of_json_tagged `{KeyJson} b m : key_of_json b = Ok m -> all_tagged m.
Proof. unfold key_of_json. intros Hm. inv_ok Hm. simplify_eq. apply of_text_tagged. Qed.

Module FileBackend.

Record File := mkFile { content : list byte; mode : Z }.
Notation Dir := (gmap string File).

(** The outcome of opening, writing and syncing a file; [n] bytes were written
    before a write failed. *)
Inductive write_outcome :=
| Written
| OpenFails (e : string)
| WriteFails (n : nat) (e : string)
| SyncFails (e : string).

Record FsEnv := {
  fe_lock_poisoned : bool;
  fe_umask : Z;
  fe_write : write_outcome;
  fe_rename : option string;
  fe_open_dir : option string;
  fe_sync_dir : option string;
  fe_remove : option string;
  fe_metadata : option string;
  fe_read : string -> option string;
  fe_readdir : option string;
  (** the entry at this position cannot be read *)
  fe_entry : option (nat * string);
  (** the order in which the directory is read *)
  fe_order : Dir -> list string;
  fe_order_all d : fe_order d ≡ₚ (map_to_list d).*1;
}.

(** ** Paths *)

Definition key_path (id : string) : string := id +:+ ".json".

Fixpoint ends_with_separator (s : string) : bool :=
  match s with
  | EmptyString => false
  | String.String c EmptyString => Ascii.eqb c "/"%char
  | String.String _ s => ends_with_separator s
  end.

(** [key_path(id).with_extension("tmp")]: a file name that only consists of an
    extension has none. *)
Definition tmp_path (id : string) : string :=
  if bool_decide (id = ""%string) || ends_with_separator id
  then key_path id +:+ ".tmp" else id +:+ ".tmp".

Fixpoint strip_suffix (s x : string) : option string :=
  if bool_decide (s = x) then Some ""%string
  else match s with
       | EmptyString => None
       | String.String c s => String.String c <$> strip_suffix s x
       end.

(** The names a directory listing shows as key files. *)
Definition is_key_file (name : string) : bool :=
  match strip_suffix name ".json" with Some stem => plain_id stem | None => false end.

(** ** System calls *)

(** A computation on the directory, with every state it passes through after
    the first. *)
Definition Io (A : Type) : Type := Dir -> list Dir * result KeystoreError A.

#[export] Instance Io_ret : MRet Io := fun A a d => ([], Ok a).
#[export] Instance Io_bind : MBind Io := fun A B f m d =>
  match m d with
  | (tr, Ok a) => let '(tr', r) := f a (default d (last tr)) in (tr ++ tr', r)
  | (tr, Err e) => (tr, Err e)
  end.

Definition fail {A} (what e : string) : Io A := fun d => ([], Err (StorageError (what +:+ ": " +:+ e))).
Definition check_call (what : string) (o : option string) : Io unit :=
  match o with Some e => fail what e | None => mret () end.
Definition lift_io {A} (f : Dir -> result KeystoreError A) : Io A := fun d => ([], f d).
Definition set_dir (d' : Dir) : Io unit := fun d => ([d'], Ok ()).
Definition reads {A} (f : Dir -> A) : Io A := fun d => ([], Ok (f d)).

(** The directory the computation leaves, and its result. *)
Definition run_io {A} (m : Io A) (d : Dir) : Dir * result KeystoreError A :=
  let '(tr, r) := m d in (default d (last tr), r).

Section backend.
Context {KJ : KeyJson}.

(** A new file gets the mode 0600 less the umask; an existing one keeps its
    own. *)
Definition created_mode (umask : Z) (o : option File) : Z :=
  match o with Some f => mode f | None => Z.land 384 (Z.lnot umask) end.

Definition write_restricted (e : FsEnv) (what path : string) (data : list byte) : Io unit :=
  f ← reads (.!! path);
  let m := created_mode (fe_umask e) f in
  let store c := reads (fun d => <[ path := mkFile c m ]> d) ≫= set_dir in
  match fe_write e with
  | OpenFails x => fail what x
  | WriteFails n x => _ ← store []; _ ← store (take n data); fail what x
  | SyncFails x => _ ← store []; _ ← store data; fail what x
  | Written => _ ← store []; store data
  end.

Definition sync_parent (e : FsEnv) : Io unit :=
  _ ← check_call "open dir" (fe_open_dir e); check_call "dir fsync" (fe_sync_dir e).

Definition lock (e : FsEnv) : Io unit :=
  if fe_lock_poisoned e then (fun _ => ([], Err (StorageError "mutation lock poisoned"))) else mret ().

(** ** [FileBackend] *)

Definition read_key_file (e : FsEnv) (path : string) (f : File) : result KeystoreError KeyMetadata :=
  match fe_read e path with
  | Some x => Err (StorageError ("read: " +:+ x))
  | None => map_err (fun x => StorageError ("parse: " +:+ x)) (key_of_json (content f))
  end.

Definition get (e : FsEnv) (id : string) (d : Dir) : result KeystoreError (option KeyMetadata) :=
  match d !! key_path id with
  | None => Ok None
  | Some f => m ← read_key_file e (key_path id) f; Ok (Some m)
  end.

Definition rename (e : FsEnv) (from to : string) : Io unit :=
  _ ← check_call "rename" (fe_rename e);
  d' ← reads (fun d : Dir => match d !! from with Some f => <[ to := f ]> (delete from d) | None => d end);
  set_dir d'.

Definition put (e : FsEnv) (meta : KeyMetadata) : Io unit :=
  _ ← lock e;
  json ← lift_io (fun _ => map_err (fun x => StorageError ("serialize: " +:+ x)) (key_to_json meta));
  _ ← write_restricted e "write" (tmp_path (id meta)) json;
  _ ← rename e (tmp_path (id meta)) (key_path (id meta));
  sync_parent e.

Definition delete_key (e : FsEnv) (id : string) : Io unit :=
  _ ← lock e;
  f ← reads (.!! key_path id);
  match f with
  | None => mret ()
  | Some _ => _ ← check_call "delete" (fe_remove e); reads (delete (key_path id)) ≫= set_dir
  end.

(** The loop of [list] over the entries. *)
Fixpoint read_entries (e : FsEnv) (d : Dir) (names : list string) :
    result KeystoreError (list KeyMetadata) :=
  match names with
  | [] => Ok []
  | name :: rest =>
      if is_key_file name then
        match d !! name with
        | Some f => m ← read_key_file e name f; ms ← read_entries e d rest; Ok (m :: ms)
        | None => read_entries e d rest
        end
      else read_entries e d rest
  end.

Definition list_keys (e : FsEnv) (d : Dir) : result KeystoreError (list KeyMetadata) :=
  match fe_readdir e, fe_entry e with
  | Some x, _ => Err (StorageError ("readdir: " +:+ x))
  | None, Some (n, x) =>
      _ ← read_entries e d (take n (fe_order e d)); Err (StorageError ("entry: " +:+ x))
  | None, None => read_entries e d (fe_order e d)
  end.
Definition list_by_state (e : FsEnv) (s : KeyState) (d : Dir) : result KeystoreError (list KeyMetadata) :=
  ms ← list_keys e d; Ok (filter (fun m => state m = s) ms).
Definition list_by_parent (e : FsEnv) (p : string) (d : Dir) : result KeystoreError (list KeyMetadata) :=
  ms ← list_keys e d; Ok (filter (fun m => parent_id m = Some p) ms).

Definition overwrite_key_file (e : FsEnv) (id : string) : Io unit :=
  _ ← lock e;
  f ← reads (.!! key_path id);
  match f with
  | None => mret ()
  | Some f =>
      _ ← check_call "metadata" (fe_metadata e);
      match length (content f) with
      | O => mret ()
      | n => _ ← write_restricted e "overwrite" (key_path id) (replicate n Byte.x00); sync_parent e
      end
  end.

(** [FileBackend::new] resets the mode of every key file others can read; a
    directory that cannot be listed and a mode that cannot be changed are
    passed over. *)
Definition fix_mode (chmod_ok : string -> bool) (name : string) (f : File) : File :=
  if is_key_file name && negb (Z.land (Z.land (mode f) 511) 63 =? 0) && chmod_ok name
  then mkFile (content f) 384 else f.
Definition new (create set_perms : option string) (listed : bool) (chmod_ok : string -> bool) : Io unit :=
  _ ← check_call "create dir" create;
  _ ← check_call "set dir permissions" set_perms;
  if listed
  then reads (map_imap (fun name f => Some (fix_mode chmod_ok name f))) ≫= set_dir
  else mret ().

(** What a reader sees: the key files that parse. *)
Definition key_of (p : string * File) : option (string * KeyMetadata) :=
  k ← strip_suffix p.1 ".json";
  match key_of_json (content p.2) with Ok m => Some (k, m) | Err _ => None end.
Definition view (d : Dir) : gmap string KeyMetadata := list_to_map (omap key_of (map_to_list d)).

(** ** Names *)

Lemma append_length_ne k x y c : (String.length y <= String.length x)%nat -> String.String c (k +:+ x) <> y.
Proof. intros H E. apply (f_equal String.length) in E. cbn in E. rewrite length_str_app in E. lia. Qed.

Lemma strip_suffix_app k x : strip_suffix (k +:+ x) x = Some k.
Proof.
  induction k as [|c k IH].
  { change (strip_suffix x x = Some ""%string). destruct x; cbn [strip_suffix]; by rewrite bool_decide_true. }
  rewrite append_cons. cbn [strip_suffix]. rewrite bool_decide_false by (by apply append_length_ne).
  by rewrite IH.
Qed.

Lemma strip_suffix_Some s x k : strip_suffix s x = Some k -> s = k +:+ x.
Proof.
  revert k. induction s as [|c s IH]; intros k; cbn; case_bool_decide as E; try done.
  - by intros [= <-].
  - by intros [= <-].
  - intros (k' & Hk & ->)%fmap_Some. by rewrite append_cons, <- (IH k' Hk).
Qed.

Lemma key_path_inj k k' : key_path k = key_path k' -> k = k'.
Proof.
  unfold key_path. intros E. pose proof (strip_suffix_app k ".json") as H1.
  rewrite E, strip_suffix_app in H1. by injection H1.
Qed.

(** The last character of a non-empty suffix. *)
Fixpoint last_char (s : string) : option ascii :=
  match s with
  | EmptyString => None
  | String.String c EmptyString => Some c
  | String.String _ s => last_char s
  end.
Lemma last_char_app a b : b <> ""%string -> last_char (a +:+ b) = last_char b.
Proof.
  intros Hb. induction a as [|c a IH]; [done|]. rewrite append_cons. cbn [last_char].
  destruct (a +:+ b) as [|c' s] eqn:E; [|exact IH]. apply (f_equal String.length) in E.
  rewrite length_str_app in E. destruct b; [done|]. cbn in E. lia.
Qed.

Lemma tmp_not_key k k' : key_path k <> tmp_path k'.
Proof.
  intros E. apply (f_equal last_char) in E. revert E. unfold key_path, tmp_path.
  destruct (_ || _); rewrite !last_char_app by done; done.
Qed.

(** ** The view *)

Definition parsed (f : File) : option KeyMetadata :=
  match key_of_json (content f) with Ok m => Some m | Err _ => None end.

Lemma key_of_path p k m : key_of p = Some (k, m) <-> p.1 = key_path k /\ parsed p.2 = Some m.
Proof.
  unfold key_of, parsed. split.
  - destruct (strip_suffix p.1 ".json") as [k'|] eqn:E; [|done]. cbn.
    destruct (key_of_json _); [|done]. intros [= <- <-]. split; [|done]. by apply strip_suffix_Some.
  - intros [-> H]. unfold key_path. rewrite strip_suffix_app. cbn. destruct (key_of_json _); [|done].
    by injection H as ->.
Qed.

Lemma elem_of_keys (l : list (string * File)) k m :
  (k, m) ∈ omap key_of l <-> exists f, (key_path k, f) ∈ l /\ parsed f = Some m.
Proof.
  rewrite list_elem_of_omap. split.
  - intros ([n f] & Hin & [E1 E2]%key_of_path). cbn in *. subst. eauto.
  - intros (f & Hin & Hp). exists (key_path k, f). split; [done|]. by apply key_of_path.
Qed.

Lemma keys_nodup (l : list (string * File)) : NoDup l.*1 -> NoDup (omap key_of l).*1.
Proof.
  induction l as [|[n f] l IH]; [constructor|]. rewrite fmap_cons. intros [Hn Hl]%NoDup_cons. cbn [omap list_omap].
  destruct (key_of (n, f)) as [[k m]|] eqn:E; [|by apply IH]. rewrite fmap_cons. constructor; [|by apply IH].
  apply key_of_path in E as [E _]. cbn in E, Hn. subst n. intros ([k' m'] & Ek & Hk)%list_elem_of_fmap. cbn in Ek. subst k'.
  apply elem_of_keys in Hk as (f' & Hin & _). apply Hn. by apply (list_elem_of_fmap_2 fst) in Hin.
Qed.

Lemma view_lookup d k : view d !! k = d !! key_path k ≫= parsed.
Proof.
  apply option_eq. intros m. unfold view.
  rewrite <- elem_of_list_to_map by apply keys_nodup, NoDup_fst_map_to_list.
  rewrite elem_of_keys, bind_Some. by setoid_rewrite elem_of_map_to_list.
Qed.

Lemma view_other d n f : (forall k, key_path k <> n) -> view (<[ n := f ]> d) = view d.
Proof. intros Hn. apply map_eq. intros k. rewrite !view_lookup, lookup_insert_ne; [done|]. intros E. by apply (Hn k). Qed.
Lemma view_tmp d id f : view (<[ tmp_path id := f ]> d) = view d.
Proof. apply view_other. intros k. apply tmp_not_key. Qed.

Lemma view_renamed d id f m :
  parsed f = Some m -> view (<[ key_path id := f ]> (delete (tmp_path id) d)) = <[ id := m ]> (view d).
Proof.
  intros Hf. apply map_eq. intros k. rewrite view_lookup. destruct (decide (id = k)) as [<-|Hn].
  - by rewrite !lookup_insert_eq.
  - rewrite !lookup_insert_ne by (try done; by intros ?%key_path_inj). rewrite view_lookup.
    by rewrite lookup_delete_ne by (intros E; by apply (tmp_not_key k id)).
Qed.

Lemma view_unparsed d id f : parsed f = None -> view (<[ key_path id := f ]> d) = delete id (view d).
Proof.
  intros Hf. apply map_eq. intros k. rewrite view_lookup. destruct (decide (id = k)) as [<-|Hn].
  - by rewrite lookup_insert_eq, lookup_delete_eq.
  - rewrite lookup_insert_ne by (by intros ?%key_path_inj). by rewrite lookup_delete_ne, view_lookup.
Qed.

(** ** Reasoning about a computation: [P] holds of every state it passes
    through, [Q] of the last one and the result. *)

Definition io_wp {A} (m : Io A) (P : Dir -> Prop) (Q : Dir -> result KeystoreError A -> Prop) (d : Dir) : Prop :=
  Forall P (m d).1 /\ Q (default d (last (m d).1)) (m d).2.

Lemma io_mono {A} (m : Io A) P (Q Q' : Dir -> result KeystoreError A -> Prop) d :
  io_wp m P Q d -> (forall d' r, Q d' r -> Q' d' r) -> io_wp m P Q' d.
Proof. intros [H1 H2] HQ. split; auto. Qed.
Lemma io_bind {A B} (m : Io A) (f : A -> Io B) P Q d :
  io_wp m P (fun d' r => match r with Ok a => io_wp (f a) P Q d' | Err e => Q d' (Err e) end) d ->
  io_wp (m ≫= f) P Q d.
Proof.
  unfold io_wp, mbind, Io_bind. intros [H1 H2]. destruct (m d) as [tr [a|e]]; cbn in *; [|done].
  destruct (f a (default d (last tr))) as [tr' r]; cbn in *. destruct H2 as [H2 H3].
  split; [by apply Forall_app|]. rewrite last_app. by destruct (last tr').
Qed.
Lemma io_ret {A} (a : A) (P : Dir -> Prop) (Q : Dir -> result KeystoreError A -> Prop) d :
  Q d (Ok a) -> io_wp (mret a) P Q d.
Proof. split; [constructor|done]. Qed.
Lemma io_fail {A} what x (P : Dir -> Prop) (Q : Dir -> result KeystoreError A -> Prop) d :
  (forall e, Q d (Err e)) -> io_wp (fail what x) P Q d.
Proof. split; [constructor|by apply H]. Qed.
Lemma io_check what o (P : Dir -> Prop) (Q : Dir -> result KeystoreError unit -> Prop) d :
  (forall e, Q d (Err e)) -> Q d (Ok ()) -> io_wp (check_call what o) P Q d.
Proof. intros H1 H2. destruct o; [by apply io_fail|by apply io_ret]. Qed.
Lemma io_lock e (P : Dir -> Prop) (Q : Dir -> result KeystoreError unit -> Prop) d :
  (forall e, Q d (Err e)) -> Q d (Ok ()) -> io_wp (lock e) P Q d.
Proof. intros H1 H2. unfold lock. destruct (fe_lock_poisoned e); [split; [constructor|by apply H1]|by apply io_ret]. Qed.
Lemma io_sync e (P : Dir -> Prop) (Q : Dir -> result KeystoreError unit -> Prop) d :
  (forall e, Q d (Err e)) -> Q d (Ok ()) -> io_wp (sync_parent e) P Q d.
Proof. intros H1 H2. unfold sync_parent. apply io_bind, io_check; [done|]. by apply io_check. Qed.

Lemma io_store (g : Dir -> Dir) (P : Dir -> Prop) (Q : Dir -> result KeystoreError unit -> Prop) d :
  P (g d) -> Q (g d) (Ok ()) -> io_wp (reads g ≫= set_dir) P Q d.
Proof. intros HP HQ. split; [by constructor; [|constructor]|exact HQ]. Qed.

(** A file is created or truncated, and holds a part of the data if the write
    fails. *)
Lemma io_write e what path data (P : Dir -> Prop) (Q : Dir -> result KeystoreError unit -> Prop) d :
  let m := created_mode (fe_umask e) (d !! path) in
  (forall c, c = data \/ (exists n, c = take n data) -> P (<[ path := mkFile c m ]> d)) ->
  (forall x, Q d (Err x)) ->
  (forall c x, c = data \/ (exists n, c = take n data) -> Q (<[ path := mkFile c m ]> d) (Err x)) ->
  Q (<[ path := mkFile data m ]> d) (Ok ()) ->
  io_wp (write_restricted e what path data) P Q d.
Proof.
  intros m HP H1 H2 H3.
  assert (H0 : P (<[ path := mkFile [] m ]> d)) by (apply HP; right; by exists O).
  unfold write_restricted. apply io_bind. split; [constructor|]. cbn [fst snd reads last default]. fold m.
  assert (Hd : P (<[ path := mkFile data m ]> d)) by (apply HP; by left).
  assert (Hn : forall n, P (<[ path := mkFile (take n data) m ]> d)) by (intros n; apply HP; eauto).
  destruct (fe_write e) as [|x|n x|x]; [|by apply io_fail| |];
    (apply io_bind, io_store; [done|]).
  - apply io_store; by rewrite insert_insert_eq.
  - apply io_bind, io_store; rewrite insert_insert_eq; [done|]. apply io_fail. intros y. apply H2. eauto.
  - apply io_bind, io_store; rewrite insert_insert_eq; [done|]. apply io_fail. intros y. apply H2. by left.
Qed.

Lemma io_run {A} (m : Io A) P Q d : io_wp m P Q d -> Q (run_io m d).1 (run_io m d).2.
Proof. intros [_ H]. unfold run_io. by destruct (m d). Qed.

(** ** The operations *)

Context {KJL : KeyJsonLaws KJ}.

Lemma zeros_unparsed n m : parsed (mkFile (replicate n Byte.x00) m) = None.
Proof.
  unfold parsed, key_of_json. cbn. destruct (parse_key _) eqn:E; [|done]. by apply zeros_not_json in E.
Qed.

Lemma put_spec e m d : all_tagged m ->
  io_wp (put e m) (fun d' => view d' = view d \/ view d' = <[ id m := m ]> (view d))
    (fun d' r => view d' = <[ id m := m ]> (view d) \/ r <> Ok () /\ view d' = view d) d.
Proof.
  intros Hm. unfold put. apply io_bind, io_lock; [by right|]. apply io_bind. split; [constructor|]. cbn [lift_io fst snd last default].
  destruct (key_to_json m) as [json|x] eqn:Ej; cbn; [|by right]. apply io_bind, io_write.
  - intros c _. left. apply view_tmp.
  - by right.
  - intros c x _. right. split; [done|]. apply view_tmp.
  - set (d1 := <[ tmp_path (id m) := _ ]> d). assert (V : view d1 = view d) by apply view_tmp.
    apply io_bind. unfold rename. apply io_bind, io_check; [by right|].
    assert (W : view (<[ key_path (id m) := mkFile json (created_mode (fe_umask e) (d !! tmp_path (id m))) ]>
                  (delete (tmp_path (id m)) d1)) = <[ id m := m ]> (view d)).
    { rewrite view_renamed with (m := m), V; [done|]. unfold parsed. cbn. by rewrite (key_of_to_json _ _ Hm Ej). }
    assert (E : d1 !! tmp_path (id m) = Some (mkFile json (created_mode (fe_umask e) (d !! tmp_path (id m)))))
      by apply lookup_insert_eq.
    apply io_store; rewrite E; [by right|]. apply io_sync; by left.
Qed.

(** C13: However a write of a key ends, and wherever the process dies in it, a reader
    finds every key either as it was or, for the key written, as it is to be; never a
    torn file. Success means the new record is there. The record's material must carry
    the tag of its variant, as all material does that the keystore makes: the variant is
    read back from the text alone. *)
Theorem put_atomic e m d :
  all_tagged m ->
  Forall (fun d' => view d' = view d \/ view d' = <[ id m := m ]> (view d)) (put e m d).1 /\
  ((run_io (put e m) d).2 = Ok () -> get e (id m) (run_io (put e m) d).1 = Ok (Some m) \/
     exists x, fe_read e (key_path (id m)) = Some x).
Proof.
  intros Hm. destruct (put_spec e m d Hm) as [H _]. pose proof (io_run _ _ _ _ (put_spec e m d Hm)) as H2. split; [done|].
  intros Hr. destruct H2 as [V|[? _]]; [|done]. unfold get, read_key_file.
  pose proof (view_lookup (run_io (put e m) d).1 (id m)) as L. rewrite V, lookup_insert_eq in L.
  destruct (_ !! key_path (id m)) as [f|]; [|done]. cbn in L. destruct (fe_read e _); [eauto|]. left.
  unfold parsed in L. destruct (key_of_json _); [|done]. injection L as <-. done.
Qed.

Lemma delete_spec e k d :
  io_wp (delete_key e k) (fun d' => view d' = view d \/ view d' = delete k (view d))
    (fun d' r => view d' = delete k (view d) \/ r <> Ok () /\ view d' = view d) d.
Proof.
  unfold delete_key. apply io_bind, io_lock; [by right|]. apply io_bind. split; [constructor|].
  cbn [reads fst snd last default]. destruct (d !! key_path k) as [f|] eqn:E.
  - apply io_bind, io_check; [by right|].
    assert (W : view (delete (key_path k) d) = delete k (view d)).
    { apply map_eq. intros k'. rewrite view_lookup. destruct (decide (k = k')) as [<-|Hn].
      - by rewrite !lookup_delete_eq.
      - rewrite !lookup_delete_ne by (try done; by intros ?%key_path_inj). by rewrite view_lookup. }
    apply io_store; [by right|by left].
  - apply io_ret. left. cbn. rewrite delete_id; [done|]. by rewrite view_lookup, E.
Qed.

Lemma overwrite_spec e k d :
  io_wp (overwrite_key_file e k) (fun _ => True)
    (fun d' r => (view d' = view d \/ view d' = delete k (view d)) /\
       (r = Ok () -> forall f, d !! key_path k = Some f -> content f <> [] ->
          exists f', d' !! key_path k = Some f' /\ parsed f' = None)) d.
Proof.
  unfold overwrite_key_file. apply io_bind, io_lock; [by split; [left|]|]. apply io_bind. split; [constructor|].
  cbn [reads fst snd last default]. destruct (d !! key_path k) as [f|] eqn:E; [|by apply io_ret; split; [left|]].
  apply io_bind, io_check; [by split; [left|]|]. destruct (length (content f)) as [|n] eqn:El.
  - apply io_ret. split; [by left|]. intros _ f' [= <-] Hne. by destruct (content f).
  - assert (Z0 : forall c, c = replicate (S n) Byte.x00 \/ (exists i, c = take i (replicate (S n) Byte.x00)) ->
      forall m, parsed (mkFile c m) = None).
    { intros c [->|[i ->]] m; [apply zeros_unparsed|]. rewrite take_replicate. apply zeros_unparsed. }
    apply io_bind, io_write; [done|by split; [left|]| |].
    + intros c x Hc. split; [|done]. right. apply view_unparsed. by apply Z0.
    + assert (Hz : forall m, parsed (mkFile (replicate (S n) Byte.x00) m) = None) by (intros; apply zeros_unparsed).
      apply io_sync; [intros x|]; (split; [right; by apply view_unparsed|]); [done|].
      intros _ f0 _ _. rewrite lookup_insert_eq. eauto.
Qed.

(** ** Listing *)

Lemma read_entries_elem e d names l m :
  read_entries e d names = Ok l -> m ∈ l <-> exists n f,
    n ∈ names /\ is_key_file n = true /\ d !! n = Some f /\ parsed f = Some m.
Proof.
  revert l. induction names as [|n names IH]; intros l; cbn [read_entries].
  { intros [= <-]. set_solver. }
  destruct (is_key_file n) eqn:En; [destruct (d !! n) as [f|] eqn:Ef|].
  - intros H. inv_ok H. rewrite elem_of_cons, (IH _ Hx0). unfold read_key_file in Hx.
    destruct (fe_read e n); [done|]. apply map_err_Ok in Hx. split.
    + intros [->|(n' & f' & ? & ?)]; [|set_solver]. exists n, f. unfold parsed. rewrite Hx. set_solver.
    + intros (n' & f' & [->|Hn]%elem_of_cons & H1 & H2 & H3); [left|right; by exists n', f'].
      rewrite Ef in H2. injection H2 as <-. unfold parsed in H3. rewrite Hx in H3. by injection H3.
  - intros H. rewrite (IH _ H). split; [set_solver|].
    intros (n' & f' & [->|Hn]%elem_of_cons & H1 & H2 & H3); [congruence|by exists n', f'].
  - intros H. rewrite (IH _ H). split; [set_solver|].
    intros (n' & f' & [->|Hn]%elem_of_cons & H1 & H2 & H3); [congruence|by exists n', f'].
Qed.

Lemma list_Ok e d l : list_keys e d = Ok l -> read_entries e d (fe_order e d) = Ok l.
Proof.
  unfold list_keys. destruct (fe_readdir e); [done|]. destruct (fe_entry e) as [[n x]|]; [|done].
  by intros H; inv_ok H.
Qed.

Lemma key_file_path n : is_key_file n = true -> exists k, n = key_path k /\ plain_id k = true.
Proof.
  unfold is_key_file. destruct (strip_suffix n ".json") as [k|] eqn:E; [|done].
  apply strip_suffix_Some in E. by exists k.
Qed.
Lemma path_key_file k : plain_id k = true -> is_key_file (key_path k) = true.
Proof. unfold is_key_file, key_path. by rewrite strip_suffix_app. Qed.

Lemma list_elem e d l :
  list_keys e d = Ok l -> (forall k m, view d !! k = Some m -> plain_id k = true) ->
  forall m, m ∈ l <-> exists k, view d !! k = Some m.
Proof.
  intros H%list_Ok Hp m. rewrite (read_entries_elem _ _ _ _ _ H). split.
  - intros (n & f & _ & (k & -> & _)%key_file_path & Hf & Hm). exists k. by rewrite view_lookup, Hf.
  - intros [k Hk]. pose proof (Hp _ _ Hk) as Hpl. rewrite view_lookup in Hk.
    apply bind_Some in Hk as (f & Hf & Hm). exists (key_path k), f.
    split_and!; [|by apply path_key_file|done|done]. rewrite (fe_order_all e d).
    apply list_elem_of_fmap. exists (key_path k, f). split; [done|]. by apply elem_of_map_to_list.
Qed.

Lemma read_entries_nodup e d names l :
  read_entries e d names = Ok l -> NoDup names -> (forall k m, view d !! k = Some m -> id m = k) ->
  NoDup (id <$> l).
Proof.
  intros H Hnd Hid. revert l H. induction names as [|n names IH]; intros l; cbn [read_entries].
  { intros [= <-]. constructor. }
  apply NoDup_cons in Hnd as [Hn Hnd]. specialize (IH Hnd).
  destruct (is_key_file n) eqn:En; [|by auto]. destruct (d !! n) as [f|] eqn:Ef; [|by auto].
  intros H. inv_ok H. rewrite fmap_cons. constructor; [|by auto].
  unfold read_key_file in Hx. destruct (fe_read e n); [done|]. apply map_err_Ok in Hx.
  apply key_file_path in En as (k & -> & _).
  assert (Hk : forall k' m', d !! key_path k' ≫= parsed = Some m' -> id m' = k')
    by (intros k' m' E; apply Hid; by rewrite view_lookup).
  assert (Ex : id x = k) by (apply Hk; rewrite Ef; cbn; unfold parsed; by rewrite Hx).
  intros (m' & E & Hm')%list_elem_of_fmap.
  apply (read_entries_elem _ _ _ _ m' Hx0) in Hm' as (n' & f' & Hin & (k' & -> & _)%key_file_path & Hf' & Hp').
  assert (id m' = k') by (apply Hk; by rewrite Hf'). apply Hn. congruence.
Qed.

#[export] Instance File_backend : StorageBackend := {
  st_state := Dir;
  st_env := FsEnv;
  st_get := get;
  st_put e m := run_io (put e m);
  st_delete e k := run_io (delete_key e k);
  st_list := list_keys;
  st_list_by_state := list_by_state;
  st_list_by_parent := list_by_parent;
  st_overwrite e k := run_io (overwrite_key_file e k);
  st_view := view;
  st_keeps := tagged;
}.

#[export] Instance File_backend_laws : StorageLaws File_backend.
Proof.
  split; cbn; unfold list_by_state, list_by_parent.
  - done.
  - intros k m d. rewrite view_lookup. intros (f & _ & Hf)%bind_Some. unfold parsed in Hf.
    destruct (key_of_json (content f)) as [m'|] eqn:E; [|done]. injection Hf as <-. by apply key_of_json_tagged in E.
  - intros e k d r. unfold get. rewrite view_lookup. destruct (d !! key_path k) as [f|]; [|by intros [= <-]].
    intros H. inv_ok H. unfold read_key_file in Hx. destruct (fe_read e _); [done|]. apply map_err_Ok in Hx.
    cbn. unfold parsed. rewrite Hx. by simplify_eq.
  - intros e m d Hm. exact (io_run _ _ _ _ (put_spec e m d Hm)).
  - intros e k d. exact (io_run _ _ _ _ (delete_spec e k d)).
  - intros e d l. apply list_elem.
  - intros e t d l H Hp m. inv_ok H. simplify_eq. by rewrite list_elem_of_filter, (list_elem _ _ _ Hx Hp).
  - intros e p d l H Hp m. inv_ok H. simplify_eq. by rewrite list_elem_of_filter, (list_elem _ _ _ Hx Hp).
  - intros e p d l H Hid. inv_ok H. simplify_eq. apply filter_nodup.
    eapply read_entries_nodup; [by apply list_Ok| |done]. rewrite (fe_order_all e d). apply NoDup_fst_map_to_list.
  - intros e k d. apply (io_run _ _ _ _ (overwrite_spec e k d)).
Qed.

(** A key file that does not parse makes every listing fail, whatever is
    listed. *)
Lemma unparsed_blocks_listing e d k f :
  plain_id k = true -> d !! key_path k = Some f -> parsed f = None -> is_ok (list_keys e d) = false.
Proof.
  intros Hk Hf Hp. destruct (list_keys e d) as [l|x] eqn:E; [|done]. exfalso. apply list_Ok in E.
  assert (Hin : key_path k ∈ fe_order e d).
  { rewrite (fe_order_all e d). apply list_elem_of_fmap. exists (key_path k, f). split; [done|].
    by apply elem_of_map_to_list. }
  apply path_key_file in Hk. revert l E Hin. generalize (fe_order e d). intros names.
  induction names as [|n names IH]; intros l; cbn [read_entries]; [set_solver|].
  intros H [<-|Hin]%elem_of_cons.
  - rewrite Hk, Hf in H. inv_ok H. unfold read_key_file in Hx. destruct (fe_read e _); [done|].
    apply map_err_Ok in Hx. unfold parsed in Hp. by rewrite Hx in Hp.
  - destruct (is_key_file n); [destruct (d !! n)|]; [inv_ok H|..]; by eapply IH.
Qed.

(** Destroying a key overwrites its file before the new record is written. If that
    write fails, or the process dies before it, the file stays unreadable and takes the
    whole directory with it: no listing succeeds any more, by state or by parent, so no
    key expires and no cascade finds its children. *)
Theorem failed_destroy_blocks_listings e e1 e2 k m d t p :
  plain_id k = true -> (exists f, d !! key_path k = Some f /\ content f <> []) ->
  (run_io (overwrite_key_file e k) d).2 = Ok () -> id m = k ->
  (run_io (put e1 m) (run_io (overwrite_key_file e k) d).1).2 <> Ok () ->
  fe_rename e1 <> None ->
  let d' := (run_io (put e1 m) (run_io (overwrite_key_file e k) d).1).1 in
  is_ok (list_keys e2 d') = false /\ is_ok (list_by_state e2 t d') = false /\
  is_ok (list_by_parent e2 p d') = false /\ is_ok (get e2 k d') = false.
Proof.
  intros Hk (f & Hf & Hc) Ho Hid Hput Hren.
  destruct (io_run _ _ _ _ (overwrite_spec e k d)) as [_ H]. destruct (H Ho f Hf Hc) as (f' & Hf' & Hp').
  set (d1 := (run_io (overwrite_key_file e k) d).1) in *.
  assert (G : io_wp (put e1 m) (fun _ => True) (fun d' _ => d' !! key_path k = Some f') d1).
  { unfold put. apply io_bind, io_lock; [done|]. apply io_bind. split; [constructor|]. cbn [lift_io fst snd last default].
    destruct (key_to_json m); cbn; [|done].
    assert (N : forall g, <[ tmp_path (id m) := g ]> d1 !! key_path k = Some f').
    { intros g. rewrite lookup_insert_ne; [done|]. intros E. by apply (tmp_not_key k (id m)). }
    apply io_bind, io_write; [done..|]. apply io_bind. unfold rename. apply io_bind.
    destruct (fe_rename e1); [|done]. by apply io_fail. }
  apply io_run in G. cbv zeta. set (d2 := (run_io (put e1 m) d1).1) in *.
  pose proof (unparsed_blocks_listing e2 d2 k f' Hk G Hp') as HL. unfold list_by_state, list_by_parent.
  split_and!; [done|by destruct (list_keys e2 d2)|by destruct (list_keys e2 d2)|].
  unfold get, read_key_file. rewrite G. destruct (fe_read e2 _); [done|]. unfold parsed in Hp'.
  by destruct (key_of_json _).
Qed.

(** ** Permissions *)

(** Nobody but the owner can read the file. *)
Definition private (f : File) : bool := Z.land (Z.land (mode f) 511) 63 =? 0.
Definition all_private (d : Dir) : Prop := map_Forall (fun _ f => private f = true) d.

Lemma created_private umask o c :
  (forall f, o = Some f -> private f = true) -> private (mkFile c (created_mode umask o)) = true.
Proof.
  intros H. unfold created_mode. destruct o as [f|]; [exact (H f eq_refl)|]. unfold private. cbn [mode].
  apply Z.eqb_eq, Z.bits_inj'. intros i Hi. rewrite !Z.land_spec, Z.bits_0.
  destruct (decide (i < 6)) as [Hl|Hl].
  - assert (Z.testbit 384 i = false) as ->; [|done].
    assert (i = 0 \/ i = 1 \/ i = 2 \/ i = 3 \/ i = 4 \/ i = 5) as [->|[->|[->|[->|[->| ->]]]]] by lia; done.
  - assert (Z.testbit 63 i = false) as ->; [|by rewrite andb_false_r]. apply Z.bits_above_log2; [done|]. cbn. lia.
Qed.

Lemma insert_private (d : Dir) path umask c :
  all_private d -> all_private (<[ path := mkFile c (created_mode umask (d !! path)) ]> d).
Proof. intros H. apply map_Forall_insert_2; [|done]. apply created_private. intros f Hf. by eapply H. Qed.

(** C30: Once all files of the directory are private they stay so, in every state that
    an operation passes through: key material is never world-readable. *)
Theorem stays_private e m k d :
  all_private d ->
  Forall all_private (put e m d).1 /\ Forall all_private (delete_key e k d).1 /\
  Forall all_private (overwrite_key_file e k d).1.
Proof.
  intros Hd.
  assert (G : forall A (x : Io A), io_wp x all_private (fun d' _ => all_private d') d -> Forall all_private (x d).1)
    by (by intros A x [? _]).
  split_and!; apply G; clear G.
  - unfold put. apply io_bind, io_lock; [done|]. apply io_bind. split; [constructor|]. cbn [lift_io fst snd last default].
    destruct (key_to_json m) as [json|]; cbn; [|done].
    apply io_bind, io_write; [intros; by apply insert_private|done|intros; by apply insert_private|].
    apply io_bind. unfold rename. apply io_bind, io_check; [intros _; by apply insert_private|].
    apply io_store; rewrite lookup_insert_eq.
    + apply map_Forall_insert_2; [apply created_private; intros f Hf; by eapply Hd|].
      by apply map_Forall_delete, insert_private.
    + apply io_sync; [intros _|]; (apply map_Forall_insert_2; [apply created_private; intros f Hf; by eapply Hd|];
        by apply map_Forall_delete, insert_private).
  - unfold delete_key. apply io_bind, io_lock; [done|]. apply io_bind. split; [constructor|].
    cbn [reads fst snd last default]. destruct (d !! key_path k); [|by apply io_ret].
    apply io_bind, io_check; [done|]. apply io_store; by apply map_Forall_delete.
  - unfold overwrite_key_file. apply io_bind, io_lock; [done|]. apply io_bind. split; [constructor|].
    cbn [reads fst snd last default]. destruct (d !! key_path k) as [f|]; [|by apply io_ret].
    apply io_bind, io_check; [done|]. destruct (length (content f)); [by apply io_ret|].
    apply io_bind, io_write; [intros; by apply insert_private|done|intros; by apply insert_private|].
    apply io_sync; [intros _|]; by apply insert_private.
Qed.

(** Opening the backend makes the key files private, but not the temporary files
    that a crash left behind, whose mode the next write of that key takes over. *)
Lemma new_fixes_key_files chmod_ok d :
  (forall n, chmod_ok n = true) ->
  forall n f, (run_io (new None None true chmod_ok) d).1 !! n = Some f ->
    if is_key_file n then private f = true else d !! n = Some f.
Proof.
  intros Hc.
  assert (G : io_wp (new None None true chmod_ok) (fun _ => True) (fun d' _ => forall n f, d' !! n = Some f ->
    if is_key_file n then private f = true else d !! n = Some f) d); [|by apply io_run in G].
  unfold new. apply io_bind, io_ret, io_bind, io_ret, io_store; [done|]. intros n f. rewrite map_lookup_imap.
  destruct (d !! n) as [f0|] eqn:E; [|done]. cbn. unfold fix_mode. rewrite Hc, andb_true_r.
  destruct (is_key_file n); cbn [andb]; [|by intros [= <-]]. unfold private.
  destruct (Z.land (Z.land (mode f0) 511) 63 =? 0) eqn:Em; cbn [negb]; intros [= <-]; done.
Qed.

Lemma stale_tmp_keeps_mode e m d f json :
  d !! tmp_path (id m) = Some f -> key_to_json m = Ok json -> (run_io (put e m) d).2 = Ok () ->
  exists f', (run_io (put e m) d).1 !! key_path (id m) = Some f' /\ mode f' = mode f.
Proof.
  intros Hf Hj Hr.
  assert (G : io_wp (put e m) (fun _ => True) (fun d' r => r = Ok () ->
    exists f', d' !! key_path (id m) = Some f' /\ mode f' = mode f) d).
  { unfold put. apply io_bind, io_lock; [done|]. apply io_bind. split; [constructor|]. cbn [lift_io fst snd last default].
    rewrite Hj. cbn. apply io_bind, io_write; [done..|]. apply io_bind. unfold rename. apply io_bind, io_check; [done|].
    apply io_store; [done|]. rewrite lookup_insert_eq, Hf. apply io_sync; [done|]. intros _.
    rewrite lookup_insert_eq. by eexists. }
  by apply io_run in G; apply G.
Qed.
End backend.
End FileBackend.
