(* ===== verification/Backup.v ===== *)
(** * Encrypted backups ([citadel-keystore/src/backup.rs])

    A header with the time and the nonce, followed by the keys as JSON sealed
    under a key derived from the master key and the time.  Fallible code returns
    [result (fault string)]; the panics of slicing and of
    [try_into().unwrap()] are [Panic]. *)

From S2P Require Import Prelude.
From S2P Require Import Crypto.
From S2P Require Import Types.
From S2P Require Import Hierarchy.
Import Types.

Module Backup.

Definition BACKUP_MAGIC : list byte := bytes_of_string "CTDLBAK".
Definition BACKUP_VERSION : byte := Byte.x01.
Definition HEADER_LEN : Z := 7 + 1 + 8 + 12.

Record BackupPayload := mkPayload {
  schema_version : Z;
  payload_created_at : Z;
  keys : list KeyMetadata;
  key_count : Z;
}.

Definition map_keys (f : KeyMetadata -> KeyMetadata) (p : BackupPayload) : BackupPayload :=
  mkPayload (schema_version p) (payload_created_at p) (f <$> keys p) (key_count p).

(** [serde_json] and the derived implementations on a payload in whose keys the
    material is a text ([as_text]): what was printed parses back. *)
Class BackupJson := {
  print_payload : BackupPayload -> result string (list byte);
  parse_payload : list byte -> result string BackupPayload;
}.
Class BackupJsonLaws (J : BackupJson) : Prop := {
  parse_print_payload p b :
    print_payload (map_keys as_text p) = Ok b -> parse_payload b = Ok (map_keys as_text p);
}.

(** The implementations for [SecretKeyMaterial] choose the text, and the variant
    from the text. *)
Definition payload_to_vec `{BackupJson} (p : BackupPayload) : result string (list byte) :=
  print_payload (map_keys as_text p).
Definition payload_from_slice `{BackupJson} (b : list byte) : result string BackupPayload :=
  p ← parse_payload b; Ok (map_keys of_text p).

Lemma payload_from_to `{BackupJsonLaws} p b :
  Forall all_tagged (keys p) -> payload_to_vec p = Ok b -> payload_from_slice b = Ok p.
Proof.
  unfold payload_to_vec, payload_from_slice. intros Ht Hb. rewrite (parse_print_payload _ _ Hb). cbn.
  destruct p as [v t ks n]. unfold map_keys; cbn in *. do 2 f_equal. rewrite <- list_fmap_compose. clear Hb.
  induction Ht as [|m ks Hm _ IH]; [done|]. rewrite fmap_cons, IH. f_equal. by apply of_as_text.
Qed.

(** The derived [Debug] of a byte slice. *)
Definition debug_bytes (l : list byte) : string :=
  "[" +:+ String.concat ", " ((fun b => pretty (Z_of_byte b)) <$> l) +:+ "]".

Definition bad_magic (l : list byte) : string :=
  "invalid magic bytes; expected " +:+ debug_bytes BACKUP_MAGIC +:+ ", got " +:+ debug_bytes l.
Definition bad_version (b : byte) : string :=
  "unsupported backup version " +:+ pretty (Z_of_byte b) +:+ "; expected "
    +:+ pretty (Z_of_byte BACKUP_VERSION).

Section backup.
Context {P : Primitives} {J : BackupJson} (hkdf_error : string).

Definition backup_info (t : list byte) : list byte := bytes_of_string "citadel-backup-v1:" ++ t.

Definition derive (master_key t : list byte) : result (fault string) (list byte) :=
  ok_or (hkdf_expand None master_key (backup_info t) 32) (Fail ("HKDF expand: " +:+ hkdf_error)).

(** [now_unix] and [now] are the two readings of the clock, [nonce_bytes] the
    bytes drawn. *)
Definition create_backup (now_unix now : Z) (nonce_bytes : list byte) (ks : list KeyMetadata)
    (master_key : list byte) : result (fault string) (list byte) :=
  let payload := mkPayload 1 now ks (len ks) in
  json ← map_err (fun e => Fail ("serialize: " +:+ e)) (payload_to_vec payload);
  wrap_key ← derive master_key (u64_be now_unix);
  ciphertext ← ok_or (gcm_encrypt wrap_key nonce_bytes json (u64_be now_unix))
                 (Fail "AES-256-GCM encryption failed"%string);
  Ok (BACKUP_MAGIC ++ [BACKUP_VERSION] ++ u64_be now_unix ++ nonce_bytes ++ ciphertext).

Definition decrypt_backup (data master_key : list byte) : result (fault string) BackupPayload :=
  _ ← bail_if (len data <? HEADER_LEN + 16) (Fail "backup file too short"%string);
  magic ← slice_or_panic data 0 7;
  _ ← bail_if (negb (bool_decide (magic = BACKUP_MAGIC))) (Fail (bad_magic magic));
  v ← idx data 7;
  _ ← bail_if (negb (bool_decide (v = BACKUP_VERSION))) (Fail (bad_version v));
  t ← slice_or_panic data 8 16;
  let timestamp := be_val t in
  nonce_bytes ← slice_or_panic data 16 28;
  ciphertext ← slice_or_panic data 28 (len data);
  wrap_key ← derive master_key (u64_be timestamp);
  plaintext ← ok_or (gcm_decrypt wrap_key nonce_bytes ciphertext (u64_be timestamp))
    (Fail ("AES-256-GCM decryption failed" +:+ Hierarchy.dash +:+ "wrong master key or corrupted backup"));
  map_err (fun e => Fail ("backup payload parse failed: " +:+ e)) (payload_from_slice plaintext).

Definition verify_backup (data master_key : list byte) : result (fault string) (Z * Z) :=
  payload ← decrypt_backup data master_key; Ok (key_count payload, payload_created_at payload).
Definition restore_backup (data master_key : list byte) : result (fault string) (list KeyMetadata) :=
  payload ← decrypt_backup data master_key; Ok (keys payload).

(** ** Through a custody provider, whose [load_root_key] answered [root] *)

Definition root_provider_error (e : string) : fault string :=
  Fail ("root-key provider unavailable: " +:+ e).
Definition create_backup_with_provider now_unix now nonce_bytes ks (root : result string (list byte)) :=
  key ← map_err root_provider_error root; create_backup now_unix now nonce_bytes ks key.
Definition verify_backup_with_provider data (root : result string (list byte)) :=
  key ← map_err root_provider_error root; verify_backup data key.
Definition restore_backup_with_provider data (root : result string (list byte)) :=
  key ← map_err root_provider_error root; restore_backup data key.

(** ** Properties *)

Lemma decrypt_backup_never_panics data mk : decrypt_backup data mk <> Err Panic.
Proof.
  unfold decrypt_backup, derive, HEADER_LEN. no_panic; bool_hyps; try lia.
  by destruct (payload_from_slice _).
Qed.

Context {PL : PrimitiveLaws P} {JL : BackupJsonLaws J}.

(** What a backup file is. *)
Lemma create_layout nu t nonce ks mk out :
  create_backup nu t nonce ks mk = Ok out -> exists json key ct,
    payload_to_vec (mkPayload 1 t ks (len ks)) = Ok json /\
    hkdf_expand None mk (backup_info (u64_be nu)) 32 = Some key /\
    gcm_encrypt key nonce json (u64_be nu) = Some ct /\
    out = BACKUP_MAGIC ++ [BACKUP_VERSION] ++ u64_be nu ++ nonce ++ ct.
Proof. unfold create_backup, derive. intros H. inv_ok H. simplify_eq. by eexists _, _, _. Qed.

Lemma restored_tagged data mk ks : restore_backup data mk = Ok ks -> Forall all_tagged ks.
Proof.
  unfold restore_backup, decrypt_backup, payload_from_slice. intros H. inv_ok H. simplify_eq. cbn. apply Forall_fmap, Forall_true. intros m. apply of_text_tagged.
Qed.

(** A backup verifies and restores exactly what was backed up, with the key it was
    made with, and reading any file at all never panics. *)
Theorem backup_roundtrip nu t nonce ks mk out :
  Forall all_tagged ks -> 0 <= nu < 2 ^ 64 -> len nonce = 12 -> create_backup nu t nonce ks mk = Ok out ->
  restore_backup out mk = Ok ks /\ verify_backup out mk = Ok (len ks, t) /\
  len out >= HEADER_LEN + 16 /\ forall data key, decrypt_backup data key <> Err Panic.
Proof.
  intros Ht Hnu Hn H. apply create_layout in H as (json & key & ct & Hj & Hk & Hc & ->).
  pose proof (gcm_size _ _ _ _ _ Hc) as Hl.
  assert (L : len (BACKUP_MAGIC ++ [BACKUP_VERSION] ++ u64_be nu ++ nonce ++ ct) = 28 + len ct).
  { rewrite !length_app, length_be_bytes. cbn. lia. }
  set (d := BACKUP_MAGIC ++ _) in *.
  assert (S1 : slice d 0 7 = Some BACKUP_MAGIC) by (by apply slice_prefix).
  assert (S2 : slice d 8 16 = Some (u64_be nu)).
  { apply (slice_app (BACKUP_MAGIC ++ [BACKUP_VERSION]) (u64_be nu) (nonce ++ ct)); by rewrite ?length_be_bytes. }
  assert (S3 : slice d 16 28 = Some nonce).
  { unfold d. rewrite !(assoc_L (++)), <- (assoc_L (++) _ nonce ct).
    apply slice_app; rewrite !length_app, length_be_bytes; cbn; lia. }
  assert (S4 : slice d 28 (len d) = Some ct).
  { unfold d. rewrite !(assoc_L (++)). apply slice_to_end; rewrite !length_app, length_be_bytes; cbn; lia. }
  assert (D : decrypt_backup d mk = Ok (mkPayload 1 t ks (len ks))).
  { unfold decrypt_backup, slice_or_panic, derive. rewrite S1, S2, S3, S4, L. cbn [ok_or].
    unfold HEADER_LEN. rewrite (proj2 (Z.ltb_ge _ _)) by lia.
    change (idx d 7) with (Ok (E := fault string) BACKUP_VERSION).
    cbn -[be_bytes be_val backup_info]. rewrite be_val_bytes_small by done. rewrite Hk. cbn -[be_bytes]. rewrite (gcm_correct _ _ _ _ _ Hc). cbn.
    by rewrite (payload_from_to (mkPayload 1 t ks (len ks)) _ Ht Hj). }
  unfold restore_backup, verify_backup. rewrite D, L. split_and!; [done|done|unfold HEADER_LEN; lia|].
  intros data0 key0. apply decrypt_backup_never_panics.
Qed.
End backup.
End Backup.
