(* ===== verification/Replay.v ===== *)
(** * Replay protection ([citadel-keystore/src/replay_store.rs])

    [ReplayStore] is the trait; its laws are what the keystore relies on.  The
    memory store and the file store are translated and shown to satisfy them.
    An environment carries the clock readings of one call and, for the file
    store, the outcome of its disk writes.  Mutex poisoning needs a panic inside
    a critical section, of which there is none, so it is left out. *)

From S2P Require Import Prelude.
From S2P Require Import Types.

(** ** The interface *)

Class ReplayStore := {
  rs_state : Type;
  rs_env : Type;
  claim : rs_env -> list byte -> Z -> rs_state -> rs_state * result string bool;
  release : rs_env -> list byte -> rs_state -> rs_state * result string unit;
  (** the store holds an unexpired claim on the key at the time of a call *)
  rs_live : rs_env -> rs_state -> list byte -> Prop;
  (** the second call is within the time-to-live of a claim made by the first
      (the one it was given, or the store's own) *)
  rs_within : rs_state -> Z -> rs_env -> rs_env -> Prop;
}.

Class ReplayStoreLaws (R : ReplayStore) : Prop := {
  claim_live e s k ttl : rs_live e s k -> (claim e k ttl s).2 <> Ok true;
  claim_not_live e s k ttl : ~ rs_live e s k -> (claim e k ttl s).2 <> Ok false;
  claim_true e e' s k ttl :
    (claim e k ttl s).2 = Ok true -> rs_within s ttl e e' -> rs_live e' (claim e k ttl s).1 k;
  claim_keeps e e' s k k' ttl :
    rs_live e s k -> rs_live e' s k -> rs_live e' (claim e k' ttl s).1 k;
  release_keeps e e' s k k' :
    k <> k' -> rs_live e' s k -> rs_live e' (release e k' s).1 k;
  release_frees e e' s k :
    (release e k s).2 = Ok () -> ~ rs_live e' (release e k s).1 k;
  within_stable_claim e s k ttl ttl' a b : rs_within (claim e k ttl s).1 ttl' a b <-> rs_within s ttl' a b;
  within_stable_release e s k ttl' a b : rs_within (release e k s).1 ttl' a b <-> rs_within s ttl' a b;
}.

Module Replay.

(** ** Replay keys *)

(** What is hashed: the fields one after the other. *)
Definition replay_preimage (domain_id key_id : string) (key_version : Z) (nonce aead_tag : list byte) :
    list byte :=
  bytes_of_string domain_id ++ bytes_of_string key_id ++ u32_be key_version ++ nonce ++ aead_tag.

Definition derive_replay_key `{Digest} (domain_id key_id : string) (key_version : Z)
    (nonce aead_tag : list byte) : list byte :=
  digest (replay_preimage domain_id key_id key_version nonce aead_tag).

Lemma length_bytes_of_string s : length (bytes_of_string s) = String.length s.
Proof. induction s as [|c s IH]; [done|]. cbn. by rewrite <- IH. Qed.

(** With identifiers of a fixed length (the keystore generates 32 hex digits) and
    the fixed sizes of nonce and tag, the hashed text determines every field. *)
Theorem replay_preimage_injective d1 k1 v1 n1 t1 d2 k2 v2 n2 t2 :
  String.length k1 = String.length k2 -> String.length d1 = String.length d2 ->
  0 <= v1 <= U32_MAX -> 0 <= v2 <= U32_MAX -> len n1 = 12 -> len n2 = 12 ->
  replay_preimage d1 k1 v1 n1 t1 = replay_preimage d2 k2 v2 n2 t2 ->
  d1 = d2 /\ k1 = k2 /\ v1 = v2 /\ n1 = n2 /\ t1 = t2.
Proof.
  unfold replay_preimage, U32_MAX. intros Hk Hd Hv1 Hv2 Hn1 Hn2 E.
  apply app_inj_len in E as [Ed E]; [|by rewrite !length_bytes_of_string].
  apply app_inj_len in E as [Ek E]; [|by rewrite !length_bytes_of_string].
  apply app_inj_len in E as [Ev E]; [|by rewrite !length_be_bytes].
  apply app_inj_len in E as [En Et]; [|lia].
  apply bytes_of_string_inj in Ed, Ek. apply be_bytes_inj in Ev; [|cbn; lia..]. done.
Qed.

(** Without equal lengths it does not: the domain and the key identifier are
    not separated. *)
Theorem replay_key_ambiguous `{Digest} d k s v n t :
  derive_replay_key (d +:+ s) k v n t = derive_replay_key d (s +:+ k) v n t.
Proof.
  unfold derive_replay_key, replay_preimage. f_equal.
  assert (A : forall x y, bytes_of_string (x +:+ y) = bytes_of_string x ++ bytes_of_string y).
  { intros x y. induction x as [|c x IH]; [done|]. rewrite append_cons. cbn. by f_equal. }
  by rewrite !A, <- !(assoc_L (++)).
Qed.

(** ** Single use, from the interface alone *)

Section traces.
Context {R : ReplayStore} {RL : ReplayStoreLaws R}.

Inductive rop : Type :=
| OpClaim (e : rs_env) (k : list byte) (ttl : Z)
| OpRelease (e : rs_env) (k : list byte).

Definition rop_env (o : rop) : rs_env := match o with OpClaim e _ _ | OpRelease e _ => e end.

Definition rexec (o : rop) (s : rs_state) : rs_state * option bool :=
  match o with
  | OpClaim e k ttl =>
      let '(s', r) := claim e k ttl s in (s', match r with Ok b => Some b | Err _ => None end)
  | OpRelease e k => ((release e k s).1, None)
  end.

Fixpoint rrun (s : rs_state) (os : list rop) : rs_state :=
  match os with [] => s | o :: os => rrun (rexec o s).1 os end.

Lemma rexec_live e' o s k :
  rs_live e' s k -> rs_live (rop_env o) s k -> (forall e, o <> OpRelease e k) ->
  rs_live e' (rexec o s).1 k.
Proof.
  intros Hl Ho Hn. destruct o as [e k' ttl|e k']; cbn in *.
  - pose proof (claim_keeps e e' s k k' ttl Ho Hl) as H.
    by destruct (claim e k' ttl s).
  - apply release_keeps; [|done]. intros <-. by eapply Hn.
Qed.

(** After a claim that succeeded, no claim of the same key succeeds within the
    time-to-live, whatever other claims and releases (of other keys) are
    interleaved. *)
Lemma single_use s e k ttl os e' ttl' :
  (claim e k ttl s).2 = Ok true ->
  Forall (fun o => (forall e0, o <> OpRelease e0 k) /\ rs_within s ttl e (rop_env o)) os ->
  rs_within s ttl e e' ->
  (claim e' k ttl' (rrun (claim e k ttl s).1 os)).2 <> Ok true.
Proof.
  intros Hc Hos Hw. apply claim_live.
  assert (G : forall e0, rs_within s ttl e e0 -> rs_live e0 (claim e k ttl s).1 k)
    by (intros e0; by apply claim_true).
  clear Hc. revert G. generalize (claim e k ttl s).1 as s0. induction Hos as [|o os [Hn Hwo] _ IH].
  - intros s0 G. by apply G.
  - intros s0 G. cbn. apply IH. intros e0 H0. apply rexec_live; auto.
Qed.
End traces.

(** ** The memory store *)

(** [Instant]s in nanoseconds; [duration_since] saturates at zero. *)
Record MemoryReplayStore := { seen : gmap (list byte) Z; mem_ttl : Z }.

Definition memory_new (ttl : Z) : MemoryReplayStore := {| seen := ∅; mem_ttl := ttl |}.
Definition memory_defaults : MemoryReplayStore := memory_new (from_secs 86400).

Definition evict_expired (now : Z) (s : MemoryReplayStore) : MemoryReplayStore :=
  {| seen := filter (fun p => saturating_sub now p.2 < mem_ttl s) (seen s); mem_ttl := mem_ttl s |}.

(** The two readings of the clock in a call. *)
Record MemEnv := { me_evict : Z; me_insert : Z }.

Definition memory_claim (e : MemEnv) (key : list byte) (_ttl : Z) (s : MemoryReplayStore) :
    MemoryReplayStore * result string bool :=
  let s := evict_expired (me_evict e) s in
  if bool_decide (is_Some (seen s !! key)) then (s, Ok false)
  else ({| seen := <[ key := me_insert e ]> (seen s); mem_ttl := mem_ttl s |}, Ok true).

Definition memory_release (key : list byte) (s : MemoryReplayStore) :
    MemoryReplayStore * result string unit :=
  ({| seen := delete key (seen s); mem_ttl := mem_ttl s |}, Ok ()).

#[export] Instance MemoryReplay : ReplayStore := {
  rs_state := MemoryReplayStore;
  rs_env := MemEnv;
  claim := memory_claim;
  release := fun _ => memory_release;
  rs_live e s k := exists t, seen s !! k = Some t /\ saturating_sub (me_evict e) t < mem_ttl s;
  rs_within s _ e e' := saturating_sub (me_evict e') (me_insert e) < mem_ttl s;
}.

Lemma evict_lookup now s k t :
  seen (evict_expired now s) !! k = Some t <->
  seen s !! k = Some t /\ saturating_sub now t < mem_ttl s.
Proof. cbn. by rewrite map_lookup_filter_Some. Qed.

#[export] Instance MemoryReplay_laws : ReplayStoreLaws MemoryReplay.
Proof.
  split; cbn [rs_state rs_env claim release rs_live rs_within MemoryReplay]; unfold memory_claim.
  - intros e s k ttl (t & Ht & Hl). rewrite bool_decide_true; [done|].
    exists t. by apply evict_lookup.
  - intros e s k ttl Hn. rewrite bool_decide_false; [done|]. intros [t ?%evict_lookup].
    apply Hn. by exists t.
  - intros e e' s k ttl. case_bool_decide; [done|]. intros _ Hw. exists (me_insert e). cbn.
    by rewrite lookup_insert_eq.
  - intros e e' s k k' ttl (t & Ht & Hl) (t' & Ht' & Hl'). assert (t' = t) as -> by congruence.
    assert (He : seen (evict_expired (me_evict e) s) !! k = Some t) by (by apply evict_lookup).
    case_bool_decide as Hd.
    + by exists t.
    + exists t. cbn [fst seen mem_ttl]. split; [|done]. rewrite lookup_insert_ne; [done|].
      intros ->. apply Hd. by exists t.
  - intros e e' s k k' Hn (t & Ht & Hl). exists t. cbn. by rewrite lookup_delete_ne by done.
  - intros e e' s k _ (t & Ht & _). cbn in Ht. by rewrite lookup_delete_eq in Ht.
  - intros e s k ttl ttl' a b. by case_bool_decide.
  - done.
Qed.

Inductive mop : Type :=
| MClaim (k : list byte) (ttl : Z)
| MRelease (k : list byte).

Definition mexec (e : MemEnv) (o : mop) (s : MemoryReplayStore) : MemoryReplayStore :=
  match o with MClaim k ttl => (memory_claim e k ttl s).1 | MRelease k => (memory_release k s).1 end.
Fixpoint mrun (os : list (MemEnv * mop)) (s : MemoryReplayStore) : MemoryReplayStore :=
  match os with [] => s | (e, o) :: os => mrun os (mexec e o s) end.

(** An unexpired claim stays until it is released. *)
Lemma mexec_holds e o s k t :
  seen s !! k = Some t -> saturating_sub (me_evict e) t < mem_ttl s -> o <> MRelease k ->
  seen (mexec e o s) !! k = Some t /\ mem_ttl (mexec e o s) = mem_ttl s.
Proof.
  intros Hk Hl Hn. assert (He : seen (evict_expired (me_evict e) s) !! k = Some t) by (by apply evict_lookup).
  destruct o as [k' ttl|k']; cbn [mexec].
  - unfold memory_claim. case_bool_decide as Hd; [done|]. cbn [fst seen mem_ttl]. split; [|done].
    rewrite lookup_insert_ne; [done|]. intros ->. apply Hd. by exists t.
  - cbn. rewrite lookup_delete_ne; [done|]. congruence.
Qed.

Lemma mrun_holds os s k t :
  seen s !! k = Some t ->
  Forall (fun p => saturating_sub (me_evict p.1) t < mem_ttl s /\ p.2 <> MRelease k) os ->
  seen (mrun os s) !! k = Some t /\ mem_ttl (mrun os s) = mem_ttl s.
Proof.
  revert s. induction os as [|[e o] os IH]; intros s Hk Hos; [done|].
  apply Forall_cons in Hos as [[Hl Hn] Hos]. destruct (mexec_holds e o s k t Hk Hl Hn) as [Hk' Ht].
  cbn [mrun]. rewrite <- Ht. apply IH; [done|]. by rewrite Ht.
Qed.

(** ** The file store *)

(** Unix seconds and nanosecond instants; the disk is what the next start will
    find: nothing, something unreadable, something that does not parse, or the
    recorded entries. *)
Inductive replay_file : Type :=
| Missing
| Unreadable (msg : string)
| Corrupt (msg : string)
| Entries (l : list (string * Z)).

Record FileReplayStore := mkFileStore {
  claims : gmap (list byte) Z;
  ops_since_flush : Z;
  last_flush : Z;
  default_ttl_secs : Z;
  disk : replay_file;
}.

(** The readings of one call, and the outcome of writing, syncing and renaming
    the temporary file: an error leaves the file itself untouched. *)
Record FileEnv := mkFileEnv {
  fe_evict : Z; fe_insert : Z; fe_elapsed : Z; fe_flush : Z; fe_reset : Z;
  fe_io : option string;
}.

Definition cutoff (now ttl : Z) : Z := saturating_sub now ttl.

Section file.
Context `{Hex}.

Fixpoint load_entries (cut : Z) (l : list (string * Z)) (acc : gmap (list byte) Z) :
    result string (gmap (list byte) Z) :=
  match l with
  | [] => Ok acc
  | (key_hex, ts) :: l =>
      if cut <=? ts
      then match hex_decode key_hex with
           | Some k => load_entries cut l (<[ k := ts ]> acc)
           | None => Err ("replay file contains invalid key_hex " +:+ key_hex)
           end
      else load_entries cut l acc
  end.

(** [FileReplayStore::new]; the texts of the error messages are shortened. *)
Definition file_new (now instant ttl : Z) (d : replay_file) : result string FileReplayStore :=
  let ttl_secs := as_secs ttl in
  claims ← match d with
           | Missing => Ok ∅
           | Unreadable msg => Err ("replay file exists but cannot be read: " +:+ msg)
           | Corrupt msg => Err ("replay file is corrupt: " +:+ msg)
           | Entries l => load_entries (cutoff now ttl_secs) l ∅
           end;
  Ok {| claims := claims; ops_since_flush := 0; last_flush := instant;
        default_ttl_secs := ttl_secs; disk := d |}.

Definition entries_of (cut : Z) (m : gmap (list byte) Z) : list (string * Z) :=
  (fun p => (hex_encode p.1, p.2)) <$> map_to_list (filter (fun p => cut <= p.2) m).

Definition flush (now : Z) (io : option string) (s : FileReplayStore) :
    FileReplayStore * result string unit :=
  match io with
  | Some e => (s, Err e)
  | None =>
      ({| claims := claims s; ops_since_flush := ops_since_flush s; last_flush := last_flush s;
          default_ttl_secs := default_ttl_secs s;
          disk := Entries (entries_of (cutoff now (default_ttl_secs s)) (claims s)) |}, Ok ())
  end.

Definition BATCH_SIZE : Z := 100.
Definition BATCH_INTERVAL_SECS : Z := 5.
Definition HIGH_WATER_MARK : Z := 10000.

Definition should_flush (now : Z) (s : FileReplayStore) : bool :=
  (BATCH_SIZE <=? ops_since_flush s)
  || (BATCH_INTERVAL_SECS <=? as_secs (saturating_sub now (last_flush s)))
  || (HIGH_WATER_MARK <=? Z.of_nat (size (claims s))).

Definition set_claims (s : FileReplayStore) (m : gmap (list byte) Z) : FileReplayStore :=
  {| claims := m; ops_since_flush := ops_since_flush s; last_flush := last_flush s;
     default_ttl_secs := default_ttl_secs s; disk := disk s |}.
Definition reset_batch (s : FileReplayStore) (instant : Z) : FileReplayStore :=
  {| claims := claims s; ops_since_flush := 0; last_flush := instant;
     default_ttl_secs := default_ttl_secs s; disk := disk s |}.

Definition force_flush (e : FileEnv) (s : FileReplayStore) : FileReplayStore * result string unit :=
  let '(s, r) := flush (fe_flush e) (fe_io e) s in
  match r with Err m => (s, Err m) | Ok _ => (reset_batch s (fe_reset e), Ok ()) end.

(** [Drop]: errors are only logged. *)
Definition file_drop (e : FileEnv) (s : FileReplayStore) : replay_file :=
  disk (flush (fe_flush e) (fe_io e) s).1.

Definition file_evict (now : Z) (s : FileReplayStore) : FileReplayStore :=
  set_claims s (filter (fun p => cutoff now (default_ttl_secs s) <= p.2) (claims s)).

Definition file_claim (e : FileEnv) (key : list byte) (_ttl : Z) (s : FileReplayStore) :
    FileReplayStore * result string bool :=
  let s := file_evict (fe_evict e) s in
  if bool_decide (is_Some (claims s !! key)) then (s, Ok false)
  else
    let s := {| claims := <[ key := fe_insert e ]> (claims s);
                ops_since_flush := ops_since_flush s + 1; last_flush := last_flush s;
                default_ttl_secs := default_ttl_secs s; disk := disk s |} in
    if should_flush (fe_elapsed e) s then
      let '(s, r) := flush (fe_flush e) (fe_io e) s in
      match r with
      | Err m => (set_claims s (delete key (claims s)), Err m)
      | Ok _ => (reset_batch s (fe_reset e), Ok true)
      end
    else (s, Ok true).

Definition file_release (e : FileEnv) (key : list byte) (s : FileReplayStore) :
    FileReplayStore * result string unit :=
  let s := set_claims s (delete key (claims s)) in
  let '(s, r) := flush (fe_flush e) (fe_io e) s in
  match r with Err m => (s, Err m) | Ok _ => (reset_batch s (fe_reset e), Ok ()) end.

#[export] Instance FileReplay : ReplayStore := {
  rs_state := FileReplayStore;
  rs_env := FileEnv;
  claim := file_claim;
  release := file_release;
  rs_live e s k := exists t, claims s !! k = Some t /\ cutoff (fe_evict e) (default_ttl_secs s) <= t;
  rs_within s _ e e' := cutoff (fe_evict e') (default_ttl_secs s) <= fe_insert e;
}.

Lemma file_evict_lookup now s k t :
  claims (file_evict now s) !! k = Some t <->
  claims s !! k = Some t /\ cutoff now (default_ttl_secs s) <= t.
Proof. cbn. by rewrite map_lookup_filter_Some. Qed.

Lemma flush_frame now io s :
  let s' := (flush now io s).1 in
  claims s' = claims s /\ default_ttl_secs s' = default_ttl_secs s /\
  ops_since_flush s' = ops_since_flush s /\ last_flush s' = last_flush s.
Proof. by destruct io. Qed.

(** What a claim does to the claims in memory. *)
Lemma file_claim_claims e k ttl s :
  default_ttl_secs (file_claim e k ttl s).1 = default_ttl_secs s /\
  match (file_claim e k ttl s).2 with
  | Ok true => claims (file_evict (fe_evict e) s) !! k = None /\
      claims (file_claim e k ttl s).1 = <[ k := fe_insert e ]> (claims (file_evict (fe_evict e) s))
  | Ok false => is_Some (claims (file_evict (fe_evict e) s) !! k) /\
      file_claim e k ttl s = (file_evict (fe_evict e) s, Ok false)
  | Err _ => claims (file_evict (fe_evict e) s) !! k = None /\
      claims (file_claim e k ttl s).1 = claims (file_evict (fe_evict e) s)
  end.
Proof.
  unfold file_claim. case_bool_decide as Hd; [done|].
  apply eq_None_not_Some in Hd. destruct (should_flush _ _); [|done].
  destruct (fe_io e); cbn; [|done]. split_and!; [done|done|]. by apply delete_insert_id.
Qed.

#[export] Instance FileReplay_laws : ReplayStoreLaws FileReplay.
Proof.
  split; cbn [rs_state rs_env claim release rs_live rs_within FileReplay].
  - intros e s k ttl (t & Ht & Hl) E. pose proof (file_claim_claims e k ttl s) as [_ H0].
    rewrite E in H0. destruct H0 as [Hn _].
    assert (claims (file_evict (fe_evict e) s) !! k = Some t) by (by apply file_evict_lookup). congruence.
  - intros e s k ttl Hn E. pose proof (file_claim_claims e k ttl s) as [_ H0].
    rewrite E in H0. destruct H0 as [[t ?%file_evict_lookup] _]. apply Hn. by exists t.
  - intros e e' s k ttl E Hw. pose proof (file_claim_claims e k ttl s) as [Ht H0].
    rewrite E in H0. destruct H0 as [_ ->]. exists (fe_insert e). by rewrite lookup_insert_eq, Ht.
  - intros e e' s k k' ttl (t & Ht & Hl) (t' & Ht' & Hl'). assert (t' = t) as -> by congruence.
    pose proof (file_claim_claims e k' ttl s) as [Httl H0]. exists t. rewrite Httl. split; [|done].
    assert (He : claims (file_evict (fe_evict e) s) !! k = Some t) by (by apply file_evict_lookup).
    destruct (file_claim e k' ttl s).2 as [[]|] eqn:E.
    + destruct H0 as [Hn ->]. rewrite lookup_insert_ne; [done|]. intros ->. congruence.
    + destruct H0 as [_ ->]. done.
    + destruct H0 as [_ ->]. done.
  - intros e e' s k k' Hn (t & Ht & Hl). exists t. unfold file_release.
    destruct (fe_io e); cbn; by rewrite lookup_delete_ne by done.
  - intros e e' s k _ (t & Ht & _). revert Ht. unfold file_release.
    destruct (fe_io e); cbn; by rewrite lookup_delete_eq.
  - intros e s k ttl ttl' a b. by destruct (file_claim_claims e k ttl s) as [-> _].
  - intros e s k ttl' a b. unfold file_release. by destruct (fe_io e).
Qed.

(** *** Durability *)

Context {HL : HexLaws _}.

Lemma load_entries_spec cut l acc :
  (forall m, m ∈ l -> exists k, hex_decode m.1 = Some k) ->
  exists m, load_entries cut l acc = Ok m /\
    forall k t, m !! k = Some t ->
      acc !! k = Some t \/ exists h, (h, t) ∈ l /\ hex_decode h = Some k /\ cut <= t.
Proof.
  revert acc. induction l as [|[h t] l IH]; intros acc Hd; cbn.
  - exists acc. split; [done|]. auto.
  - assert (Hd' : forall m, m ∈ l -> exists k, hex_decode m.1 = Some k) by set_solver.
    destruct (Hd (h, t)) as [k Hk]; [set_solver|]. cbn in Hk. rewrite Hk.
    destruct (Z.leb_spec cut t).
    + destruct (IH (<[ k := t ]> acc) Hd') as (m & -> & Hm). exists m. split; [done|].
      intros k' t' [Hi|(h' & ? & ? & ?)]%Hm; [|right; exists h'; set_solver].
      apply lookup_insert_Some in Hi as [[<- <-]|[_ ?]]; [right; exists h; set_solver|by left].
    + destruct (IH acc Hd') as (m & -> & Hm). exists m. split; [done|].
      intros k' t' [Hi|(h' & ? & ? & ?)]%Hm; [by left|right; exists h'; set_solver].
Qed.

Lemma load_keeps cut l acc m k t :
  load_entries cut l acc = Ok m -> acc !! k = Some t ->
  (forall h t', (h, t') ∈ l -> hex_decode h = Some k -> t' = t) -> m !! k = Some t.
Proof.
  revert acc. induction l as [|[h t1] l IH]; intros acc; cbn; [by intros [= ->]|].
  destruct (cut <=? t1); [|intros E Ha Hu; apply (IH acc E Ha); set_solver].
  destruct (hex_decode h) as [k1|] eqn:Hh; [|done]. intros E Ha Hu.
  apply (IH _ E); [|set_solver]. apply lookup_insert_Some.
  destruct (decide (k1 = k)) as [->|]; [left|by right]. split; [done|]. apply (Hu h); [set_solver|done].
Qed.

Lemma entries_of_elem cut m h t :
  (h, t) ∈ entries_of cut m <-> exists k, h = hex_encode k /\ m !! k = Some t /\ cut <= t.
Proof.
  unfold entries_of. rewrite list_elem_of_fmap. split.
  - intros ([k t'] & [= -> ->] & Hin%elem_of_map_to_list%map_lookup_filter_Some). exists k. naive_solver.
  - intros (k & -> & Hm & Hc). exists (k, t). split; [done|].
    by apply elem_of_map_to_list, map_lookup_filter_Some.
Qed.

(** The log written by a flush at [u] is read back at [now] as exactly the
    claims that were unexpired at both times. *)
Lemma flush_then_load u now ttl m m' :
  load_entries (cutoff now ttl) (entries_of (cutoff u ttl) m) ∅ = Ok m' ->
  forall k t, m' !! k = Some t <-> m !! k = Some t /\ cutoff u ttl <= t /\ cutoff now ttl <= t.
Proof.
  intros E k t. split.
  - intros Hm. destruct (load_entries_spec (cutoff now ttl) (entries_of (cutoff u ttl) m) ∅)
      as (m2 & E2 & Hs).
    { intros [h t'] (k' & -> & _)%entries_of_elem. exists k'. apply hex_decode_encode. }
    rewrite E in E2. injection E2 as <-. destruct (Hs k t Hm) as [?|(h & Hin & Hh & ?)]; [done|].
    apply entries_of_elem in Hin as (k' & -> & ? & ?). rewrite hex_decode_encode in Hh.
    by injection Hh as ->.
  - intros (Hm & Hu & Hn). assert (Hin : (hex_encode k, t) ∈ entries_of (cutoff u ttl) m)
      by (apply entries_of_elem; eauto).
    assert (Huniq : forall h t', (h, t') ∈ entries_of (cutoff u ttl) m -> hex_decode h = Some k -> t' = t).
    { intros h t' (k' & -> & Hk' & _)%entries_of_elem Hh. rewrite hex_decode_encode in Hh.
      injection Hh as ->. congruence. }
    revert E Hin Huniq. generalize (entries_of (cutoff u ttl) m), (∅ : gmap (list byte) Z).
    induction l as [|[h t1] l IH]; intros acc E Hin Huniq; [by apply elem_of_nil in Hin|].
    cbn in E. apply elem_of_cons in Hin as [[= <- <-]|Hin].
    + apply Z.leb_le in Hn. rewrite Hn, hex_decode_encode in E.
      eapply load_keeps; [done|apply lookup_insert_eq|]. set_solver.
    + destruct (_ <=? t1); [destruct (hex_decode h); [|done]|]; apply IH in E; auto; set_solver.
Qed.

(** Restarting from the file, at a later time. *)
Definition restart (now instant : Z) (s : FileReplayStore) : result string FileReplayStore :=
  file_new now instant (from_secs (default_ttl_secs s)) (disk s).

(** Claims survive a crash once flushed: after a forced flush, a flushed claim
    or a release, the restarted store holds exactly the unexpired claims. *)
Definition durable (u : Z) (s : FileReplayStore) : Prop :=
  disk s = Entries (entries_of (cutoff u (default_ttl_secs s)) (claims s)).

Lemma as_from_secs n : as_secs (from_secs n) = n.
Proof. unfold as_secs, from_secs, NANOS_PER_SEC. by rewrite Z.div_mul. Qed.

(** A restart from a flushed log brings back exactly the claims that are still
    unexpired. *)
Theorem durable_restart u now i s :
  durable u s -> u <= now ->
  exists s', restart now i s = Ok s' /\ default_ttl_secs s' = default_ttl_secs s /\
    forall k t, claims s' !! k = Some t <->
      claims s !! k = Some t /\ cutoff now (default_ttl_secs s) <= t.
Proof.
  unfold durable, restart, file_new. intros -> Hu. rewrite as_from_secs.
  destruct (load_entries_spec (cutoff now (default_ttl_secs s))
    (entries_of (cutoff u (default_ttl_secs s)) (claims s)) ∅) as (m & E & _).
  { intros [h t'] (k' & -> & _)%entries_of_elem. exists k'. apply hex_decode_encode. }
  rewrite E. eexists. split; [done|]. split; [done|]. cbn. intros k t.
  rewrite (flush_then_load _ _ _ _ _ E). unfold cutoff, saturating_sub. intuition lia.
Qed.

Lemma flush_durable e s s' : force_flush e s = (s', Ok ()) -> durable (fe_flush e) s' /\ claims s' = claims s.
Proof. unfold force_flush. destruct (fe_io e); cbn; intros [= <-]; done. Qed.

Lemma release_durable e k s s' : file_release e k s = (s', Ok ()) -> durable (fe_flush e) s'.
Proof. unfold file_release. destruct (fe_io e); cbn; intros [= <-]; done. Qed.

(** *** What a crash can lose *)

(** Every claim in memory is on disk, expired at the last flush, or one of
    fewer than [BATCH_SIZE] pending ones. *)
Record covered (s : FileReplayStore) (pending : gset (list byte)) (u : Z) (l : list (string * Z)) : Prop := {
  cov_disk : disk s = Entries l \/ disk s = Missing /\ l = [];
  cov_claims : forall k t, claims s !! k = Some t ->
    (hex_encode k, t) ∈ l \/ k ∈ pending \/ t < cutoff u (default_ttl_secs s);
  cov_log : forall h t, (h, t) ∈ l -> exists k, h = hex_encode k;
  cov_log_fun : forall h t t', (h, t) ∈ l -> (h, t') ∈ l -> t = t';
  cov_pending : Z.of_nat (size pending) <= Z.min 99 (ops_since_flush s);
}.

Inductive fop : Type :=
| FClaim (k : list byte) (ttl : Z)
| FRelease (k : list byte)
| FFlush.

Definition fexec (e : FileEnv) (o : fop) (s : FileReplayStore) : FileReplayStore :=
  match o with
  | FClaim k ttl => (file_claim e k ttl s).1
  | FRelease k => (file_release e k s).1
  | FFlush => (force_flush e s).1
  end.

Lemma covered_flushed u s :
  disk s = Entries (entries_of (cutoff u (default_ttl_secs s)) (claims s)) -> 0 <= ops_since_flush s ->
  covered s ∅ u (entries_of (cutoff u (default_ttl_secs s)) (claims s)).
Proof.
  intros Hd Ho. split.
  - by left.
  - intros k t Hk. destruct (Z.le_gt_cases (cutoff u (default_ttl_secs s)) t); [left|by right; right].
    apply entries_of_elem. by exists k.
  - intros h t (k & -> & _)%entries_of_elem. by exists k.
  - intros h t t' (k & -> & Hk & _)%entries_of_elem (k' & E & Hk' & _)%entries_of_elem.
    apply (f_equal hex_decode) in E. rewrite !hex_decode_encode in E. congruence.
  - rewrite size_empty. lia.
Qed.

Lemma covered_subset s s' P u l :
  covered s P u l -> claims s' ⊆ claims s -> default_ttl_secs s' = default_ttl_secs s ->
  disk s' = disk s -> ops_since_flush s <= ops_since_flush s' -> covered s' P u l.
Proof.
  intros [C1 C2 C3 C4 C5] Hc Ht Hd Ho. split; rewrite ?Ht, ?Hd; auto; [|lia].
  intros k t Hk. apply C2. by eapply lookup_weaken.
Qed.

(** Fewer than a hundred pending claims at any time, whatever the operations
    and however many writes fail. *)
Lemma covered_step e o s P u l :
  covered s P u l -> 0 <= ops_since_flush s ->
  0 <= ops_since_flush (fexec e o s) /\
  default_ttl_secs (fexec e o s) = default_ttl_secs s /\
  exists P' u' l', covered (fexec e o s) P' u' l' /\ (u' = u \/ u' = fe_flush e).
Proof.
  intros Hc Ho.
  assert (Hev : covered (file_evict (fe_evict e) s) P u l).
  { apply (covered_subset s); try done. cbn. apply map_filter_subseteq. }
  destruct o as [k ttl|k|]; cbn [fexec].
  - unfold file_claim. case_bool_decide; [by eauto 10|].
    destruct (should_flush _ _) eqn:Es.
    + destruct (fe_io e) as [m|]; cbn -[file_evict].
      * split_and!; [cbn; lia|done|]. exists P, u, l. split; [|by left].
        apply (covered_subset (file_evict (fe_evict e) s)); try done; [|cbn; lia].
        cbn. rewrite delete_insert_id; [done|]. by apply eq_None_not_Some.
      * split_and!; [done|done|]. eexists ∅, (fe_flush e), _.
        split; [|by right]. by apply covered_flushed.
    + unfold should_flush, BATCH_SIZE in Es. cbn -[file_evict size] in Es. bool_hyps.
      cbn -[file_evict size]. split_and!; [cbn; lia|done|].
      exists ({[ k ]} ∪ P), u, l. split; [|by left].
      destruct Hev as [C1 C2 C3 C4 C5]. split; try done.
      * intros k' t'. cbn. rewrite lookup_insert_Some. intros [[<- _]|[_ Hk]]; [set_solver|].
        destruct (C2 k' t' Hk) as [?|[?|?]]; [by left|right; left; set_solver|by right; right].
      * cbn in C5 |- *. 
        assert (size ({[ k ]} ∪ P) <= 1 + size P)%nat
          by (rewrite size_union_alt, size_singleton; apply le_n_S, subseteq_size; set_solver).
        unfold file_evict in *. cbn in *. lia.
  - unfold file_release. destruct (fe_io e); cbn.
    + split_and!; [done|done|]. exists P, u, l. split; [|by left].
      apply (covered_subset s); try done. cbn. apply delete_subseteq.
    + split_and!; [done|done|]. eexists ∅, (fe_flush e), _. split; [|by right]. by apply covered_flushed.
  - unfold force_flush. destruct (fe_io e); cbn.
    + split_and!; [done|done|]. exists P, u, l. auto.
    + split_and!; [done|done|]. eexists ∅, (fe_flush e), _. split; [|by right]. by apply covered_flushed.
Qed.

Fixpoint frun (os : list (FileEnv * fop)) (s : FileReplayStore) : FileReplayStore :=
  match os with [] => s | (e, o) :: os => frun os (fexec e o s) end.

(** An unexpired claim stays until it is released, whatever writes fail. *)
Lemma fexec_holds e o s k t :
  claims s !! k = Some t -> cutoff (fe_evict e) (default_ttl_secs s) <= t -> o <> FRelease k ->
  claims (fexec e o s) !! k = Some t /\ default_ttl_secs (fexec e o s) = default_ttl_secs s.
Proof.
  intros Hk Hl Hn. destruct o as [k' ttl|k'|]; cbn [fexec].
  - pose proof (file_claim_claims e k' ttl s) as [Ht H0]. split; [|done].
    assert (He : claims (file_evict (fe_evict e) s) !! k = Some t) by (by apply file_evict_lookup).
    destruct (file_claim e k' ttl s).2 as [[]|].
    + destruct H0 as [Hf ->]. rewrite lookup_insert_ne; [done|]. intros ->. congruence.
    + by destruct H0 as [_ ->].
    + by destruct H0 as [_ ->].
  - unfold file_release. destruct (fe_io e); cbn; (rewrite lookup_delete_ne; [done|congruence]).
  - unfold force_flush. by destruct (fe_io e).
Qed.

Lemma frun_holds os s k t :
  claims s !! k = Some t ->
  Forall (fun p => cutoff (fe_evict p.1) (default_ttl_secs s) <= t /\ p.2 <> FRelease k) os ->
  claims (frun os s) !! k = Some t /\ default_ttl_secs (frun os s) = default_ttl_secs s.
Proof.
  revert s. induction os as [|[e o] os IH]; intros s Hk Hos; [done|].
  apply Forall_cons in Hos as [[Hl Hn] Hos]. destruct (fexec_holds e o s k t Hk Hl Hn) as [Hk' Ht].
  cbn [frun]. rewrite <- Ht. apply IH; [done|]. by rewrite Ht.
Qed.

(** C28: A slot that was claimed is not granted again, neither by the memory store nor
    by the file store: after a claim that succeeded, every claim of the same key within
    the time-to-live answers that it is taken, whatever other claims, releases of other
    keys and (failing or successful) flushes are performed in between. *)
Theorem claimed_once :
  (forall e k ttl s s1 os e' ttl',
     memory_claim e k ttl s = (s1, Ok true) ->
     Forall (fun p => saturating_sub (me_evict p.1) (me_insert e) < mem_ttl s /\ p.2 <> MRelease k) os ->
     saturating_sub (me_evict e') (me_insert e) < mem_ttl s ->
     (memory_claim e' k ttl' (mrun os s1)).2 = Ok false) /\
  (forall e k ttl s s1 os e' ttl',
     file_claim e k ttl s = (s1, Ok true) ->
     Forall (fun p => cutoff (fe_evict p.1) (default_ttl_secs s) <= fe_insert e /\ p.2 <> FRelease k) os ->
     cutoff (fe_evict e') (default_ttl_secs s) <= fe_insert e ->
     (file_claim e' k ttl' (frun os s1)).2 = Ok false).
Proof.
  split; intros e k ttl s s1 os e' ttl' Hc Hos Hw.
  - unfold memory_claim in Hc. case_bool_decide; [done|]. injection Hc as <-.
    destruct (mrun_holds os {| seen := <[ k := me_insert e ]> (seen (evict_expired (me_evict e) s)); mem_ttl := mem_ttl s |}
      k (me_insert e)) as [Hk Ht]; [apply lookup_insert_eq|done|].
    unfold memory_claim. rewrite bool_decide_true; [done|]. exists (me_insert e). apply evict_lookup.
    split; [exact Hk|].
    cbn in Ht |- *. by rewrite Ht.
  - pose proof (file_claim_claims e k ttl s) as [Ht H0]. rewrite Hc in Ht, H0. cbn [fst snd] in *. destruct H0 as [_ Hk].
    destruct (frun_holds os s1 k (fe_insert e)) as [Hk' Ht']; [by rewrite Hk, lookup_insert_eq|by rewrite Ht|].
    unfold file_claim. rewrite bool_decide_true; [done|]. exists (fe_insert e). apply file_evict_lookup.
    split; [done|]. by rewrite Ht', Ht.
Qed.

(** C29: The replay window of a crash: at any point of any run from a fresh store, a
    crash followed by a restart forgets at most 99 unexpired claims. *)
Theorem crash_loses_at_most_99 now0 i0 ttl s0 os now i :
  file_new now0 i0 ttl Missing = Ok s0 ->
  Forall (fun p => fe_flush p.1 <= now) os -> now0 <= now ->
  let s := frun os s0 in
  exists s' lost, restart now i s = Ok s' /\ Z.of_nat (size lost) <= 99 /\
    forall k t, claims s !! k = Some t -> cutoff now (default_ttl_secs s) <= t ->
      claims s' !! k = Some t \/ k ∈ (lost : gset (list byte)).
Proof.
  intros Hnew Hos Hnow. cbn zeta.
  assert (G : exists P u l, covered (frun os s0) P u l /\ u <= now).
  { assert (H0 : exists P u l, covered s0 P u l /\ u <= now).
    { injection Hnew as <-. exists ∅, now0, []. split; [|done].
      split; cbn; [by right|by intros ??|set_solver|set_solver|rewrite size_empty; lia]. }
    assert (Hops : 0 <= ops_since_flush s0) by (by injection Hnew as <-).
    clear Hnew. revert s0 H0 Hops. induction Hos as [|[e o] os He _ IH]; intros s0 H0 Hops; [done|].
    destruct H0 as (P & u & l & Hc & Hu). cbn. 
    destruct (covered_step e o s0 P u l Hc Hops) as (Hops' & _ & P' & u' & l' & Hc' & Hu').
    apply IH; [|done]. exists P', u', l'. split; [done|]. cbn in He. destruct Hu' as [->| ->]; done. }
  destruct G as (P & u & l & [C1 C2 C3 C4 C5] & Hu). set (s := frun os s0) in *.
  assert (L : exists m, load_entries (cutoff now (default_ttl_secs s)) l ∅ = Ok m /\
    (forall k t, (hex_encode k, t) ∈ l -> cutoff now (default_ttl_secs s) <= t -> m !! k = Some t)).
  { destruct (load_entries_spec (cutoff now (default_ttl_secs s)) l ∅) as (m & E & _).
    { intros [h t] [k ->]%C3. exists k. apply hex_decode_encode. }
    exists m. split; [done|]. intros k t Hin Hcut.
    assert (Hu' : forall h t', (h, t') ∈ l -> hex_decode h = Some k -> t' = t).
    { intros h t' Hin' Hh. destruct (C3 _ _ Hin') as [k' ->]. rewrite hex_decode_encode in Hh.
      injection Hh as ->. by eapply C4. }
    clear C1 C2 C4 C5. revert E Hin Hu' C3. generalize (∅ : gmap (list byte) Z).
    induction l as [|[h t1] l IH]; intros acc E Hin Hu' C3; [by apply elem_of_nil in Hin|].
    cbn in E. apply elem_of_cons in Hin as [[= <- <-]|Hin].
    + apply Z.leb_le in Hcut. rewrite Hcut, hex_decode_encode in E.
      eapply load_keeps; [done|apply lookup_insert_eq|]. set_solver.
    + destruct (_ <=? t1); [destruct (hex_decode h); [|done]|]; apply IH in E; auto; set_solver. }
  destruct L as (m & E & Hm).
  exists {| claims := m; ops_since_flush := 0; last_flush := i;
            default_ttl_secs := default_ttl_secs s; disk := disk s |}, P.
  split_and!.
  - unfold restart, file_new. rewrite as_from_secs. destruct C1 as [->|[-> ->]]; [by rewrite E|].
    cbn in E. by injection E as <-.
  - lia.
  - intros k t Hk Hcut. destruct (C2 _ _ Hk) as [Hin|[?|Hexp]]; [left; by apply Hm|by right|].
    unfold cutoff, saturating_sub in *. lia.
Qed.

(** The five-second interval is only examined by a claim that succeeds: while
    the same ciphertext is replayed, however long, nothing is written, and a
    crash would forget its claim. *)
Theorem replay_never_flushes es k ttl s t :
  claims s !! k = Some t ->
  Forall (fun e => cutoff (fe_evict e) (default_ttl_secs s) <= t) es ->
  let s' := foldl (fun s e => (file_claim e k ttl s).1) s es in
  disk s' = disk s /\ ops_since_flush s' = ops_since_flush s /\ claims s' !! k = Some t.
Proof.
  intros Hk Hes. cbn zeta. 
  assert (G : forall s1, default_ttl_secs s1 = default_ttl_secs s -> claims s1 !! k = Some t ->
    let s' := foldl (fun s e => (file_claim e k ttl s).1) s1 es in
    disk s' = disk s1 /\ ops_since_flush s' = ops_since_flush s1 /\ claims s' !! k = Some t).
  2: by apply G.
  clear Hk. induction Hes as [|e es He _ IH]; intros s1 Ht Hk; [done|]. cbn [foldl].
  assert (Hev : claims (file_evict (fe_evict e) s1) !! k = Some t)
    by (apply file_evict_lookup; by rewrite Ht).
  assert (E : (file_claim e k ttl s1).1 = file_evict (fe_evict e) s1)
    by (unfold file_claim; rewrite bool_decide_true; [done|by exists t]).
  rewrite E. destruct (IH (file_evict (fe_evict e) s1) Ht Hev) as (-> & -> & ?). done.
Qed.
End file.
End Replay.
