(* ===== verification/ReplayStores.v ===== *)
(** * Further replay stores ([sharded_replay_cache.rs], the Redis part of [replay_store.rs], [replay.rs])

    The sharded cache and the Redis store are instances of [ReplayStore], so
    that what is proved from the interface holds with them.  The caches of the
    deprecated interface are translated as well. *)

From stdpp Require Import vector.
From S2P Require Import Prelude.
From S2P Require Import Types.
From S2P Require Import Hierarchy.
From S2P Require Import Replay.

(** ** The sharded cache

    No shard's lock is ever poisoned: no store panics inside its critical
    section. *)
Module Sharded.

Definition SHARD_COUNT : nat := 256.

Section sharded.
Context {R : ReplayStore}.

#[local] Notation ShardedReplayCache := (vec rs_state SHARD_COUNT).

(** The factory is called once for every shard; the first error is returned. *)
Fixpoint make_shards (n : nat) (store_factory : nat -> result string rs_state) :
    result string (vec rs_state n) :=
  match n with
  | O => Ok [#]
  | S n => s ← store_factory O; r ← make_shards n (fun i => store_factory (S i)); Ok (s ::: r)
  end.

Definition sharded_new (store_factory : nat -> result string rs_state) : result string ShardedReplayCache :=
  make_shards SHARD_COUNT store_factory.

Lemma byte_lt (b : byte) : (Byte.to_nat b < SHARD_COUNT)%nat.
Proof. pose proof (Byte.to_nat_bounded b). unfold SHARD_COUNT. lia. Qed.

Definition shard_index (key : list byte) : fin SHARD_COUNT :=
  match key with [] => 0%fin | b :: _ => nat_to_fin (byte_lt b) end.

Definition sharded_claim (e : rs_env) (key : list byte) (ttl : Z) (s : ShardedReplayCache) :
    ShardedReplayCache * result string bool :=
  let r := claim e key ttl (s !!! shard_index key) in (vinsert (shard_index key) r.1 s, r.2).

Definition sharded_release (e : rs_env) (key : list byte) (s : ShardedReplayCache) :
    ShardedReplayCache * result string unit :=
  let r := release e key (s !!! shard_index key) in (vinsert (shard_index key) r.1 s, r.2).

Definition total_entry_count (entry_count : rs_state -> nat) (s : ShardedReplayCache) : nat :=
  sum_list (entry_count <$> vec_to_list s).

Definition Sharded : ReplayStore := {|
  rs_state := ShardedReplayCache;
  rs_env := @rs_env R;
  claim := sharded_claim;
  release := sharded_release;
  rs_live e s k := rs_live e (s !!! shard_index k) k;
  rs_within s ttl a b := forall i, rs_within (s !!! i) ttl a b;
|}.

(** A shard that is not written is as before. *)
Lemma shard_insert (s : ShardedReplayCache) i j x :
  vinsert i x s !!! j = if decide (i = j) then x else s !!! j.
Proof. case_decide as H; [subst; by rewrite vlookup_insert|by rewrite vlookup_insert_ne]. Qed.

Lemma Sharded_laws : ReplayStoreLaws R -> ReplayStoreLaws Sharded.
Proof.
  intros RL. split; cbn [rs_state rs_env claim release rs_live rs_within Sharded];
    unfold sharded_claim, sharded_release; cbn [fst snd].
  - intros e s k ttl. apply claim_live.
  - intros e s k ttl. apply claim_not_live.
  - intros e e' s k ttl E Hw. rewrite vlookup_insert. by apply claim_true.
  - intros e e' s k k' ttl. rewrite shard_insert. case_decide as H; [|done]. rewrite <- H. apply claim_keeps.
  - intros e e' s k k' Hn. rewrite shard_insert. case_decide as H; [|done]. rewrite <- H. by apply release_keeps.
  - intros e e' s k. rewrite vlookup_insert. apply release_frees.
  - intros e s k ttl ttl' a b. split; intros H i; specialize (H i); revert H; rewrite shard_insert;
      case_decide as Hi; try done; subst; by rewrite within_stable_claim.
  - intros e s k ttl' a b. split; intros H i; specialize (H i); revert H; rewrite shard_insert;
      case_decide as Hi; try done; subst; by rewrite within_stable_release.
Qed.

(** What runs in parallel: operations on keys of different shards commute,
    results included. *)
Theorem shards_commute (s : ShardedReplayCache) e1 e2 k1 k2 ttl1 ttl2 :
  shard_index k1 <> shard_index k2 ->
  let a := sharded_claim e1 k1 ttl1 s in let ab := sharded_claim e2 k2 ttl2 a.1 in
  let b := sharded_claim e2 k2 ttl2 s in let ba := sharded_claim e1 k1 ttl1 b.1 in
  ab.1 = ba.1 /\ a.2 = ba.2 /\ ab.2 = b.2.
Proof.
  intros Hn. cbn. unfold sharded_claim. cbn [fst snd].
  rewrite !vlookup_insert_ne by done. split_and!; [|done..].
  apply vec_eq. intros i. rewrite !shard_insert. repeat case_decide; congruence.
Qed.
End sharded.
End Sharded.

(** ** The Redis store

    The server is not part of the repository.  What its documentation says of
    [SET key value NX EX ttl] and [DEL key] is the class of laws: a granted
    [SET] holds the key until its expiry, a refused one means that the key is
    held, and no command touches the other keys.  After an error the command may
    have been carried out or not. *)
Class RedisServer := {
  srv_state : Type;
  (** time and outcome of one command *)
  srv_env : Type;
  set_nx_ex : srv_env -> string -> Z -> srv_state -> srv_state * result string bool;
  del : srv_env -> string -> srv_state -> srv_state * result string unit;
  (** the key exists when the command is executed *)
  held : srv_env -> srv_state -> string -> Prop;
  (** the second command is executed less than so many seconds after the first *)
  sooner : Z -> srv_env -> srv_env -> Prop;
  ping : srv_env -> result string string;
}.

Class RedisLaws (S : RedisServer) : Prop := {
  set_refused e k n s : held e s k -> (set_nx_ex e k n s).2 <> Ok true;
  set_only_held e k n s : ~ held e s k -> (set_nx_ex e k n s).2 <> Ok false;
  set_granted e e' k n s :
    (set_nx_ex e k n s).2 = Ok true -> sooner n e e' -> held e' (set_nx_ex e k n s).1 k;
  set_others e e' k k' n s : k <> k' -> held e' (set_nx_ex e k' n s).1 k <-> held e' s k;
  set_held e e' k n s : held e s k -> held e' s k -> held e' (set_nx_ex e k n s).1 k;
  del_others e e' k k' s : k <> k' -> held e' (del e k' s).1 k <-> held e' s k;
  del_done e e' k s : (del e k s).2 = Ok () -> ~ held e' (del e k s).1 k;
}.

Module Redis.

Record RedisReplayStore := mkRedis { url : string; key_prefix : string; fail_closed : bool }.

Definition display_bool (b : bool) : string := if b then "true" else "false".

Section redis.
Context {S : RedisServer} `{Hex}.

(** [from_env] with the two variables; PING first. *)
Definition redis_ping (e : srv_env) : result string unit :=
  pong ← ping e;
  bail_if (negb (bool_decide (pong = "PONG"%string))) ("unexpected PING response: " +:+ pong).

Definition from_env (redis_url redis_prefix : option string) (fail_closed : bool) (e : srv_env) :
    result string RedisReplayStore :=
  url ← ok_or redis_url "CITADEL_REDIS_URL not set; required for Redis replay store"%string;
  let prefix := default "citadel:replay:"%string redis_prefix in
  _ ← map_err (fun m => "Redis startup validation failed for '" +:+ url +:+ "': " +:+ m
        +:+ Hierarchy.Hierarchy.dash +:+ "fix CITADEL_REDIS_URL or ensure Redis is running") (redis_ping e);
  Ok (mkRedis url prefix fail_closed).

Definition redis_key (c : RedisReplayStore) (key : list byte) : string := key_prefix c +:+ hex_encode key.

Definition redis_claim (c : RedisReplayStore) (e : srv_env) (key : list byte) (ttl : Z) (s : srv_state) :
    srv_state * result string bool :=
  let ttl_secs := Z.max (as_secs ttl) 1 in
  let r := set_nx_ex e (redis_key c key) ttl_secs s in
  (r.1, map_err (fun m => "Redis outage (fail_closed=" +:+ display_bool (fail_closed c) +:+ "): " +:+ m
          +:+ Hierarchy.Hierarchy.dash +:+ "operation denied to prevent replay bypass") r.2).

Definition redis_release (c : RedisReplayStore) (e : srv_env) (key : list byte) (s : srv_state) :
    srv_state * result string unit :=
  let r := del e (redis_key c key) s in (r.1, map_err (fun m => "Redis release failed: " +:+ m) r.2).

(** The state is the server's, shared by every instance that talks to it. *)
Definition RedisReplay (c : RedisReplayStore) : ReplayStore := {|
  rs_state := srv_state;
  rs_env := srv_env;
  claim := redis_claim c;
  release := redis_release c;
  rs_live e s k := held e s (redis_key c k);
  rs_within _ ttl a b := sooner (Z.max (as_secs ttl) 1) a b;
|}.

Lemma redis_key_inj `{!HexLaws _} c a b : redis_key c a = redis_key c b -> a = b.
Proof.
  unfold redis_key. intros E. apply (f_equal (str_drop (String.length (key_prefix c)))) in E.
  rewrite !str_drop_app in E. apply (f_equal hex_decode) in E. rewrite !hex_decode_encode in E. congruence.
Qed.

Lemma map_err_is {E F A} (f : E -> F) (r : result E A) a : map_err f r = Ok a <-> r = Ok a.
Proof. destruct r; cbn; naive_solver. Qed.

Lemma RedisReplay_laws `{!HexLaws _} c : RedisLaws S -> ReplayStoreLaws (RedisReplay c).
Proof.
  intros L. split; cbn [rs_state rs_env claim release rs_live rs_within RedisReplay];
    unfold redis_claim, redis_release; cbn [fst snd].
  - intros e s k ttl Hl E%map_err_is. by eapply set_refused.
  - intros e s k ttl Hl E%map_err_is. by eapply set_only_held.
  - intros e e' s k ttl E%map_err_is Hw. by apply set_granted.
  - intros e e' s k k' ttl Hl Hl'. destruct (decide (k = k')) as [->|Hn]; [by apply set_held|].
    apply set_others; [|done]. by intros ?%redis_key_inj.
  - intros e e' s k k' Hn Hl. apply del_others; [|done]. by intros ?%redis_key_inj.
  - intros e e' s k E%map_err_is. by apply del_done.
  - done.
  - done.
Qed.

End redis.
End Redis.

(** ** The deprecated interface

    [contains] and [insert] are separate calls. *)
Module Legacy.

Record InMemoryReplayCache := mkMemCache { cache_seen : gmap (list byte) Z; cache_ttl : Z }.

Definition in_memory_new (ttl : Z) : InMemoryReplayCache := mkMemCache ∅ ttl.
Definition in_memory_evict (now : Z) (c : InMemoryReplayCache) : InMemoryReplayCache :=
  mkMemCache (filter (fun p => saturating_sub now p.2 < cache_ttl c) (cache_seen c)) (cache_ttl c).
Definition in_memory_contains (now : Z) (key : list byte) (c : InMemoryReplayCache) : InMemoryReplayCache * bool :=
  let c := in_memory_evict now c in (c, bool_decide (is_Some (cache_seen c !! key))).
Definition in_memory_insert (now : Z) (key : list byte) (c : InMemoryReplayCache) : InMemoryReplayCache :=
  mkMemCache (<[ key := now ]> (cache_seen c)) (cache_ttl c).

Record FileReplayCache := mkFileCache { cache_file : Replay.replay_file; ttl_secs : Z; mirror : gmap (list byte) Z }.

Section file.
Context `{Hex}.

Fixpoint keep_entries (cut : Z) (l : list (string * Z)) (acc : gmap (list byte) Z) : gmap (list byte) Z :=
  match l with
  | [] => acc
  | (key_hex, ts) :: l =>
      keep_entries cut l
        (if cut <=? ts then match hex_decode key_hex with Some k => <[ k := ts ]> acc | None => acc end else acc)
  end.

(** Whatever is wrong with the file, the cache starts. *)
Definition file_cache_new (now ttl : Z) (d : Replay.replay_file) : FileReplayCache :=
  let secs := as_secs ttl in
  mkFileCache d secs
    match d with Replay.Entries l => keep_entries (Replay.cutoff now secs) l ∅ | _ => ∅ end.

(** [failed]: what is in the file when the write fails, which is ignored. *)
Definition file_cache_flush (now : Z) (failed : option Replay.replay_file) (c : FileReplayCache) : FileReplayCache :=
  mkFileCache
    match failed with
    | None => Replay.Entries (Replay.entries_of (Replay.cutoff now (ttl_secs c)) (mirror c))
    | Some d => d
    end (ttl_secs c) (mirror c).

Definition file_cache_evict (now : Z) (c : FileReplayCache) : FileReplayCache :=
  mkFileCache (cache_file c) (ttl_secs c) (filter (fun p => Replay.cutoff now (ttl_secs c) <= p.2) (mirror c)).

Definition file_cache_contains (now : Z) (key : list byte) (c : FileReplayCache) : FileReplayCache * bool :=
  let c := file_cache_evict now c in (c, bool_decide (is_Some (mirror c !! key))).

Definition file_cache_insert (now flush_now : Z) (failed : option Replay.replay_file) (key : list byte)
    (c : FileReplayCache) : FileReplayCache :=
  file_cache_flush flush_now failed (mkFileCache (cache_file c) (ttl_secs c) (<[ key := now ]> (mirror c))).

(** The check and the insertion are not one step: both of two interleaved
    callers find the same key absent. *)
Lemma old_interface_races now now' key c :
  (in_memory_contains now key c).2 = false -> now <= now' -> 
  (in_memory_contains now' key (in_memory_contains now key c).1).2 = false.
Proof.
  cbn. intros Hb Hn. apply bool_decide_eq_false in Hb. apply bool_decide_eq_false. intros [t Ht].
  apply map_lookup_filter_Some in Ht as [Ht _]. apply Hb. by exists t.
Qed.

(** A file that is not understood is taken for an empty one. *)
Lemma old_file_fails_open now now' ttl msg key :
  (file_cache_contains now' key (file_cache_new now ttl (Replay.Corrupt msg))).2 = false.
Proof. cbn. apply bool_decide_eq_false. rewrite map_lookup_filter, lookup_empty. by intros [? ?]. Qed.
End file.
End Legacy.
