(* ===== verification/Signer.v ===== *)
(** * Signatures and assertions ([citadel-signer/src])

    The ML-DSA-65 layer on raw bytes ([dsa.rs], [wire.rs]) and the Citadel
    Native Assertion ([assertion.rs]).  The [ml_dsa] and [serde_json] crates
    are parameters. *)

From S2P Require Import Prelude.

(** [ml_dsa]: a seed expands to a key pair; keys and signatures are the byte
    strings they are encoded to. *)
Class MlDsa := {
  seed_try_from : list byte -> bool;
  vk_try_from : list byte -> bool;
  sig_try_from : list byte -> bool;
  vk_encode : list byte -> list byte;
  try_sign : list byte -> list byte -> result string (list byte);
  sig_decodes : list byte -> bool;
  vk_verify : list byte -> list byte -> list byte -> bool;
}.

(** The conversions accept the FIPS 204 sizes; what a seed signs, its
    verifying key verifies. *)
Class MlDsaLaws (D : MlDsa) : Prop := {
  seed_sized s : seed_try_from s = bool_decide (len s = 32);
  vk_sized v : vk_try_from v = bool_decide (len v = 1952);
  sig_sized s : sig_try_from s = bool_decide (len s = 3309);
  length_vk_encode s : len (vk_encode s) = 1952;
  sign_correct s m g : try_sign s m = Ok g ->
    len g = 3309 /\ sig_decodes g = true /\ vk_verify (vk_encode s) m g = true;
}.

(** [serde_json::Value], as far as it is used here. *)
Class Json := {
  json : Type;
  j_string : string -> json;
  j_number : Z -> json;
  j_object : gmap string json -> json;
  json_to_string : json -> result string string;
}.

(** What is printed parses back to the same value, so printing is injective;
    the constructors of [Value] are. *)
Class JsonLaws (J : Json) : Prop := {
  json_to_string_inj a b s : json_to_string a = Ok s -> json_to_string b = Ok s -> a = b;
  j_object_inj a b : j_object a = j_object b -> a = b;
  j_string_inj a b : j_string a = j_string b -> a = b;
  j_number_inj a b : j_number a = j_number b -> a = b;
}.

Module Dsa.

(** ** [wire.rs] *)

Definition MLDSA65_SEED_BYTES : Z := 32.
Definition MLDSA65_VK_BYTES : Z := 1952.
Definition MLDSA65_SK_BYTES : Z := 4032.
Definition MLDSA65_SIG_BYTES : Z := 3309.
Definition SUITE_SIGNING_MLDSA65 : byte := Byte.xd1.
Definition CNA_VERSION : string := "cna-v1".

(** ** [dsa.rs]: [SignError] and [VerifyError] wrap a text *)

Section dsa.
Context `{MlDsa}.

(** The verifying key, then the seed that was drawn. *)
Definition generate_keypair (rnd : list byte) : result string (list byte * list byte) :=
  let seed_bytes := rnd in
  _ ← bail_if (negb (seed_try_from seed_bytes)) "seed construction failed"%string;
  Ok (vk_encode seed_bytes, seed_bytes).

Definition wrong_size (what : string) (expected : Z) (x : list byte) : string :=
  what +:+ " must be " +:+ pretty expected +:+ " bytes, got " +:+ pretty (len x).

Definition verifying_key_from_seed (seed : list byte) : result string (list byte) :=
  _ ← bail_if (negb (len seed =? MLDSA65_SEED_BYTES)) (wrong_size "seed" MLDSA65_SEED_BYTES seed);
  _ ← bail_if (negb (seed_try_from seed)) "seed construction failed"%string;
  Ok (vk_encode seed).

Definition sign_message (seed message : list byte) : result string (list byte) :=
  _ ← bail_if (negb (len seed =? MLDSA65_SEED_BYTES)) (wrong_size "seed" MLDSA65_SEED_BYTES seed);
  _ ← bail_if (negb (seed_try_from seed)) "seed construction failed"%string;
  map_err (fun e => "ML-DSA sign: " +:+ e) (try_sign seed message).

Definition verify_message (verifying_key message signature : list byte) : result string bool :=
  _ ← bail_if (negb (len verifying_key =? MLDSA65_VK_BYTES))
        (wrong_size "verifying key" MLDSA65_VK_BYTES verifying_key);
  _ ← bail_if (negb (len signature =? MLDSA65_SIG_BYTES))
        (wrong_size "signature" MLDSA65_SIG_BYTES signature);
  _ ← bail_if (negb (vk_try_from verifying_key)) "verifying key decode failed"%string;
  _ ← bail_if (negb (sig_try_from signature)) "signature decode failed"%string;
  _ ← bail_if (negb (sig_decodes signature)) "signature malformed"%string;
  Ok (vk_verify verifying_key message signature).

Context {DL : MlDsaLaws _}.

Lemma generate_keypair_sizes rnd vk seed :
  generate_keypair rnd = Ok (vk, seed) ->
  len vk = MLDSA65_VK_BYTES /\ len seed = MLDSA65_SEED_BYTES /\ verifying_key_from_seed seed = Ok vk.
Proof.
  unfold generate_keypair, verifying_key_from_seed. intros E. inv_ok E. simplify_eq. bool_hyps.
  rewrite seed_sized in *. bool_hyps. rewrite length_vk_encode. split_and!; [done|done|].
  rewrite (proj2 (Z.eqb_eq _ _)) by done. by rewrite bool_decide_true.
Qed.

Lemma verify_signed seed vk m g :
  verifying_key_from_seed seed = Ok vk -> sign_message seed m = Ok g -> verify_message vk m g = Ok true.
Proof.
  unfold verifying_key_from_seed, sign_message, verify_message. intros E1 E2.
  inv_ok E1. inv_ok E2. simplify_eq. bool_hyps. destruct (sign_correct _ _ _ E2) as (L & D & V).
  rewrite length_vk_encode, L, D, vk_sized, sig_sized, length_vk_encode, L. cbn. by rewrite V.
Qed.

(** An error means a malformed input, never a wrong signature. *)
Lemma verify_message_Ok vk m g b :
  verify_message vk m g = Ok b <->
  len vk = MLDSA65_VK_BYTES /\ len g = MLDSA65_SIG_BYTES /\ sig_decodes g = true /\ b = vk_verify vk m g.
Proof.
  unfold verify_message. rewrite vk_sized, sig_sized. unfold MLDSA65_VK_BYTES, MLDSA65_SIG_BYTES. split.
  - intros E. inv_ok E. bool_hyps. by simplify_eq.
  - intros (-> & -> & -> & ->). done.
Qed.
End dsa.
End Dsa.

(** ** [assertion.rs]: the Citadel Native Assertion *)

Module Assertion.
Import Dsa.

Section assertion.
Context `{MlDsa} `{Hex} `{Json}.
(** [Utc.timestamp_opt(..).single()], and the text of a [hex] error *)
Context (timestamp_opt : Z -> option Z) (hex_error : string -> string).

Record CitadelAssertion := mkAssertion {
  version : string;
  suite : string;
  signing_key_id : string;
  signing_key_version : Z;
  issued_at : Z;
  expires_at : Z;
  assertion_id : string;
  public_claims : json;
  sealed_claims_hex : option string;
  sealed_claims_key_id : option string;
  sealed_claims_key_version : option Z;
  signature_hex : string;
}.

Definition set_signature (s : string) (a : CitadelAssertion) : CitadelAssertion :=
  mkAssertion (version a) (suite a) (signing_key_id a) (signing_key_version a) (issued_at a)
    (expires_at a) (assertion_id a) (public_claims a) (sealed_claims_hex a)
    (sealed_claims_key_id a) (sealed_claims_key_version a) s.

(** [now] is the clock in seconds; [id_bytes] the sixteen bytes drawn. *)
Definition build_unsigned (now : Z) (id_bytes : list byte) (key : string) (key_version : Z)
    (claims : json) (ttl_secs : Z) (sealed_hex sealed_key : option string)
    (sealed_version : option Z) : CitadelAssertion :=
  mkAssertion CNA_VERSION "ml-dsa-65" key key_version now (wrapping_add_i64 now (as_i64 ttl_secs))
    (hex_encode id_bytes) claims sealed_hex sealed_key sealed_version "".

(** The object that is serialized: every field but the signature; the map of
    [serde_json] is ordered by its keys. *)
Definition insert_some {A} (k : string) (f : A -> json) (o : option A) (m : gmap string json) :
    gmap string json :=
  match o with Some x => <[ k := f x ]> m | None => m end.

Definition signed_fields (a : CitadelAssertion) : gmap string json :=
  insert_some "sealed_claims_key_version" j_number (sealed_claims_key_version a)
  (insert_some "sealed_claims_key_id" j_string (sealed_claims_key_id a)
  (insert_some "sealed_claims_hex" j_string (sealed_claims_hex a)
  (<[ "public_claims" := public_claims a ]>
  (<[ "assertion_id" := j_string (assertion_id a) ]>
  (<[ "expires_at" := j_number (expires_at a) ]>
  (<[ "issued_at" := j_number (issued_at a) ]>
  (<[ "signing_key_version" := j_number (signing_key_version a) ]>
  (<[ "signing_key_id" := j_string (signing_key_id a) ]>
  (<[ "suite" := j_string (suite a) ]>
  (<[ "version" := j_string (version a) ]> ∅)))))))))).

Definition canonical_signing_input (a : CitadelAssertion) : result string (list byte) :=
  canonical ← map_err (fun e => "canonical serialize: " +:+ e)
                (json_to_string (j_object (signed_fields a)));
  Ok (bytes_of_string canonical).

Record VerifiedClaims := mkClaims {
  vc_public_claims : json;
  vc_assertion_id : string;
  vc_signing_key_id : string;
  vc_signing_key_version : Z;
  vc_issued_at : Z;
  vc_expires_at : Z;
  vc_has_sealed_claims : bool;
}.

(** [now] is read for the expiry check, [now_i] and [now_e] where a timestamp
    is out of the calendar's range. *)
Definition verify (now now_i now_e : Z) (vk : list byte) (a : CitadelAssertion) :
    result string VerifiedClaims :=
  _ ← bail_if (negb (bool_decide (version a = CNA_VERSION)))
        ("unsupported version '" +:+ version a +:+ "' (expected '" +:+ CNA_VERSION +:+ "')");
  _ ← bail_if (negb (bool_decide (suite a = "ml-dsa-65"%string)))
        ("unsupported suite '" +:+ suite a +:+ "' (expected 'ml-dsa-65')");
  _ ← bail_if (expires_at a <=? now)
        ("assertion expired at " +:+ pretty (expires_at a) +:+ " (now " +:+ pretty now +:+ ")");
  signing_input ← canonical_signing_input a;
  sig_bytes ← ok_or (hex_decode (signature_hex a))
                ("decode signature_hex: " +:+ hex_error (signature_hex a));
  valid ← map_err (fun e => "verification error: VerifyError: " +:+ e)
            (verify_message vk signing_input sig_bytes);
  _ ← bail_if (negb valid) "signature invalid"%string;
  Ok (mkClaims (public_claims a) (assertion_id a) (signing_key_id a) (signing_key_version a)
        (default now_i (timestamp_opt (issued_at a))) (default now_e (timestamp_opt (expires_at a)))
        (bool_decide (is_Some (sealed_claims_hex a)))).

(** [CitadelAssertionIssuer]: key identifier, version, raw seed. *)
Record Issuer := mkIssuer { iss_key : string; iss_version : Z; iss_seed : list byte }.

Definition issue_inner (now : Z) (id_bytes : list byte) (i : Issuer) (claims : json) (ttl_secs : Z)
    (sealed_hex sealed_key : option string) (sealed_version : option Z) :
    result string CitadelAssertion :=
  let assertion := mkAssertion CNA_VERSION "ml-dsa-65" (iss_key i) (iss_version i) now
    (wrapping_add_i64 now (as_i64 ttl_secs)) (hex_encode id_bytes) claims sealed_hex sealed_key
    sealed_version "" in
  signing_input ← canonical_signing_input assertion;
  sig_bytes ← map_err (fun e => "signing failed: SignError: " +:+ e)
                (sign_message (iss_seed i) signing_input);
  Ok (set_signature (hex_encode sig_bytes) assertion).

Definition issue now id_bytes i claims ttl_secs : result string CitadelAssertion :=
  issue_inner now id_bytes i claims ttl_secs None None None.
Definition issue_with_sealed now id_bytes i claims ttl_secs sealed_hex sealed_key sealed_version :
    result string CitadelAssertion :=
  issue_inner now id_bytes i claims ttl_secs (Some sealed_hex) (Some sealed_key) (Some sealed_version).

(** ** Properties *)

Context {DL : MlDsaLaws _} {HL : HexLaws _} {JL : JsonLaws _}.

Lemma insert_eqb {A} k (x : A) (m : gmap string A) k' :
  <[ k := x ]> m !! k' = if String.eqb k k' then Some x else m !! k'.
Proof.
  rewrite lookup_insert. destruct (String.eqb_spec k k') as [->|]; [by rewrite decide_True|].
  by rewrite decide_False.
Qed.

Lemma insert_some_eqb {A} k (f : A -> json) o m k' :
  insert_some k f o m !! k' =
    if String.eqb k k' then match o with Some x => Some (f x) | None => m !! k' end else m !! k'.
Proof. unfold insert_some. destruct o; [apply insert_eqb|by destruct (String.eqb _ _)]. Qed.

(** What one key of the serialized object says. *)
Ltac field H k :=
  let F := fresh "F" in
  pose proof (f_equal (lookup k) H) as F; unfold signed_fields in F;
  rewrite ?insert_some_eqb, ?insert_eqb, ?lookup_empty in F; cbn in F.

Lemma signed_fields_inj a b :
  signed_fields a = signed_fields b -> set_signature "" a = set_signature "" b.
Proof.
  intros E. field E "version"%string. field E "suite"%string. field E "signing_key_id"%string.
  field E "signing_key_version"%string. field E "issued_at"%string. field E "expires_at"%string.
  field E "assertion_id"%string. field E "public_claims"%string. field E "sealed_claims_hex"%string.
  field E "sealed_claims_key_id"%string. field E "sealed_claims_key_version"%string.
  clear E. destruct a, b; cbn in *.
  repeat match goal with
  | F : Some _ = Some _ |- _ => injection F as F
  | F : j_string _ = j_string _ |- _ => apply j_string_inj in F
  | F : j_number _ = j_number _ |- _ => apply j_number_inj in F
  | F : match ?o with _ => _ end = match ?o' with _ => _ end |- _ => destruct o, o'; cbn in F; try done
  end; by subst.
Qed.

Lemma canonical_covers a b x :
  canonical_signing_input a = Ok x -> canonical_signing_input b = Ok x ->
  set_signature "" a = set_signature "" b.
Proof.
  unfold canonical_signing_input. intros E1 E2. inv_ok E1. inv_ok E2. simplify_eq.
  apply signed_fields_inj, j_object_inj. eapply json_to_string_inj; [done|].
  apply bytes_of_string_inj in E2. by subst.
Qed.

Lemma canonical_signature a s : canonical_signing_input (set_signature s a) = canonical_signing_input a.
Proof. done. Qed.

Lemma verify_Ok now ni ne vk a c :
  verify now ni ne vk a = Ok c ->
  version a = CNA_VERSION /\ suite a = "ml-dsa-65"%string /\ now < expires_at a /\
  (exists x g, canonical_signing_input a = Ok x /\ hex_decode (signature_hex a) = Some g /\
     verify_message vk x g = Ok true) /\
  vc_public_claims c = public_claims a /\ vc_assertion_id c = assertion_id a /\
  vc_signing_key_id c = signing_key_id a /\ vc_signing_key_version c = signing_key_version a /\
  vc_has_sealed_claims c = bool_decide (is_Some (sealed_claims_hex a)).
Proof.
  unfold verify. intros E. inv_ok E. bool_hyps. subst. split_and!; try done; eauto.
Qed.

(** An assertion that was never signed does not verify, with any key. *)
Theorem unsigned_never_verifies now ni ne vk t id k v cl ttl h hk hv c :
  verify now ni ne vk (build_unsigned t id k v cl ttl h hk hv) <> Ok c.
Proof.
  intros (_ & _ & _ & (x & g & _ & G & V) & _)%verify_Ok. cbn in G.
  apply verify_message_Ok in V as (_ & L & _).
  pose proof (hex_decode_encode []) as D. pose proof (length_hex_encode []) as L0.
  assert (E0 : hex_encode [] = ""%string) by (by destruct (hex_encode [])).
  rewrite E0 in D. rewrite D in G. by injection G as <-.
Qed.

(** An issued assertion is accepted with the issuer's key exactly until it expires,
    and reports what was issued. Conversely whatever is accepted under a signature that
    was made for one assertion says, field by field, what that assertion said: no claim,
    identifier or date can be exchanged. *)
Theorem issued_verifies t id i cl ttl h hk hv a vk now ni ne :
  issue_inner t id i cl ttl h hk hv = Ok a -> verifying_key_from_seed (iss_seed i) = Ok vk ->
  (is_ok (verify now ni ne vk a) = true <-> now < expires_at a) /\
  (forall c, verify now ni ne vk a = Ok c ->
     vc_public_claims c = cl /\ vc_signing_key_id c = iss_key i /\
     vc_signing_key_version c = iss_version i /\ vc_assertion_id c = hex_encode id /\
     vc_has_sealed_claims c = bool_decide (is_Some h)) /\
  (forall b x, canonical_signing_input a = Ok x -> canonical_signing_input b = Ok x ->
     set_signature (signature_hex a) b = a).
Proof.
  intros E V. split; [|split].
  - split; [by intros (c & (_ & _ & ? & _)%verify_Ok)%is_ok_true|]. revert E.
    unfold issue_inner. intros E Hlt. inv_ok E. unfold verify. rewrite canonical_signature, Hx.
    cbn [version suite set_signature signature_hex expires_at] in *.
    rewrite (bool_decide_true (CNA_VERSION = _)), (bool_decide_true ("ml-dsa-65"%string = _)) by done.
    rewrite (proj2 (Z.leb_gt _ _)) by done. cbn.
    rewrite hex_decode_encode. cbn. by rewrite (verify_signed _ _ _ _ V Hx0).
  - intros c (_ & _ & _ & _ & -> & -> & -> & -> & ->)%verify_Ok. revert E. unfold issue_inner.
    intros E. by inv_ok E.
  - intros b x Ea Eb. pose proof (canonical_covers _ _ _ Ea Eb) as S. destruct a, b; cbn in *.
    by injection S as -> -> -> -> -> -> -> -> -> -> ->.
Qed.

End assertion.
End Assertion.
