(* ===== verification/KeystoreBase.v ===== *)
(** * The keystore's state and effects ([citadel-keystore/src/keystore.rs])

    A method of [Keystore] is a function from the world to a world and a
    result.  The world holds what the struct holds (storage, the events sent to
    the audit sink, policies, threat assessor, master key, replay store,
    enforcer) and what the process reads: environment variables, and a tape
    with one [Reading] (clock, random bytes, outcome of a storage or replay
    call) for every external access, in order.  [wp] is the calculus in which
    the methods are verified. *)

From S2P Require Import Prelude.
From S2P Require Import Wire.
From S2P Require Import WireV2.
From S2P Require Import Crypto.
From S2P Require Import Envelope.
From S2P Require Import Enforcer.
From S2P Require Import F64.
From S2P Require Import Types.
From S2P Require Import Policy.
From S2P Require Import AuditLog.
From S2P Require Import Threat.
From S2P Require Import Storage.
From S2P Require Import Replay.
From S2P Require Import Signer.
Import Types.

(** Everything the keystore uses that is not under [src]. *)
Class Platform := {
  #[global] pf_primitives :: Primitives;
  #[global] pf_storage :: StorageBackend;
  #[global] pf_replay :: ReplayStore;
  #[global] pf_chrono :: Chrono;
  #[global] pf_float :: FloatLib;
  #[global] pf_hex :: Hex;
  #[global] pf_digest :: Digest;
  #[global] pf_mldsa :: MlDsa;
  (** the texts of [hex::FromHexError] and [hkdf::InvalidLength] *)
  hex_error : string -> string;
  hkdf_error : string;
}.

Class PlatformLaws (PF : Platform) : Prop := {
  #[global] pl_primitives :: PrimitiveLaws pf_primitives;
  #[global] pl_storage :: StorageLaws pf_storage;
  #[global] pl_replay :: ReplayStoreLaws pf_replay;
  #[global] pl_hex :: HexLaws pf_hex;
  #[global] pl_mldsa :: MlDsaLaws pf_mldsa;
}.

Section world.
Context {PF : Platform}.

Record Reading := mkReading {
  rd_now : Z;
  rd_byte : nat -> byte;
  rd_no_random : bool;
  rd_st : st_env;
  rd_rs : rs_env;
}.

Definition rd_bytes (r : Reading) (from n : nat) : list byte := rd_byte r <$> seq from n.
(** The randomness of a KEM operation, and of an AEAD nonce (whose source may
    fail). *)
Definition rd_kem (r : Reading) : list byte * list byte := (rd_bytes r 0 32, rd_bytes r 32 64).
Definition rd_draws (r : Reading) : kem_draws := (Some (rd_kem r).1, Some (rd_kem r).2).
Definition rd_nonce (r : Reading) : option (list byte) :=
  if rd_no_random r then None else Some (rd_bytes r 96 12).

Record World := mkWorld {
  store : st_state;
  trail : list Audit.AuditEvent;
  (** [None] when a panic poisoned the lock *)
  threat : option Threat.ThreatAssessor;
  replay : rs_state;
  enforcer : option Enforcer.StateEnforcer;
  policies : gmap string Policy.KeyPolicy;
  master_key : option (list byte);
  env_var : string -> option string;
  tape : nat -> Reading;
  pos : nat;
}.

Definition set_store (s : st_state) (w : World) : World :=
  mkWorld s (trail w) (threat w) (replay w) (enforcer w) (policies w) (master_key w) (env_var w)
    (tape w) (pos w).
Definition set_trail (t : list Audit.AuditEvent) (w : World) : World :=
  mkWorld (store w) t (threat w) (replay w) (enforcer w) (policies w) (master_key w) (env_var w)
    (tape w) (pos w).
Definition set_threat (t : option Threat.ThreatAssessor) (w : World) : World :=
  mkWorld (store w) (trail w) t (replay w) (enforcer w) (policies w) (master_key w) (env_var w)
    (tape w) (pos w).
Definition set_replay (r : rs_state) (w : World) : World :=
  mkWorld (store w) (trail w) (threat w) r (enforcer w) (policies w) (master_key w) (env_var w)
    (tape w) (pos w).
Definition set_enforcer (e : option Enforcer.StateEnforcer) (w : World) : World :=
  mkWorld (store w) (trail w) (threat w) (replay w) e (policies w) (master_key w) (env_var w)
    (tape w) (pos w).
Definition set_policies (p : gmap string Policy.KeyPolicy) (w : World) : World :=
  mkWorld (store w) (trail w) (threat w) (replay w) (enforcer w) p (master_key w) (env_var w)
    (tape w) (pos w).
Definition advance (w : World) : World :=
  mkWorld (store w) (trail w) (threat w) (replay w) (enforcer w) (policies w) (master_key w)
    (env_var w) (tape w) (S (pos w)).

Definition view (w : World) : gmap string KeyMetadata := st_view (store w).
Definition reading (w : World) : Reading := tape w (pos w).

(** ** The monad *)

Definition M (E A : Type) : Type := World -> World * result (fault E) A.

#[export] Instance M_ret {E} : MRet (M E) := fun A a w => (w, Ok a).
#[export] Instance M_bind {E} : MBind (M E) := fun A B f m w =>
  match m w with
  | (w', Ok a) => f a w'
  | (w', Err e) => (w', Err e)
  end.

Definition lift {E A} (r : result (fault E) A) : M E A := fun w => (w, r).
Definition throw {E A} (e : E) : M E A := fun w => (w, Err (Fail e)).
Definition panic {E A} : M E A := fun w => (w, Err Panic).
Definition asks {E A} (f : World -> A) : M E A := fun w => (w, Ok (f w)).
Definition modify {E} (f : World -> World) : M E unit := fun w => (f w, Ok ()).
Definition or_throw {E A} (o : option A) (e : E) : M E A :=
  match o with Some a => mret a | None => throw e end.
Definition throw_if {E} (b : bool) (e : E) : M E unit := if b then throw e else mret ().
(** [.map_err(f)?] *)
Definition mapping {E F A} (f : E -> F) (m : M E A) : M F A := fun w =>
  let '(w', r) := m w in
  (w', match r with Ok a => Ok a | Err (Fail e) => Err (Fail (f e)) | Err Panic => Err Panic end).
(** a [match] on the result of a call *)
Definition attempt {E F A} (m : M E A) : M F (result E A) := fun w =>
  let '(w', r) := m w in
  (w', match r with Ok a => Ok (Ok a) | Err (Fail e) => Ok (Err e) | Err Panic => Err Panic end).
(** [.map_err(|e| { cleanup; .. })?] *)
Definition on_error {E F A} (m : M E A) (h : E -> M F A) : M F A := fun w =>
  let '(w', r) := m w in
  match r with Ok a => (w', Ok a) | Err (Fail e) => h e w' | Err Panic => (w', Err Panic) end.

(** ** External accesses *)

Definition tick {E} : M E Reading := fun w => (advance w, Ok (reading w)).
Definition now {E} : M E Z := r ← tick; mret (rd_now r).
Definition fill_bytes {E} (n : nat) : M E (list byte) := r ← tick; mret (rd_bytes r 0 n).
Definition var_is_1 (w : World) (x : string) : bool := bool_decide (env_var w x = Some "1"%string).

Definition st_query {A} (f : st_env -> st_state -> result KeystoreError A) : M KeystoreError A :=
  fun w => (advance w, map_err Fail (f (rd_st (reading w)) (store w))).
Definition st_update {A} (f : st_env -> st_state -> st_state * result KeystoreError A) :
    M KeystoreError A :=
  fun w => let '(s, r) := f (rd_st (reading w)) (store w) in (set_store s (advance w), map_err Fail r).

Definition storage_get (k : string) : M KeystoreError (option KeyMetadata) :=
  st_query (fun e => st_get e k).
Definition storage_put (m : KeyMetadata) : M KeystoreError unit := st_update (fun e => st_put e m).
Definition storage_list : M KeystoreError (list KeyMetadata) := st_query st_list.
Definition storage_list_by_state (s : KeyState) : M KeystoreError (list KeyMetadata) :=
  st_query (fun e => st_list_by_state e s).
Definition storage_list_by_parent (p : string) : M KeystoreError (list KeyMetadata) :=
  st_query (fun e => st_list_by_parent e p).
Definition overwrite_key_file (k : string) : M KeystoreError unit :=
  st_update (fun e => st_overwrite e k).

(** [self.audit.record(..)], the event built on the spot. *)
Definition record {E} (e : Z -> Audit.AuditEvent) : M E unit :=
  fun w => (set_trail (trail w ++ [e (rd_now (reading w))]) (advance w), Ok ()).
Definition record_key {E} (k : string) (t : KeyType) (s : KeyState) (a : Audit.AuditAction) :
    M E unit := record (fun t0 => Audit.key_event t0 k t s a).
Definition record_system {E} (a : Audit.AuditAction) : M E unit :=
  record (fun t0 => Audit.system_event t0 a).

(** [self.threat.lock().unwrap()] followed by a call on the assessor. *)
Definition with_threat {E A}
    (f : Threat.ThreatAssessor -> option (Threat.ThreatAssessor * list Audit.AuditEvent * A)) :
    M E A := fun w =>
  match threat w with
  | None => (w, Err Panic)
  | Some a =>
      match f a with
      | None => (set_threat None w, Err Panic)
      | Some (a', evs, x) => (set_trail (trail w ++ evs) (set_threat (Some a') w), Ok x)
      end
  end.

Definition replay_claim (key : list byte) (ttl : Z) : M string bool := fun w =>
  let '(s, r) := claim (rd_rs (reading w)) key ttl (replay w) in
  (set_replay s (advance w), map_err Fail r).
Definition replay_release (key : list byte) : M string unit := fun w =>
  let '(s, r) := release (rd_rs (reading w)) key (replay w) in
  (set_replay s (advance w), map_err Fail r).

(** ** Weakest preconditions *)

Definition wp {E A} (m : M E A) (Q : result (fault E) A -> World -> Prop) (w : World) : Prop :=
  Q (m w).2 (m w).1.

Lemma wp_run {E A} (m : M E A) Q w w' r : wp m Q w -> m w = (w', r) -> Q r w'.
Proof. unfold wp. intros H Hm. by rewrite Hm in H. Qed.
(** What holds of every successful run. *)
Lemma wp_Ok {E A} (P : A -> World -> Prop) (m : M E A) w w' a :
  m w = (w', Ok a) -> wp m (fun r w' => forall a, r = Ok a -> P a w') w -> P a w'.
Proof. intros Hm H. by apply (wp_run _ _ _ _ _ H Hm). Qed.
Lemma wp_intro {E A} (m : M E A) Q w : (forall w' r, m w = (w', r) -> Q r w') -> wp m Q w.
Proof. unfold wp. intros H. apply H. by destruct (m w). Qed.
Lemma wp_mono {E A} (m : M E A) (Q Q' : _ -> _ -> Prop) w :
  wp m Q w -> (forall r w', Q r w' -> Q' r w') -> wp m Q' w.
Proof. unfold wp. auto. Qed.
Lemma wp_bind {E A B} (m : M E A) (f : A -> M E B) Q w :
  wp m (fun r w' => match r with Ok a => wp (f a) Q w' | Err e => Q (Err e) w' end) w ->
  wp (m ≫= f) Q w.
Proof. unfold wp, mbind, M_bind. destruct (m w) as [w' [a|e]]; done. Qed.
Lemma wp_ret {E A} (a : A) (Q : result (fault E) A -> World -> Prop) w : Q (Ok a) w -> wp (mret a) Q w.
Proof. done. Qed.
Lemma wp_lift {E A} (r : result (fault E) A) Q w : Q r w -> wp (lift r) Q w.
Proof. done. Qed.
Lemma wp_throw {E A} (e : E) Q w : Q (Err (Fail e)) w -> wp (A := A) (throw e) Q w.
Proof. done. Qed.
Lemma wp_panic {E A} Q w : Q (Err Panic) w -> wp (E := E) (A := A) panic Q w.
Proof. done. Qed.
Lemma wp_asks {E A} (f : World -> A) (Q : result (fault E) A -> World -> Prop) w :
  Q (Ok (f w)) w -> wp (asks f) Q w.
Proof. done. Qed.
Lemma wp_modify {E} f (Q : result (fault E) unit -> World -> Prop) w :
  Q (Ok ()) (f w) -> wp (modify f) Q w.
Proof. done. Qed.
Lemma wp_or_throw {E A} (o : option A) (e : E) Q w :
  (forall a, o = Some a -> Q (Ok a) w) -> (o = None -> Q (Err (Fail e)) w) -> wp (or_throw o e) Q w.
Proof. destruct o; cbn; intros H1 H2; [by apply H1|by apply H2]. Qed.
Lemma wp_throw_if {E} (b : bool) (e : E) Q w :
  (b = false -> Q (Ok ()) w) -> (b = true -> Q (Err (Fail e)) w) -> wp (throw_if b e) Q w.
Proof. destruct b; cbn; intros H1 H2; [by apply H2|by apply H1]. Qed.
Lemma wp_mapping {E F A} (f : E -> F) (m : M E A) Q w :
  wp m (fun r w' => Q (match r with Ok a => Ok a | Err (Fail e) => Err (Fail (f e))
                       | Err Panic => Err Panic end) w') w ->
  wp (mapping f m) Q w.
Proof. unfold wp, mapping. destruct (m w) as [w' [a|[e|]]]; done. Qed.
Lemma wp_attempt {E F A} (m : M E A) (Q : result (fault F) _ -> _ -> Prop) w :
  wp m (fun r w' => Q (match r with Ok a => Ok (Ok a) | Err (Fail e) => Ok (Err e)
                       | Err Panic => Err Panic end) w') w ->
  wp (attempt m) Q w.
Proof. unfold wp, attempt. by destruct (m w) as [w' [a|[e|]]]. Qed.
Lemma wp_on_error {E F A} (m : M E A) (h : E -> M F A) Q w :
  wp m (fun r w' => match r with Ok a => Q (Ok a) w' | Err (Fail e) => wp (h e) Q w'
                    | Err Panic => Q (Err Panic) w' end) w ->
  wp (on_error m h) Q w.
Proof. unfold wp, on_error. by destruct (m w) as [w' [a|[e|]]]. Qed.
Lemma wp_tick {E} Q w : Q (Ok (reading w)) (advance w) -> wp (E := E) tick Q w.
Proof. done. Qed.
Lemma wp_now {E} Q w : Q (Ok (rd_now (reading w))) (advance w) -> wp (E := E) now Q w.
Proof. done. Qed.
Lemma wp_fill_bytes {E} n Q w :
  Q (Ok (rd_bytes (reading w) 0 n)) (advance w) -> wp (E := E) (fill_bytes n) Q w.
Proof. done. Qed.
Lemma wp_record {E} e Q w :
  Q (Ok ()) (set_trail (trail w ++ [e (rd_now (reading w))]) (advance w)) -> wp (E := E) (record e) Q w.
Proof. done. Qed.

Lemma map_err_Err {E F A} (f : E -> F) (r : result E A) e :
  map_err f r = Err e -> exists e', r = Err e' /\ e = f e'.
Proof. destruct r; cbn; naive_solver. Qed.

Lemma wp_query {A} f (Q : result _ A -> World -> Prop) w :
  (forall a, f (rd_st (reading w)) (store w) = Ok a -> Q (Ok a) (advance w)) ->
  (forall e, Q (Err (Fail e)) (advance w)) -> wp (st_query f) Q w.
Proof.
  unfold wp, st_query. intros H1 H2. cbn. destruct (f _ _) eqn:Ef; cbn; [by apply H1|apply H2].
Qed.

Lemma wp_threat {E A} f Q w :
  (forall a, threat w = Some a -> forall a' evs x, f a = Some (a', evs, x) ->
     Q (Ok x) (set_trail (trail w ++ evs) (set_threat (Some a') w))) ->
  (forall t, Q (Err Panic) (set_threat t w)) -> (threat w = None -> Q (Err Panic) w) ->
  wp (E := E) (A := A) (with_threat f) Q w.
Proof.
  unfold wp, with_threat. intros H1 H2 H3. destruct (threat w) as [a|] eqn:E1; cbn; [|by apply H3].
  destruct (f a) as [[[a' evs] x]|] eqn:E2; cbn; [by eapply H1|apply H2].
Qed.

Section laws.
Context {PL : PlatformLaws PF}.

Lemma wp_get k (Q : result _ _ -> World -> Prop) w :
  Q (Ok (view w !! k)) (advance w) -> (forall e, Q (Err (Fail e)) (advance w)) ->
  wp (storage_get k) Q w.
Proof.
  intros H1 H2. apply wp_query; [|done]. intros a Ha. apply get_view in Ha as ->. apply H1.
Qed.

(** A write, seen through the view: it landed, or it failed without effect. *)
Lemma wp_put m (Q : result _ _ -> World -> Prop) w :
  storable m ->
  (forall s r, st_view s = <[ id m := m ]> (view w) -> r <> Err Panic ->
     Q r (set_store s (advance w))) ->
  (forall s e, st_view s = view w -> Q (Err (Fail e)) (set_store s (advance w))) ->
  wp (storage_put m) Q w.
Proof.
  intros Hm H1 H2. unfold wp, storage_put, st_update.
  destruct (put_view (rd_st (reading w)) m (store w) Hm) as [Hv|[Hr Hv]];
    destruct (st_put _ m (store w)) as [s r]; cbn in *.
  - apply H1; [done|]. by destruct r.
  - destruct r as [[]|e]; [done|]. by apply H2.
Qed.

Lemma wp_overwrite k (Q : result _ _ -> World -> Prop) w :
  (forall s r, st_view s = view w \/ st_view s = delete k (view w) -> Q r (set_store s (advance w))) ->
  wp (overwrite_key_file k) Q w.
Proof.
  intros H1. unfold wp, overwrite_key_file, st_update.
  pose proof (overwrite_view (rd_st (reading w)) k (store w)) as Hv.
  destruct (st_overwrite _ k (store w)) as [s r]; cbn in *. by apply H1.
Qed.
End laws.
End world.

Arguments M {PF} E A.
