(* ===== verification/KeystoreWrap.v ===== *)
(** * Wrapping of secret keys ([citadel-keystore/src/keystore.rs], lines 66-725)

    A key version's secret is stored sealed, under the master key (AES-GCM), or
    to the public key of the parent (a CTD2 envelope), or in plaintext in
    development.  Unwrapping follows the parents recursively, at most five
    versions deep. *)

From S2P Require Import Prelude.
From S2P Require Import Wire.
From S2P Require Import WireV2.
From S2P Require Import Crypto.
From S2P Require Import Envelope.
From S2P Require Import Enforcer.
From S2P Require Import F64.
From S2P Require Import Types.
From S2P Require Import Hierarchy.
From S2P Require Import Policy.
From S2P Require Import AuditLog.
From S2P Require Import Threat.
From S2P Require Import Storage.
From S2P Require Import Replay.
From S2P Require Import KeystoreBase.
Import Types.

Notation hybrid_kem := Kem.HybridX25519MlKem768Provider.

Module Wrap.

Definition MAX_UNWRAP_DEPTH : Z := 4.
Definition HIERARCHY_WRAP_AAD : list byte := bytes_of_string "citadel-kek-hierarchy-v2".

Section wrap.
Context {PF : Platform}.

(** ** The SDK facade [Citadel] *)

Definition generate_keypair {E} : M E (Kem.PublicKey * Kem.SecretKey) :=
  r ← tick; mret (Kem.keygen (rd_kem r)).
Definition seal (pk : Kem.PublicKey) (plaintext aad context : list byte) :
    M EncodingError (list byte) :=
  r ← tick;
  lift (Engine.encrypt (K := hybrid_kem) (rd_draws r) (rd_nonce r) pk plaintext aad context).
Definition open (sk : Kem.SecretKey) (ciphertext aad context : list byte) :
    M DecryptionError (list byte) :=
  lift (Engine.decrypt (K := hybrid_kem) sk ciphertext aad context).

Definition decode_hex (s : string) : M string (list byte) := or_throw (hex_decode s) (hex_error s).

(** ** Wrapping *)

(** The HKDF info of the master-key path. *)
Definition kek_info (key_id : string) (version : Z) : list byte :=
  bytes_of_string "citadel-kek-v1:" ++ bytes_of_string key_id ++ bytes_of_string ":" ++ u32_be version.

Definition wrap_with_master_key (key_id : string) (version : Z) (sk_bytes : list byte) :
    M string SecretKeyMaterial :=
  mk ← asks master_key;
  match mk with
  | None => mret (Plaintext (hex_encode sk_bytes))
  | Some mk =>
      aes_key ← or_throw (hkdf_expand None mk (kek_info key_id version) 32)
                  ("HKDF expand: " +:+ hkdf_error);
      nonce_bytes ← fill_bytes 12;
      ct ← or_throw (gcm_encrypt aes_key nonce_bytes sk_bytes []) "AES-256-GCM encrypt failed"%string;
      mret (Encrypted ("enc:" +:+ hex_encode nonce_bytes +:+ hex_encode ct))
  end.

Definition wrap_context (child_key_id : string) (child_version : Z) (parent_id : string) :
    list byte :=
  Sdk.context_for_secrets ("kek-wrap-v2:" +:+ child_key_id +:+ ":" +:+ pretty child_version) parent_id.

(** [parent_version] is only logged. *)
Definition wrap_with_citadel_key (child_key_id : string) (child_version : Z) (parent_id : string)
    (parent_version : Z) (parent_pk_hex : string) (sk_bytes : list byte) :
    M string SecretKeyMaterial :=
  pk_bytes ← mapping (fun e => "decode parent public key hex: " +:+ e) (decode_hex parent_pk_hex);
  pk ← mapping (fun _ => "parse parent public key failed"%string)
         (lift (Kem.PublicKey_from_bytes pk_bytes));
  ciphertext ← mapping (fun _ => "Citadel seal for hierarchy wrap: encoding error"%string)
    (seal pk sk_bytes HIERARCHY_WRAP_AAD (wrap_context child_key_id child_version parent_id));
  mret (CitadelWrapped ("ckw:" +:+ hex_encode ciphertext)).

(** The parent key types whose public key wraps the child. *)
Definition wraps_children (t : KeyType) : bool :=
  match t with KeyEncrypting | Domain => true | _ => false end.

Definition wrap_secret_key_for (key_id : string) (version : Z) (parent_id : option string)
    (sk_bytes : list byte) : M string (SecretKeyMaterial * option string * option Z) :=
  let master :=
    material ← wrap_with_master_key key_id version sk_bytes; mret (material, None, None) in
  match parent_id with
  | Some pid =>
      o ← mapping (fun e => "load parent " +:+ pid +:+ ": " +:+ display_error e) (storage_get pid);
      parent_meta ← or_throw o ("parent key " +:+ pid +:+ " not found");
      if wraps_children (key_type parent_meta) then
        parent_version ← or_throw (current_key_version parent_meta)
                           ("parent " +:+ pid +:+ " has no current version");
        material ← wrap_with_citadel_key key_id version pid (Types.version parent_version)
                     (public_key_hex parent_version) sk_bytes;
        mret (material, Some pid, Some (Types.version parent_version))
      else master
  | None => master
  end.

(** ** Unwrapping *)

Definition version_name (key_id : string) (kv : KeyVersion) : string :=
  key_id +:+ " v" +:+ pretty (Types.version kv).

Definition unwrap_encrypted (key_id : string) (kv : KeyVersion) (enc : string) :
    M string (list byte) :=
  mk ← asks master_key;
  mk ← or_throw mk "key is AES-wrapped but CITADEL_MASTER_KEY is not set"%string;
  payload ← or_throw (strip_prefix enc "enc:")
              "malformed Encrypted material: missing 'enc:' prefix"%string;
  _ ← throw_if (String.length payload <? 24)%nat "encrypted key blob too short"%string;
  halves ← lift (str_split_at 24 payload);
  nonce_bytes ← mapping (fun e => "nonce hex: " +:+ e) (decode_hex halves.1);
  ciphertext ← mapping (fun e => "ct hex: " +:+ e) (decode_hex halves.2);
  aes_key ← or_throw (hkdf_expand None mk (kek_info key_id (Types.version kv)) 32)
              ("HKDF expand: " +:+ hkdf_error);
  _ ← throw_if (negb (len nonce_bytes =? 12)) "nonce must be 12 bytes"%string;
  or_throw (gcm_decrypt aes_key nonce_bytes ciphertext [])
    ("AES-256-GCM decryption failed" +:+ Hierarchy.dash +:+ "wrong master key or corruption").

Definition usable (s : KeyState) : bool := bool_decide (s = Active \/ s = Rotated).

(** The steps before the recursive call: the version of the parent that
    wrapped this one. *)
Definition find_parent (key_id : string) (kv : KeyVersion) (skip_parent_state_check : bool) :
    M string (string * KeyVersion) :=
  pid ← or_throw (wrapping_key_id kv)
          ("key " +:+ version_name key_id kv +:+ " is CitadelWrapped but wrapping_key_id is missing");
  o ← mapping (fun e => "load parent " +:+ pid +:+ ": " +:+ display_error e) (storage_get pid);
  parent_meta ← or_throw o
    ("parent key '" +:+ pid +:+ "' not found (needed to unwrap '" +:+ key_id +:+ "' v"
       +:+ pretty (Types.version kv) +:+ ")" +:+ Hierarchy.dash
       +:+ "hierarchy broken; use rewrap() to re-wrap under a present parent");
  (if negb skip_parent_state_check && negb (usable (state parent_meta)) then
     _ ← record_key key_id (key_type parent_meta) (state parent_meta)
           (Audit.AHierarchyViolation pid (display_state (state parent_meta)) key_id);
     throw ("parent key " +:+ pid +:+ " is in state " +:+ display_state (state parent_meta)
            +:+ Hierarchy.dash +:+ "hierarchy access denied for " +:+ version_name key_id kv)
   else mret ()) ;;
  parent_ver_num ← or_throw (wrapping_key_version kv)
    ("key " +:+ version_name key_id kv +:+ " is CitadelWrapped but wrapping_key_version is missing");
  parent_kv ← or_throw (get_version parent_meta parent_ver_num)
    ("parent key " +:+ pid +:+ " v" +:+ pretty parent_ver_num +:+ " not found (needed to unwrap "
       +:+ version_name key_id kv +:+ ")");
  mret (pid, parent_kv).

(** The steps after it. *)
Definition open_wrapped (key_id : string) (kv : KeyVersion) (ckw pid : string)
    (parent_sk_bytes : list byte) : M string (list byte) :=
  parent_sk ← mapping (fun _ => "parse parent " +:+ pid +:+ " secret key failed")
                (lift (Kem.SecretKey_from_bytes parent_sk_bytes));
  payload ← or_throw (strip_prefix ckw "ckw:")
              "malformed CitadelWrapped material: missing 'ckw:' prefix"%string;
  ciphertext ← mapping (fun e => "decode CitadelWrapped: " +:+ e) (decode_hex payload);
  mapping (fun _ => "CitadelWrapped decryption failed for key " +:+ version_name key_id kv
                      +:+ " (wrong parent key or corruption)")
    (open parent_sk ciphertext HIERARCHY_WRAP_AAD (wrap_context key_id (Types.version kv) pid)).

(** [levels] is [MAX_UNWRAP_DEPTH + 1 - depth]. *)
Fixpoint unwrap_key_version_inner (levels : nat) (key_id : string) (kv : KeyVersion)
    (skip_parent_state_check : bool) : M string (list byte) :=
  match levels with
  | O => throw ("key " +:+ key_id +:+ " hierarchy too deep (>" +:+ pretty MAX_UNWRAP_DEPTH
                +:+ " levels); possible circular wrapping")
  | S levels =>
      match secret_key_material kv with
      | Purged => throw "key material has been destroyed and cannot be recovered"%string
      | Plaintext hex_str => mapping (fun e => "plaintext hex decode: " +:+ e) (decode_hex hex_str)
      | Encrypted enc => unwrap_encrypted key_id kv enc
      | CitadelWrapped ckw =>
          p ← find_parent key_id kv skip_parent_state_check;
          parent_sk_bytes ← unwrap_key_version_inner levels p.1 p.2 skip_parent_state_check;
          open_wrapped key_id kv ckw p.1 parent_sk_bytes
      end
  end.

Definition unwrap_key_version (key_id : string) (kv : KeyVersion) (depth : Z) :
    M string (list byte) :=
  unwrap_key_version_inner (Z.to_nat (MAX_UNWRAP_DEPTH + 1 - depth)) key_id kv false.
Definition unwrap_key_version_for_rewrap (key_id : string) (kv : KeyVersion) :
    M string (list byte) :=
  unwrap_key_version_inner (Z.to_nat (MAX_UNWRAP_DEPTH + 1 - 0)) key_id kv true.

(** [enc[4..28]]. *)
Definition extract_wrap_nonce {E} (material : SecretKeyMaterial) : M E (option string) :=
  match material with
  | Encrypted enc =>
      if (28 <? String.length enc)%nat then
        h ← lift (str_split_at 28 enc);
        h' ← lift (str_split_at 4 h.1);
        mret (Some h'.2)
      else mret None
  | _ => mret None
  end.
End wrap.
End Wrap.
