(* ===== verification/Keystore.v ===== *)
(** * Key lifecycle ([citadel-keystore/src/keystore.rs], lines 727-1568, 2055-2215)

    Generation, the state transitions, rotation, rewrapping, revocation with
    its cascade, expiry, destruction, and the policy checks.  The error types
    [GenerateError], [LifecycleError], [RotateError], [RewrapError],
    [CascadeError] and [ExpireError] each wrap one [KeystoreError], which stands
    for them. *)

From S2P Require Import Prelude.
From S2P Require Import Wire.
From S2P Require Import WireV2.
From S2P Require Import Crypto.
From S2P Require Import Envelope.
From S2P Require Import Enforcer.
From S2P Require Import F64.
From S2P Require Import Types.
From S2P Require Import Hierarchy.
From S2P Require Import Policy.
From S2P Require Import AuditLog.
From S2P Require Import Threat.
From S2P Require Import Storage.
From S2P Require Import Replay.
From S2P Require Import KeystoreBase.
From S2P Require Import KeystoreWrap.
Import Types.

(** Assignments to the fields of a [KeyMetadata]. *)
Definition set_state (s : KeyState) (m : KeyMetadata) : KeyMetadata :=
  mkKeyMetadata (id m) (name m) (key_type m) s (policy_id m) (parent_id m) (created_at m)
    (updated_at m) (activated_at m) (rotated_at m) (revoked_at m) (destroyed_at m) (versions m)
    (current_version m) (usage_count m) (tags m).
Definition set_updated (t : Z) (m : KeyMetadata) : KeyMetadata :=
  mkKeyMetadata (id m) (name m) (key_type m) (state m) (policy_id m) (parent_id m) (created_at
    m) t (activated_at m) (rotated_at m) (revoked_at m) (destroyed_at m) (versions m)
    (current_version m) (usage_count m) (tags m).
Definition set_activated (t : Z) (m : KeyMetadata) : KeyMetadata :=
  mkKeyMetadata (id m) (name m) (key_type m) (state m) (policy_id m) (parent_id m) (created_at
    m) (updated_at m) (Some t) (rotated_at m) (revoked_at m) (destroyed_at m) (versions m)
    (current_version m) (usage_count m) (tags m).
Definition set_rotated (t : Z) (m : KeyMetadata) : KeyMetadata :=
  mkKeyMetadata (id m) (name m) (key_type m) (state m) (policy_id m) (parent_id m) (created_at
    m) (updated_at m) (activated_at m) (Some t) (revoked_at m) (destroyed_at m) (versions m)
    (current_version m) (usage_count m) (tags m).
Definition set_revoked (t : Z) (m : KeyMetadata) : KeyMetadata :=
  mkKeyMetadata (id m) (name m) (key_type m) (state m) (policy_id m) (parent_id m) (created_at
    m) (updated_at m) (activated_at m) (rotated_at m) (Some t) (destroyed_at m) (versions m)
    (current_version m) (usage_count m) (tags m).
Definition set_destroyed (t : Z) (m : KeyMetadata) : KeyMetadata :=
  mkKeyMetadata (id m) (name m) (key_type m) (state m) (policy_id m) (parent_id m) (created_at
    m) (updated_at m) (activated_at m) (rotated_at m) (revoked_at m) (Some t) (versions m)
    (current_version m) (usage_count m) (tags m).
Definition set_versions (vs : list KeyVersion) (m : KeyMetadata) : KeyMetadata :=
  mkKeyMetadata (id m) (name m) (key_type m) (state m) (policy_id m) (parent_id m) (created_at
    m) (updated_at m) (activated_at m) (rotated_at m) (revoked_at m) (destroyed_at m) vs
    (current_version m) (usage_count m) (tags m).
Definition set_current (n : Z) (m : KeyMetadata) : KeyMetadata :=
  mkKeyMetadata (id m) (name m) (key_type m) (state m) (policy_id m) (parent_id m) (created_at
    m) (updated_at m) (activated_at m) (rotated_at m) (revoked_at m) (destroyed_at m) (versions
    m) n (usage_count m) (tags m).
Definition set_usage (n : Z) (m : KeyMetadata) : KeyMetadata :=
  mkKeyMetadata (id m) (name m) (key_type m) (state m) (policy_id m) (parent_id m) (created_at
    m) (updated_at m) (activated_at m) (rotated_at m) (revoked_at m) (destroyed_at m) (versions
    m) (current_version m) n (tags m).

Module Keystore.
Import Wrap.

Section keystore.
Context {PF : Platform}.

(** ** Environment *)

Definition is_development (w : World) : bool :=
  bool_decide (env_var w "CITADEL_ENV" = Some "development"%string).
Definition dev_mode (w : World) : bool :=
  var_is_1 w "CITADEL_ALLOW_PLAINTEXT_KEYS" && is_development w.
Definition flat_override (w : World) : bool :=
  var_is_1 w "CITADEL_ALLOW_FLAT_DEKS" && is_development w.

Definition audit_plaintext_mode_if_active {E} : M E unit :=
  active ← asks (E := E) (fun w => var_is_1 w "CITADEL_ALLOW_PLAINTEXT_KEYS");
  if (active : bool) then
    dev ← asks (E := E) is_development;
    record_system (Audit.PlaintextModeActivated
      (if (dev : bool) then "development" else "PRODUCTION (UNSAFE)"))
  else mret ().

Definition master_key_unset : KeystoreError :=
  StorageError ("CITADEL_MASTER_KEY is not set. Set CITADEL_MASTER_KEY or " +:+
    "set CITADEL_ALLOW_PLAINTEXT_KEYS=1 and CITADEL_ENV=development.").

(** The fail-closed master key check of [generate] and [rotate]. *)
Definition require_master_key : M KeystoreError unit :=
  blocked ← asks (fun w => bool_decide (master_key w = None) && negb (dev_mode w));
  throw_if blocked master_key_unset.

(** ** Policies *)

Definition register_policy {E} (p : Policy.KeyPolicy) : M E unit :=
  _ ← record_system (Audit.PolicyRegistered (Policy.pol_id p));
  modify (fun w => set_policies (<[ Policy.pol_id p := p ]> (policies w)) w).
Definition get_policy (pid : string) (w : World) : option Policy.KeyPolicy := policies w !! pid.

(** ** Threat level *)

Definition current_threat_level {E} : M E Threat.ThreatLevel :=
  t1 ← now; t2 ← now; t3 ← now;
  with_threat (fun a => Some (Threat.current_level t1 t2 t3 a)).

Definition policy_of (w : World) (meta : KeyMetadata) : option Policy.KeyPolicy :=
  policy_id meta ≫= fun pid => policies w !! pid.

Definition effective_policy_for {E} (meta : KeyMetadata) : M E (option Policy.KeyPolicy) :=
  level ← current_threat_level;
  base ← asks (fun w => policy_of w meta);
  mret ((fun p => Threat.adapt p level) <$> base).

Definition grace_period_for {E} (meta : KeyMetadata) : M E Z :=
  p ← effective_policy_for meta;
  mret (default (from_secs (7 * 86400)) (Policy.rotation_grace_period <$> p)).
Definition max_lifetime_for {E} (meta : KeyMetadata) : M E (option Z) :=
  p ← effective_policy_for meta; mret (p ≫= Policy.max_lifetime).

(** [policy::evaluate], which reads the clock twice. *)
Definition evaluate_now {E} (p : Policy.KeyPolicy) (meta : KeyMetadata) : M E Policy.PolicyVerdict :=
  t1 ← now; t2 ← now; lift (ok_or (Policy.evaluate t1 t2 p meta) Panic).

Definition record_threat_event {E} (e : Z -> Threat.ThreatEvent) : M E unit :=
  t0 ← now; t1 ← now; t2 ← now; t3 ← now; t4 ← now;
  with_threat (fun a => (fun r => (r, ())) <$> Threat.record_event t1 t2 t3 t4 (e t0) a).
Definition record_threat_events {E} (es : list Threat.ThreatEvent) : M E unit :=
  t1 ← now; t2 ← now; t3 ← now; t4 ← now;
  with_threat (fun a => (fun r => (r, ())) <$> Threat.record_events t1 t2 t3 t4 es a).
Definition reset_threat_state {E} : M E unit :=
  t1 ← now; t2 ← now; with_threat (fun a => Some (Threat.reset t1 t2 a, ())).
Definition threat_score {E} : M E f64 :=
  t ← now; with_threat (fun a => Some (a, [], Threat.raw_score t a)).
Definition record_audit_event {E} (a : Audit.AuditAction) : M E unit := record_system a.

(** ** Retrieval *)

Definition get (k : string) : M KeystoreError KeyMetadata :=
  o ← storage_get k; or_throw o (KeyNotFound k).
Definition list_keys : M KeystoreError (list KeyMetadata) := storage_list.
Definition list_by_state (s : KeyState) : M KeystoreError (list KeyMetadata) :=
  storage_list_by_state s.

Definition MAX_DEPTH : nat := 10.

(** [current] is at [depth]; [hops] iterations are left. *)
Fixpoint resolve_from (hops : nat) (depth : Z) (key_id current : string) : M KeystoreError string :=
  match hops with
  | O => throw (HierarchyViolation
           ("resolve_domain_for_key exceeded max depth (" +:+ pretty (Z.of_nat MAX_DEPTH)
            +:+ ") starting from " +:+ key_id +:+ Hierarchy.dash +:+ "possible cycle in parent chain"))
  | S hops =>
      meta ← get current;
      match key_type meta with
      | Domain => mret (id meta)
      | Root => throw (HierarchyViolation "Root key has no Domain ancestor")
      | _ =>
          parent ← or_throw (parent_id meta)
            (HierarchyViolation ("Key " +:+ current +:+ " is orphaned (no parent) and not a Domain (depth "
               +:+ pretty depth +:+ ")"));
          resolve_from hops (depth + 1) key_id parent
      end
  end.
Definition resolve_domain_for_key (key_id : string) : M KeystoreError string :=
  resolve_from MAX_DEPTH 0 key_id key_id.

(** ** Generation *)

Definition debug_type (t : KeyType) : string :=
  match t with
  | Root => "Root" | Domain => "Domain" | KeyEncrypting => "KeyEncrypting"
  | DataEncrypting => "DataEncrypting" | HybridIdentity => "HybridIdentity" | Signing => "Signing"
  end.

Definition override_hint : string :=
  "Set CITADEL_ALLOW_FLAT_DEKS=1 with CITADEL_ENV=development to override for testing only.".

Definition check_hierarchy (key_type : KeyType) (parent_id : option string) : M KeystoreError unit :=
  let child_role := Hierarchy.role_of key_type in
  flat ← asks flat_override;
  match parent_id with
  | None =>
      throw_if (negb (bool_decide (key_type = Root)) && negb flat)
        (HierarchyViolation (debug_type key_type +:+ " keys require a parent. Valid hierarchy: Root"
           +:+ arrow +:+ "Domain" +:+ arrow +:+ "KeyEncrypting" +:+ arrow +:+ "DataEncrypting. "
           +:+ override_hint))
  | Some pid =>
      o ← mapping (fun e => StorageError ("load parent for hierarchy check " +:+ pid +:+ ": "
                               +:+ display_error e)) (storage_get pid);
      parent_meta ← or_throw o (HierarchyViolation ("parent key " +:+ pid +:+ " not found"));
      let parent_role := Hierarchy.role_of (Types.key_type parent_meta) in
      throw_if (negb (Hierarchy.can_wrap parent_role child_role) && negb flat)
        (HierarchyViolation (debug_type key_type +:+ " (" +:+ Hierarchy.label child_role
           +:+ ") cannot be a child of " +:+ debug_type (Types.key_type parent_meta) +:+ " ("
           +:+ Hierarchy.label parent_role +:+ "). Valid hierarchy: Root" +:+ arrow +:+ "Domain"
           +:+ arrow +:+ "KeyEncrypting" +:+ arrow +:+ "DataEncrypting/HybridIdentity. "
           +:+ override_hint))
  end.

Definition use_generate_signing_key : KeystoreError :=
  HierarchyViolation ("KeyType::Signing keys must be created with generate_signing_key(), not generate(). "
    +:+ "generate() creates KEM keys; signing keys require ML-DSA-65 keypairs.").

(** The version record both [generate] and [rotate] build. *)
Definition new_version (n created : Z) (pk : Kem.PublicKey)
    (wrapped : SecretKeyMaterial * option string * option Z) (wrap_nonce : option string) : KeyVersion :=
  {| version := n; kv_created_at := created; public_key_hex := hex_encode (Kem.PublicKey_to_bytes pk);
     secret_key_material := wrapped.1.1; wrapping_key_id := wrapped.1.2;
     wrapping_key_version := wrapped.2; wrap_nonce_hex := wrap_nonce; wrapping_mode := None |}.

Definition generate (name : string) (key_type : KeyType) (policy_id parent_id : option string) :
    M KeystoreError string :=
  _ ← throw_if (bool_decide (key_type = Signing)) use_generate_signing_key;
  _ ← require_master_key;
  _ ← check_hierarchy key_type parent_id;
  id_bytes ← fill_bytes 16;
  let id := hex_encode id_bytes in
  t ← now;
  kp ← generate_keypair;
  let sk_bytes := Kem.SecretKey_to_bytes kp.2 in
  wrapped ← mapping StorageError (wrap_secret_key_for id 1 parent_id sk_bytes);
  wrap_nonce ← extract_wrap_nonce wrapped.1.1;
  let meta := {| Types.id := id; Types.name := name; Types.key_type := key_type; state := Pending;
                 Types.policy_id := policy_id; Types.parent_id := parent_id; created_at := t;
                 updated_at := t; activated_at := None; rotated_at := None; revoked_at := None;
                 destroyed_at := None; versions := [new_version 1 t kp.1 wrapped wrap_nonce];
                 current_version := 1; usage_count := 0; tags := ∅ |} in
  _ ← storage_put meta;
  _ ← record_key id key_type Pending Audit.KeyGenerated;
  mret id.

(** ** Transitions *)

Definition transition (meta : KeyMetadata) (target : KeyState) : M KeystoreError KeyMetadata :=
  _ ← throw_if (negb (can_transition_to (state meta) target))
        (InvalidTransition (id meta) (state meta) target);
  t ← now;
  mret (set_updated t (set_state target meta)).

Definition activate (k : string) : M KeystoreError unit :=
  meta ← get k;
  meta ← transition meta Active;
  t ← now;
  let meta := set_activated t meta in
  _ ← storage_put meta;
  record_key k (key_type meta) (state meta) Audit.KeyActivated.

Definition rotate (k : string) : M KeystoreError string :=
  meta ← get k;
  _ ← throw_if (negb (bool_decide (state meta = Active))) (NotActive k);
  _ ← require_master_key;
  kp ← generate_keypair;
  let new_sk_bytes := Kem.SecretKey_to_bytes kp.2 in
  let n := wrapping_add 32 (current_version meta) 1 in
  t ← now;
  wrapped ← mapping StorageError (wrap_secret_key_for k n (parent_id meta) new_sk_bytes);
  wrap_nonce ← extract_wrap_nonce wrapped.1.1;
  let meta := set_updated t (set_rotated t (set_activated t (set_state Active (set_current n
                (set_versions (versions meta ++ [new_version n t kp.1 wrapped wrap_nonce]) meta))))) in
  _ ← storage_put meta;
  _ ← record_key k (key_type meta) (state meta) (Audit.KeyRotated n);
  mret k.

(** [iter_mut().find(p)] and an assignment through the reference. *)
Fixpoint update_first {A} (p : A -> bool) (f : A -> A) (l : list A) : option (list A) :=
  match l with
  | [] => None
  | x :: l => if p x then Some (f x :: l) else (fun l => x :: l) <$> update_first p f l
  end.

Definition rewrapped (wrapped : SecretKeyMaterial * option string * option Z)
    (wrap_nonce : option string) (v : KeyVersion) : KeyVersion :=
  {| version := version v; kv_created_at := kv_created_at v; public_key_hex := public_key_hex v;
     secret_key_material := wrapped.1.1; wrapping_key_id := wrapped.1.2;
     wrapping_key_version := wrapped.2; wrap_nonce_hex := wrap_nonce; wrapping_mode := None |}.

Definition rewrap (k : string) (new_parent_id : option string) : M KeystoreError unit :=
  meta ← mapping (fun _ => KeyNotFound k) (get k);
  kv ← or_throw (current_key_version meta) (KeyNotFound k);
  sk_bytes ← mapping StorageError (unwrap_key_version_for_rewrap k kv);
  wrapped ← mapping StorageError (wrap_secret_key_for k (version kv) new_parent_id sk_bytes);
  wrap_nonce ← extract_wrap_nonce wrapped.1.1;
  vs ← or_throw (update_first (fun v => version v =? current_version meta)
                   (rewrapped wrapped wrap_nonce) (versions meta)) (KeyNotFound k);
  t ← now;
  let meta := set_updated t (set_versions vs meta) in
  _ ← storage_put meta;
  record_key k (key_type meta) (state meta)
    (Audit.KeyRewrapped (wrapping_key_id kv) new_parent_id wrapped.2).

(** ** Revocation *)

Definition revoke (k reason : string) : M KeystoreError unit :=
  meta ← get k;
  _ ← throw_if (negb (bool_decide (state meta = Active))) (InvalidTransition k (state meta) Revoked);
  t1 ← now; t2 ← now;
  let meta := set_updated t2 (set_revoked t1 (set_state Revoked meta)) in
  _ ← storage_put meta;
  record_key k (key_type meta) (state meta) (Audit.KeyRevoked reason).

(** Suspended keys, collected errors, and the queue as a stack, next key
    first. *)
Record Cascade := mkCascade {
  suspended : Z;
  c_errors : list (string * string);
  queue : list string;
}.

Definition push_error (e : string * string) (c : Cascade) : Cascade :=
  mkCascade (suspended c) (c_errors c ++ [e]) (queue c).
Definition push_suspended (k : string) (c : Cascade) : Cascade :=
  mkCascade (suspended c + 1) (c_errors c) (k :: queue c).

Definition cascade_child (parent_id : string) (child : KeyMetadata) (c : Cascade) :
    M KeystoreError Cascade :=
  if bool_decide (state child = Destroyed \/ state child = Revoked \/ state child = Suspended)
  then mret c
  else if negb (can_transition_to (state child) Suspended)
  then mret (push_error (id child, "cannot suspend " +:+ name child +:+ " key (state: "
                           +:+ display_state (state child) +:+ ")") c)
  else
    t ← now;
    let child := set_updated t (set_state Suspended child) in
    r ← attempt (storage_put child);
    match r with
    | Ok _ =>
        _ ← record_key (id child) (key_type child) (state child)
              (Audit.AHierarchyViolation parent_id "Revoked" (id child));
        mret (push_suspended (id child) c)
    | Err e => mret (push_error (id child, display_error e) c)
    end.

Fixpoint cascade_children (parent_id : string) (children : list KeyMetadata) (c : Cascade) :
    M KeystoreError Cascade :=
  match children with
  | [] => mret c
  | child :: rest => c ← cascade_child parent_id child c; cascade_children parent_id rest c
  end.

(** [while let Some(parent_id) = queue.pop()]; [None] when the fuel is out. *)
Fixpoint cascade_loop (fuel : nat) (c : Cascade) : M KeystoreError (option Cascade) :=
  match fuel with
  | O => mret None
  | S fuel =>
      match queue c with
      | [] => mret (Some c)
      | parent_id :: rest =>
          children ← storage_list_by_parent parent_id;
          c ← cascade_children parent_id children (mkCascade (suspended c) (c_errors c) rest);
          cascade_loop fuel c
      end
  end.

Definition revoke_cascade (fuel : nat) (k reason : string) :
    M KeystoreError (option (Z * Z * list (string * string))) :=
  _ ← revoke k reason;
  c ← cascade_loop fuel (mkCascade 0 [] [k]);
  mret ((fun c => (1, suspended c, c_errors c)) <$> c).

(** ** Expiry *)

(** [(d.as_secs() as f64 * 0.9) as i64]. *)
Definition warn_secs (d : Z) : Z := F64.to_i64 (F64.mul (F64.of_Z (as_secs d)) (F64.lit 9 10)).

(** The two halves of [check_expiration] differ in the limit and in the texts. *)
Definition against_limit (t since limit : Z) (required : Z -> string) (warning : string)
    (source : ExpirationSource) : ExpirationDecision :=
  let elapsed := t - since in
  let limit_chrono := Policy.std_or_max limit in
  if limit_chrono <=? elapsed then Required (required elapsed) source
  else if warn_secs limit <=? num_seconds elapsed
  then Warning warning (Z.max 0 (limit_chrono - elapsed)) source
  else NotNeeded.

Definition check_expiration {E} (meta : KeyMetadata) : M E ExpirationDecision :=
  match state meta with
  | Rotated =>
      match rotated_at meta with
      | Some rotated_at =>
          grace ← grace_period_for meta;
          t ← now;
          mret (against_limit t rotated_at grace
            (fun elapsed => "rotated " +:+ pretty (num_seconds elapsed) +:+ "s ago, grace period "
               +:+ pretty (as_secs grace) +:+ "s")
            "grace period expiring soon" GracePeriodExpired)
      | None => mret NotNeeded
      end
  | Active =>
      limit ← max_lifetime_for meta;
      match limit, activated_at meta with
      | Some max_lifetime, Some activated_at =>
          t ← now;
          mret (against_limit t activated_at max_lifetime
            (fun elapsed => "active for " +:+ pretty (num_seconds elapsed) +:+ "s, max lifetime "
               +:+ pretty (as_secs max_lifetime) +:+ "s")
            "max lifetime expiring soon" MaxLifetimeExceeded)
      | _, _ => mret NotNeeded
      end
  | _ => mret NotNeeded
  end.

Definition should_expire (k : string) : M KeystoreError ExpirationDecision :=
  meta ← get k; check_expiration meta.

Definition expire (k : string) : M KeystoreError ExpirationSource :=
  meta ← get k;
  decision ← check_expiration meta;
  match decision with
  | Required reason source =>
      t ← now;
      let meta := set_updated t (set_state Expired meta) in
      _ ← storage_put meta;
      _ ← record_key k (key_type meta) (state meta) (Audit.KeyExpired reason);
      mret source
  | _ => throw (InvalidTransition k (state meta) Expired)
  end.

Record ExpirationReport := mkReport {
  expired : list (string * ExpirationSource);
  warnings : list (string * string * Z);
  failed : list (string * string);
  skipped : Z;
}.

(** The body both loops of [expire_due_keys] share. *)
Definition expire_one (meta : KeyMetadata) (r : ExpirationReport) :
    M KeystoreError ExpirationReport :=
  decision ← check_expiration meta;
  match decision with
  | Required _ _ =>
      res ← attempt (expire (id meta));
      mret match res with
           | Ok src => mkReport (expired r ++ [(id meta, src)]) (warnings r) (failed r) (skipped r)
           | Err e => mkReport (expired r) (warnings r) (failed r ++ [(id meta, display_error e)])
                        (skipped r)
           end
  | Warning reason remaining _ =>
      mret (mkReport (expired r) (warnings r ++ [(id meta, reason, remaining)]) (failed r) (skipped r))
  | NotNeeded => mret (mkReport (expired r) (warnings r) (failed r) (skipped r + 1))
  end.

Fixpoint expire_all (metas : list KeyMetadata) (r : ExpirationReport) :
    M KeystoreError ExpirationReport :=
  match metas with
  | [] => mret r
  | meta :: rest => r ← expire_one meta r; expire_all rest r
  end.

Definition expire_due_keys : M KeystoreError ExpirationReport :=
  rotated ← storage_list_by_state Rotated;
  r ← expire_all rotated (mkReport [] [] [] 0);
  active ← storage_list_by_state Active;
  r ← expire_all active r;
  _ ← record_system (Audit.ExpirationCheckRun (Z.of_nat (length (expired r)))
        (Z.of_nat (length (warnings r))));
  mret r.

(** ** Destruction *)

Definition destroy_version (v : KeyVersion) : KeyVersion :=
  {| version := version v; kv_created_at := kv_created_at v; public_key_hex := "DESTROYED";
     secret_key_material := zeroize_and_destroy (secret_key_material v);
     wrapping_key_id := wrapping_key_id v; wrapping_key_version := wrapping_key_version v;
     wrap_nonce_hex := wrap_nonce_hex v; wrapping_mode := wrapping_mode v |}.

Definition destroy (k : string) : M KeystoreError unit :=
  meta ← get k;
  _ ← throw_if (negb (can_transition_to (state meta) Destroyed))
        (InvalidTransition k (state meta) Destroyed);
  let meta := set_versions (destroy_version <$> versions meta) meta in
  t1 ← now; t2 ← now;
  let meta := set_updated t2 (set_destroyed t1 (set_state Destroyed meta)) in
  _ ← overwrite_key_file k;
  _ ← storage_put meta;
  record_key k (key_type meta) (state meta) Audit.AKeyDestroyed.

(** ** Policy evaluation *)

(** The derived [Debug] of a verdict; the reasons are plain text. *)
Definition quote : string := String.String (Ascii.ascii_of_nat 34) "".
Definition debug_verdict (v : Policy.PolicyVerdict) : string :=
  match v with
  | Policy.Compliant => "Compliant"
  | Policy.RotationNeeded r => "RotationNeeded { reason: " +:+ quote +:+ r +:+ quote +:+ " }"
  | Policy.PWarning r => "Warning { reason: " +:+ quote +:+ r +:+ quote +:+ " }"
  | Policy.UsageLimitExceeded c l =>
      "UsageLimitExceeded { count: " +:+ pretty c +:+ ", limit: " +:+ pretty l +:+ " }"
  | Policy.PExpired a l => "Expired { age_days: " +:+ pretty a +:+ ", limit_days: " +:+ pretty l +:+ " }"
  end.

Definition evaluate_policy (k : string) : M KeystoreError Policy.PolicyVerdict :=
  meta ← get k;
  match policy_id meta with
  | Some pid =>
      p ← asks (get_policy pid);
      policy ← or_throw p (PolicyNotFound pid);
      verdict ← evaluate_now policy meta;
      _ ← record_key k (key_type meta) (state meta) (Audit.PolicyEvaluated (debug_verdict verdict));
      mret verdict
  | None => mret Policy.Compliant
  end.

Definition evaluate_adaptive_policy (k : string) : M KeystoreError Policy.PolicyVerdict :=
  level ← current_threat_level;
  meta ← get k;
  match policy_id meta with
  | Some pid =>
      p ← asks (get_policy pid);
      base ← or_throw p (PolicyNotFound pid);
      verdict ← evaluate_now (Threat.adapt base level) meta;
      _ ← record_key k (key_type meta) (state meta) (Audit.PolicyEvaluated
            (debug_verdict verdict +:+ " (threat:" +:+ Threat.label level +:+ ")"));
      mret verdict
  | None => mret Policy.Compliant
  end.

(** The loop of the two [check_*rotation_due]; [adapt] and [text] say how the
    policy and the reason are changed. *)
Fixpoint rotation_due_among (adapt : Policy.KeyPolicy -> Policy.KeyPolicy) (text : string -> string)
    (metas : list KeyMetadata) : M KeystoreError (list (string * string)) :=
  match metas with
  | [] => mret []
  | meta :: rest =>
      p ← asks (fun w => policy_of w meta);
      due ← match p with
            | Some policy =>
                verdict ← evaluate_now (adapt policy) meta;
                mret match verdict with
                     | Policy.RotationNeeded reason => [(id meta, text reason)]
                     | _ => []
                     end
            | None => mret []
            end;
      more ← rotation_due_among adapt text rest;
      mret (due ++ more)
  end.

Definition check_rotation_due : M KeystoreError (list (string * string)) :=
  active ← storage_list_by_state Active;
  rotation_due_among (fun p => p) (fun r => r) active.
Definition check_adaptive_rotation_due : M KeystoreError (list (string * string)) :=
  level ← current_threat_level;
  active ← storage_list_by_state Active;
  rotation_due_among (fun p => Threat.adapt p level)
    (fun r => r +:+ " [threat:" +:+ Threat.label level +:+ "]") active.

Definition counts_compliant (v : Policy.PolicyVerdict) : bool :=
  match v with Policy.Compliant | Policy.PWarning _ => true | _ => false end.

Fixpoint count_compliant (level : Threat.ThreatLevel) (metas : list KeyMetadata) (n : Z) :
    M KeystoreError Z :=
  match metas with
  | [] => mret n
  | meta :: rest =>
      p ← asks (fun w => policy_of w meta);
      good ← match p with
             | Some base =>
                 verdict ← evaluate_now (Threat.adapt base level) meta;
                 mret (counts_compliant verdict)
             | None => mret true
             end;
      count_compliant level rest (if good : bool then n + 1 else n)
  end.

Definition security_metrics : M KeystoreError Threat.SecurityMetrics :=
  level ← current_threat_level;
  all_keys ← storage_list;
  compliant ← count_compliant level all_keys 0;
  t1 ← now; t2 ← now; t3 ← now; t4 ← now; t5 ← now;
  with_threat (fun a => Some (Threat.security_metrics t1 t2 t3 t4 t5
                                (Z.of_nat (length all_keys)) compliant a)).

Definition threat_history {E} : M E (list (Z * Threat.ThreatLevel * string)) :=
  with_threat (fun a => Some (a, [], Threat.level_history a)).

Definition policy_adaptation_summary {E} (pid : string) : M E (option Threat.AdaptationSummary) :=
  level ← current_threat_level;
  p ← asks (get_policy pid);
  mret ((fun base => Threat.summarize base level) <$> p).
End keystore.
End Keystore.
