(* ===== verification/KeystoreCrypto.v ===== *)
(** * Encryption and decryption under a key
    ([citadel-keystore/src/keystore.rs], lines 1136-1154 and 1574-2049)

    The raw operations, the checks of an authorization against the bound
    enforcer, and the authorized operations built from both. *)

From S2P Require Import Prelude.
From S2P Require Import Wire.
From S2P Require Import WireV2.
From S2P Require Import Crypto.
From S2P Require Import Envelope.
From S2P Require Import Enforcer.
From S2P Require Import F64.
From S2P Require Import Types.
From S2P Require Import Hierarchy.
From S2P Require Import Policy.
From S2P Require Import AuditLog.
From S2P Require Import Threat.
From S2P Require Import Storage.
From S2P Require Import Replay.
From S2P Require Import KeystoreBase.
From S2P Require Import KeystoreWrap.
From S2P Require Import Keystore.
Import Types.

Module KsCrypto.
Import Wrap Keystore.

Record EncryptedBlob := mkBlob {
  blob_key_id : string;
  key_version : Z;
  ciphertext_hex : string;
  encrypted_at : Z;
}.

Section crypto.
Context {PF : Platform}.

(** The domain identifier, a colon, the caller's associated data. *)
Definition bound_aad (domain_id : string) (aad : list byte) : list byte :=
  bytes_of_string domain_id ++ bytes_of_string ":" ++ aad.

(** A verdict that blocks the operation: one audit event, then the error. *)
Definition blocked (k : string) (meta : KeyMetadata) (note err : string) : M string unit :=
  _ ← record_key k (key_type meta) (state meta) (Audit.PolicyEvaluated note);
  throw ("policy violation: " +:+ err +:+ " Rotate key before encrypting.").

Definition enforce_policy (k : string) (meta : KeyMetadata) : M string unit :=
  adapted ← effective_policy_for meta;
  match adapted with
  | Some adapted =>
      verdict ← evaluate_now adapted meta;
      match verdict with
      | Policy.RotationNeeded reason => blocked k meta ("BLOCKED: " +:+ reason) (reason +:+ ".")
      | Policy.UsageLimitExceeded count limit =>
          let usage := "usage " +:+ pretty count +:+ "/" +:+ pretty limit in
          blocked k meta ("BLOCKED: " +:+ usage) (usage +:+ " exceeded.")
      | Policy.PExpired age_days limit_days =>
          blocked k meta
            ("BLOCKED: expired age=" +:+ pretty age_days +:+ "d limit=" +:+ pretty limit_days +:+ "d")
            ("key expired after " +:+ pretty age_days +:+ " days; limit is " +:+ pretty limit_days
               +:+ " days.")
      | Policy.PWarning reason =>
          record_key k (key_type meta) (state meta) (Audit.PolicyEvaluated ("WARNING: " +:+ reason))
      | Policy.Compliant => mret ()
      end
  | None => mret ()
  end.

Definition encrypt (key_id : string) (plaintext aad context : list byte) : M string EncryptedBlob :=
  meta ← mapping display_error (get key_id);
  _ ← throw_if (negb (can_encrypt (state meta)))
        ("key " +:+ key_id +:+ " is " +:+ display_state (state meta) +:+ ", cannot encrypt");
  _ ← throw_if (negb (bool_decide (key_type meta = DataEncrypting))
                && negb (bool_decide (key_type meta = HybridIdentity)))
        ("key " +:+ key_id +:+ " is type " +:+ display_type (key_type meta)
           +:+ ", only DataEncrypting keys can encrypt user data");
  _ ← enforce_policy key_id meta;
  v ← or_throw (current_key_version meta) "no current version"%string;
  pk_bytes ← mapping (fun e => "decode pk: " +:+ e) (decode_hex (public_key_hex v));
  pk ← mapping (fun _ => "parse public key failed"%string) (lift (Kem.PublicKey_from_bytes pk_bytes));
  domain_id ← mapping (fun e => "domain resolution failed: " +:+ display_error e)
                (resolve_domain_for_key key_id);
  ciphertext ← mapping (fun _ => "seal: encoding error"%string)
                 (seal pk plaintext (bound_aad domain_id aad) context);
  t ← now;
  let meta := set_updated t (set_usage (wrapping_add 64 (usage_count meta) 1) meta) in
  _ ← mapping display_error (storage_put meta);
  _ ← record_key key_id (key_type meta) (state meta) (Audit.EncryptionPerformed (current_version meta));
  t2 ← now;
  mret (mkBlob key_id (current_version meta) (hex_encode ciphertext) t2).

(** ** Decryption *)

Definition OPAQUE : string := "operation failed".
Definition opaque {E A} (m : M E A) : M string A := mapping (fun _ => OPAQUE) m.

Definition REPLAY_TTL : Z := from_secs 86400.

(** [if let Ok(cache) = ..lock() { if let Err(..) = cache.release(..) { warn } }]. *)
Definition give_back {E} (cache_key : list byte) : M E unit :=
  _ ← attempt (replay_release cache_key); mret ().

Definition check_cryptoperiod (k : string) (meta : KeyMetadata) : M string unit :=
  adapted ← effective_policy_for meta;
  match adapted with
  | Some adapted =>
      verdict ← evaluate_now adapted meta;
      match verdict with
      | Policy.PExpired age_days limit_days =>
          _ ← record_key k (key_type meta) (state meta) (Audit.PolicyEvaluated
                ("BLOCKED DECRYPT: expired age=" +:+ pretty age_days +:+ "d limit="
                   +:+ pretty limit_days +:+ "d"));
          throw OPAQUE
      | _ => mret ()
      end
  | None => mret ()
  end.

Definition aead_tag (ciphertext : list byte) : list byte :=
  drop (length ciphertext - Z.to_nat Wire.AEAD_TAG_BYTES) ciphertext.

(** The replay key of a framed ciphertext. *)
Definition cache_key_of (domain_id : string) (blob : EncryptedBlob) (ciphertext : list byte) :
    M string (list byte) :=
  nonce_bytes ← opaque (lift (WireV2.envelope_nonce ciphertext));
  mret (Replay.derive_replay_key domain_id (blob_key_id blob) (key_version blob) nonce_bytes
          (aead_tag ciphertext)).

Definition claim_slot (cache_key : list byte) (blob : EncryptedBlob) (meta : KeyMetadata) :
    M string unit :=
  r ← attempt (replay_claim cache_key REPLAY_TTL);
  match r with
  | Ok true => mret ()
  | _ =>
      _ ← record_key (blob_key_id blob) (key_type meta) (state meta)
            (Audit.ReplayDetected (key_version blob));
      throw OPAQUE
  end.

(** The part after the claim: every failure releases the slot. *)
Definition open_claimed (cache_key : list byte) (domain_id : string) (blob : EncryptedBlob)
    (meta : KeyMetadata) (kv : KeyVersion) (ciphertext aad context : list byte) :
    M string (list byte) :=
  let k := blob_key_id blob in
  let release_and_fail {E} : E -> M string (list byte) := fun _ =>
    _ ← give_back cache_key; throw OPAQUE in
  sk_bytes ← on_error (unwrap_key_version k kv 0) release_and_fail;
  sk ← on_error (lift (Kem.SecretKey_from_bytes sk_bytes))
         (fun _ => _ ← give_back cache_key; throw OPAQUE);
  on_error (open sk ciphertext (bound_aad domain_id aad) context) (fun _ =>
    _ ← record_threat_event (fun t => Threat.with_detail
          (Threat.event_new t Threat.DecryptionFailure (F64.of_Z 3))
          ("key=" +:+ k +:+ ", version=" +:+ pretty (key_version blob)));
    _ ← record_key k (key_type meta) (state meta) (Audit.DecryptionFailed (key_version blob));
    _ ← give_back cache_key;
    throw OPAQUE).

Definition decrypt (blob : EncryptedBlob) (aad context : list byte) : M string (list byte) :=
  let key_id := blob_key_id blob in
  meta ← opaque (get key_id);
  _ ← throw_if (negb (can_decrypt (state meta))) OPAQUE;
  _ ← check_cryptoperiod key_id meta;
  kv ← or_throw (get_version meta (key_version blob)) OPAQUE;
  ciphertext ← opaque (decode_hex (ciphertext_hex blob));
  _ ← throw_if (len ciphertext <? Wire.AEAD_TAG_BYTES) OPAQUE;
  domain_id ← opaque (resolve_domain_for_key key_id);
  cache_key ← cache_key_of domain_id blob ciphertext;
  _ ← claim_slot cache_key blob meta;
  plaintext ← open_claimed cache_key domain_id blob meta kv ciphertext aad context;
  _ ← record_key key_id (key_type meta) (state meta) (Audit.DecryptionPerformed (key_version blob));
  mret plaintext.

(** ** Authorized operations *)

Definition no_enforcer : string :=
  "keystore has no bound StateEnforcer" +:+ Hierarchy.dash +:+
  "call with_enforcer() before using encrypt_authorized, decrypt_authorized, or sign_authorized. " +:+
  "Production keystores must always be bound to a live StateEnforcer.".

Definition validate_authz (authz : Enforcer.AuthorizedContext) : M string unit :=
  e ← asks enforcer;
  match e with
  | Some s =>
      t1 ← now; t2 ← now;
      let '(s', r) := Enforcer.validate authz s t1 t2 in
      _ ← modify (set_enforcer (Some s'));
      mapping (fun e => "capability validation failed at keystore boundary: " +:+ e)
        (lift (map_err Fail r))
  | None => throw no_enforcer
  end.

Definition enforce_authorized_domain (authz_domain : option string) (key_id : string) :
    M string unit :=
  match authz_domain with
  | None => mret ()
  | Some dom =>
      resolved ← mapping (fun e => "domain resolution failed for " +:+ key_id +:+ ": "
                            +:+ display_error e) (resolve_domain_for_key key_id);
      throw_if (negb (bool_decide (resolved = dom)))
        ("P217 cross-domain operation rejected: key " +:+ key_id +:+ " is in domain " +:+ resolved
           +:+ ", not authorized domain " +:+ dom)
  end.

Definition encrypt_authorized (authz : Enforcer.AuthorizedContext)
    (plaintext aad context : list byte) : M string EncryptedBlob :=
  _ ← validate_authz authz;
  let key_id := Enforcer.key_id authz in
  _ ← lift (map_err Fail (Enforcer.require_encrypt_for authz key_id));
  _ ← enforce_authorized_domain (Enforcer.domain_id authz) key_id;
  encrypt key_id plaintext aad context.

Definition decrypt_authorized (authz : Enforcer.AuthorizedContext) (blob : EncryptedBlob)
    (aad context : list byte) : M string (list byte) :=
  _ ← validate_authz authz;
  _ ← lift (map_err Fail (Enforcer.require_decrypt_for authz (blob_key_id blob)));
  _ ← enforce_authorized_domain (Enforcer.domain_id authz) (blob_key_id blob);
  decrypt blob aad context.
End crypto.
End KsCrypto.
