(* ===== verification/KeystoreSign.v ===== *)
(** * Signing in the keystore ([keystore.rs], [generate_signing_key] to
    [verify_signature])

    Signing keys hold an ML-DSA seed instead of a KEM secret key; the seed is
    wrapped and unwrapped by the same methods. *)

From S2P Require Import Prelude.
From S2P Require Import Crypto.
From S2P Require Import Enforcer.
From S2P Require Import Types.
From S2P Require Import Hierarchy.
From S2P Require Import AuditLog.
From S2P Require Import Signer.
From S2P Require Import KeystoreBase.
From S2P Require Import KeystoreWrap.
From S2P Require Import Keystore.
From S2P Require Import KeystoreCrypto.
Import Types.

Module KsSign.
Import Wrap Keystore KsCrypto.

Record SignedPayload := mkSigned {
  sp_key_id : string;
  sp_key_version : Z;
  signature_hex : string;
  signed_at : Z;
}.

Section sign.
Context {PF : Platform}.

(** [citadel_signer::dsa::generate_keypair]: verifying key and seed. *)
Definition signing_keypair : M string (list byte * list byte) :=
  seed ← fill_bytes 32;
  lift (map_err Fail (Dsa.generate_keypair seed)).

Definition check_signing_parent (parent_id : string) : M KeystoreError unit :=
  o ← mapping (fun e => StorageError ("load parent for signing key: " +:+ display_error e))
        (storage_get parent_id);
  parent_meta ← or_throw o (HierarchyViolation ("parent key " +:+ parent_id +:+ " not found"));
  flat ← asks flat_override;
  let parent_role := Hierarchy.role_of (key_type parent_meta) in
  throw_if (negb (Hierarchy.can_wrap parent_role Hierarchy.RSigningKey) && negb flat)
    (HierarchyViolation ("Signing key parent must be KeyEncrypting (Kek). Got "
       +:+ debug_type (key_type parent_meta) +:+ " (" +:+ Hierarchy.label parent_role +:+ ").")).

Definition signing_version (created : Z) (vk : list byte)
    (wrapped : SecretKeyMaterial * option string * option Z) (wrap_nonce : option string) : KeyVersion :=
  {| version := 1; kv_created_at := created; public_key_hex := hex_encode vk;
     secret_key_material := wrapped.1.1; wrapping_key_id := wrapped.1.2;
     wrapping_key_version := wrapped.2; wrap_nonce_hex := wrap_nonce; wrapping_mode := None |}.

Definition generate_signing_key (name : string) (policy_id : option string) (parent_id : string) :
    M KeystoreError string :=
  _ ← require_master_key;
  _ ← check_signing_parent parent_id;
  id_bytes ← fill_bytes 16;
  let id := hex_encode id_bytes in
  t ← now;
  kp ← mapping (fun e => StorageError ("ML-DSA keypair generation failed: SignError: " +:+ e))
         signing_keypair;
  wrapped ← mapping StorageError (wrap_secret_key_for id 1 (Some parent_id) kp.2);
  wrap_nonce ← extract_wrap_nonce wrapped.1.1;
  let meta := {| Types.id := id; Types.name := name; Types.key_type := Signing; state := Pending;
                 Types.policy_id := policy_id; Types.parent_id := Some parent_id; created_at := t;
                 updated_at := t; activated_at := None; rotated_at := None; revoked_at := None;
                 destroyed_at := None; versions := [signing_version t kp.1 wrapped wrap_nonce];
                 current_version := 1; usage_count := 0; tags := ∅ |} in
  _ ← storage_put meta;
  _ ← record_key id Signing Pending Audit.KeyGenerated;
  mret id.

(** A refusal that is recorded. *)
Definition signing_denied {A} (k : string) (meta : KeyMetadata) (n : Z) (reason : string) : M string A :=
  _ ← record_key k (key_type meta) (state meta) (Audit.SigningFailed n reason);
  throw reason.

Definition sign (key_id : string) (message : list byte) : M string SignedPayload :=
  meta ← mapping display_error (get key_id);
  _ ← (if negb (bool_decide (key_type meta = Signing))
       then signing_denied key_id meta (current_version meta)
              ("keystore denied: key " +:+ key_id +:+ " is type " +:+ display_type (key_type meta)
                 +:+ Hierarchy.dash +:+ "sign() requires KeyType::Signing")
       else mret ());
  _ ← (if negb (bool_decide (state meta = Active))
       then signing_denied key_id meta (current_version meta)
              ("keystore denied: key " +:+ key_id +:+ " is " +:+ display_state (state meta)
                 +:+ Hierarchy.dash +:+ "signing requires Active state")
       else mret ());
  kv ← or_throw (current_key_version meta) "no current key version"%string;
  seed ← on_error (unwrap_key_version key_id kv 0) (fun e =>
           signing_denied key_id meta (version kv) ("unwrap signing key: " +:+ e));
  sig_bytes ← mapping (fun e => "ML-DSA sign failed: SignError: " +:+ e)
                (lift (map_err Fail (Dsa.sign_message seed message)));
  _ ← record_key key_id (key_type meta) (state meta)
        (Audit.SigningPerformed (version kv) (len message));
  t ← now;
  mret (mkSigned key_id (version kv) (hex_encode sig_bytes) t).

Definition sign_authorized (authz : Enforcer.AuthorizedContext) (message : list byte) :
    M string SignedPayload :=
  _ ← validate_authz authz;
  let key_id := Enforcer.key_id authz in
  _ ← lift (map_err Fail (Enforcer.require_sign_for_payload authz key_id message));
  sign key_id message.

Definition verify_signature (key_id : string) (message : list byte) (signed_payload : SignedPayload) :
    M string bool :=
  meta ← mapping display_error (get key_id);
  _ ← throw_if (negb (bool_decide (key_type meta = Signing)))
        ("key " +:+ key_id +:+ " is type " +:+ display_type (key_type meta)
           +:+ Hierarchy.dash +:+ "verify_signature() requires KeyType::Signing");
  _ ← throw_if (negb (usable (state meta)))
        ("key " +:+ key_id +:+ " is " +:+ display_state (state meta)
           +:+ Hierarchy.dash +:+ "cannot verify (Revoked/Expired/Destroyed keys are terminal)");
  kv ← or_throw (get_version meta (sp_key_version signed_payload))
         ("key " +:+ key_id +:+ " version " +:+ pretty (sp_key_version signed_payload) +:+ " not found");
  vk_bytes ← mapping (fun e => "decode verifying key hex: " +:+ e) (decode_hex (public_key_hex kv));
  sig_bytes ← mapping (fun e => "decode signature hex: " +:+ e)
                (decode_hex (signature_hex signed_payload));
  valid ← mapping (fun e => "ML-DSA verify failed: VerifyError: " +:+ e)
            (lift (map_err Fail (Dsa.verify_message vk_bytes message sig_bytes)));
  _ ← record_key key_id (key_type meta) (state meta)
        (Audit.VerificationPerformed (sp_key_version signed_payload) valid);
  mret valid.
End sign.
End KsSign.
