(* ===== verification/Migration.v ===== *)
(** * Migration to the hierarchy ([citadel-keystore/src/migration.rs], [citadel-cli/src/commands/migrate.rs])

    The plan is a function of a key listing; its execution is the sequence of
    keystore calls that the command line makes.  Printing is left out, except
    that its string slices can panic. *)

From S2P Require Import Prelude.
From S2P Require Import Types.
From S2P Require Import Hierarchy.
From S2P Require Import Storage.
From S2P Require Import KeystoreBase.
From S2P Require Import Keystore.
Import Types.

Module Migration.

(** ** Summaries of wrapping modes ([hierarchy.rs]) *)

(** [&s[..8.min(s.len())]]. *)
Definition short {E} (s : string) : result (fault E) string :=
  fst <$> str_split_at (Nat.min 8 (String.length s)) s.

Definition display_algorithm (a : WrapAlgorithm) : string :=
  match a with
  | Aes256GcmHkdfSha256 => "AES-256-GCM+HKDF-SHA256"
  | CitadelHybridV2 => "X25519+ML-KEM-768+AES-256-GCM"
  end.

Definition mode_summary {E} (m : WrappingMode) : result (fault E) string :=
  match m with
  | ExternalMaster => Ok "external-master-key"
  | WrappedByKey pid v alg =>
      p ← short pid; Ok ("key:" +:+ p +:+ "@v" +:+ pretty v +:+ "(" +:+ display_algorithm alg +:+ ")")
  | HsmBacked provider key_ref => Ok ("hsm:" +:+ provider +:+ "/" +:+ key_ref)
  end.

Definition wrapping_summary {E} (k : KeyMetadata) : result (fault E) string :=
  match current_key_version k with
  | Some kv => mode_summary (effective_wrapping_mode kv)
  | None => Ok "unknown"
  end.

(** ** Plans *)

Record MigrationOptions := mkOptions {
  root_name : string;
  domain_name : string;
  kek_name : string;
  skip_already_wrapped : bool;
  skip_destroyed : bool;
}.

Definition default_options : MigrationOptions :=
  mkOptions "default-root" "default-domain" "default-kek" true true.

Record KeyToCreate := mkCreate {
  kc_name : string; kc_key_type : string; kc_parent_name : option string; kc_reason : string }.
Record KeyToRewrap := mkRewrap {
  kr_key_id : string; kr_key_name : string; current_wrapping : string; target_parent_name : string }.
Record KeySkipped := mkSkipped { ks_key_id : string; ks_key_name : string; ks_reason : string }.

Record MigrationPlan := mkPlan {
  keys_to_create : list KeyToCreate;
  keys_to_rewrap : list KeyToRewrap;
  keys_skipped : list KeySkipped;
  generated_at : Z;
}.

Definition is_empty (p : MigrationPlan) : bool :=
  bool_decide (length (keys_to_create p) = 0%nat) && bool_decide (length (keys_to_rewrap p) = 0%nat).

Definition count {A} (l : list A) : string := pretty (length l).

Definition plan_summary (p : MigrationPlan) : string :=
  "Migration plan: " +:+ count (keys_to_create p) +:+ " key(s) to create, " +:+ count (keys_to_rewrap p)
    +:+ " key(s) to rewrap, " +:+ count (keys_skipped p) +:+ " key(s) skipped".

Record MigrationReport := mkReport {
  keys_created : list string;
  keys_rewrapped : list string;
  keys_failed : list (string * string);
  completed_at : Z;
}.

Definition report_summary (r : MigrationReport) : string :=
  "Migration complete: " +:+ count (keys_created r) +:+ " created, " +:+ count (keys_rewrapped r)
    +:+ " rewrapped, " +:+ count (keys_failed r) +:+ " failed".

Definition has_failures (r : MigrationReport) : bool :=
  negb (bool_decide (length (keys_failed r) = 0%nat)).

(** [key.iter().any(..)] of [has_root], [has_domain] and [has_kek]; also the
    search of the execution. *)
Definition is_level (t : KeyType) (n : string) (k : KeyMetadata) : bool :=
  bool_decide (key_type k = t) && bool_decide (state k = Active) && bool_decide (name k = n).

Definition has_level (keys : list KeyMetadata) (t : KeyType) (n : string) : bool :=
  existsb (is_level t n) keys.

Definition plan_create (keys : list KeyMetadata) (opts : MigrationOptions) : list KeyToCreate :=
  (if negb (has_level keys Root (root_name opts))
   then [mkCreate (root_name opts) "Root" None "No active Root key exists"] else []) ++
  (if negb (has_level keys Domain (domain_name opts))
   then [mkCreate (domain_name opts) "Domain" (Some (root_name opts)) "No active Domain KEK exists"] else []) ++
  (if negb (has_level keys KeyEncrypting (kek_name opts))
   then [mkCreate (kek_name opts) "KeyEncrypting" (Some (domain_name opts))
           "No active KEK exists for DEK wrapping"] else []).

Inductive verdict := Rewrap (r : KeyToRewrap) | Skip (s : KeySkipped).

(** The body of the loop over the keys. *)
Definition plan_key {E} (opts : MigrationOptions) (key : KeyMetadata) : result (fault E) verdict :=
  let skip reason := Skip (mkSkipped (id key) (name key) reason) in
  if skip_destroyed opts && bool_decide (state key = Destroyed)
  then Ok (skip ("Destroyed" +:+ Hierarchy.dash +:+ "no key material to rewrap"))
  else if negb (bool_decide (key_type key = DataEncrypting))
  then Ok (skip ("Not a DEK (type: " +:+ display_type (key_type key) +:+ ")"))
  else
    current ← wrapping_summary key;
    let is_already_wrapped_by_kek := bool_decide (is_Some (Hierarchy.parent_ref key)) in
    if skip_already_wrapped opts && is_already_wrapped_by_kek
    then Ok (skip ("Already wrapped by KEK (" +:+ current +:+ ")"))
    else if negb (bool_decide (state key = Active \/ state key = Rotated))
    then Ok (skip ("State " +:+ display_state (state key) +:+ Hierarchy.dash +:+ "not rewrapping inactive key"))
    else Ok (Rewrap (mkRewrap (id key) (name key) current (kek_name opts))).

Fixpoint plan_keys {E} (opts : MigrationOptions) (keys : list KeyMetadata) :
    result (fault E) (list KeyToRewrap * list KeySkipped) :=
  match keys with
  | [] => Ok ([], [])
  | key :: rest =>
      v ← plan_key opts key;
      l ← plan_keys opts rest;
      Ok match v with Rewrap r => (r :: l.1, l.2) | Skip s => (l.1, s :: l.2) end
  end.

Definition plan_migration {E} (keys : list KeyMetadata) (opts : MigrationOptions) (now : Z) :
    result (fault E) MigrationPlan :=
  l ← plan_keys opts keys;
  Ok (mkPlan (plan_create keys opts) l.1 l.2 now).

(** ** Execution *)

Section execute.
Context {PF : Platform}.
Import Keystore.

(** [list().unwrap_or_default()]. *)
Definition list_or_default {E} : M E (list KeyMetadata) :=
  r ← attempt storage_list; mret match r with Ok l => l | Err _ => [] end.

Definition resolve_existing (all_existing : list KeyMetadata) (created_ids : gmap string string)
    (target : string * KeyType) : gmap string string :=
  match List.find (is_level target.2 target.1) all_existing with
  | Some existing => <[ target.1 := id existing ]> created_ids
  | None => created_ids
  end.

Definition type_of_text (s : string) : KeyType :=
  if bool_decide (s = "Root"%string) then Root
  else if bool_decide (s = "Domain"%string) then Domain
  else if bool_decide (s = "KeyEncrypting"%string) then KeyEncrypting
  else DataEncrypting.

(** One key of [keys_to_create]; the state is [created_ids] and [errors]. *)
Definition create_one {E} (key_spec : KeyToCreate) (st : gmap string string * Z) :
    M E (gmap string string * Z) :=
  let '(created_ids, errors) := st in
  let parent := kc_parent_name key_spec ≫= (fun pname => created_ids !! pname) in
  r ← attempt (generate (kc_name key_spec) (type_of_text (kc_key_type key_spec)) None parent);
  match r with
  | Ok new_id =>
      a ← attempt (activate new_id);
      mret match a with
           | Ok _ => (<[ kc_name key_spec := new_id ]> created_ids, errors)
           | Err _ => (created_ids, errors + 1)
           end
  | Err _ => mret (created_ids, errors + 1)
  end.

Fixpoint create_all {E} (specs : list KeyToCreate) (st : gmap string string * Z) :
    M E (gmap string string * Z) :=
  match specs with
  | [] => mret st
  | s :: rest => st ← create_one s st; create_all rest st
  end.

Definition rewrap_one {E} (kek_id : option string) (spec : KeyToRewrap) (errors : Z) : M E Z :=
  match kek_id with
  | Some kek =>
      r ← attempt (rewrap (kr_key_id spec) (Some kek));
      match r with
      | Ok _ => _ ← lift (short (kr_key_id spec)); mret errors
      | Err _ => mret (errors + 1)
      end
  | None => mret (errors + 1)
  end.

Fixpoint rewrap_all {E} (kek_id : option string) (specs : list KeyToRewrap) (errors : Z) : M E Z :=
  match specs with
  | [] => mret errors
  | s :: rest => errors ← rewrap_one kek_id s errors; rewrap_all kek_id rest errors
  end.

Definition levels (opts : MigrationOptions) : list (string * KeyType) :=
  [(root_name opts, Root); (domain_name opts, Domain); (kek_name opts, KeyEncrypting)].

(** After the plan is printed. *)
Definition execute_plan {E} (plan : MigrationPlan) (opts : MigrationOptions) : M E Z :=
  all_existing ← list_or_default;
  st ← create_all (keys_to_create plan)
         (foldl (resolve_existing all_existing) ∅ (levels opts), 0);
  errors ← rewrap_all (st.1 !! kek_name opts) (keys_to_rewrap plan) st.2;
  mret (if 0 <? errors then 1 else 0).

(** The exit code; [opened] is the answer of [FileBackend::new]. *)
Definition cmd_hierarchy {E} (opened : result string unit) (dry_run execute : bool)
    (root_name domain_name kek_name : string) : M E Z :=
  if negb dry_run && negb execute then mret 1
  else
    match opened with
    | Err _ => mret 1
    | Ok _ =>
        keys ← list_or_default;
        let opts := mkOptions root_name domain_name kek_name true true in
        t ← now;
        plan ← lift (plan_migration keys opts t);
        if dry_run then mret 0
        else if is_empty plan then mret 0
        else execute_plan plan opts
    end.
End execute.

(** ** The plan *)

(** The keys a plan rewraps: usable data keys, unless they already have a
    wrapping key and those are skipped. *)
Definition to_migrate (opts : MigrationOptions) (k : KeyMetadata) : Prop :=
  key_type k = DataEncrypting /\ (state k = Active \/ state k = Rotated) /\
  (skip_already_wrapped opts = true -> Hierarchy.parent_ref k = None).

#[global] Instance to_migrate_dec opts k : Decision (to_migrate opts k).
Proof. apply _. Defined.

Lemma plan_key_Ok {E} opts k v :
  plan_key (E := E) opts k = Ok v ->
  match v with
  | Rewrap r => kr_key_id r = id k /\ to_migrate opts k
  | Skip s => ks_key_id s = id k /\ ~ to_migrate opts k
  end.
Proof.
  intros H. revert H. unfold plan_key, to_migrate. destruct (skip_destroyed opts && _) eqn:Hd.
  { intros [= <-]. bool_hyps. split; [done|]. intros (_ & [?|?] & _); congruence. }
  destruct (bool_decide (key_type k = DataEncrypting)) eqn:Ht; cbn [negb]; bool_hyps.
  2: { intros [= <-]. split; [done|]. naive_solver. }
  intros (c & _ & H)%bind_Ok. revert H. destruct (skip_already_wrapped opts && _) eqn:Hw.
  { intros [= <-]. bool_hyps. split; [done|]. intros (_ & _ & Hn).
    match goal with Hs : skip_already_wrapped _ = true |- _ => specialize (Hn Hs) end.
    match goal with Hs : is_Some _ |- _ => rewrite Hn in Hs; by destruct Hs end. }
  destruct (bool_decide (state k = Active \/ _)) eqn:Hs; cbn [negb]; bool_hyps; intros [= <-]; (split; [done|]).
  - split_and!; [done..|]. intros Hsk. rewrite Hsk in Hw. cbn in Hw. case_bool_decide; [done|].
    by apply eq_None_not_Some.
  - naive_solver.
Qed.

Lemma plan_keys_Ok {E} opts keys l :
  plan_keys (E := E) opts keys = Ok l ->
  kr_key_id <$> l.1 = id <$> filter (to_migrate opts) keys /\
  ks_key_id <$> l.2 = id <$> filter (fun k => ~ to_migrate opts k) keys.
Proof.
  revert l. induction keys as [|k keys IH]; intros l; cbn [plan_keys]; [by intros [= <-]|].
  intros (v & Hv & (l' & Hl & E1)%bind_Ok)%bind_Ok. injection E1 as <-. destruct (IH l' Hl) as [I1 I2].
  apply plan_key_Ok in Hv. rewrite !filter_cons. destruct v as [r|s], Hv as [E1 E2]; cbn.
  - rewrite decide_True by done. rewrite decide_False by (intros H; by apply H). by rewrite fmap_cons, E1, I1, I2.
  - rewrite decide_False by done. rewrite decide_True by done. by rewrite fmap_cons, E1, I1, I2.
Qed.

Lemma all_hex_drop n s : all_hex s = true -> all_hex (str_drop n s) = true.
Proof.
  revert s. induction n as [|n IH]; intros s H; [done|]. destruct s as [|c s]; [done|]. cbn in *.
  apply andb_true_iff in H as [_ H]. by apply IH.
Qed.

Lemma short_plain {E} s : all_hex s = true -> is_ok (short (E := E) s) = true.
Proof.
  intros H. unfold short, str_split_at, char_boundary.
  pose proof (all_hex_drop (Nat.min 8 (String.length s)) s H) as Hd.
  destruct (str_drop _ s) as [|c r].
  - rewrite bool_decide_true by lia. done.
  - cbn in Hd. apply andb_true_iff in Hd as [Hc _]. by rewrite is_hex_digit_starts_char.
Qed.

(** The plan never panics when the wrapping keys have the identifiers that are generated. *)
Lemma plan_total {E} opts keys t :
  (forall k, k ∈ keys -> is_ok (wrapping_summary (E := E) k) = true) ->
  is_ok (plan_migration (E := E) keys opts t) = true.
Proof.
  intros H. unfold plan_migration. enough (is_ok (plan_keys (E := E) opts keys) = true) by (by destruct (plan_keys opts keys)).
  induction keys as [|k keys IH]; [done|]. cbn [plan_keys].
  assert (is_ok (plan_key (E := E) opts k) = true).
  { unfold plan_key. specialize (H k (list_elem_of_here _ _)). destruct (wrapping_summary k); [|done].
    cbn. repeat case_match; done. }
  destruct (plan_key opts k); [|done]. cbn.
  destruct (plan_keys opts keys); [done|]. apply IH. intros k' Hk. apply H. by right.
Qed.

Lemma has_level_iff keys t n :
  has_level keys t n = true <->
  exists k, k ∈ keys /\ key_type k = t /\ state k = Active /\ name k = n.
Proof.
  unfold has_level. rewrite existsb_exists. unfold is_level. split.
  - intros (k & Hk & H). bool_hyps. exists k. split_and!; try done. by apply list_elem_of_In.
  - intros (k & Hk & E1 & E2 & E3). exists k. split; [by apply list_elem_of_In|].
    by rewrite !bool_decide_true.
Qed.

Lemma created_iff keys opts n lt :
  (n, lt) ∈ levels opts ->
  (exists c, c ∈ plan_create keys opts /\ kc_name c = n /\ type_of_text (kc_key_type c) = lt) <->
  has_level keys lt n = false.
Proof.
  unfold plan_create. intros H. split.
  - intros (c & Hc & <- & <-). rewrite !elem_of_app in Hc.
    destruct Hc as [Hc|[Hc|Hc]]; destruct (has_level keys _ _) eqn:E1 in Hc; cbn in Hc;
      try (by apply elem_of_nil in Hc); apply list_elem_of_singleton in Hc as ->; exact E1.
  - intros E1. unfold levels in H. rewrite !elem_of_cons in H.
    destruct H as [[= -> ->]|[[= -> ->]|[[= -> ->]|H]]]; [..|by apply elem_of_nil in H]; rewrite E1;
      eexists; (split; [|split]).
    + apply elem_of_app; left. apply list_elem_of_here.
    + done.
    + by vm_compute.
    + apply elem_of_app; right; apply elem_of_app; left. apply list_elem_of_here.
    + done.
    + by vm_compute.
    + apply elem_of_app; right; apply elem_of_app; right. apply list_elem_of_here.
    + done.
    + by vm_compute.
Qed.

Theorem plan_exact {E} keys opts t p :
  plan_migration (E := E) keys opts t = Ok p ->
  kr_key_id <$> keys_to_rewrap p = id <$> filter (to_migrate opts) keys /\
  ks_key_id <$> keys_skipped p = id <$> filter (fun k => ~ to_migrate opts k) keys /\
  (forall n lt, (n, lt) ∈ levels opts ->
     (exists c, c ∈ keys_to_create p /\ kc_name c = n /\ type_of_text (kc_key_type c) = lt) <->
     ~ exists k, k ∈ keys /\ key_type k = lt /\ state k = Active /\ name k = n).
Proof.
  intros (l & [H1 H2]%plan_keys_Ok & E1)%bind_Ok. injection E1 as <-. cbn. split_and!; [done..|].
  intros n lt Hin. rewrite created_iff by done. rewrite <- has_level_iff. by destruct (has_level keys lt n).
Qed.
End Migration.
