(* ===== verification/Graph.v ===== *)
(** * The key graph ([citadel-keystore/src/graph.rs])

    The forest that the command line shows.  [build_node] recurses on the
    parent links of stored data and takes fuel; running out of it is [Fail ()],
    a panic of a slice is [Panic].  The order in which a [HashMap] gives its
    values is a parameter. *)

From S2P Require Import Prelude.
From S2P Require Import Types.
From S2P Require Import Hierarchy.
From S2P Require Import Storage.
From S2P Require Import KeystoreBase.
From S2P Require Import Migration.
Import Types.

Module Graph.

(** Fields: id, name, key_type, state, current_version, version_count,
    wrapping_summary, children. *)
Inductive GraphNode :=
| Node (id name key_type : string) (state : KeyState) (current_version : Z) (version_count : nat)
    (wrapping_summary : string) (children : list GraphNode).

Definition node_id (n : GraphNode) : string := match n with Node i _ _ _ _ _ _ _ => i end.
Definition node_name (n : GraphNode) : string := match n with Node _ nm _ _ _ _ _ _ => nm end.
Definition children (n : GraphNode) : list GraphNode := match n with Node _ _ _ _ _ _ _ c => c end.

Record KeyGraph := mkGraph { roots : list GraphNode; total_keys : nat }.

(** The values of a [HashMap], in some order. *)
Class HashOrder := values_of : gmap string KeyMetadata -> list KeyMetadata.
Class HashOrderLaws (H : HashOrder) : Prop :=
  values_perm : forall m, values_of m ≡ₚ (map_to_list m).*2.

(** [iter().map(f).collect()] where the closure borrows the state mutably. *)
Fixpoint thread {S A B E} (f : A -> S -> result E (B * S)) (l : list A) (s : S) : result E (list B * S) :=
  match l with
  | [] => Ok ([], s)
  | a :: l => r ← f a s; rs ← thread f l r.2; Ok (r.1 :: rs.1, rs.2)
  end.

Definition cycle_node (meta : KeyMetadata) : GraphNode :=
  Node (id meta) (name meta +:+ " (CYCLE DETECTED)") (display_type (key_type meta)) (state meta)
    (current_version meta) (length (versions meta)) "CYCLE" [].

Section build.
Context {HO : HashOrder}.

Fixpoint build_node (fuel : nat) (by_id : gmap string KeyMetadata) (meta : KeyMetadata) (seen : gset string) :
    result (fault unit) (GraphNode * gset string) :=
  match fuel with
  | O => Err (Fail ())
  | S fuel =>
      if bool_decide (id meta ∈ seen) then Ok (cycle_node meta, seen)
      else
        let seen := {[ id meta ]} ∪ seen in
        summary ← Migration.wrapping_summary meta;
        cs ← thread (build_node fuel by_id)
               (filter (fun k => parent_id k = Some (id meta)) (values_of by_id)) seen;
        Ok (Node (id meta) (name meta) (display_type (key_type meta)) (state meta) (current_version meta)
              (length (versions meta)) summary cs.1, cs.2 ∖ {[ id meta ]})
  end.

(** Keys whose parent is not in the set. *)
Definition is_root (by_id : gmap string KeyMetadata) (k : KeyMetadata) : bool :=
  match parent_id k with Some pid => bool_decide (by_id !! pid = None) | None => true end.

Definition build (fuel : nat) (keys : list KeyMetadata) : result (fault unit) KeyGraph :=
  let by_id := Hierarchy.by_id keys in
  rs ← mapM (fun k => fst <$> build_node fuel by_id k ∅) (filter (fun k => is_root by_id k = true) keys);
  Ok (mkGraph rs (length keys)).
End build.

(** ** Rendering *)

Definition nl : string := String.String (Ascii.ascii_of_nat 10) "".
(** U+2514 U+2500 U+2500, U+251C U+2500 U+2500 and U+2502, in UTF-8. *)
Definition corner : string := String.string_of_list_byte
  [Byte.xe2; Byte.x94; Byte.x94; Byte.xe2; Byte.x94; Byte.x80; Byte.xe2; Byte.x94; Byte.x80; Byte.x20].
Definition tee : string := String.string_of_list_byte
  [Byte.xe2; Byte.x94; Byte.x9c; Byte.xe2; Byte.x94; Byte.x80; Byte.xe2; Byte.x94; Byte.x80; Byte.x20].
Definition bar : string := String.string_of_list_byte [Byte.xe2; Byte.x94; Byte.x82; Byte.x20; Byte.x20; Byte.x20].

Fixpoint render_node (node : GraphNode) (prefix : string) (is_last : bool) {struct node} :
    result (fault unit) string :=
  match node with
  | Node id name key_type state current_version version_count summary cs =>
      let connector := if is_last then corner else tee in
      let ver_str := if (1 <? version_count)%nat
        then "v" +:+ pretty current_version +:+ " (" +:+ pretty version_count +:+ " vers)"
        else "v" +:+ pretty current_version in
      let child_prefix := prefix +:+ (if is_last then "    " else bar) in
      short_id ← Migration.short id;
      kids ← (fix go (l : list GraphNode) : result (fault unit) string :=
                match l with
                | [] => Ok ""
                | c :: l => a ← render_node c child_prefix (match l with [] => true | _ => false end);
                            b ← go l; Ok (a +:+ b)
                end) cs;
      Ok (prefix +:+ connector +:+ key_type +:+ "/" +:+ name +:+ " " +:+ ver_str +:+ " ["
            +:+ display_state state +:+ "]" +:+ Hierarchy.dash +:+ summary +:+ nl
            +:+ child_prefix +:+ "    id: " +:+ short_id +:+ nl +:+ kids)
  end.

Fixpoint render_roots (l : list GraphNode) : result (fault unit) string :=
  match l with
  | [] => Ok ""
  | r :: l => a ← render_node r "" (match l with [] => true | _ => false end); b ← render_roots l; Ok (a +:+ b)
  end.

Definition render (g : KeyGraph) : result (fault unit) string :=
  out ← render_roots (roots g);
  Ok (if bool_decide (roots g = []) then "(no keys)" +:+ nl else out).

Definition summary (g : KeyGraph) : string :=
  pretty (total_keys g) +:+ " total keys, " +:+ pretty (length (roots g)) +:+ " root(s)".

(** ** What the forest shows *)

Fixpoint flatten (n : GraphNode) : list string :=
  match n with Node i _ _ _ _ _ _ cs => i :: concat (map flatten cs) end.

(** No node of the tree is the marker of a cycle. *)
Fixpoint unmarked (n : GraphNode) : Prop :=
  match n with Node _ _ _ _ _ _ s cs => s <> "CYCLE"%string /\ fold_right and True (map unmarked cs) end.

(** The chain of parents of a key ends outside the set. *)
Inductive grounded (keys : list KeyMetadata) : KeyMetadata -> Prop :=
| grounded_root k : k ∈ keys -> (forall p, p ∈ keys -> parent_id k <> Some (id p)) -> grounded keys k
| grounded_child k p : k ∈ keys -> parent_id k = Some (id p) -> grounded keys p -> grounded keys k.

Lemma thread_spec {S A B E} (R : A -> B -> Prop) (f : A -> S -> result E (B * S)) l s :
  (forall a, a ∈ l -> exists b, f a s = Ok (b, s) /\ R a b) ->
  exists bs, thread f l s = Ok (bs, s) /\ Forall2 R l bs.
Proof.
  induction l as [|a l IH]; intros Hf; cbn [thread]; [by exists []|].
  destruct (Hf a (list_elem_of_here _ _)) as (b & Hb & HR). rewrite Hb. cbn.
  destruct IH as (bs & Hbs & HF); [intros a' Ha; apply Hf; by right|]. rewrite Hbs. exists (b :: bs).
  split; [done|]. by constructor.
Qed.

Section forest.
Context {HO : HashOrder} {HL : HashOrderLaws HO}.
Context (keys : list KeyMetadata) (Hids : NoDup (id <$> keys)).
Notation ids := (Hierarchy.by_id keys).

Lemma same_id a b : a ∈ keys -> b ∈ keys -> id a = id b -> a = b.
Proof.
  intros [i Ha]%list_elem_of_lookup [j Hb]%list_elem_of_lookup E.
  assert (i = j) as ->; [|congruence]. eapply (NoDup_lookup _ i j (id a) Hids); rewrite list_lookup_fmap.
  - by rewrite Ha.
  - by rewrite Hb, E.
Qed.

Lemma values_keys k : k ∈ values_of ids <-> k ∈ keys.
Proof.
  rewrite values_perm, list_elem_of_fmap. destruct (Hierarchy.by_id_lookup keys) as [H1 H2]. split.
  - intros ([x m] & -> & Hx%elem_of_map_to_list). by apply H1 in Hx as [? _].
  - intros Hk. destruct (H2 k Hk) as [m Hm]. destruct (H1 _ _ Hm) as [Hin E].
    exists (id k, k). split; [done|]. apply elem_of_map_to_list. by rewrite (same_id k m) at 2.
Qed.

Lemma values_nodup : NoDup (id <$> values_of ids).
Proof.
  rewrite values_perm. destruct (Hierarchy.by_id_lookup keys) as [H1 _].
  assert (E : id <$> (map_to_list ids).*2 = (map_to_list ids).*1).
  { rewrite <- list_fmap_compose. apply list_fmap_ext. intros i [x m] Hx. cbn.
    apply list_elem_of_lookup_2, elem_of_map_to_list in Hx. by apply H1 in Hx as [_ ?]. }
  rewrite E. apply NoDup_fst_map_to_list.
Qed.

Lemma is_root_iff k : k ∈ keys -> is_root ids k = true <-> forall p, p ∈ keys -> parent_id k <> Some (id p).
Proof.
  intros Hk. unfold is_root. destruct (parent_id k) as [pid|]; [|done].
  destruct (Hierarchy.by_id_lookup keys) as [H1 H2]. split.
  - intros Hn p Hp [= ->]. bool_hyps. destruct (H2 p Hp). congruence.
  - intros H. apply bool_decide_eq_true. destruct (ids !! pid) as [m|] eqn:Em; [|done].
    apply H1 in Em as [Hm <-]. by destruct (H m Hm).
Qed.

(** [trail P k]: [P] is the chain of ancestors of [k], up to a root. *)
Inductive trail : list string -> KeyMetadata -> Prop :=
| trail_root k : k ∈ keys -> is_root ids k = true -> trail [] k
| trail_child P p k : k ∈ keys -> parent_id k = Some (id p) -> trail P p -> trail (id p :: P) k.

Lemma trail_in P k : trail P k -> k ∈ keys.
Proof. by destruct 1. Qed.

Lemma trail_fun P k : trail P k -> forall Q, trail Q k -> P = Q.
Proof.
  induction 1 as [k Hk Hr|P p k Hk Hp Ht IH]; intros Q HQ; destruct HQ as [k Hk' Hr'|Q q k Hk' Hq HQ].
  - done.
  - pose proof (proj1 (is_root_iff k Hk) Hr q (trail_in _ _ HQ)). congruence.
  - pose proof (proj1 (is_root_iff k Hk) Hr' p (trail_in _ _ Ht)). congruence.
  - rewrite Hp in Hq. injection Hq as Hq.
    assert (p = q) as <- by (apply same_id; [by eapply trail_in|by eapply trail_in|done]).
    f_equal. by apply IH.
Qed.

Lemma grounded_trail k : grounded keys k <-> exists P, trail P k.
Proof.
  split.
  - induction 1 as [k Hk Hr|k p Hk Hp Hg [P IH]].
    + exists []. constructor; [done|]. by apply is_root_iff.
    + exists (id p :: P). by constructor.
  - intros [P H]. induction H as [k Hk Hr|P p k Hk Hp _ IH].
    + apply grounded_root; [done|]. by apply is_root_iff.
    + by eapply grounded_child.
Qed.

(** An ancestor on a trail has the rest of it as its own. *)
Lemma trail_ancestor P k x : trail P k -> x ∈ P ->
  exists a Q R, id a = x /\ trail Q a /\ P = R ++ id a :: Q.
Proof.
  induction 1 as [k _ _|P p k _ _ Ht IH]; [by intros ?%elem_of_nil|].
  rewrite elem_of_cons. intros [->|Hx].
  - by exists p, P, [].
  - destruct (IH Hx) as (a & Q & R & Ha & Hq & ->). by exists a, Q, (id p :: R).
Qed.

(** So no key is its own ancestor: the guard against cycles does not fire. *)
Lemma trail_fresh P k : trail P k -> id k ∉ P.
Proof.
  intros Ht Hin. destruct (trail_ancestor P k (id k) Ht Hin) as (a & Q & R & Ha & Hq & E).
  assert (a = k) as -> by (apply same_id; [by eapply trail_in..|done]).
  pose proof (trail_fun _ _ Ht _ Hq) as E2. rewrite E2 in E. apply (f_equal length) in E.
  rewrite length_app in E. cbn in E. lia.
Qed.

Lemma trail_nodup P k : trail P k -> NoDup (id k :: P).
Proof.
  intros Ht. constructor; [by apply trail_fresh|].
  induction Ht as [|P p k _ _ Ht IH]; constructor; [by apply trail_fresh|done].
Qed.

Lemma trail_short P k : trail P k -> (length P < length keys)%nat.
Proof.
  intros Ht. pose proof (trail_nodup _ _ Ht) as Hn.
  assert (Hl : (length (id k :: P) <= length (id <$> keys))%nat).
  { apply NoDup_incl_length; [by apply NoDup_ListNoDup|]. intros x Hx. apply list_elem_of_In.
    apply list_elem_of_In in Hx. apply elem_of_cons in Hx as [->|Hx].
    - apply list_elem_of_fmap_2. by eapply trail_in.
    - destruct (trail_ancestor _ _ _ Ht Hx) as (a & Q & R & <- & Hq & _). apply list_elem_of_fmap_2.
      by eapply trail_in. }
  rewrite length_fmap in Hl. cbn in Hl. lia.
Qed.

(** [x] identifies a key of the subtree of [k]. *)
Definition under (P : list string) (k : KeyMetadata) (x : string) : Prop :=
  exists k' Q, trail Q k' /\ id k' = x /\ (id k :: P) `suffix_of` (id k' :: Q).

Definition child_of (k c : KeyMetadata) : Prop := c ∈ keys /\ parent_id c = Some (id k).

Lemma trail_suffix P k Q k' :
  trail P k -> trail Q k' -> (id k :: P) `suffix_of` (id k' :: Q) ->
  id k' = id k \/ exists c, child_of k c /\ (id c :: id k :: P) `suffix_of` (id k' :: Q).
Proof.
  intros Ht HQ. induction HQ as [k' Hk' _|Q p k' Hk' Hp HQ IH]; intros Hs.
  - apply suffix_cons_inv in Hs as [Hs|Hs]; [left; congruence|]. by apply suffix_nil_inv in Hs.
  - apply suffix_cons_inv in Hs as [Hs|Hs]; [left; congruence|]. right.
    destruct (IH Hs) as [E|(c & Hc & Hs')].
    + assert (p = k) as -> by (apply same_id; [by eapply trail_in..|done]).
      rewrite (trail_fun _ _ HQ _ Ht). by exists k'.
    + exists c. split; [done|]. by apply suffix_cons_r.
Qed.

Lemma under_iff P k x : trail P k -> under P k x <-> x = id k \/ exists c, child_of k c /\ under (id k :: P) c x.
Proof.
  intros Ht. split.
  - intros (k' & Q & HQ & <- & Hs). destruct (trail_suffix _ _ _ _ Ht HQ Hs) as [?|(c & Hc & Hs')]; [by left|].
    right. exists c. split; [done|]. by exists k', Q.
  - intros [->|(c & _ & k' & Q & HQ & E & Hs)].
    + by exists k, P.
    + exists k', Q. split_and!; [done..|]. by eapply suffix_cons_l.
Qed.

Lemma under_fun P a b x : under P a x -> under P b x -> id a = id b.
Proof.
  intros (k & Q & HQ & <- & [l Hl]) (k' & Q' & HQ' & E & [l' Hl']).
  assert (k' = k) as -> by (apply same_id; [by eapply trail_in..|done]).
  rewrite (trail_fun _ _ HQ' _ HQ), Hl in Hl'. apply app_inj_2 in Hl' as [_ E2]; [|done]. by injection E2.
Qed.

Lemma under_strict P k c : trail P k -> child_of k c -> ~ under (id k :: P) c (id k).
Proof.
  intros Ht [Hc Hp] (k' & Q & HQ & E & [l Hl]).
  assert (k' = k) as -> by (apply same_id; [by eapply trail_in..|done]).
  rewrite (trail_fun _ _ HQ _ Ht) in Hl. apply (f_equal length) in Hl. rewrite length_app in Hl. cbn in Hl. lia.
Qed.

Definition shows (P : list string) (k : KeyMetadata) (n : GraphNode) : Prop :=
  unmarked n /\ NoDup (flatten n) /\ forall x, x ∈ flatten n <-> under P k x.

(** The subtrees of different keys are disjoint. *)
Lemma flatten_all P cs ns :
  Forall2 (shows P) cs ns -> NoDup (id <$> cs) ->
  Forall unmarked ns /\ NoDup (concat (map flatten ns)) /\
  forall x, x ∈ concat (map flatten ns) <-> exists c, c ∈ cs /\ under P c x.
Proof.
  induction 1 as [|c n cs ns (Hu & Hn & Hx) _ IH]; intros Hnd; cbn [concat map].
  - split_and!; [constructor..|]. intros x. split; [by intros ?%elem_of_nil|]. by intros (c & ?%elem_of_nil & _).
  - rewrite fmap_cons in Hnd. apply NoDup_cons in Hnd as [Hc Hnd]. destruct (IH Hnd) as (I1 & I2 & I3).
    split_and!; [by constructor| |].
    + apply NoDup_app. split_and!; [done| |done]. intros x Hx1%Hx (c' & Hc' & Hx2)%I3.
      apply Hc. rewrite (under_fun _ _ _ _ Hx1 Hx2). by apply list_elem_of_fmap_2.
    + intros x. rewrite elem_of_app, Hx, I3. split.
      * intros [?|(c' & ? & ?)]; [exists c|exists c']; (split; [|done]); by constructor.
      * intros (c' & Hc' & ?). apply elem_of_cons in Hc' as [->|?]; [by left|right]. by exists c'.
Qed.

Lemma summary_no_mark {E} k s : Migration.wrapping_summary (E := E) k = Ok s -> s <> "CYCLE"%string.
Proof.
  unfold Migration.wrapping_summary. destruct (current_key_version k) as [kv|]; [|by intros [= <-]].
  destruct (effective_wrapping_mode kv); cbn; [by intros [= <-]| |by intros [= <-]].
  intros (p & _ & E1)%bind_Ok. by injection E1 as <-.
Qed.

Context (Hsum : forall k, k ∈ keys -> is_ok (Migration.wrapping_summary (E := unit) k) = true).

Lemma build_node_shows fuel P k :
  trail P k -> (length keys <= length P + fuel)%nat ->
  exists n, build_node fuel ids k (list_to_set P) = Ok (n, list_to_set P) /\ shows P k n.
Proof.
  revert P k. induction fuel as [|fuel IH]; intros P k Ht Hf.
  { pose proof (trail_short _ _ Ht). lia. }
  cbn [build_node]. pose proof (trail_fresh _ _ Ht) as Hfr.
  rewrite bool_decide_false by (by rewrite elem_of_list_to_set).
  specialize (Hsum k (trail_in _ _ Ht)) as Hs. destruct (Migration.wrapping_summary k) as [s|] eqn:Es; [|done].
  cbn -[list_to_set].
  change ({[ id k ]} ∪ list_to_set P : gset string) with (list_to_set (id k :: P) : gset string).
  set (cs := filter _ _).
  assert (Hcs : forall c, c ∈ cs <-> child_of k c).
  { intros c. unfold cs. rewrite list_elem_of_filter, values_keys. unfold child_of. tauto. }
  destruct (thread_spec (shows (id k :: P)) (build_node fuel ids) cs (list_to_set (id k :: P) : gset string))
    as (ns & -> & Hns).
  { intros c [Hc Hp]%Hcs. apply IH; [by constructor|]. cbn. lia. }
  destruct (flatten_all (id k :: P) cs ns Hns) as (F1 & F2 & F3); [by apply filter_nodup, values_nodup|].
  cbn -[list_to_set]. eexists. split.
  { do 2 f_equal. apply set_eq. intros x. cbn. set_solver. }
  split_and!.
  - cbn. split; [by eapply summary_no_mark|]. clear -F1. induction F1; cbn; auto.
  - cbn. constructor; [|done]. intros (c & Hc%Hcs & Hu)%F3. by eapply under_strict.
  - intros x. cbn. rewrite elem_of_cons, F3, (under_iff _ _ _ Ht). by setoid_rewrite Hcs.
Qed.

Lemma trail_from_root P k : trail P k -> exists r, is_root ids r = true /\ r ∈ keys /\ [id r] `suffix_of` (id k :: P).
Proof.
  induction 1 as [k Hk Hr|P p k Hk Hp _ (r & Hr & Hin & Hs)]; [by exists k|].
  exists r. split_and!; [done..|]. by apply suffix_cons_r.
Qed.

Lemma forest_shows fuel :
  (length keys <= fuel)%nat ->
  exists g, build fuel keys = Ok g /\ total_keys g = length keys /\ Forall unmarked (roots g) /\
    NoDup (concat (map flatten (roots g))) /\
    forall x, x ∈ concat (map flatten (roots g)) <-> exists k P, trail P k /\ id k = x.
Proof.
  intros Hf. unfold build. set (rs := filter _ keys).
  assert (Hrs : forall r, r ∈ rs <-> trail [] r).
  { intros r. unfold rs. rewrite list_elem_of_filter. split; [intros []; by constructor|]. by inversion 1. }
  assert (Hm : exists ns, mapM (fun k => fst <$> build_node fuel ids k ∅) rs = Ok ns /\ Forall2 (shows []) rs ns).
  { assert (H : forall r, r ∈ rs -> trail [] r) by (intros r; by apply Hrs). clear Hrs.
    induction rs as [|r rs' IH]; [by exists []|]. cbn [mapM].
    destruct (build_node_shows fuel [] r) as (n & Hn & Hsh); [apply H, list_elem_of_here|cbn; lia|].
    change (list_to_set []) with (∅ : gset string) in Hn. rewrite Hn. cbn.
    destruct IH as (ns & Hns & F); [intros r' Hr'; apply H; by right|]. cbn in Hns. rewrite Hns. exists (n :: ns).
    split; [done|]. by constructor. }
  destruct Hm as (ns & -> & F). cbn. eexists. split; [done|]. cbn. split; [done|].
  destruct (flatten_all [] rs ns F) as (F1 & F2 & F3); [by apply filter_nodup|].
  split_and!; [done..|]. intros x. rewrite F3. split.
  - intros (r & _ & k & Q & HQ & E & _). by exists k, Q.
  - intros (k & P & Ht & E). destruct (trail_from_root _ _ Ht) as (r & Hr & Hin & Hs). exists r.
    split; [apply Hrs; by constructor|]. by exists k, P.
Qed.
End forest.

(** Building the key graph terminates with one unit of fuel per key and never
    panics; it counts all keys, and the forest shows a key exactly when its chain of
    parents ends: the keys of a cycle, and those below it, are not shown, and no cycle
    is ever marked. *)
Theorem forest_shows_grounded {HO : HashOrder} {HL : HashOrderLaws HO} keys fuel :
  NoDup (id <$> keys) -> (forall k, k ∈ keys -> is_ok (Migration.wrapping_summary (E := unit) k) = true) ->
  (length keys <= fuel)%nat ->
  exists g, build fuel keys = Ok g /\ total_keys g = length keys /\ Forall unmarked (roots g) /\
    NoDup (concat (map flatten (roots g))) /\
    forall k, k ∈ keys -> id k ∈ concat (map flatten (roots g)) <-> grounded keys k.
Proof.
  intros Hids Hsum Hf. destruct (forest_shows keys Hids Hsum fuel Hf) as (g & Hg & Ht & Hu & Hn & Hx).
  exists g. split_and!; [done..|]. intros k Hk. rewrite Hx, (grounded_trail keys). split.
  - intros (k' & P & HP & E). exists P. assert (k' = k) as <-; [|done].
    apply (same_id keys Hids); [by eapply trail_in|done..].
  - intros [P HP]. by exists k, P.
Qed.
End Graph.
