(* ===== verification/Doctor.v ===== *)
(** * Deployment diagnostics ([citadel-keystore/src/doctor.rs], [citadel-cli/src/commands/doctor.rs])

    Environment variables, the answer of [stat] and the readings of the clock are
    arguments of the checks. *)

From S2P Require Import Prelude.
From S2P Require Import Text.
From S2P Require Import Types.
From S2P Require Import Hierarchy.
From S2P Require Import Policy.
Import Types.

Module Doctor.

(** ** Checks and reports *)

Inductive CheckStatus : Set := Pass | Warn | Fail.

#[global] Instance CheckStatus_eq_dec : EqDecision CheckStatus.
Proof. solve_decision. Defined.

Definition display_status (s : CheckStatus) : string :=
  match s with Pass => "PASS" | Warn => "WARN" | Fail => "FAIL" end.

Record DoctorCheck := mkCheck {
  check_name : string; description : string; status : CheckStatus; detail : string; remediation : option string }.

Definition pass (name description detail : string) : DoctorCheck := mkCheck name description Pass detail None.
Definition warn (name description detail remediation : string) : DoctorCheck :=
  mkCheck name description Warn detail (Some remediation).
Definition fail (name description detail remediation : string) : DoctorCheck :=
  mkCheck name description Fail detail (Some remediation).

(** [DoctorReport]. *)
Definition has_failures (checks : list DoctorCheck) : bool := existsb (fun c => bool_decide (status c = Fail)) checks.
Definition has_warnings (checks : list DoctorCheck) : bool := existsb (fun c => bool_decide (status c = Warn)) checks.

Definition count (s : CheckStatus) (checks : list DoctorCheck) : nat := length (filter (fun c => status c = s) checks).
Definition counts (checks : list DoctorCheck) : nat * nat * nat := (count Pass checks, count Warn checks, count Fail checks).

Definition exit_code (checks : list DoctorCheck) : Z :=
  if has_failures checks then 1 else if has_warnings checks then 2 else 0.

(** [slice::join]. *)
Fixpoint join_with (sep : string) (l : list string) : string :=
  match l with [] => "" | [x] => x | x :: l => x +:+ sep +:+ join_with sep l end.

Section checks.
Set Default Proof Using "Type".
Context {HX : Hex} {CH : Chrono}.
(** [std::env::var]; [None] when the variable is unset or not Unicode. *)
Context (env : string -> option string).

(** ** The environment *)

Definition check_master_key_present (has_master_key : bool) : DoctorCheck :=
  let describe := "CITADEL_MASTER_KEY environment variable is set"%string in
  if has_master_key then pass "master-key-present" describe "Master key loaded successfully"
  else fail "master-key-present" describe "CITADEL_MASTER_KEY is not set"
         "Generate a key: openssl rand -hex 32 → export CITADEL_MASTER_KEY=<hex>".

Definition check_master_key_valid (hex_error : string -> string) : DoctorCheck :=
  let describe := "CITADEL_MASTER_KEY decodes to exactly 32 bytes"%string in
  match env "CITADEL_MASTER_KEY" with
  | None => fail "master-key-valid" describe "CITADEL_MASTER_KEY is not set" "Set CITADEL_MASTER_KEY to a 64-char hex string"
  | Some val =>
      match hex_decode (Text.trim val) with
      | Some bytes =>
          if bool_decide (length bytes = 32%nat)
          then pass "master-key-valid" describe "Master key is 32 bytes (256 bits)"
          else fail "master-key-valid" describe ("Decoded to " +:+ pretty (length bytes) +:+ " bytes, expected 32")
                 "Generate a valid 32-byte key: openssl rand -hex 32"
      | None => fail "master-key-valid" describe ("Hex decode failed: " +:+ hex_error (Text.trim val))
                  "Ensure CITADEL_MASTER_KEY contains only hex characters (0-9, a-f)"
      end
  end.

Definition check_plaintext_mode_disabled : DoctorCheck :=
  let describe := "Plaintext key storage is disabled"%string in
  let plaintext_allowed := bool_decide (env "CITADEL_ALLOW_PLAINTEXT_KEYS" = Some "1"%string) in
  let is_dev := bool_decide (env "CITADEL_ENV" = Some "development"%string) in
  let master_key_set := bool_decide (is_Some (env "CITADEL_MASTER_KEY")) in
  if negb plaintext_allowed && master_key_set then
    pass "plaintext-mode-disabled" describe "CITADEL_ALLOW_PLAINTEXT_KEYS is not set; CITADEL_MASTER_KEY is present"
  else if plaintext_allowed && is_dev then
    warn "plaintext-mode-disabled" describe
      "CITADEL_ALLOW_PLAINTEXT_KEYS=1 with CITADEL_ENV=development: dev mode active"
      "Do not use CITADEL_ALLOW_PLAINTEXT_KEYS=1 in production"
  else if plaintext_allowed then
    fail "plaintext-mode-disabled" describe "CITADEL_ALLOW_PLAINTEXT_KEYS=1 without CITADEL_ENV=development"
      "Remove CITADEL_ALLOW_PLAINTEXT_KEYS from production environment"
  else
    fail "plaintext-mode-disabled" describe "CITADEL_MASTER_KEY is not set; keys would be stored as plaintext"
      "Set CITADEL_MASTER_KEY to a 64-char hex string".

(** [std::fs::metadata]: the mode bits of the directory. *)
Inductive Stat := NotFound | StatError (e : string) | Mode (m : Z).

(** On Unix. *)
Definition check_storage_permissions (data_dir : string) (stat : string -> Stat) : DoctorCheck :=
  let describe := "Key storage directory has owner-only permissions (0700)"%string in
  let keys_dir := data_dir +:+ "/keys" in
  match stat keys_dir with
  | NotFound => warn "storage-permissions" describe ("Directory '" +:+ keys_dir +:+ "' does not exist yet")
                  "The directory will be created on first key generation"
  | StatError e => fail "storage-permissions" describe ("Cannot stat '" +:+ keys_dir +:+ "': " +:+ e)
                     "Ensure the data directory is accessible"
  | Mode m =>
      let mode := Z.land m 511 in
      if mode =? 448 then pass "storage-permissions" describe ("'" +:+ keys_dir +:+ "' has mode " +:+ Text.octal4 mode)
      else fail "storage-permissions" describe ("'" +:+ keys_dir +:+ "' has mode " +:+ Text.octal4 mode +:+ " (expected 0700)")
             ("Run: chmod 700 '" +:+ keys_dir +:+ "'")
  end.

(** [Path::new("src")]: whether it is a directory. *)
Definition check_no_orphaned_src (is_dir : bool) : DoctorCheck :=
  let describe := "Orphaned root src/ directory (pre-V1 code with known defects) is absent"%string in
  if is_dir then
    warn "no-orphaned-src" describe "Found src/ at workspace root — contains deprecated code with crypto defects"
      "Run: git rm -r src/"
  else pass "no-orphaned-src" describe "src/ directory not present at workspace root".

Definition check_replay_store_backend (actual_backend : string) : DoctorCheck :=
  let describe := "Replay store backend (P066/P085)"%string in
  if bool_decide (actual_backend = "redis"%string) then
    pass "replay-store-type" describe "RedisReplayStore active — distributed, restart-safe, fail-closed"
  else if bool_decide (actual_backend = "file"%string) then
    pass "replay-store-type" describe "FileReplayStore active — single-instance, restart-safe"
  else warn "replay-store-type" describe
    ("MemoryReplayStore is active (backend='" +:+ actual_backend +:+ "') — not restart-safe, not distributed across instances. Replay events from before a restart or from other instances will NOT be caught.")
    "Set CITADEL_REPLAY_STORE=file (single node) or =redis (multi-node) and restart the server. MemoryReplayStore is acceptable for development only.".

(** ** The keys *)

Definition names (keys : list KeyMetadata) : list string := name <$> keys.

Definition stored_plaintext (k : KeyMetadata) : bool :=
  match current_key_version k with Some v => is_plaintext (secret_key_material v) | None => false end.

Definition check_no_plaintext_keys (keys : list KeyMetadata) : DoctorCheck :=
  let describe := "No keys are stored in plaintext"%string in
  let plaintext := names (filter (fun k => stored_plaintext k = true) keys) in
  if bool_decide (plaintext = []) then
    pass "no-plaintext-keys" describe "All keys use AES-GCM or Citadel-envelope wrapping"
  else warn "no-plaintext-keys" describe
    (pretty (length plaintext) +:+ " key(s) stored as plaintext: " +:+ join_with ", " plaintext)
    "Run 'citadel key rewrap --all' or rotate each key to re-encrypt under CITADEL_MASTER_KEY".

(** [None]: the search ran out of fuel, which [Hierarchy.validate_total] excludes. *)
Definition check_wrapping_graph (keys : list KeyMetadata) : option DoctorCheck :=
  let describe := "Key wrapping graph has no cycles or invalid hierarchy directions"%string in
  violations ← Hierarchy.validate_wrapping_graph (S (length keys)) keys;
  Some (if bool_decide (violations = []) then
    pass "wrapping-graph-valid" describe ("Graph of " +:+ pretty (length keys) +:+ " keys is valid")
  else
    let cycles := filter (fun v => Hierarchy.kind v = Hierarchy.Cycle) violations in
    mkCheck "wrapping-graph-valid" describe (if bool_decide (cycles = []) then Warn else Fail)
      (pretty (length violations) +:+ " violation(s): " +:+ join_with "; " (Hierarchy.detail <$> violations))
      (Some "Run 'citadel migrate hierarchy' to restructure or 'citadel key rewrap' to fix individual keys"%string)).

Definition orphaned (ids : gset string) (k : KeyMetadata) : bool :=
  match parent_id k with Some pid => negb (bool_decide (pid ∈ ids)) | None => false end.

Definition check_no_orphaned_keys (keys : list KeyMetadata) : DoctorCheck :=
  let describe := "All keys with parent_id references have accessible parents"%string in
  let all_ids : gset string := list_to_set (id <$> keys) in
  let orphans := names (filter (fun k => orphaned all_ids k = true) keys) in
  if bool_decide (orphans = []) then pass "no-orphaned-keys" describe "No orphaned child keys found"
  else warn "no-orphaned-keys" describe
    (pretty (length orphans) +:+ " key(s) reference missing parents: " +:+ join_with ", " orphans)
    "Run 'citadel key inspect <id>' to examine orphaned keys".

(** The clock is read twice for each key under a known policy. *)
Definition overdue_key (clock : nat -> Z) (policies : gmap string Policy.KeyPolicy) (i : nat) (key : KeyMetadata) :
    option (list string) :=
  if negb (bool_decide (state key = Active)) then Some [] else
  match policy_id key ≫= fun pid => policies !! pid with
  | Some policy =>
      verdict ← Policy.evaluate (clock (2 * i)%nat) (clock (2 * i + 1)%nat) policy key;
      Some (if Policy.needs_rotation verdict then [name key +:+ " (" +:+ id key +:+ ")"] else [])
  | None => Some []
  end.

(** [None]: [evaluate] panicked. *)
Definition check_no_expired_keys (clock : nat -> Z) (keys : list KeyMetadata) (policies : list (string * Policy.KeyPolicy)) :
    option DoctorCheck :=
  let describe := "No active keys are overdue for rotation"%string in
  let policy_map : gmap string Policy.KeyPolicy := foldl (fun m p => <[ p.1 := p.2 ]> m) ∅ policies in
  l ← mapM (fun '(i, key) => overdue_key clock policy_map i key) (imap pair keys);
  let overdue := mjoin l in
  Some (if bool_decide (overdue = []) then
    pass "rotation-current" describe "All active keys are within policy rotation windows"
  else warn "rotation-current" describe
    (pretty (length overdue) +:+ " key(s) need rotation: " +:+ join_with ", " overdue)
    "Run 'citadel key rotate <id>' for each overdue key, or enable auto_rotate in policy").

Definition stale (now : Z) (k : KeyMetadata) : bool :=
  bool_decide (state k = Pending) && (24 <? num_hours (now - created_at k)).

Definition check_no_stale_pending_keys (clock : nat -> Z) (keys : list KeyMetadata) : DoctorCheck :=
  let describe := "No keys have been in PENDING state for more than 24 hours"%string in
  let stale := names (snd <$> filter (fun p => stale (clock p.1) p.2 = true) (imap pair keys)) in
  if bool_decide (stale = []) then pass "no-stale-pending" describe "All pending keys are recently created"
  else warn "no-stale-pending" describe
    (pretty (length stale) +:+ " stale pending key(s): " +:+ join_with ", " stale)
    "Activate or destroy stale pending keys: 'citadel key activate <id>'".

Definition has_active (t : KeyType) (keys : list KeyMetadata) : bool :=
  existsb (fun k => bool_decide (key_type k = t /\ state k = Active)) keys.

Definition check_hierarchy_exists (keys : list KeyMetadata) : DoctorCheck :=
  let describe := "Root, Domain, and at least one KEK exist and are active"%string in
  if bool_decide (keys = []) then
    warn "hierarchy-exists" describe "No keys found — fresh installation"
      "Run 'citadel migrate hierarchy' to initialize the key hierarchy"
  else match has_active Root keys, has_active Domain keys, has_active KeyEncrypting keys with
  | true, true, true => pass "hierarchy-exists" describe "Root, Domain, and KEK present and active"
  | false, _, _ => warn "hierarchy-exists" describe "No active Root key found"
                     "Run 'citadel migrate hierarchy' to create the default hierarchy"
  | true, false, _ => warn "hierarchy-exists" describe "Root exists but no active Domain found"
      "Run 'citadel key generate --type domain --parent <root-id>' to create Domain key"
  | true, true, false => warn "hierarchy-exists" describe "Root and Domain exist but no active KEK found"
      "Run 'citadel key generate --type kek --parent <domain-id>' to create KEK under Domain"
  end.

Definition check_destroyed_keys_info (keys : list KeyMetadata) : DoctorCheck :=
  let describe := "Destroyed key count (informational)"%string in
  let destroyed := names (filter (fun k => state k = Destroyed) keys) in
  if bool_decide (destroyed = []) then pass "destroyed-keys-info" describe "No destroyed keys on record"
  else pass "destroyed-keys-info" describe
    (pretty (length destroyed) +:+ " destroyed key record(s) present (expected — audit trail)").

(** *** Active keys under a revoked ancestor *)

(** The walk up the parents of one key; [n] is how many it may still visit before
    [depth > 6]: six at the start. *)
Fixpoint dead_ancestor (by_id : gmap string KeyMetadata) (n : nat) (current : option string) : option KeyMetadata :=
  match n, current with
  | S n, Some pid =>
      match by_id !! pid with
      | Some parent =>
          if bool_decide (state parent = Revoked \/ state parent = Destroyed) then Some parent
          else dead_ancestor by_id n (parent_id parent)
      | None => None
      end
  | _, _ => None
  end.

Definition split_state (by_id : gmap string KeyMetadata) (key : KeyMetadata) : list string :=
  if bool_decide (state key = Active \/ state key = Rotated) then
    match dead_ancestor by_id 6 (parent_id key) with
    | Some parent => ["'" +:+ name key +:+ "' (" +:+ id key +:+ ") is Active/Rotated but ancestor '" +:+ name parent
                        +:+ "' is " +:+ display_state (state parent)]
    | None => []
    end
  else [].

Definition check_no_active_children_under_revoked (keys : list KeyMetadata) : DoctorCheck :=
  let describe := "Active keys under revoked ancestor (P064)"%string in
  let violations := keys ≫= split_state (Hierarchy.by_id keys) in
  if bool_decide (violations = []) then
    pass "no-active-children-under-revoked" describe "No Active/Rotated keys have a Revoked/Destroyed ancestor"
  else fail "no-active-children-under-revoked" describe
    (pretty (length violations) +:+ " key(s) are Active/Rotated but have a Revoked/Destroyed ancestor: " +:+ join_with "; " violations)
    "Run `revoke_cascade()` on the revoked parent to Suspend all descendants, then `rewrap()` + `activate()` each under a healthy parent.".

(** ** All of them *)

Record Machine := mkMachine {
  data_dir : string; stat : string -> Stat; src_is_dir : bool; hex_error : string -> string;
  (** readings of the clock in the expiry and in the staleness check *)
  clock1 : nat -> Z; clock2 : nat -> Z }.

(** [None]: a check panicked. *)
Definition run_all_checks (m : Machine) (has_master_key : bool) (keys : list KeyMetadata)
    (policies : list (string * Policy.KeyPolicy)) (actual_replay_backend : string) : option (list DoctorCheck) :=
  graph ← check_wrapping_graph keys;
  expired ← check_no_expired_keys (clock1 m) keys policies;
  Some [ check_master_key_present has_master_key;
         check_master_key_valid (hex_error m);
         check_plaintext_mode_disabled;
         check_storage_permissions (data_dir m) (stat m);
         check_no_plaintext_keys keys;
         graph;
         check_no_orphaned_keys keys;
         expired;
         check_no_stale_pending_keys (clock2 m) keys;
         check_hierarchy_exists keys;
         check_no_orphaned_src (src_is_dir m);
         check_destroyed_keys_info keys;
         check_no_active_children_under_revoked keys;
         check_replay_store_backend actual_replay_backend ].

(** *** [citadel doctor] *)

(** [listed]: the answer of [FileBackend::new(..)] and [list]. *)
Definition run (m : Machine) (listed : option (list KeyMetadata)) : option (list DoctorCheck * Z) :=
  let has_master_key := bool_decide (is_Some (env "CITADEL_MASTER_KEY")) in
  let keys := default [] listed in
  let policies := [ ("default-dek"%string, Policy.default_dek (env "CITADEL_ENFORCE_CRYPTOPERIODS"));
                    ("default-kek"%string, Policy.default_kek (env "CITADEL_ENFORCE_CRYPTOPERIODS")) ] in
  report ← run_all_checks m has_master_key keys policies (default "memory"%string (env "CITADEL_REPLAY_STORE"));
  Some (report, exit_code report).

(** ** What the report means *)

Lemma exit_code_0 l : exit_code l = 0 <-> forall c, c ∈ l -> status c = Pass.
Proof.
  assert (E : forall s, existsb (fun c => bool_decide (status c = s)) l = false <-> forall c, c ∈ l -> status c <> s).
  { intros s. rewrite <- not_true_iff_false, existsb_exists. setoid_rewrite bool_decide_eq_true.
    setoid_rewrite list_elem_of_In. naive_solver. }
  unfold exit_code, has_failures, has_warnings. split.
  - repeat case_match; try done. intros _ c Hc.
    assert (status c <> Fail) by (by eapply E). assert (status c <> Warn) by (by eapply E). by destruct (status c).
  - intros H. rewrite !(proj2 (E _)) by (intros c Hc; by rewrite (H c Hc)). done.
Qed.

(** The list of names a check prints is empty when no key is concerned. *)
Lemma names_nil (p : KeyMetadata -> bool) keys :
  names (filter (fun k => p k = true) keys) = [] <-> forall k, k ∈ keys -> p k = false.
Proof.
  unfold names. split.
  - intros H%fmap_nil_inv k Hk. destruct (p k) eqn:E; [|done].
    destruct (not_elem_of_nil k). rewrite <- H. by apply list_elem_of_filter.
  - intros H. destruct (filter _ keys) as [|k l] eqn:E; [done|].
    assert (Hk : k ∈ filter (fun k => p k = true) keys) by (rewrite E; apply list_elem_of_here).
    apply list_elem_of_filter in Hk as [Hp Hk]. by rewrite H in Hp.
Qed.

Lemma status_if (P : Prop) `{Decision P} a b :
  status b <> Pass -> status a = Pass -> (status (if bool_decide P then a else b) = Pass <-> P).
Proof. intros ??. case_bool_decide; naive_solver. Qed.

Lemma no_plaintext_pass keys :
  status (check_no_plaintext_keys keys) = Pass <-> forall k, k ∈ keys -> stored_plaintext k = false.
Proof. unfold check_no_plaintext_keys. rewrite status_if by done. apply names_nil. Qed.

Lemma wrapping_graph_pass keys :
  exists c, check_wrapping_graph keys = Some c /\
    (status c = Pass <-> forall k, k ∈ keys -> Hierarchy.well_wrapped (Hierarchy.by_id keys) k).
Proof.
  destruct (Hierarchy.validate_total (S (length keys)) keys ltac:(lia)) as (vs & E & _).
  unfold check_wrapping_graph. rewrite E. eexists. split; [done|].
  rewrite <- Hierarchy.clean_iff, E. rewrite status_if; [naive_solver| |done]. cbn. by case_bool_decide.
Qed.

Lemma no_orphans_pass keys :
  status (check_no_orphaned_keys keys) = Pass <->
  forall k p, k ∈ keys -> parent_id k = Some p -> exists k', k' ∈ keys /\ id k' = p.
Proof.
  clear env. unfold check_no_orphaned_keys. rewrite status_if by done. rewrite names_nil. unfold orphaned. split.
  - intros H k p Hk Hp. specialize (H k Hk). rewrite Hp in H. apply negb_false_iff, bool_decide_eq_true in H.
    set_solver.
  - intros H k Hk. destruct (parent_id k) as [p|] eqn:Hp; [|done].
    apply negb_false_iff, bool_decide_eq_true. destruct (H k p Hk Hp) as (k' & ? & <-). set_solver.
Qed.

Lemma hierarchy_pass keys :
  status (check_hierarchy_exists keys) = Pass <->
  has_active Root keys = true /\ has_active Domain keys = true /\ has_active KeyEncrypting keys = true.
Proof.
  unfold check_hierarchy_exists. case_bool_decide; [subst; cbn; naive_solver|].
  destruct (has_active Root keys), (has_active Domain keys), (has_active KeyEncrypting keys); cbn; naive_solver.
Qed.

(** *** Ancestors *)

(** [p] is the key the parent reference of [k] leads to. *)
Definition parent (by_id : gmap string KeyMetadata) (k p : KeyMetadata) : Prop :=
  exists pid, parent_id k = Some pid /\ by_id !! pid = Some p.

Definition dead (k : KeyMetadata) : Prop := state k = Revoked \/ state k = Destroyed.
Definition in_use (k : KeyMetadata) : Prop := state k = Active \/ state k = Rotated.

(** The walk finds a dead ancestor if there is one among the first [n]. *)
Lemma dead_ancestor_spec ids n k :
  is_Some (dead_ancestor ids n (parent_id k)) <->
  exists i a, (0 < i <= n)%nat /\ nsteps (parent ids) i k a /\ dead a.
Proof.
  clear env. revert k. induction n as [|n IH]; intros k; [split; [by intros [? [=]]|naive_solver lia]|]. cbn.
  destruct (parent_id k) as [pid|] eqn:Hp.
  2: { split; [by intros []|]. intros (i & a & ? & Hs & _). destruct Hs as [|? ? ? ? (? & ? & ?)]; [lia|congruence]. }
  destruct (ids !! pid) as [p|] eqn:Hl.
  2: { split; [by intros []|]. intros (i & a & ? & Hs & _). destruct Hs as [|? ? ? ? (? & ? & ?)]; [lia|congruence]. }
  assert (Hkp : parent ids k p) by by exists pid. case_bool_decide as Hd.
  - split; [intros _|naive_solver]. exists 1%nat, p. split_and!; [lia..| |done]. by apply nsteps_once.
  - rewrite IH. split; intros (i & a & Hi & Hs & Ha).
    + exists (S i), a. split_and!; [lia..| |done]. by econstructor.
    + inversion Hs as [|j ? p' ? (pid' & Hp' & Hl') Hs']; simplify_eq; [lia|].
      destruct j as [|j]; [inversion Hs'; subst; by destruct Hd|].
      exists (S j), a. split_and!; [lia..|done|done].
Qed.

Lemma split_state_nil ids k :
  split_state ids k = [] <-> (in_use k -> forall i a, (0 < i <= 6)%nat -> nsteps (parent ids) i k a -> ~ dead a).
Proof.
  unfold split_state, in_use. case_bool_decide as Hu; [|naive_solver].
  pose proof (dead_ancestor_spec ids 6 k) as Hd.
  destruct (dead_ancestor _ _ _) as [p|]; split; try done.
  - intros H. destruct (proj1 Hd ltac:(done)) as (i & a & ? & ? & ?). by destruct (H Hu i a).
  - intros _ _ i a Hi Hs Ha. destruct Hd as [_ [? [=]]]. by exists i, a.
Qed.

Lemma split_state_pass keys :
  status (check_no_active_children_under_revoked keys) = Pass <->
  forall k, k ∈ keys -> in_use k -> forall i a, (0 < i <= 6)%nat -> nsteps (parent (Hierarchy.by_id keys)) i k a -> ~ dead a.
Proof.
  unfold check_no_active_children_under_revoked. rewrite status_if by done.
  assert (E : keys ≫= split_state (Hierarchy.by_id keys) = [] <-> forall k, k ∈ keys -> split_state (Hierarchy.by_id keys) k = []).
  { split.
    - intros H k Hk. destruct (split_state _ k) as [|v l] eqn:E; [done|].
      destruct (not_elem_of_nil v). rewrite <- H. apply list_elem_of_bind. exists k. rewrite E. split; [apply list_elem_of_here|done].
    - intros H. destruct (keys ≫= _) as [|v l] eqn:E; [done|].
      assert (Hv : v ∈ keys ≫= split_state (Hierarchy.by_id keys)) by (rewrite E; apply list_elem_of_here).
      apply list_elem_of_bind in Hv as (k & Hv & Hk). rewrite H in Hv by done. by apply elem_of_nil in Hv. }
  rewrite E. setoid_rewrite split_state_nil. done.
Qed.

(** The roles are six, so where every parent is of a higher role than its child six
    links reach every ancestor. *)
Definition ranked (keys : list KeyMetadata) : Prop :=
  forall k p, k ∈ keys -> parent (Hierarchy.by_id keys) k p ->
    Hierarchy.depth (Hierarchy.role_of (key_type p)) < Hierarchy.depth (Hierarchy.role_of (key_type k)).

Lemma ranked_steps keys k a i :
  ranked keys -> k ∈ keys -> nsteps (parent (Hierarchy.by_id keys)) i k a -> (i <= 6)%nat.
Proof.
  intros Hr Hk Hs. assert (Hd : Hierarchy.depth (Hierarchy.role_of (key_type a)) + Z.of_nat i
    <= Hierarchy.depth (Hierarchy.role_of (key_type k))).
  - induction Hs as [k|i k p a Hp Hs IH]; [lia|]. pose proof (Hr _ _ Hk Hp).
    destruct Hp as (pid & _ & Hp). apply (proj1 (Hierarchy.by_id_lookup keys)) in Hp as [Hp _].
    specialize (IH Hp). lia.
  - revert Hd. destruct (key_type a), (key_type k); cbn; lia.
Qed.

(** The check for active children under revoked parents is exact where parents
    have higher roles than their children: it passes if and only if no active or rotated
    key has a revoked or destroyed ancestor, at any distance. *)
Theorem split_state_exact keys :
  ranked keys ->
  (status (check_no_active_children_under_revoked keys) = Pass <->
   forall k a, k ∈ keys -> in_use k -> tc (parent (Hierarchy.by_id keys)) k a -> ~ dead a).
Proof.
  intros Hr. rewrite split_state_pass. split.
  - intros H k a Hk Hu Ha. apply tc_nsteps in Ha as (i & Hi & Hs).
    apply (H k Hk Hu i a); [|done]. split; [done|]. by eapply ranked_steps.
  - intros H k Hk Hu i a Hi Hs. apply (H k a Hk Hu). apply tc_nsteps. exists i. naive_solver.
Qed.

(** *** The whole report *)

Lemma master_key_valid_pass he :
  status (check_master_key_valid he) = Pass ->
  exists val key, env "CITADEL_MASTER_KEY" = Some val /\ hex_decode (Text.trim val) = Some key /\ length key = 32%nat.
Proof.
  unfold check_master_key_valid. destruct (env _) as [val|]; [|done].
  destruct (hex_decode _) as [key|] eqn:E; [|done]. case_bool_decide; [|done]. eauto.
Qed.

Lemma plaintext_mode_pass :
  status check_plaintext_mode_disabled = Pass -> env "CITADEL_ALLOW_PLAINTEXT_KEYS" <> Some "1"%string.
Proof. unfold check_plaintext_mode_disabled. repeat case_bool_decide; cbn; try done; by case_bool_decide. Qed.

Lemma permissions_pass dir st :
  status (check_storage_permissions dir st) = Pass ->
  exists mode, st (dir +:+ "/keys") = Mode mode /\ Z.land mode 511 = 448.
Proof.
  unfold check_storage_permissions. destruct (st _) as [| |mode]; [done..|].
  destruct (Z.eqb_spec (Z.land mode 511) 448); [|done]. eauto.
Qed.

Lemma replay_pass b : status (check_replay_store_backend b) = Pass -> b = "redis"%string \/ b = "file"%string.
Proof. clear env. unfold check_replay_store_backend. repeat case_bool_decide; naive_solver. Qed.

(** What is checked of each key. *)
Record healthy (keys : list KeyMetadata) (k : KeyMetadata) : Prop := {
  not_plaintext : stored_plaintext k = false;
  wrapped : Hierarchy.well_wrapped (Hierarchy.by_id keys) k;
  parent_stored p : parent_id k = Some p -> exists k', k' ∈ keys /\ id k' = p;
  no_dead_ancestor : in_use k ->
    forall i a, (0 < i <= 6)%nat -> nsteps (parent (Hierarchy.by_id keys)) i k a -> ~ dead a;
}.

(** C35: When the diagnostics end with exit code 0, the listing of the store succeeded,
    the master key decodes to 32 bytes, plaintext storage is off, the key directory is
    private to its owner, a persistent replay store is configured, an active root,
    domain key and key-encrypting key exist, and every key is healthy: its current
    version is not in plaintext and is wrapped according to the hierarchy, its parent
    exists, and if it is active or rotated none of its six nearest ancestors is revoked
    or destroyed - no ancestor at all where every parent is of a higher role than its
    child. *)
Theorem doctor_green m listed report :
  run m listed = Some (report, 0) ->
  exists keys, listed = Some keys /\
    (exists val key, env "CITADEL_MASTER_KEY" = Some val /\ hex_decode (Text.trim val) = Some key /\
       length key = 32%nat) /\
    env "CITADEL_ALLOW_PLAINTEXT_KEYS" <> Some "1"%string /\
    (exists mode, stat m (data_dir m +:+ "/keys") = Mode mode /\ Z.land mode 511 = 448) /\
    (env "CITADEL_REPLAY_STORE" = Some "redis"%string \/ env "CITADEL_REPLAY_STORE" = Some "file"%string) /\
    has_active Root keys = true /\ has_active Domain keys = true /\ has_active KeyEncrypting keys = true /\
    (forall k, k ∈ keys -> healthy keys k) /\
    (ranked keys -> forall k a, k ∈ keys -> in_use k -> tc (parent (Hierarchy.by_id keys)) k a -> ~ dead a).
Proof.
  unfold run, run_all_checks. intros H. destruct (wrapping_graph_pass (default [] listed)) as (g & Hg & Hgp).
  rewrite Hg in H. cbn [mbind option_bind] in H.
  destruct (check_no_expired_keys _ _ _) as [ex|]; [|done]. cbn [mbind option_bind] in H.
  injection H as <- H0. rewrite exit_code_0 in H0. set_unfold in H0.
  assert (Hh : status (check_hierarchy_exists (default [] listed)) = Pass) by (apply H0; tauto).
  destruct listed as [keys|]; [|done]. cbn [default from_option Datatypes.id] in *. exists keys. split; [done|].
  apply hierarchy_pass in Hh as (? & ? & ?).
  split; [eapply master_key_valid_pass, H0; tauto|]. split; [apply plaintext_mode_pass, H0; tauto|].
  split; [apply permissions_pass, H0; tauto|].
  assert (Hs : status (check_no_active_children_under_revoked keys) = Pass) by (apply H0; tauto).
  split_and!; [|done..| |intros Hr; by apply split_state_exact].
  - assert (Hr : status (check_replay_store_backend (default "memory"%string (env "CITADEL_REPLAY_STORE"))) = Pass)
      by (apply H0; tauto).
    apply replay_pass in Hr. destruct (env "CITADEL_REPLAY_STORE") as [b|]; [|by destruct Hr].
    cbn in Hr. destruct Hr as [-> | ->]; [by left|by right].
  - intros k Hk. split.
    + apply (proj1 (no_plaintext_pass keys)); [apply H0; tauto|done].
    + apply (proj1 Hgp); [apply H0; tauto|done].
    + intros p. apply (proj1 (no_orphans_pass keys)); [apply H0; tauto|done].
    + by apply (proj1 (split_state_pass keys)).
Qed.

(** A report is made whenever the two default policies can be evaluated. *)
Theorem doctor_reports m listed :
  (forall t1 t2 p k, p = Policy.default_dek (env "CITADEL_ENFORCE_CRYPTOPERIODS") \/
     p = Policy.default_kek (env "CITADEL_ENFORCE_CRYPTOPERIODS") -> Policy.evaluate t1 t2 p k <> None) ->
  is_Some (run m listed).
Proof.
  intros He. unfold run, run_all_checks. destruct (wrapping_graph_pass (default [] listed)) as (g & -> & _).
  cbn [mbind option_bind]. unfold check_no_expired_keys. cbn [foldl fst snd].
  set (ps := <[ _ := _ ]> _).
  assert (Hps : forall x p, ps !! x = Some p -> p = Policy.default_dek (env "CITADEL_ENFORCE_CRYPTOPERIODS") \/
     p = Policy.default_kek (env "CITADEL_ENFORCE_CRYPTOPERIODS")).
  { intros x p. unfold ps. rewrite !lookup_insert_Some, lookup_empty. naive_solver. }
  clearbody ps. destruct (mapM _ _) as [l|] eqn:E; [cbn; eauto|]. exfalso.
  apply mapM_None in E as ([i k] & _ & E)%Exists_exists. revert E. unfold overdue_key.
  case_bool_decide; [|done]. cbn [negb]. destruct (policy_id k ≫= _) as [p|] eqn:Hp; [|done].
  destruct (policy_id k) as [x|]; [|done]. cbn in Hp. specialize (He (clock1 m (2 * i)%nat) (clock1 m (2 * i + 1)%nat) p k (Hps _ _ Hp)).
  by destruct (Policy.evaluate _ _ _ _).
Qed.
End checks.
End Doctor.
