(* ===== verification/ApiBase.v ===== *)
(** * The HTTP server: requests, responses and scopes ([citadel-api/src/main.rs])

    Requests are values of the types that the handlers receive (their JSON is
    parsed by [serde] before), responses are a status and a body.  Request
    identifiers, which only read the clock, are left out of the error bodies. *)

From S2P Require Import Prelude.
From S2P Require Import Text.
From S2P Require Import F64.
From S2P Require Import Types.
From S2P Require Import Threat.
From S2P Require Import Signer.
From S2P Require Import KeystoreWrap.
From S2P Require Import KeystoreCrypto.
From S2P Require Import KeystoreSign.
Import Types.

Module ApiBase.

(** ** Scopes *)

Inductive Scope : Set := Read | Encrypt | Manage | Admin.
#[global] Instance Scope_eq_dec : EqDecision Scope.
Proof. solve_decision. Defined.

Definition from_str (s : string) : option Scope :=
  if bool_decide (s = "read"%string) then Some Read
  else if bool_decide (s = "encrypt"%string) then Some Encrypt
  else if bool_decide (s = "manage"%string) then Some Manage
  else if bool_decide (s = "admin"%string) then Some Admin
  else None.
Definition as_str (s : Scope) : string :=
  match s with Read => "read" | Encrypt => "encrypt" | Manage => "manage" | Admin => "admin" end.
Definition debug_scope (s : Scope) : string :=
  match s with Read => "Read" | Encrypt => "Encrypt" | Manage => "Manage" | Admin => "Admin" end.

Definition has_scope (granted : list Scope) (required : Scope) : bool :=
  if bool_decide (Admin ∈ granted) then true else bool_decide (required ∈ granted).

Definition required_scope (path method : string) : option Scope :=
  if bool_decide (path = "/"%string \/ path = "/health"%string) then None
  else if bool_decide (path = "/api/auth/whoami"%string) then Some Read
  else if str_starts_with path "/api/auth/" then Some Admin
  else if Text.ends_with path "/encrypt" || bool_decide (path = "/api/decrypt"%string) then Some Encrypt
  else if Text.ends_with path "/sign" || bool_decide (path = "/api/assertions/issue"%string) then Some Encrypt
  else if bool_decide (path = "/api/verify"%string) || Text.ends_with path "/verifying-key"
          || bool_decide (path = "/api/assertions/verify"%string) then Some Read
  else if bool_decide (method = "POST"%string \/ method = "DELETE"%string) then Some Manage
  else Some Read.

Record AuthContext := mkAuth {
  au_key_id : string;
  key_name : string;
  scopes : list Scope;
  allowed_domains : option (list string);
}.

Definition is_global_admin (auth : AuthContext) : bool :=
  bool_decide (allowed_domains auth = None) && bool_decide (Admin ∈ scopes auth).

(** ** Requests *)

Record GenerateKeyReq := { gk_name : string; gk_key_type : string; gk_policy_id : option string; gk_parent_id : option string }.
Record EncryptReq := { er_plaintext : string; er_aad : string; er_context : string }.
Record DecryptReq := { dr_blob : KsCrypto.EncryptedBlob; dr_aad : string; dr_context : string }.
Record SignReq := { sr_payload_hex : string; sr_context : string }.
Record VerifyReq := { vr_key_id : string; vr_key_version : Z; vr_payload_hex : string; vr_signature_hex : string }.
Record ThreatEventReq := { te_kind : string; te_severity : f64; te_detail : option string }.
Record RevokeReq := { rr_reason : string }.
Record CreateApiKeyReq := { ck_name : string; ck_scopes : list string; ck_allowed_domains : option (list string) }.

Section json.
Context {J : Json}.
Record AssertionIssueReq := {
  ai_signing_key_id : string; ai_ttl_secs : Z; ai_public_claims : json;
  ai_sealed_claims_hex : option string; ai_sealed_claims_key_id : option string;
  ai_sealed_claims_key_version : option Z;
}.
Record AssertionVerifyReq := { av_assertion : Assertion.CitadelAssertion; av_signing_key_id : string }.

(** ** Responses *)

Inductive StatusCode : Set :=
| OK | CREATED | BAD_REQUEST | UNAUTHORIZED | FORBIDDEN | NOT_FOUND | UNPROCESSABLE_ENTITY
| TOO_MANY_REQUESTS | INTERNAL_SERVER_ERROR | SERVICE_UNAVAILABLE.

Record StatusResponse := {
  st_threat_level : Z; st_threat_name : string; st_threat_color : string; st_threat_score : f64;
  st_total_keys : nat; st_active_keys : nat;
}.
Record KeyResponse := mkKeyResponse {
  kr_id : string; kr_name : string; kr_key_type : string; kr_state : string; kr_version : Z;
  kr_usage_count : Z; kr_created_at : string; kr_updated_at : string;
  kr_policy_id : option string; kr_parent_id : option string;
}.
Record ThreatHistoryEntry := { th_timestamp : string; th_level : Z; th_level_name : string; th_reason : string }.
Record PolicyAdaptationResponse := {
  pa_policy_name : string; pa_threat_level : Z;
  pa_base_rotation_age_days : option f64; pa_effective_rotation_age_days : option f64;
  pa_base_grace_period_days : f64; pa_effective_grace_period_days : f64;
  pa_base_max_lifetime_days : option f64; pa_effective_max_lifetime_days : option f64;
  pa_base_usage_limit : option Z; pa_effective_usage_limit : option Z; pa_auto_rotate_forced : bool;
}.
Record ApiKeyInfo := mkInfo {
  in_id : string; in_name : string; in_scopes : list Scope; in_created_at : string; in_active : bool;
  in_last_used : option string; in_allowed_domains : option (list string);
}.

Inductive Body :=
| BError (error : string)
| BHtml
| BHealth (backend : string)
| BStatus (s : StatusResponse)
| BMetrics (m : Threat.SecurityMetrics)
| BKeys (l : list KeyResponse)
| BKey (k : KeyResponse)
| BKeyId (key_id : string)
| BDone (status : string)
| BRotated (new_key_id : string)
| BBlob (b : KsCrypto.EncryptedBlob)
| BPlaintext (plaintext : string)
| BSigned (s : KsSign.SignedPayload)
| BValid (valid : bool) (key_id : string) (key_version : Z)
| BVerifyingKey (key_id : string) (key_version : Z) (key_type state vk_hex : string) (vk_bytes : Z)
| BAssertion (a : Assertion.CitadelAssertion)
| BClaims (c : Assertion.VerifiedClaims)
| BInvalid (error : string)
| BThreat (score : f64) (level : Z) (name color : string) (history : list ThreatHistoryEntry)
| BThreatDone (status : string) (score : f64) (level : Z) (name : string)
| BPolicies (l : list PolicyAdaptationResponse)
| BExpired (expired warnings : nat) (skipped : Z)
| BApiKeys (l : list ApiKeyInfo)
| BApiKeyCreated (key_id name api_key : string) (scopes : list Scope)
| BApiKeyRevoked (key_id : string)
| BWhoami (ctx : AuthContext) (global_admin : bool).

Record Response := mkResponse { status : StatusCode; body : Body }.

Definition deny (s : StatusCode) (m : string) : Response := mkResponse s (BError m).
Definition err : string -> Response := deny BAD_REQUEST.
Definition err500 : string -> Response := deny INTERNAL_SERVER_ERROR.
Definition json_ok : Body -> Response := mkResponse OK.

Definition require_global_admin (auth : AuthContext) : result Response unit :=
  if is_global_admin auth then Ok ()
  else Err (deny FORBIDDEN "this endpoint exposes/mutates global state and requires a global admin key").
End json.

(** ** Text *)

(** [to_lowercase] as far as it can produce the letters of [parse_key_type]:
    the ASCII capitals and the Kelvin sign (U+212A); any other character maps
    to text outside of ASCII, or to itself. *)
Definition lower_char (c : string) : string :=
  if bool_decide (c = Text.utf8 [Byte.xe2; Byte.x84; Byte.xaa]) then "k"
  else match c with
       | String.String a EmptyString =>
           let n := Ascii.nat_of_ascii a in
           if (65 <=? n)%nat && (n <=? 90)%nat then String.String (Ascii.ascii_of_nat (n + 32)) "" else c
       | _ => c
       end.
Definition to_lowercase (s : string) : string := Text.join (lower_char <$> Text.chars s).

Definition parse_key_type (s : string) : option KeyType :=
  let s := to_lowercase s in
  if bool_decide (s = "root"%string) then Some Root
  else if bool_decide (s = "domain"%string) then Some Domain
  else if bool_decide (s = "kek"%string \/ s = "keyencrypting"%string) then Some KeyEncrypting
  else if bool_decide (s = "dek"%string \/ s = "dataencrypting"%string) then Some DataEncrypting
  else if bool_decide (s = "hybrid-id"%string \/ s = "hybrididentity"%string) then Some HybridIdentity
  else if bool_decide (s = "signing"%string \/ s = "sign"%string) then Some Signing
  else None.

Definition parse_threat_kind (s : string) : option Threat.ThreatEventKind :=
  if bool_decide (s = "DecryptionFailure"%string) then Some Threat.DecryptionFailure
  else if bool_decide (s = "RapidAccessPattern"%string) then Some Threat.RapidAccessPattern
  else if bool_decide (s = "AnomalousAccess"%string) then Some Threat.AnomalousAccess
  else if bool_decide (s = "ExternalAdvisory"%string) then Some Threat.ExternalAdvisory
  else if bool_decide (s = "AuthFailure"%string) then Some Threat.AuthFailure
  else if bool_decide (s = "KeyEnumeration"%string) then Some Threat.KeyEnumeration
  else if bool_decide (s = "ManualEscalation"%string) then Some Threat.ManualEscalation
  else if bool_decide (s = "ManualDeescalation"%string) then Some Threat.ManualDeescalation
  else None.

Definition lname (l : Threat.ThreatLevel) : string :=
  match l with
  | Threat.Low => "LOW" | Threat.Guarded => "GUARDED" | Threat.Elevated => "ELEVATED"
  | Threat.High => "HIGH" | Threat.Critical => "CRITICAL"
  end.
End ApiBase.
