(* ===== verification/ApiKeys.v ===== *)
(** * API keys ([citadel-api/src/main.rs]: [ApiKeyStore] and its routes)

    The key store, its file, who may administer which key, and the start-up of
    the store.  The file is its text, [None] if there is none; the JSON
    serializer is a parameter.  A handler takes the control state and what it
    reads from outside, and returns the state and a response. *)

From S2P Require Import Prelude.
From S2P Require Import Text.
From S2P Require Import Signer.
From S2P Require Import ApiBase.

Module ApiKeys.
Import ApiBase.

Record ApiKeyEntry := mkEntry {
  id : string;
  name : string;
  key_hash : string;
  en_scopes : list Scope;
  created_at : string;
  active : bool;
  last_used : option string;
  en_allowed_domains : option (list string);
}.

(** The key store is the list of its entries. *)
Notation ApiKeyStore := (list ApiKeyEntry).

Definition set_active (b : bool) (e : ApiKeyEntry) : ApiKeyEntry :=
  mkEntry (id e) (name e) (key_hash e) (en_scopes e) (created_at e) b (last_used e) (en_allowed_domains e).
Definition set_last_used (t : string) (e : ApiKeyEntry) : ApiKeyEntry :=
  mkEntry (id e) (name e) (key_hash e) (en_scopes e) (created_at e) (active e) (Some t) (en_allowed_domains e).

Class StoreJson := {
  to_string_pretty : ApiKeyStore -> result string string;
  store_from_str : string -> result string ApiKeyStore;
}.
Class StoreJsonLaws (S : StoreJson) : Prop := {
  store_from_to l s : to_string_pretty l = Ok s -> store_from_str s = Ok l;
}.

(** The outcomes of the calls that [save] makes. *)
Record SaveEnv := mkSaveEnv {
  open_tmp : option string;
  chmod_tmp : option string;
  write_tmp : option string;
  fsync_tmp : option string;
  rename_tmp : option string;
}.

Section store.
Context {SJ : StoreJson} {HX : Hex} {J : Json}.

Definition new : ApiKeyStore := [].

(** An error is an exit of the process; [read_error] is one other than
    [NotFound]. *)
Definition load (path : string) (read_error : option string) (file : option string) : result string ApiKeyStore :=
  match read_error, file with
  | Some e, _ => Err ("[FATAL] cannot read api-keys.json: " +:+ e)
  | None, Some data => map_err (fun e => "[FATAL] api-keys.json exists but failed to parse: " +:+ e) (store_from_str data)
  | None, None => Ok new
  end.

Definition failing (what tmp_path : string) (o : option string) : result string unit :=
  match o with Some e => Err (what +:+ " " +:+ tmp_path +:+ ": " +:+ e) | None => Ok () end.

(** [" → "] is U+2192. *)
Definition arrow : string := Text.utf8 [Byte.x20; Byte.xe2; Byte.x86; Byte.x92; Byte.x20].

(** The temporary file is never read back, and left out. *)
Definition save_text (e : SaveEnv) (path : string) (s : ApiKeyStore) : result string string :=
  data ← map_err (fun e => "serialize: " +:+ e) (to_string_pretty s);
  let tmp_path := path +:+ ".tmp" in
  _ ← failing "open tmp" tmp_path (open_tmp e);
  _ ← failing "chmod" tmp_path (chmod_tmp e);
  _ ← failing "write" tmp_path (write_tmp e);
  _ ← failing "fsync" tmp_path (fsync_tmp e);
  _ ← failing "rename" (tmp_path +:+ arrow +:+ path) (rename_tmp e);
  Ok data.
Definition save (e : SaveEnv) (path : string) (s : ApiKeyStore) (file : option string) : option string * result string unit :=
  match save_text e path s with Ok data => (Some data, Ok ()) | Err m => (file, Err m) end.

Definition authenticate (provided_hash : list byte) (s : ApiKeyStore) : option ApiKeyEntry :=
  let provided_hex := hex_encode provided_hash in
  List.find (fun k => active k && bool_decide (key_hash k = provided_hex)) s.

Definition add (entry : ApiKeyEntry) (s : ApiKeyStore) : ApiKeyStore := s ++ [entry].

(** [iter_mut().find(..)] followed by an assignment. *)
Fixpoint update (f : ApiKeyEntry -> ApiKeyEntry) (k : string) (s : ApiKeyStore) : ApiKeyStore :=
  match s with
  | [] => []
  | e :: s => if bool_decide (id e = k) then f e :: s else e :: update f k s
  end.
Definition deactivate (k : string) (s : ApiKeyStore) : ApiKeyStore * bool :=
  (update (set_active false) k s, existsb (fun e => bool_decide (id e = k)) s).
Definition touch (now k : string) (s : ApiKeyStore) : ApiKeyStore := update (set_last_used now) k s.

Definition info_of (k : ApiKeyEntry) : ApiKeyInfo :=
  mkInfo (id k) (name k) (en_scopes k) (created_at k) (active k) (last_used k) (en_allowed_domains k).
Definition list_info (s : ApiKeyStore) : list ApiKeyInfo := info_of <$> s.

(** ** Who may administer which key *)

Inductive ApiKeyAction :=
| CreateApiKey (scopes : list Scope) (allowed_domains : option (list string))
| ListApiKeys
| RevokeApiKey (target_key : ApiKeyEntry).

(** The denials of the two loops, in their order. *)
Definition first_outside (admin_domains target_domains : list string) : option string :=
  List.find (fun d => negb (bool_decide (d ∈ admin_domains))) target_domains.
Definition first_ungranted (auth : AuthContext) (l : list Scope) : option Scope :=
  List.find (fun s => negb (bool_decide (s ∈ scopes auth))) l.

Definition authorize_api_key_admin_action (auth : AuthContext) (action : ApiKeyAction) : result Response unit :=
  if is_global_admin auth then Ok ()
  else match action with
  | CreateApiKey scopes domains =>
      _ ← bail_if (bool_decide (domains = None)) (deny FORBIDDEN "scoped admin cannot create global API keys");
      _ ← bail_if (bool_decide (Admin ∈ scopes)) (deny FORBIDDEN "scoped admin cannot create admin API keys");
      _ ← match domains, allowed_domains auth with
          | Some target_domains, Some admin_domains =>
              match first_outside admin_domains target_domains with
              | Some d => Err (deny FORBIDDEN ("scoped admin cannot create API key for domain '" +:+ d
                                                 +:+ "' outside allowed domains"))
              | None => Ok ()
              end
          | _, _ => Ok ()
          end;
      match first_ungranted auth scopes with
      | Some s => Err (deny FORBIDDEN ("scoped admin cannot grant scope '" +:+ debug_scope s +:+ "' they do not have"))
      | None => Ok ()
      end
  | ListApiKeys => Ok ()
  | RevokeApiKey target =>
      _ ← bail_if (bool_decide (en_allowed_domains target = None) && bool_decide (Admin ∈ en_scopes target))
            (deny FORBIDDEN "scoped admin cannot revoke global admin API keys");
      match en_allowed_domains target with
      | Some target_domains =>
          match allowed_domains auth with
          | Some admin_domains =>
              bail_if (negb (forallb (fun d => bool_decide (d ∈ admin_domains)) target_domains))
                (deny FORBIDDEN "scoped admin cannot revoke API key outside allowed domains")
          | None => Err (deny FORBIDDEN "invalid admin configuration")
          end
      | None => Ok ()
      end
  end.

(** ** Routes *)

(** The store and its file. *)
Record Control := mkControl { keys : ApiKeyStore; file : option string }.

(** What [create_api_key] draws: the plaintext key of 32 bytes, with its hash
    ([None]: hashing panics), the eight bytes of the identifier, the time. *)
Record Minted := mkMinted { mi_key : list byte; mi_id : list byte; mi_now : string }.

Fixpoint parse_scopes (l : list string) (scopes : list Scope) : result Response (list Scope) :=
  match l with
  | [] => Ok scopes
  | s :: l =>
      match from_str s with
      | Some scope => parse_scopes l (if bool_decide (scope ∈ scopes) then scopes else scopes ++ [scope])
      | None => Err (err ("invalid scope '" +:+ s +:+ "' - valid: read, encrypt, manage, admin"))
      end
  end.

(** The rules on domains (P231). *)
Definition check_domains (domains : option (list string)) (is_admin : bool) : result Response unit :=
  match domains, is_admin with
  | Some [], true =>
      Err (err "empty allowed_domains list is invalid - use null for global admin or specify domains")
  | None, false => Err (err "non-admin API keys must be scoped to at least one domain")
  | Some [], false => Err (err "empty allowed_domains list is invalid - specify at least one domain")
  | _, _ => Ok ()
  end.

(** Everything before the key is minted. *)
Definition check_create (auth : AuthContext) (req : CreateApiKeyReq) : result Response (list Scope) :=
  _ ← bail_if (bool_decide (ck_name req = ""%string) || (100 <? String.length (ck_name req))%nat)
        (err "name must be 1-100 characters");
  scopes ← parse_scopes (ck_scopes req) [];
  _ ← bail_if (bool_decide (scopes = [])) (err "at least one scope required");
  _ ← authorize_api_key_admin_action auth (CreateApiKey scopes (ck_allowed_domains req));
  _ ← check_domains (ck_allowed_domains req) (bool_decide (Admin ∈ scopes));
  Ok scopes.

Definition generate_api_key (m : Minted) : string := hex_encode (mi_key m).
Definition generate_key_id (m : Minted) : string := "ck_" +:+ hex_encode (mi_id m).

(** [None]: the handler panics. *)
Definition create_api_key (hash_api_key : string -> option (list byte)) (m : Minted) (e : SaveEnv) (path : string)
    (auth : AuthContext) (req : CreateApiKeyReq) (c : Control) : Control * option Response :=
  match check_create auth req with
  | Err r => (c, Some r)
  | Ok scopes =>
      let plaintext_key := generate_api_key m in
      match hash_api_key plaintext_key with
      | None => (c, None)
      | Some key_hash =>
          let entry := mkEntry (generate_key_id m) (ck_name req) (hex_encode key_hash) scopes (mi_now m) true None
                         (ck_allowed_domains req) in
          let store := add entry (keys c) in
          let '(file, r) := save e path store (file c) in
          (mkControl store file,
           Some match r with
                | Err e => err500 ("failed to save: " +:+ e)
                | Ok _ => mkResponse CREATED (BApiKeyCreated (generate_key_id m) (ck_name req) plaintext_key scopes)
                end)
      end
  end.

Definition list_api_keys (auth : AuthContext) (c : Control) : Response :=
  match authorize_api_key_admin_action auth ListApiKeys with
  | Err r => r
  | Ok _ =>
      let all_keys := list_info (keys c) in
      if is_global_admin auth then json_ok (BApiKeys all_keys)
      else json_ok (BApiKeys
        match allowed_domains auth with
        | Some admin_domains =>
            List.filter (fun k => match in_allowed_domains k with
                                  | Some ds => forallb (fun d => bool_decide (d ∈ admin_domains)) ds
                                  | None => false
                                  end) all_keys
        | None => []
        end)
  end.

(** [other_admins]. *)
Definition other_admins (k : string) (s : ApiKeyStore) : nat :=
  length (List.filter (fun e => negb (bool_decide (id e = k)) && active e && bool_decide (Admin ∈ en_scopes e)) s).

(** Everything before the key is deactivated. *)
Definition check_revoke (auth : AuthContext) (k : string) (s : ApiKeyStore) : result Response unit :=
  target ← ok_or (List.find (fun e => bool_decide (id e = k)) s) (err ("API key '" +:+ k +:+ "' not found"));
  _ ← authorize_api_key_admin_action auth (RevokeApiKey target);
  _ ← bail_if (negb (active target)) (err ("API key '" +:+ k +:+ "' already revoked"));
  bail_if (bool_decide (Admin ∈ en_scopes target) && bool_decide (other_admins k s = 0%nat))
    (err "cannot revoke the last admin key").

Definition revoke_api_key (e : SaveEnv) (path : string) (auth : AuthContext) (k : string) (c : Control) :
    Control * Response :=
  match check_revoke auth k (keys c) with
  | Err r => (c, r)
  | Ok _ =>
      let store := (deactivate k (keys c)).1 in
      let '(file, r) := save e path store (file c) in
      (mkControl store file,
       match r with
       | Err e => err500 ("failed to save: " +:+ e)
       | Ok _ => json_ok (BApiKeyRevoked k)
       end)
  end.

(** After an authenticated request, in a task of its own. *)
Definition touch_and_save (e : SaveEnv) (path now k : string) (c : Control) : Control :=
  let store := touch now k (keys c) in
  mkControl store (save e path store (file c)).1.

Definition whoami (auth : AuthContext) : Response := json_ok (BWhoami auth (is_global_admin auth)).

(** ** Start-up *)

(** A key with global access that is not an admin key. *)
Definition unscoped (e : ApiKeyEntry) : bool :=
  bool_decide (en_allowed_domains e = None) && negb (bool_decide (Admin ∈ en_scopes e)).

(** [resolve_bootstrap_hash]; an error is an exit, [Ok None] also covers a
    variable that is blank. *)
Definition resolve_bootstrap_hash (env : string -> option string) (hash_api_key : string -> option (list byte)) :
    result (fault string) (option (list byte)) :=
  match env "CITADEL_API_KEY_HASH"%string with
  | Some hex_hash =>
      let hex_hash := Text.trim hex_hash in
      if bool_decide (hex_hash = ""%string) then Ok None
      else if negb (bool_decide (String.length hex_hash = 64%nat))
      then Err (Fail "CITADEL_API_KEY_HASH must be 64 hex characters"%string)
      else match hex_decode hex_hash with
           | Some hash => Ok (Some hash)
           | None => Err (Fail "CITADEL_API_KEY_HASH invalid hex"%string)
           end
  | None =>
      match env "CITADEL_API_KEY"%string with
      | Some pt =>
          let pt := Text.trim pt in
          if bool_decide (pt = ""%string) then Ok None
          else match hash_api_key pt with Some h => Ok (Some h) | None => Err Panic end
      | None => Ok None
      end
  end.

Definition bootstrap_entry (hash_bytes : list byte) (now : string) : ApiKeyEntry :=
  mkEntry "ck_bootstrap" "bootstrap-admin" (hex_encode hash_bytes) [Admin] now true None None.

Definition bootstrap_api_keys (env : string -> option string) (hash_api_key : string -> option (list byte))
    (now : string) (e : SaveEnv) (read_error : option string) (data_dir : string) (f : option string) :
    result (fault string) Control :=
  let path := data_dir +:+ "/api-keys.json" in
  store ← map_err Fail (load path read_error f);
  if bool_decide (store = []) then
    h ← resolve_bootstrap_hash env hash_api_key;
    match h with
    | Some hash_bytes =>
        let store := add (bootstrap_entry hash_bytes now) store in
        Ok (mkControl store (save e path store f).1)
    | None => Ok (mkControl store f)
    end
  else match List.find unscoped store with
       | Some key => Err (Fail ("FATAL: API key '" +:+ name key +:+ "' (id: " +:+ id key
                                  +:+ ") has global access (allowed_domains=None) but is not an admin key."))
       | None => Ok (mkControl store f)
       end.

(** ** Sequences of requests *)

Inductive request :=
| RCreate (hash : string -> option (list byte)) (m : Minted) (e : SaveEnv) (path : string) (auth : AuthContext)
    (req : CreateApiKeyReq)
| RRevoke (e : SaveEnv) (path : string) (auth : AuthContext) (k : string)
| RTouch (e : SaveEnv) (path now k : string).

Definition exec (r : request) (c : Control) : Control :=
  match r with
  | RCreate hash m e path auth req => (create_api_key hash m e path auth req c).1
  | RRevoke e path auth k => (revoke_api_key e path auth k c).1
  | RTouch e path now k => touch_and_save e path now k c
  end.
Definition run (rs : list request) (c : Control) : Control := foldl (fun c r => exec r c) c rs.

Definition asker (r : request) : option AuthContext :=
  match r with RCreate _ _ _ _ auth _ | RRevoke _ _ auth _ => Some auth | RTouch _ _ _ _ => None end.

(** ** Properties *)

(** An entry, but for the time of its last use. *)
Definition core (e : ApiKeyEntry) : ApiKeyEntry :=
  mkEntry (id e) (name e) (key_hash e) (en_scopes e) (created_at e) (active e) None (en_allowed_domains e).
Definition cores (s : ApiKeyStore) : list ApiKeyEntry := core <$> s.

(** Global access is for admin keys only. *)
Definition well_scoped (s : ApiKeyStore) : Prop := Forall (fun e => unscoped e = false) s.
(** Every domain of the key is one of [ds]. *)
Definition inside (ds : list string) (e : ApiKeyEntry) : Prop :=
  exists l, en_allowed_domains e = Some l /\ l ⊆ ds.
Definition has_admin (s : ApiKeyStore) : Prop := Exists (fun e => active e = true /\ Admin ∈ en_scopes e) s.

Lemma update_spec (f : ApiKeyEntry -> ApiKeyEntry) k s :
  update f k s = s /\ List.find (fun e => bool_decide (id e = k)) s = None \/
  exists s1 e s2, s = s1 ++ e :: s2 /\ id e = k /\ update f k s = s1 ++ f e :: s2 /\
    List.find (fun e => bool_decide (id e = k)) s = Some e.
Proof.
  induction s as [|e s IH]; cbn; [by left|]. case_bool_decide as E.
  - right. by exists [], e, s.
  - destruct IH as [[-> IH]|(s1 & x & s2 & -> & Hx & -> & IH)]; [by left|]. right. by exists (e :: s1), x, s2.
Qed.

Lemma touch_cores now k s : cores (touch now k s) = cores s.
Proof.
  unfold touch, cores. destruct (update_spec (set_last_used now) k s) as [[-> _]|(s1 & e & s2 & -> & _ & -> & _)]; [done|].
  by rewrite !fmap_app, !fmap_cons.
Qed.

Lemma check_create_Ok auth req l :
  check_create auth req = Ok l ->
  l <> [] /\ check_domains (ck_allowed_domains req) (bool_decide (Admin ∈ l)) = Ok () /\
  (is_global_admin auth = false -> Admin ∉ l /\ (forall s, s ∈ l -> s ∈ scopes auth) /\
     exists ds, ck_allowed_domains req = Some ds /\ forall D, allowed_domains auth = Some D -> ds ⊆ D).
Proof.
  unfold check_create. intros H. inv_ok H. bool_hyps. destruct x3.
  split_and!; [done|done|]. intros Hg. unfold authorize_api_key_admin_action in Hx2. rewrite Hg in Hx2.
  inv_ok Hx2. bool_hyps. destruct (ck_allowed_domains req) as [ds|]; [|done]. split_and!; [done| |].
  - intros s Hs. destruct (first_ungranted auth l) eqn:E; [done|]. unfold first_ungranted in E.
    pose proof (find_none _ _ E s (proj1 (list_elem_of_In _ _) Hs)) as Hn. cbn in Hn. by bool_hyps.
  - exists ds. split; [done|]. intros D HD. rewrite HD in *. destruct (first_outside D ds) eqn:E; [done|].
    intros d Hd. pose proof (find_none _ _ E d (proj1 (list_elem_of_In _ _) Hd)) as Hn. cbn in Hn. by bool_hyps.
Qed.

Lemma check_revoke_Ok auth k s :
  check_revoke auth k s = Ok () -> exists e,
    List.find (fun e => bool_decide (id e = k)) s = Some e /\ active e = true /\
    (Admin ∈ en_scopes e -> other_admins k s <> 0%nat) /\
    (is_global_admin auth = false -> unscoped e = false -> exists ds, en_allowed_domains e = Some ds /\
       exists D, allowed_domains auth = Some D /\ ds ⊆ D).
Proof.
  unfold check_revoke. intros H. inv_ok H. bool_hyps. exists x. split_and!; [done|done| |].
  { intros Ha Hn. rewrite !bool_decide_true in H by done. done. }
  intros Hg Hu. destruct x0. unfold authorize_api_key_admin_action in Hx0. rewrite Hg in Hx0. inv_ok Hx0.
  unfold unscoped in Hu. destruct (en_allowed_domains x) as [ds|].
  2: { by destruct (bool_decide (Admin ∈ en_scopes x)). }
  destruct (allowed_domains auth) as [D|]; [|done]. exists ds. split; [done|]. exists D. split; [done|].
  apply bail_if_Ok in Hx0. apply negb_false_iff in Hx0. rewrite forallb_forall in Hx0.
  intros d Hd%list_elem_of_In. specialize (Hx0 d Hd). by bool_hyps.
Qed.

(** What a request does to the keys: nothing but a mark of use, one new key, or one key less. *)
Lemma request_keys r c :
  cores (keys (exec r c)) = cores (keys c) \/
  (exists auth req l e, asker r = Some auth /\ check_create auth req = Ok l /\ keys (exec r c) = keys c ++ [e] /\
     en_scopes e = l /\ en_allowed_domains e = ck_allowed_domains req /\ active e = true) \/
  (exists auth k s1 e s2, asker r = Some auth /\ check_revoke auth k (keys c) = Ok () /\ keys c = s1 ++ e :: s2 /\
     id e = k /\ List.find (fun e => bool_decide (id e = k)) (keys c) = Some e /\
     keys (exec r c) = s1 ++ set_active false e :: s2).
Proof.
  destruct r as [h m e path auth req|e path auth k|e path now k]; cbn.
  - unfold create_api_key. destruct (check_create auth req) as [l|] eqn:E; [|by left].
    destruct (h _); [|by left]. right. left. destruct (save _ _ _ _). cbn.
    exists auth, req, l. eexists. split_and!; try done.
  - unfold revoke_api_key. destruct (check_revoke auth k (keys c)) as [[]|] eqn:E; [|by left].
    destruct (update_spec (set_active false) k (keys c)) as [[Hu _]|(s1 & x & s2 & Hk & Hx & Hu & Hf)].
    + left. destruct (save _ _ _ _). cbn. by rewrite Hu.
    + right. right. destruct (save _ _ _ _). cbn. exists auth, k, s1, x, s2. by rewrite Hu.
  - left. apply touch_cores.
Qed.

(** A property of entries that does not look at their last use. *)
Lemma cores_Forall (P : ApiKeyEntry -> Prop) s s' :
  (forall e, P e <-> P (core e)) -> cores s' = cores s -> Forall P s -> Forall P s'.
Proof.
  intros HP E H. rewrite Forall_forall in *. intros e He.
  assert (Hc : core e ∈ cores s) by (rewrite <- E; by apply list_elem_of_fmap_2).
  apply list_elem_of_fmap in Hc as (e' & Ee & He'). rewrite HP, Ee, <- HP. by apply H.
Qed.

Lemma exec_scoped r c : well_scoped (keys c) -> well_scoped (keys (exec r c)).
Proof.
  intros H. destruct (request_keys r c) as [E|[(auth & req & l & e & _ & Hc & -> & <- & Hd & _)|(auth & k & s1 & e & s2 & _ & _ & Ek & _ & _ & ->)]].
  - eapply cores_Forall; [|exact E|exact H]. by intros [].
  - apply Forall_app. split; [done|]. constructor; [|constructor]. apply check_create_Ok in Hc as (_ & Hc & _).
    unfold unscoped. rewrite Hd. by destruct (ck_allowed_domains req), (bool_decide (Admin ∈ en_scopes e)).
  - unfold well_scoped in *. rewrite Ek in H. rewrite Forall_app, Forall_cons in *.
    destruct H as (H1 & H2 & H3). split_and!; [done| |done]. by destruct e.
Qed.

Lemma run_ind (P : Control -> Prop) rs c : (forall r c, r ∈ rs -> P c -> P (exec r c)) -> P c -> P (run rs c).
Proof.
  revert c. induction rs as [|r rs IH]; intros c Hs H; [done|]. cbn.
  apply IH; [|apply Hs; [by left|done]]. intros r' c' Hr. apply Hs. by right.
Qed.

Lemma bootstrap_scoped env hash now e re dir f c :
  bootstrap_api_keys env hash now e re dir f = Ok c -> well_scoped (keys c).
Proof.
  intros H. unfold bootstrap_api_keys in H. inv_ok H. destruct (bool_decide (x = [])) eqn:E; bool_hyps.
  - inv_ok H. subst. destruct x0; simplify_eq; cbn; repeat constructor.
  - destruct (List.find unscoped x) eqn:Ef; [done|]. simplify_eq. apply Forall_forall. intros e0 He.
    by apply (find_none _ _ Ef), list_elem_of_In.
Qed.

(** C18: A key with access to every domain is an admin key: the start refuses any other,
    and no request makes one. *)
Theorem global_access_is_admin env hash now e re dir f c rs :
  bootstrap_api_keys env hash now e re dir f = Ok c -> well_scoped (keys (run rs c)).
Proof.
  intros H. apply run_ind; [intros r c' _; apply exec_scoped|]. by eapply bootstrap_scoped.
Qed.

(** C17: What scoped administrators of the domains [D] can do: the keys with access
    elsewhere are not touched, and the keys they make are not admin keys and reach [D]
    at most. *)
Theorem scoped_admins_contained D c rs :
  well_scoped (keys c) ->
  (forall r auth, r ∈ rs -> asker r = Some auth ->
     is_global_admin auth = false /\ exists ds, allowed_domains auth = Some ds /\ ds ⊆ D) ->
  (forall e, e ∈ cores (keys c) -> ~ inside D e -> e ∈ cores (keys (run rs c))) /\
  (forall e, e ∈ cores (keys (run rs c)) ->
     e ∈ cores (keys c) \/ inside D e /\ (active e = true -> Admin ∉ en_scopes e)).
Proof.
  intros Hw Ha.
  enough (G : well_scoped (keys (run rs c)) /\
    (forall e, e ∈ cores (keys c) -> ~ inside D e -> e ∈ cores (keys (run rs c))) /\
    (forall e, e ∈ cores (keys (run rs c)) ->
       e ∈ cores (keys c) \/ inside D e /\ (active e = true -> Admin ∉ en_scopes e))).
  { by destruct G as (_ & G). }
  apply run_ind; [|by auto]. intros r c' Hr (Hw' & H1 & H2). split; [by apply exec_scoped|].
  specialize (Ha r). destruct (request_keys r c') as [E|[(auth & req & l & e & Hak & Hc & -> & Hl & Hd & Hact)|
    (auth & k & s1 & e & s2 & Hak & Hc & Ek & Hid & Hf & ->)]].
  - by rewrite E.
  - destruct (Ha auth Hr Hak) as (Hg & ds & Eds & Hds). apply check_create_Ok in Hc as (_ & _ & Hc).
    destruct (Hc Hg) as (Hna & _ & l' & El & Hsub). unfold cores in *. rewrite fmap_app. split.
    + intros e0 He0 Hn. apply elem_of_app. left. by apply H1.
    + intros e0 [He0|He0]%elem_of_app; [by apply H2|]. apply list_elem_of_singleton in He0 as ->. right. split.
      * exists l'. split; [by rewrite <- El|]. etrans; [by apply Hsub|done].
      * intros _. cbn. by rewrite Hl.
  - destruct (Ha auth Hr Hak) as (Hg & ds & Eds & Hds). apply check_revoke_Ok in Hc as (e' & Hf' & Hact & _ & Hc).
    rewrite Hf in Hf'. injection Hf' as <-. unfold well_scoped in Hw'. rewrite Ek, Forall_app, Forall_cons in Hw'.
    destruct Hw' as (_ & Hu & _). destruct (Hc Hg Hu) as (l & El & D' & ED & Hl).
    assert (Hin : inside D (core e)).
    { exists l. split; [done|]. rewrite Eds in ED. injection ED as <-. by etrans. }
    rewrite Ek in H1, H2. unfold cores in *. rewrite !fmap_app, !fmap_cons in *. split.
    + intros e0 He0 Hn. specialize (H1 e0 He0 Hn). rewrite elem_of_app, elem_of_cons in *.
      destruct H1 as [?|[->|?]]; [by left| |by right; right]. by destruct Hn.
    + intros e0 He0. rewrite elem_of_app, elem_of_cons in *. destruct He0 as [He0|[->|He0]].
      * apply H2. apply elem_of_app. by left.
      * right. split; [by destruct Hin as (l0 & ? & ?); exists l0|done].
      * apply H2. apply elem_of_app. right. by right.
Qed.

Lemma other_admins_Some k s :
  other_admins k s <> 0%nat -> exists e, e ∈ s /\ id e <> k /\ active e = true /\ Admin ∈ en_scopes e.
Proof.
  unfold other_admins. intros H. destruct (List.filter _ s) as [|e l] eqn:E; [done|].
  assert (Hin : In e (List.filter (fun e => negb (bool_decide (id e = k)) && active e && bool_decide (Admin ∈ en_scopes e)) s))
    by (rewrite E; by left).
  apply filter_In in Hin as [Hin Hb]. exists e. bool_hyps. split_and!; [by apply list_elem_of_In|done..].
Qed.

(** C19: While one admin key is active, one always is. *)
Theorem admin_remains c rs : has_admin (keys c) -> has_admin (keys (run rs c)).
Proof.
  intros H. apply run_ind; [|done]. clear c H. intros r c _ H.
  destruct (request_keys r c) as [E|[(auth & req & l & e & _ & _ & -> & _)|
    (auth & k & s1 & e & s2 & _ & Hc & Ek & Hid & Hf & ->)]].
  - unfold has_admin in *. rewrite Exists_exists in *. destruct H as (e & He & Ha & Hs).
    assert (Hce : core e ∈ cores (keys (exec r c))) by (rewrite E; by apply list_elem_of_fmap_2).
    apply list_elem_of_fmap in Hce as (e' & Ee & He'). exists e'. destruct e, e'. cbn in *. by simplify_eq.
  - apply Exists_app. by left.
  - apply check_revoke_Ok in Hc as (e' & Hf' & Hact & Ho & _). rewrite Hf in Hf'. injection Hf' as <-.
    unfold has_admin in *.
    assert (G : exists e0, e0 ∈ keys c /\ (e0 ∈ s1 \/ e0 ∈ s2) /\ active e0 = true /\ Admin ∈ en_scopes e0).
    { destruct (decide (Admin ∈ en_scopes e)) as [Ha|Ha].
      - destruct (other_admins_Some k (keys c) (Ho Ha)) as (e0 & He0 & Hk & ? & ?). exists e0. split; [done|]. split; [|done].
        rewrite Ek, elem_of_app, elem_of_cons in He0. destruct He0 as [?|[->|?]]; [by left|done|by right].
      - rewrite Exists_exists in H. destruct H as (e0 & He0 & ? & ?). exists e0. split; [done|]. split; [|done].
        rewrite Ek, elem_of_app, elem_of_cons in He0. destruct He0 as [?|[->|?]]; [by left|done|by right]. }
    destruct G as (e0 & _ & Hin & Hb). rewrite Exists_app, Exists_cons, !Exists_exists.
    destruct Hin; [left|right; right]; by exists e0.
Qed.

(** ** Refusals *)

Definition refused (r : Response) : Prop := status r = BAD_REQUEST \/ status r = FORBIDDEN.

Lemma err_refused m : refused (err m).
Proof. by left. Qed.
Lemma forbidden_refused m : refused (deny FORBIDDEN m).
Proof. by right. Qed.
Hint Resolve err_refused forbidden_refused : refused.

(** [m] only fails with a refusal. *)
Definition refuses {A} (m : result Response A) : Prop := forall r, m = Err r -> refused r.

Lemma refuses_bind {A B} (m : result Response A) (f : A -> result Response B) :
  refuses m -> (forall a, refuses (f a)) -> refuses (m ≫= f).
Proof. intros Hm Hf r. destruct m as [a|r']; cbn; [apply Hf|intros [= <-]; by apply Hm]. Qed.
Lemma refuses_bail b r : refused r -> refuses (bail_if b r).
Proof. intros Hr r'. destruct b; cbn; [by intros [= <-]|done]. Qed.
Lemma refuses_Err {A} r : refused r -> refuses (A := A) (Err r).
Proof. by intros Hr r' [= <-]. Qed.
Lemma refuses_Ok {A} (a : A) : refuses (Ok a).
Proof. done. Qed.
Hint Resolve refuses_bail refuses_Err refuses_Ok : refused.

Ltac refusing := repeat first [apply refuses_bind; [|intros ?] | case_match]; eauto with refused.

Lemma authorize_refuses auth a : refuses (authorize_api_key_admin_action auth a).
Proof. unfold authorize_api_key_admin_action. refusing. Qed.
Lemma parse_refuses l acc : refuses (parse_scopes l acc).
Proof. revert acc. induction l as [|s l IH]; intros acc; cbn; refusing. Qed.
Lemma check_create_refuses auth req : refuses (check_create auth req).
Proof.
  unfold check_create, check_domains. refusing; try apply parse_refuses; apply authorize_refuses.
Qed.
Lemma check_revoke_refuses auth k s : refuses (check_revoke auth k s).
Proof.
  unfold check_revoke. apply refuses_bind; [by destruct (List.find _ _); cbn; eauto with refused|].
  intros t. refusing. apply authorize_refuses.
Qed.

(** A request that is answered with success is in the file: the next start finds the same keys. *)
Theorem restart_finds_keys `{!StoreJsonLaws SJ} hash m e path auth req k c :
  (forall r, (create_api_key hash m e path auth req c).2 = Some r -> status r = CREATED ->
     load path None (file (create_api_key hash m e path auth req c).1)
       = Ok (keys (create_api_key hash m e path auth req c).1)) /\
  (status (revoke_api_key e path auth k c).2 = OK ->
     load path None (file (revoke_api_key e path auth k c).1) = Ok (keys (revoke_api_key e path auth k c).1)).
Proof.
  assert (S : forall s f f', save e path s f = (f', Ok ()) -> load path None f' = Ok s).
  { intros s f f'. unfold save. destruct (save_text e path s) as [d|] eqn:E; [|done]. intros [= <-]. unfold save_text in E.
    inv_ok E. subst. cbn. by rewrite (store_from_to _ _ Hx). }
  split.
  - intros r. unfold create_api_key. destruct (check_create auth req) as [l|r'] eqn:E.
    + destruct (hash _); [|done]. destruct (save _ _ _ _) as [f [[]|]] eqn:Es; cbn; intros [= <-]; [|done].
      intros _. by eapply S.
    + intros [= <-] Hs. by destruct (check_create_refuses _ _ _ E) as [Hr|Hr]; rewrite Hr in Hs.
  - unfold revoke_api_key. destruct (check_revoke auth k (keys c)) as [[]|r'] eqn:E.
    + destruct (save _ _ _ _) as [f [[]|]] eqn:Es; cbn; [|done]. intros _. by eapply S.
    + intros Hs. cbn in Hs. by destruct (check_revoke_refuses _ _ _ _ E) as [Hr|Hr]; rewrite Hr in Hs.
Qed.
End store.
End ApiKeys.
