(* ===== verification/ApiLimit.v ===== *)
(** * Rate limiting ([citadel-api/src/main.rs]: [RateLimiter])

    Token buckets per address, per API key and for the whole server, in
    binary64.  An instant is in nanoseconds. *)

From Stdlib Require Import SpecFloat.
From S2P Require Import Prelude.
From S2P Require Import F64.
From S2P Require Import Types.
Import Types.

Module ApiLimit.

#[global] Instance f64_eq_dec : EqDecision f64.
Proof. solve_decision. Defined.

(** [f64::min]: the other argument if one is NaN. *)
Definition fmin (x y : f64) : f64 :=
  match x, y with
  | S754_nan, _ => y
  | _, S754_nan => x
  | _, _ => if SFltb y x then y else x
  end.
(** [Duration::as_secs_f64]. *)
Definition as_secs_f64 (d : Z) : f64 :=
  F64.add (F64.of_Z (d `div` NANOS_PER_SEC)) (F64.div (F64.of_Z (d mod NANOS_PER_SEC)) (F64.of_Z NANOS_PER_SEC)).
(** [u32] arithmetic, as in a release build. *)
Definition times (burst k : Z) : f64 := F64.of_Z ((burst * k) mod 2 ^ 32).

Record TokenBucket := mkBucket { tokens : f64; last_refill : Z }.

Record RateLimiter := mkLimiter {
  ip_buckets : gmap string TokenBucket;
  key_buckets : gmap string TokenBucket;
  global_bucket : TokenBucket;
  rps_per_ip : f64;
  rps_per_key : f64;
  rps_global : f64;
  burst : Z;
}.

Definition new (now : Z) (rps : f64) (b : Z) : RateLimiter :=
  mkLimiter ∅ ∅ (mkBucket (times b 10) now) rps (F64.mul rps (F64.of_Z 5)) (F64.mul rps (F64.of_Z 50)) b.

Definition set_ip (ip : string) (b : TokenBucket) (l : RateLimiter) : RateLimiter :=
  mkLimiter (<[ ip := b ]> (ip_buckets l)) (key_buckets l) (global_bucket l) (rps_per_ip l) (rps_per_key l)
    (rps_global l) (burst l).
Definition set_key (k : string) (b : TokenBucket) (l : RateLimiter) : RateLimiter :=
  mkLimiter (ip_buckets l) (<[ k := b ]> (key_buckets l)) (global_bucket l) (rps_per_ip l) (rps_per_key l)
    (rps_global l) (burst l).
Definition set_global (b : TokenBucket) (l : RateLimiter) : RateLimiter :=
  mkLimiter (ip_buckets l) (key_buckets l) b (rps_per_ip l) (rps_per_key l) (rps_global l) (burst l).

(** The steps each of the three checks takes: refill, and spend a token if
    there is one. *)
Definition refill (now : Z) (rps cap : f64) (b : TokenBucket) : TokenBucket :=
  let elapsed := as_secs_f64 (saturating_sub now (last_refill b)) in
  mkBucket (fmin (F64.add (tokens b) (F64.mul elapsed rps)) cap) now.
Definition take (now : Z) (rps cap : f64) (b : TokenBucket) : TokenBucket * bool :=
  let b := refill now rps cap b in
  if SFltb (tokens b) (F64.of_Z 1) then (b, false)
  else (mkBucket (F64.sub (tokens b) (F64.of_Z 1)) now, true).

Definition check_ip (now : Z) (ip : string) (l : RateLimiter) : RateLimiter * bool :=
  let cap := F64.of_Z (burst l) in
  let r := take now (rps_per_ip l) cap (default (mkBucket cap now) (ip_buckets l !! ip)) in
  (set_ip ip r.1 l, r.2).
Definition check_key (now : Z) (key_id : option string) (l : RateLimiter) : RateLimiter * bool :=
  match key_id with
  | None => (l, true)
  | Some k =>
      let cap := times (burst l) 5 in
      let r := take now (rps_per_key l) cap (default (mkBucket cap now) (key_buckets l !! k)) in
      (set_key k r.1 l, r.2)
  end.
Definition check_global (now : Z) (l : RateLimiter) : RateLimiter * bool :=
  let r := take now (rps_global l) (times (burst l) 10) (global_bucket l) in
  (set_global r.1 l, r.2).

(** The clock is read once. *)
Definition check (now : Z) (ip : string) (key_id : option string) (l : RateLimiter) : RateLimiter * bool :=
  let '(l, ok) := check_ip now ip l in
  if negb ok then (l, false)
  else let '(l, ok) := check_key now key_id l in
       if negb ok then (l, false) else check_global now l.

Definition cleanup (now : Z) (l : RateLimiter) : RateLimiter :=
  let fresh (p : string * TokenBucket) := saturating_sub now (last_refill p.2) `div` NANOS_PER_SEC < 300 in
  mkLimiter (filter fresh (ip_buckets l)) (filter fresh (key_buckets l)) (global_bucket l) (rps_per_ip l)
    (rps_per_key l) (rps_global l) (burst l).

(** What an authenticated request is charged: once before authentication, and
    once with its key ([rate_limit_middleware], [auth_middleware]). *)
Definition authenticated (now : Z) (ip k : string) (l : RateLimiter) : RateLimiter * bool :=
  let '(l, ok) := check now ip None l in
  if negb ok then (l, false) else check now ip (Some k) l.

Fixpoint burst_of (n : nat) (now : Z) (ip k : string) (l : RateLimiter) : RateLimiter * list bool :=
  match n with
  | O => (l, [])
  | S n => let '(l, ok) := authenticated now ip k l in
           let '(l, oks) := burst_of n now ip k l in (l, ok :: oks)
  end.

(** ** Properties *)

Lemma of_Z_nan_add x : F64.add x S754_nan = S754_nan.
Proof. by destruct x. Qed.
Lemma mul_nan x : F64.mul x S754_nan = S754_nan.
Proof. by destruct x. Qed.

Lemma take_nan now cap b : SFltb cap (F64.of_Z 1) = false -> (take now S754_nan cap b).2 = true.
Proof. intros H. unfold take, refill. cbn [tokens]. rewrite mul_nan, of_Z_nan_add. cbn [fmin]. by rewrite H. Qed.

(** A rate that parses as NaN turns the limiter off: every bucket is full at every check. *)
Theorem nan_never_limits now t ip k l b :
  rps_per_ip l = S754_nan -> rps_per_key l = S754_nan -> rps_global l = S754_nan -> burst l = b ->
  SFltb (F64.of_Z b) (F64.of_Z 1) = false -> SFltb (times b 5) (F64.of_Z 1) = false ->
  SFltb (times b 10) (F64.of_Z 1) = false ->
  rps_per_ip (new t S754_nan b) = S754_nan /\ rps_per_key (new t S754_nan b) = S754_nan /\
  rps_global (new t S754_nan b) = S754_nan /\ (check now ip k l).2 = true.
Proof.
  intros H1 H2 H3 H4 C1 C2 C3. split_and!; [done|done|done|].
  unfold check, check_ip. rewrite H1, H4, take_nan by done. cbn [negb].
  assert (E : snd (check_key now k (set_ip ip (take now S754_nan (F64.of_Z b) (default (mkBucket (F64.of_Z b) now)
     (ip_buckets l !! ip))).1 l)) = true).
  { destruct k; cbn [check_key]; [|done]. cbn [snd set_ip rps_per_key burst]. by rewrite H2, H4, take_nan. }
  destruct (check_key _ _ _) as [l' ok] eqn:Ek. cbn [snd] in E. rewrite E. cbn [negb].
  unfold check_global. cbn [snd]. assert (rps_global l' = S754_nan /\ burst l' = b) as [-> ->].
  { destruct k; cbn [check_key] in Ek; injection Ek as <- _; done. }
  by apply take_nan.
Qed.

(** The default limiter with a whole number of tokens in each bucket of a request. *)
Definition holding (zi zk zg now : Z) (ip k : string) (l : RateLimiter) : Prop :=
  burst l = 50 /\ rps_per_ip l = F64.of_Z 20 /\ rps_per_key l = F64.of_Z 100 /\ rps_global l = F64.of_Z 1000 /\
  default (mkBucket (F64.of_Z 50) now) (ip_buckets l !! ip) = mkBucket (F64.of_Z zi) now /\
  default (mkBucket (F64.of_Z 250) now) (key_buckets l !! k) = mkBucket (F64.of_Z zk) now /\
  global_bucket l = mkBucket (F64.of_Z zg) now.

Lemma elapsed_zero now : as_secs_f64 (saturating_sub now now) = F64.of_Z 0.
Proof. unfold saturating_sub. by rewrite Z.sub_diag. Qed.

(** A bucket with a whole number of tokens, at the instant of its last refill. *)
Definition whole (rps cap z : Z) : bool :=
  let x := fmin (F64.add (F64.of_Z z) (F64.mul (F64.of_Z 0) (F64.of_Z rps))) (F64.of_Z cap) in
  if z <? 1 then SFltb x (F64.of_Z 1)
  else negb (SFltb x (F64.of_Z 1)) && bool_decide (F64.sub x (F64.of_Z 1) = F64.of_Z (z - 1)).

Lemma whole_all rps cap (n : nat) :
  forallb (whole rps cap) (Z.of_nat <$> seq 0 (S n)) = true -> forall z, 0 <= z <= Z.of_nat n -> whole rps cap z = true.
Proof.
  intros H z Hz. rewrite forallb_forall in H. apply H, list_elem_of_In, list_elem_of_fmap.
  exists (Z.to_nat z). split; [lia|]. apply elem_of_seq. lia.
Qed.

Lemma take_whole now rps cap z :
  whole rps cap z = true -> 1 <= z ->
  take now (F64.of_Z rps) (F64.of_Z cap) (mkBucket (F64.of_Z z) now) = (mkBucket (F64.of_Z (z - 1)) now, true).
Proof.
  unfold whole, take, refill. cbn [tokens last_refill]. rewrite elapsed_zero. intros H Hz.
  rewrite (proj2 (Z.ltb_ge z 1)) in H by done. apply andb_true_iff in H as [H1 H2].
  apply negb_true_iff in H1. rewrite H1. apply bool_decide_eq_true in H2. by rewrite H2.
Qed.
Lemma take_none now rps cap z :
  whole rps cap z = true -> z < 1 ->
  (take now (F64.of_Z rps) (F64.of_Z cap) (mkBucket (F64.of_Z z) now)).2 = false.
Proof.
  unfold whole, take, refill. cbn [tokens last_refill]. rewrite elapsed_zero. intros H Hz.
  rewrite (proj2 (Z.ltb_lt z 1)) in H by done. by rewrite H.
Qed.

Lemma whole_ip z : 0 <= z <= 50 -> whole 20 50 z = true.
Proof. apply (whole_all 20 50 50). by vm_compute. Qed.
Lemma whole_key z : 0 <= z <= 250 -> whole 100 250 z = true.
Proof. apply (whole_all 100 250 250). by vm_compute. Qed.
Lemma whole_global z : 0 <= z <= 500 -> whole 1000 500 z = true.
Proof. apply (whole_all 1000 500 500). by vm_compute. Qed.

Section charges.
Context (now : Z) (ip k : string).

Lemma charge_ip zi zk zg l :
  holding zi zk zg now ip k l -> 1 <= zi <= 50 ->
  exists l', check_ip now ip l = (l', true) /\ holding (zi - 1) zk zg now ip k l'.
Proof.
  intros (Hb & H1 & H2 & H3 & Hi & Hk & Hg) Hz. unfold check_ip.
  rewrite Hb, H1, Hi, take_whole by (try apply whole_ip; lia). eexists. split; [done|].
  unfold holding. cbn -[F64.of_Z]. rewrite lookup_insert_eq. by split_and!.
Qed.
Lemma charge_key zi zk zg l :
  holding zi zk zg now ip k l -> 1 <= zk <= 250 ->
  exists l', check_key now (Some k) l = (l', true) /\ holding zi (zk - 1) zg now ip k l'.
Proof.
  intros (Hb & H1 & H2 & H3 & Hi & Hk & Hg) Hz. unfold check_key, times. rewrite Hb. change ((50 * 5) mod 2 ^ 32) with 250.
  rewrite H2, Hk, take_whole by (try apply whole_key; lia). eexists. split; [done|].
  unfold holding. cbn -[F64.of_Z]. rewrite lookup_insert_eq. by split_and!.
Qed.
Lemma charge_global zi zk zg l :
  holding zi zk zg now ip k l -> 1 <= zg <= 500 ->
  exists l', check_global now l = (l', true) /\ holding zi zk (zg - 1) now ip k l'.
Proof.
  intros (Hb & H1 & H2 & H3 & Hi & Hk & Hg) Hz. unfold check_global, times. rewrite Hb. change ((50 * 10) mod 2 ^ 32) with 500.
  rewrite H3, Hg, take_whole by (try apply whole_global; lia). eexists. split; [done|]. by split_and!.
Qed.

Lemma charge_check o zi zk zg l :
  holding zi zk zg now ip k l -> o = None \/ o = Some k -> 1 <= zi <= 50 -> 1 <= zk <= 250 -> 1 <= zg <= 500 ->
  exists l', check now ip o l = (l', true) /\
    holding (zi - 1) (match o with Some _ => zk - 1 | None => zk end) (zg - 1) now ip k l'.
Proof.
  intros H Ho H1 H2 H3. unfold check. destruct (charge_ip _ _ _ _ H H1) as (l1 & -> & Hl1). cbn [negb].
  destruct Ho as [->| ->].
  - cbn [check_key negb]. apply (charge_global _ _ _ _ Hl1 H3).
  - destruct (charge_key _ _ _ _ Hl1 H2) as (l2 & -> & Hl2). apply (charge_global _ _ _ _ Hl2 H3).
Qed.

Lemma charge_request n l :
  0 <= n < 25 -> holding (50 - 2 * n) (250 - n) (500 - 2 * n) now ip k l ->
  exists l', authenticated now ip k l = (l', true) /\
    holding (50 - 2 * (n + 1)) (250 - (n + 1)) (500 - 2 * (n + 1)) now ip k l'.
Proof.
  intros Hn H. unfold authenticated.
  destruct (charge_check None _ _ _ _ H (or_introl eq_refl)) as (l1 & -> & Hl1); [lia..|]. cbn [negb].
  destruct (charge_check (Some k) _ _ _ _ Hl1 (or_intror eq_refl)) as (l2 & -> & Hl2); [lia..|].
  exists l2. split; [done|]. cbn iota in Hl2.
  replace (50 - 2 * (n + 1)) with (50 - 2 * n - 1 - 1) by lia. replace (250 - (n + 1)) with (250 - n - 1) by lia.
  by replace (500 - 2 * (n + 1)) with (500 - 2 * n - 1 - 1) by lia.
Qed.

Lemma charge_empty zk zg l : holding 0 zk zg now ip k l -> (authenticated now ip k l).2 = false.
Proof.
  intros (Hb & H1 & _ & _ & Hi & _).
  assert (E : (check_ip now ip l).2 = false).
  { unfold check_ip. cbn [snd]. rewrite Hb, H1, Hi. apply take_none; [by apply whole_ip|lia]. }
  unfold authenticated, check. destruct (check_ip now ip l) as [l' ok]. cbn in E. subst ok. done.
Qed.

Lemma default_burst n m l :
  holding (50 - 2 * n) (250 - n) (500 - 2 * n) now ip k l -> 0 <= n -> n + Z.of_nat m = 25 ->
  (burst_of (S m) now ip k l).2 = replicate m true ++ [false].
Proof.
  revert n l. induction m as [|m IH]; intros n l Hd Hn E.
  - cbn [burst_of replicate app]. assert (n = 25) as -> by lia. pose proof (charge_empty _ _ _ Hd) as Ha.
    destruct (authenticated now ip k l) as [l' ok]. cbn in *. by rewrite Ha.
  - destruct (charge_request n l ltac:(lia) Hd) as (l' & Ha & Hd').
    cbn [burst_of]. rewrite Ha. specialize (IH (n + 1) l' Hd' ltac:(lia) ltac:(lia)). cbn [burst_of] in IH.
    destruct (authenticated now ip k l') as [l2 ok]. destruct (burst_of m now ip k l2) as [l3 oks]. cbn in *. by rewrite IH.
Qed.
End charges.

(** An authenticated request is charged twice: with the default limits, of 26
    requests that one address makes at once 25 pass, not the 50 of the configured burst. *)
Theorem burst_is_halved now ip k :
  (burst_of 26 now ip k (new now (F64.of_Z 20) 50)).2 = replicate 25 true ++ [false].
Proof. by apply (default_burst now ip k 0); [split_and!|lia|]. Qed.
End ApiLimit.
