(* ===== verification/Api.v ===== *)
(** * Routes on keys, signatures, threat and policy ([citadel-api/src/main.rs])

    A handler is a computation on the keystore's world that ends in a response;
    its early returns are the failures.  The server's [StateEnforcer] is the one
    that is bound into the keystore. *)

From S2P Require Import Prelude.
From S2P Require Import Text.
From S2P Require Import F64.
From S2P Require Import Types.
From S2P Require Import Hierarchy.
From S2P Require Import Enforcer.
From S2P Require Import Policy.
From S2P Require Import AuditLog.
From S2P Require Import Threat.
From S2P Require Import Signer.
From S2P Require Import KeystoreBase.
From S2P Require Import KeystoreWrap.
From S2P Require Import Keystore.
From S2P Require Import KeystoreCrypto.
From S2P Require Import KeystoreSign.
From S2P Require Import ApiBase.
Import Types.

Module Api.
Import Keystore KsCrypto KsSign ApiBase.

Inductive Operation : Set :=
| ReadKey | ListKeys | OpEncrypt | OpDecrypt | CreateRoot | CreateDomain | CreateKek | CreateDek
| CreateSigningKey | ActivateKey | RotateKey | RevokeKey | DestroyKey.

(** The response of a handler; [None] if it panicked. *)
Definition answer {J : Json} (r : result (fault Response) Response) : option Response :=
  match r with Ok a => Some a | Err (Fail a) => Some a | Err Panic => None end.

(** [String::from_utf8_lossy]: each maximal prefix of an ill-formed sequence
    becomes U+FFFD.  The number of bytes of the sequence that starts here, and
    whether it is complete. *)
Definition in_range (lo hi : Z) (b : byte) : bool := (lo <=? Z_of_byte b) && (Z_of_byte b <=? hi).
Fixpoint prefix_length (p : byte -> bool) (l : list byte) : nat :=
  match l with b :: l => if p b then S (prefix_length p l) else O | [] => O end.
Definition tail_ok (lo hi : Z) (more : nat) (l : list byte) : nat * bool :=
  match l with
  | b :: l =>
      if in_range lo hi b then
        let k := prefix_length (in_range 128 191) (take more l) in
        (S (S k), bool_decide (k = more))
      else (1%nat, false)
  | [] => (1%nat, false)
  end.
Definition utf8_step (b : byte) (l : list byte) : nat * bool :=
  let v := Z_of_byte b in
  if v <? 128 then (1%nat, true)
  else if (194 <=? v) && (v <=? 223) then tail_ok 128 191 0 l
  else if v =? 224 then tail_ok 160 191 1 l
  else if v =? 237 then tail_ok 128 159 1 l
  else if (225 <=? v) && (v <=? 239) then tail_ok 128 191 1 l
  else if v =? 240 then tail_ok 144 191 2 l
  else if (241 <=? v) && (v <=? 243) then tail_ok 128 191 2 l
  else if v =? 244 then tail_ok 128 143 2 l
  else (1%nat, false).
Fixpoint utf8_lossy (fuel : nat) (l : list byte) : list byte :=
  match fuel, l with
  | S fuel, b :: r =>
      let '(n, ok) := utf8_step b r in
      (if (ok : bool) then take n l else [Byte.xef; Byte.xbf; Byte.xbd]) ++ utf8_lossy fuel (drop n l)
  | _, _ => []
  end.
Definition from_utf8_lossy (l : list byte) : string := String.string_of_list_byte (utf8_lossy (length l) l).

Section routes.
Context {PF : Platform} {J : Json}.

(** ** The enforcer *)

(** What [generate_capability_token] and [AuthorizedContext::new] read. *)
Definition draw {E} : M E Enforcer.Draw :=
  r ← tick; t ← now;
  mret {| Enforcer.d_nonce := be_val (reverse (rd_bytes r 0 16)); Enforcer.d_issue := rd_now r; Enforcer.d_stamp := t |}.

(** A call on the enforcer that the server shares with its keystore; the server
    is only built with one ([build_app]). *)
Definition with_enforcer {E A} (f : Enforcer.StateEnforcer -> Enforcer.StateEnforcer * A) : M E A :=
  e ← asks enforcer;
  match e with
  | Some s => let '(s', a) := f s in _ ← modify (set_enforcer (Some s')); mret a
  | None => panic
  end.
Definition register_key {E} (k : string) (dom : option string) : M E unit :=
  with_enforcer (fun s => (Enforcer.register_key s k dom, ())).
Definition enforcer_revoke {E} (k : string) : M E unit :=
  with_enforcer (fun s => (Enforcer.revoke_key s k, ())).

Definition enforcer_denied (d : Enforcer.DenialReason) : Response :=
  deny FORBIDDEN ("StateEnforcer denied: " +:+ Enforcer.display d).

(** [authorize_*(..)], a denial handled by [on_deny]. *)
Definition authorizing
    (f : Enforcer.StateEnforcer -> Enforcer.Draw ->
         Enforcer.StateEnforcer * result Enforcer.DenialReason Enforcer.AuthorizedContext)
    (on_deny : Enforcer.DenialReason -> Response) : M Response Enforcer.AuthorizedContext :=
  d ← draw;
  r ← with_enforcer (fun s => f s d);
  match r with Ok a => mret a | Err reason => throw (on_deny reason) end.

(** ** Authorization *)

Definition opaque_failure : Response := deny BAD_REQUEST "operation failed".

(** The denials of [authorize_domain_access]. *)
Definition unresolved (op : Operation) (e : KeystoreError) : Response :=
  match op with
  | OpDecrypt => opaque_failure
  | _ => deny BAD_REQUEST ("cannot resolve domain: " +:+ display_error e)
  end.
Definition outside (op : Operation) (domain : string) : Response :=
  match op with
  | OpDecrypt => opaque_failure
  | OpEncrypt => deny FORBIDDEN ("access denied for domain " +:+ domain)
  | _ => deny FORBIDDEN ("API key not allowed for domain " +:+ domain)
  end.

Definition authorize_domain_access (auth : AuthContext) (op : Operation) (target_key_id : option string) :
    M Response (option string) :=
  if is_global_admin auth then mret None
  else match op with
  | ListKeys => mret None
  | CreateRoot | CreateDomain => throw (deny FORBIDDEN "creating Root or Domain requires global admin access")
  | _ =>
      key_id ← or_throw target_key_id (deny INTERNAL_SERVER_ERROR "target_key_id required for this operation");
      target_domain ← mapping (unresolved op) (resolve_domain_for_key key_id);
      _ ← throw_if match allowed_domains auth with
                   | Some allowed => negb (bool_decide (target_domain ∈ allowed))
                   | None => false
                   end (outside op target_domain);
      mret (Some target_domain)
  end.

Definition caller_can_read_key (auth : AuthContext) (key_domain : option string) : bool :=
  match key_domain, allowed_domains auth with
  | None, _ => true
  | Some _, None => true
  | Some kd, Some allowed => bool_decide (kd ∈ allowed)
  end.

(** [resolve_domain_for_key(..).await.ok()]. *)
Definition domain_or_none {E} (k : string) : M E (option string) :=
  r ← attempt (resolve_domain_for_key k); mret match r with Ok d => Some d | Err _ => None end.

Definition lookup_readable_key_or_deny (auth : AuthContext) (key_id : string) : M Response KeyMetadata :=
  meta ← mapping (fun e => if is_global_admin auth then deny NOT_FOUND (display_error e)
                            else deny FORBIDDEN "access denied") (get key_id);
  key_domain ← domain_or_none key_id;
  _ ← throw_if (negb (caller_can_read_key auth key_domain)) (deny FORBIDDEN "access denied");
  mret meta.

(** ** Keys *)

Definition key_to_response (meta : KeyMetadata) : KeyResponse :=
  mkKeyResponse (id meta) (name meta) (debug_type (key_type meta)) (display_state (state meta))
    (match last (versions meta) with Some v => version v | None => 0 end) (usage_count meta)
    (to_rfc3339 (created_at meta)) (to_rfc3339 (updated_at meta)) (policy_id meta) (parent_id meta).

Definition as_err {A} (m : M KeystoreError A) : M Response A := mapping (fun e => err (display_error e)) m.
Definition as_err500 {A} (m : M KeystoreError A) : M Response A := mapping (fun e => err500 (display_error e)) m.

(** The loop of a scoped caller. *)
Fixpoint filter_keys {E} (auth : AuthContext) (keys : list KeyMetadata) : M E (list KeyResponse) :=
  match keys with
  | [] => mret []
  | key :: rest =>
      domain ← domain_or_none (id key);
      l ← filter_keys auth rest;
      mret match domain, allowed_domains auth with
           | Some d, Some allowed => if bool_decide (d ∈ allowed) then key_to_response key :: l else l
           | _, _ => l
           end
  end.

Definition list_keys_handler (auth : AuthContext) : M Response Response :=
  keys ← as_err500 list_keys;
  if is_global_admin auth then mret (json_ok (BKeys (key_to_response <$> keys)))
  else l ← filter_keys auth keys; mret (json_ok (BKeys l)).

Definition get_key (auth : AuthContext) (id : string) : M Response Response :=
  _ ← authorize_domain_access auth ReadKey (Some id);
  m ← as_err (get id);
  mret (json_ok (BKey (key_to_response m))).

Definition create_operation (kt : KeyType) : Operation :=
  match kt with
  | Root => CreateRoot | Domain => CreateDomain | KeyEncrypting => CreateKek
  | DataEncrypting | HybridIdentity => CreateDek | Signing => CreateSigningKey
  end.

Definition generate_key (auth : AuthContext) (req : GenerateKeyReq) : M Response Response :=
  kt ← or_throw (parse_key_type (gk_key_type req)) (err ("invalid key_type: " +:+ gk_key_type req));
  _ ← authorize_domain_access auth (create_operation kt) (gk_parent_id req);
  id ← (if bool_decide (kt = Signing) then
          match gk_parent_id req with
          | None => throw (err "KeyType::Signing requires a parent_id (must be a KeyEncrypting key)")
          | Some parent_kek => as_err (generate_signing_key (gk_name req) (gk_policy_id req) parent_kek)
          end
        else as_err (generate (gk_name req) kt (gk_policy_id req) (gk_parent_id req)));
  actual_domain ← domain_or_none id;
  _ ← register_key id actual_domain;
  mret (mkResponse CREATED (BKeyId id)).

Definition activate_key (auth : AuthContext) (id : string) : M Response Response :=
  resolved_domain ← authorize_domain_access auth ActivateKey (Some id);
  _ ← authorizing (fun s d => Enforcer.authorize_api_request s d id resolved_domain "/api/keys/:id/activate" "POST")
        enforcer_denied;
  _ ← as_err (activate id);
  mret (json_ok (BDone "activated")).

Definition rotate_key (auth : AuthContext) (id : string) : M Response Response :=
  t ← now;
  let new_key_id_str := id +:+ "-rotated-" +:+ pretty (t `div` NANOS_PER_SEC) in
  resolved_domain ← authorize_domain_access auth RotateKey (Some id);
  _ ← authorizing (fun s d => Enforcer.authorize_key_rotation s d id new_key_id_str resolved_domain) enforcer_denied;
  new_id ← as_err (rotate id);
  _ ← register_key new_id resolved_domain;
  mret (json_ok (BRotated new_id)).

Definition revoke_key (auth : AuthContext) (id : string) (req : RevokeReq) : M Response Response :=
  resolved_domain ← authorize_domain_access auth RevokeKey (Some id);
  _ ← authorizing (fun s d => Enforcer.authorize_api_request s d id resolved_domain "/api/keys/:id/revoke" "POST")
        enforcer_denied;
  _ ← as_err (revoke id (rr_reason req));
  _ ← enforcer_revoke id;
  mret (json_ok (BDone "revoked")).

Definition destroy_key (auth : AuthContext) (id : string) : M Response Response :=
  _ ← authorize_domain_access auth DestroyKey (Some id);
  _ ← as_err (destroy id);
  _ ← enforcer_revoke id;
  mret (json_ok (BDone "destroyed")).

(** ** Encryption *)

Definition encrypt_failure (e : string) : Response :=
  let msg := "encrypt: " +:+ e in
  if Text.contains msg "policy" || Text.contains msg "compliance" then deny FORBIDDEN msg else err msg.

Definition encrypt_data (auth : AuthContext) (id : string) (req : EncryptReq) : M Response Response :=
  resolved_domain ← authorize_domain_access auth OpEncrypt (Some id);
  authz_ctx ← authorizing (fun s d => Enforcer.authorize_encrypt s d id resolved_domain None) enforcer_denied;
  blob ← mapping encrypt_failure
           (encrypt_authorized authz_ctx (bytes_of_string (er_plaintext req)) (bytes_of_string (er_aad req))
              (bytes_of_string (er_context req)));
  mret (json_ok (BBlob blob)).

(** [decrypt_data] and [decrypt_data_inner]; [None] is a body that is not JSON
    or not a request.  The dummy work and the delay change nothing. *)
Definition decrypt_data (auth : AuthContext) (body : option DecryptReq) : M Response Response :=
  req ← or_throw body opaque_failure;
  let key_id := blob_key_id (dr_blob req) in
  resolved_domain ← authorize_domain_access auth OpDecrypt (Some key_id);
  dec_authz_ctx ← authorizing (fun s d => Enforcer.authorize_decrypt s d key_id resolved_domain)
                    (fun _ => opaque_failure);
  pt ← mapping (fun _ => opaque_failure)
         (decrypt_authorized dec_authz_ctx (dr_blob req) (bytes_of_string (dr_aad req))
            (bytes_of_string (dr_context req)));
  mret (json_ok (BPlaintext (from_utf8_lossy pt))).

(** ** Signatures and assertions *)

Definition decode_payload (payload_hex : string) : M Response (list byte) :=
  or_throw (hex_decode payload_hex) (deny BAD_REQUEST ("invalid payload_hex: " +:+ hex_error payload_hex)).

Definition sign_failure (e : string) : Response :=
  let msg := "SignError: " +:+ e in
  if Text.contains msg "StateEnforcer" || Text.contains msg "revoked" || Text.contains msg "Active"
  then deny FORBIDDEN msg
  else if Text.contains msg "KeyType" || Text.contains msg "Signing" then deny BAD_REQUEST msg
  else err msg.

Definition sign_data (auth : AuthContext) (id : string) (req : SignReq) : M Response Response :=
  payload ← decode_payload (sr_payload_hex req);
  resolved_domain ← authorize_domain_access auth ReadKey (Some id);
  authz_ctx ← authorizing (fun s d => Enforcer.authorize_sign s d id resolved_domain payload) enforcer_denied;
  signed ← mapping sign_failure (sign_authorized authz_ctx payload);
  mret (json_ok (BSigned signed)).

Definition verify_failure (e : string) : Response :=
  let msg := "VerifyError: " +:+ e in
  if Text.contains msg "not found" then deny NOT_FOUND msg else deny BAD_REQUEST msg.

Definition verify_signature_handler (auth : AuthContext) (req : VerifyReq) : M Response Response :=
  _ ← lookup_readable_key_or_deny auth (vr_key_id req);
  payload ← decode_payload (vr_payload_hex req);
  t ← now;
  let signed_payload := mkSigned (vr_key_id req) (vr_key_version req) (vr_signature_hex req) t in
  valid ← mapping verify_failure (verify_signature (vr_key_id req) payload signed_payload);
  mret (json_ok (BValid valid (vr_key_id req) (vr_key_version req))).

Definition decode_verifying_key (kv : KeyVersion) : M Response (list byte) :=
  or_throw (hex_decode (public_key_hex kv))
    (err ("decode verifying key: " +:+ hex_error (public_key_hex kv))).

Definition get_verifying_key (auth : AuthContext) (id : string) : M Response Response :=
  meta ← lookup_readable_key_or_deny auth id;
  _ ← throw_if (negb (bool_decide (key_type meta = Signing)))
        (deny BAD_REQUEST ("key " +:+ id +:+ " is type " +:+ display_type (key_type meta) +:+ Hierarchy.dash
           +:+ "verifying-key only available for Signing keys"));
  kv ← or_throw (current_key_version meta) (err "no current key version");
  vk_bytes ← decode_verifying_key kv;
  mret (json_ok (BVerifyingKey id (version kv) (display_type (key_type meta)) (display_state (state meta))
                   (public_key_hex kv) (len vk_bytes))).

Definition issue_assertion (auth : AuthContext) (req : AssertionIssueReq) : M Response Response :=
  let key_id := ai_signing_key_id req in
  resolved_domain ← authorize_domain_access auth ReadKey (Some key_id);
  meta ← mapping (fun e => deny NOT_FOUND (display_error e)) (get key_id);
  _ ← throw_if (negb (bool_decide (key_type meta = Signing)))
        (deny BAD_REQUEST ("key " +:+ key_id +:+ " is type " +:+ display_type (key_type meta) +:+ Hierarchy.dash
           +:+ "assertion issue requires a Signing key"));
  t ← now;
  id_bytes ← fill_bytes 16;
  let unsigned := Assertion.build_unsigned (t `div` NANOS_PER_SEC) id_bytes key_id (current_version meta)
    (ai_public_claims req) (ai_ttl_secs req) (ai_sealed_claims_hex req) (ai_sealed_claims_key_id req)
    (ai_sealed_claims_key_version req) in
  signing_input ← lift (map_err (fun e => Fail (err ("AssertionError: " +:+ e))) (Assertion.canonical_signing_input unsigned));
  authz_ctx ← authorizing (fun s d => Enforcer.authorize_sign s d key_id resolved_domain signing_input)
                enforcer_denied;
  signed_payload ← mapping (fun e => deny FORBIDDEN ("SignError: " +:+ e)) (sign_authorized authz_ctx signing_input);
  mret (json_ok (BAssertion (Assertion.set_signature (signature_hex signed_payload) unsigned))).

(** [timestamp_opt] is that of [chrono]. *)
Definition verify_assertion (timestamp_opt : Z -> option Z) (auth : AuthContext) (req : AssertionVerifyReq) :
    M Response Response :=
  meta ← lookup_readable_key_or_deny auth (av_signing_key_id req);
  kv ← or_throw (current_key_version meta) (err "no current key version");
  vk_bytes ← decode_verifying_key kv;
  t ← now; t_i ← now; t_e ← now;
  match Assertion.verify timestamp_opt hex_error (t `div` NANOS_PER_SEC) t_i t_e vk_bytes (av_assertion req) with
  | Ok claims => mret (json_ok (BClaims claims))
  | Err e => mret (mkResponse UNPROCESSABLE_ENTITY (BInvalid ("AssertionError: " +:+ e)))
  end.

(** ** Global state *)

Definition global_only (auth : AuthContext) : M Response unit := lift (map_err Fail (require_global_admin auth)).

Definition get_status (auth : AuthContext) : M Response Response :=
  _ ← global_only auth;
  level ← current_threat_level;
  all ← as_err500 list_keys;
  score ← threat_score;
  mret (json_ok (BStatus {|
    st_threat_level := Threat.value level; st_threat_name := lname level; st_threat_color := Threat.color level;
    st_threat_score := score; st_total_keys := length all;
    st_active_keys := length (filter (fun k => state k = Active) all) |})).

Definition get_metrics (auth : AuthContext) : M Response Response :=
  _ ← global_only auth;
  m ← as_err500 security_metrics;
  mret (json_ok (BMetrics m)).

Definition history_entry (h : Z * Threat.ThreatLevel * string) : ThreatHistoryEntry :=
  {| th_timestamp := to_rfc3339 h.1.1; th_level := Threat.value h.1.2; th_level_name := lname h.1.2; th_reason := h.2 |}.

Definition get_threat (auth : AuthContext) : M Response Response :=
  _ ← global_only auth;
  level ← current_threat_level;
  score ← threat_score;
  h ← threat_history;
  mret (json_ok (BThreat score (Threat.value level) (lname level) (Threat.color level) (history_entry <$> h))).

Definition threat_done {E} (status : string) : M E Response :=
  level ← current_threat_level;
  score ← threat_score;
  mret (json_ok (BThreatDone status score (Threat.value level) (lname level))).

Definition post_threat_event (auth : AuthContext) (req : ThreatEventReq) : M Response Response :=
  _ ← global_only auth;
  kind ← or_throw (parse_threat_kind (ApiBase.te_kind req)) (err ("unknown threat kind: " +:+ ApiBase.te_kind req));
  _ ← record_threat_event (fun t =>
        let event := Threat.event_new t kind (te_severity req) in
        match ApiBase.te_detail req with Some d => Threat.with_detail event d | None => event end);
  threat_done "recorded".

Definition reset_threat (auth : AuthContext) : M Response Response :=
  _ ← global_only auth; _ ← reset_threat_state; threat_done "reset".

(** [d.as_secs() as f64 / 86400.0]. *)
Definition days (d : Z) : f64 := F64.div (F64.of_Z (as_secs d)) (F64.of_Z 86400).

Definition adaptation_response (s : Threat.AdaptationSummary) : PolicyAdaptationResponse := {|
  pa_policy_name := Threat.policy_name s; pa_threat_level := Threat.value (Threat.s_threat_level s);
  pa_base_rotation_age_days := days <$> Threat.base_rotation_age s;
  pa_effective_rotation_age_days := days <$> Threat.effective_rotation_age s;
  pa_base_grace_period_days := days (Threat.base_grace_period s);
  pa_effective_grace_period_days := days (Threat.effective_grace_period s);
  pa_base_max_lifetime_days := days <$> Threat.base_max_lifetime s;
  pa_effective_max_lifetime_days := days <$> Threat.effective_max_lifetime s;
  pa_base_usage_limit := Threat.base_usage_limit s; pa_effective_usage_limit := Threat.effective_usage_limit s;
  pa_auto_rotate_forced := Threat.auto_rotate_forced s;
|}.

Definition get_policies (auth : AuthContext) : M Response Response :=
  _ ← global_only auth;
  s1 ← policy_adaptation_summary "default-dek";
  s2 ← policy_adaptation_summary "default-kek";
  mret (json_ok (BPolicies (adaptation_response <$> omap (fun s => s) [s1; s2]))).

Definition expire_due (auth : AuthContext) : M Response Response :=
  _ ← global_only auth;
  report ← as_err500 expire_due_keys;
  mret (json_ok (BExpired (length (expired report)) (length (warnings report)) (skipped report))).
End routes.
End Api.
