(* ===== verification/ApiServer.v ===== *)
(** * The server ([citadel-api/src/main.rs]: middleware, routing, start-up)

    A request passes the rate limit, authentication and its handler; each
    request is one step, and so are the background tasks.  [None] for a response
    is a handler that panicked. *)

From S2P Require Import Prelude.
From S2P Require Import Text.
From S2P Require Import F64.
From S2P Require Import Types.
From S2P Require Import Enforcer.
From S2P Require Import Policy.
From S2P Require Import AuditLog.
From S2P Require Import Threat.
From S2P Require Import Signer.
From S2P Require Import RootKey.
From S2P Require Import KeystoreBase.
From S2P Require Import KeystoreWrap.
From S2P Require Import Keystore.
From S2P Require Import KeystoreCrypto.
From S2P Require Import KeystoreSign.
From S2P Require Import ApiBase.
From S2P Require Import ApiKeys.
From S2P Require Import ApiLimit.
From S2P Require Import Api.
Import Types.

Module ApiServer.
Import Keystore ApiBase Api.

Section server.
Context {PF : Platform} {J : Json} {SJ : ApiKeys.StoreJson} (timestamp_opt : Z -> option Z).

(** ** Routes: the handler a request is dispatched to, with its parsed input *)

Inductive Route :=
| RDashboard
| RHealth
| RStatus
| RMetrics
| RListKeys
| RGenerate (req : GenerateKeyReq)
| RGetKey (id : string)
| RActivate (id : string)
| RRotate (id : string)
| RRevoke (id : string) (req : RevokeReq)
| RDestroy (id : string)
| REncrypt (id : string) (req : EncryptReq)
| RDecrypt (body : option DecryptReq)
| RSign (id : string) (req : SignReq)
| RVerify (req : VerifyReq)
| RIssue (req : AssertionIssueReq)
| RVerifyAssertion (req : AssertionVerifyReq)
| RVerifyingKey (id : string)
| RThreat
| RThreatEvent (req : ThreatEventReq)
| RThreatReset
| RPolicies
| RExpire
| RListApiKeys
| RCreateApiKey (req : CreateApiKeyReq)
| RRevokeApiKey (id : string)
| RWhoami.

Definition key_path (id action : string) : string := "/api/keys/" +:+ id +:+ action.

(** The path as it was sent; [seg] is the text of the [:id] segment. *)
Definition path_of (seg : string) (r : Route) : string :=
  match r with
  | RDashboard => "/"
  | RHealth => "/health"
  | RStatus => "/api/status"
  | RMetrics => "/api/metrics"
  | RListKeys | RGenerate _ => "/api/keys"
  | RGetKey _ => key_path seg ""
  | RActivate _ => key_path seg "/activate"
  | RRotate _ => key_path seg "/rotate"
  | RRevoke _ _ => key_path seg "/revoke"
  | RDestroy _ => key_path seg "/destroy"
  | REncrypt _ _ => key_path seg "/encrypt"
  | RDecrypt _ => "/api/decrypt"
  | RSign _ _ => key_path seg "/sign"
  | RVerify _ => "/api/verify"
  | RIssue _ => "/api/assertions/issue"
  | RVerifyAssertion _ => "/api/assertions/verify"
  | RVerifyingKey _ => key_path seg "/verifying-key"
  | RThreat => "/api/threat"
  | RThreatEvent _ => "/api/threat/event"
  | RThreatReset => "/api/threat/reset"
  | RPolicies => "/api/policies"
  | RExpire => "/api/expire"
  | RListApiKeys | RCreateApiKey _ => "/api/auth/keys"
  | RRevokeApiKey _ => "/api/auth/keys/" +:+ seg
  | RWhoami => "/api/auth/whoami"
  end.
Definition method_of (r : Route) : string :=
  match r with
  | RGenerate _ | RActivate _ | RRotate _ | RRevoke _ _ | RDestroy _ | REncrypt _ _ | RDecrypt _ | RSign _ _ | RVerify _
  | RIssue _ | RVerifyAssertion _ | RThreatEvent _ | RThreatReset | RExpire | RCreateApiKey _ => "POST"
  | RRevokeApiKey _ => "DELETE"
  | _ => "GET"
  end.

(** ** The server's state *)

Record App := mkApp {
  ks : World;
  control : ApiKeys.Control;
  limiter : ApiLimit.RateLimiter;
  api_keys_path : string;
}.

(** What one request reads outside of the keystore: the clock of the limiter,
    the outcome of hashing a key ([None]: it panics), and what a new API key
    and the file of keys need. *)
Record Env := mkEnv {
  instant : Z;
  later : Z;
  hash_api_key : string -> option (list byte);
  minted : ApiKeys.Minted;
  saving : ApiKeys.SaveEnv;
  touching : ApiKeys.SaveEnv;
  touched_at : string;
}.

Record Request := mkRequest {
  remote : string;
  authorization : option string;
  segment : string;
  route : Route;
}.

Definition set_ks (w : World) (a : App) : App := mkApp w (control a) (limiter a) (api_keys_path a).
Definition set_control (c : ApiKeys.Control) (a : App) : App := mkApp (ks a) c (limiter a) (api_keys_path a).
Definition set_limiter (l : ApiLimit.RateLimiter) (a : App) : App := mkApp (ks a) (control a) l (api_keys_path a).

(** A handler of the keystore. *)
Definition run_handler (m : M Response Response) (a : App) : App * option Response :=
  let '(w, r) := m (ks a) in (set_ks w a, answer r).

(** A side effect of the middleware, which panics if the lock is poisoned. *)
Definition effect (m : M Response unit) (resp : Response) (a : App) : App * option Response :=
  run_handler (_ ← m; mret resp) a.

(** The routes whose handlers take no [AuthContext]; the others answer 500
    without one. *)
Definition unauthenticated (r : Route) : option Response :=
  match r with
  | RDashboard => Some (json_ok BHtml)
  | RHealth => Some (json_ok (BHealth "rustcrypto"))
  | _ => Some (err500 "Missing request extension")
  end.

Definition handle (e : Env) (auth : AuthContext) (r : Route) (a : App) : App * option Response :=
  match r with
  | RDashboard | RHealth => (a, unauthenticated r)
  | RStatus => run_handler (get_status auth) a
  | RMetrics => run_handler (get_metrics auth) a
  | RListKeys => run_handler (list_keys_handler auth) a
  | RGenerate req => run_handler (generate_key auth req) a
  | RGetKey id => run_handler (get_key auth id) a
  | RActivate id => run_handler (activate_key auth id) a
  | RRotate id => run_handler (rotate_key auth id) a
  | RRevoke id req => run_handler (revoke_key auth id req) a
  | RDestroy id => run_handler (destroy_key auth id) a
  | REncrypt id req => run_handler (encrypt_data auth id req) a
  | RDecrypt body => run_handler (decrypt_data auth body) a
  | RSign id req => run_handler (sign_data auth id req) a
  | RVerify req => run_handler (verify_signature_handler auth req) a
  | RIssue req => run_handler (issue_assertion auth req) a
  | RVerifyAssertion req => run_handler (verify_assertion timestamp_opt auth req) a
  | RVerifyingKey id => run_handler (get_verifying_key auth id) a
  | RThreat => run_handler (get_threat auth) a
  | RThreatEvent req => run_handler (post_threat_event auth req) a
  | RThreatReset => run_handler (reset_threat auth) a
  | RPolicies => run_handler (get_policies auth) a
  | RExpire => run_handler (expire_due auth) a
  | RListApiKeys => (a, Some (ApiKeys.list_api_keys auth (control a)))
  | RCreateApiKey req =>
      let '(c, resp) := ApiKeys.create_api_key (hash_api_key e) (minted e) (saving e) (api_keys_path a) auth req (control a) in
      (set_control c a, resp)
  | RRevokeApiKey id =>
      let '(c, resp) := ApiKeys.revoke_api_key (saving e) (api_keys_path a) auth id (control a) in
      (set_control c a, Some resp)
  | RWhoami => (a, Some (ApiKeys.whoami auth))
  end.

(** ** Middleware *)

Definition auth_failure (ip : string) : M Response unit :=
  _ ← record_threat_event (fun t => Threat.with_detail (Threat.event_new t Threat.AuthFailure (F64.lit 5 10))
                                      ("invalid API key from " +:+ ip));
  record_audit_event (Audit.AuthFailed ("invalid API key from " +:+ ip) None).

(** The keys are checked before the header is read. The last use is recorded in
    a task of its own, which runs before the handler here. *)
Definition auth_middleware (e : Env) (q : Request) (a : App) : App * option Response :=
  match required_scope (path_of (segment q) (route q)) (method_of (route q)) with
  | None => (a, unauthenticated (route q))
  | Some required =>
      if bool_decide (ApiKeys.keys (control a) = []) then
        (a, Some (deny SERVICE_UNAVAILABLE ("Server is not configured: no API keys are registered. " +:+
                                            "Set CITADEL_API_KEY_HASH and restart.")))
      else match authorization q ≫= (fun v => strip_prefix v "Bearer ") with
      | None => (a, Some (deny UNAUTHORIZED "missing Authorization header (use: Bearer <api-key>)"))
      | Some provided =>
          match hash_api_key e provided with
          | None => (a, None)
          | Some provided_hash =>
              match ApiKeys.authenticate provided_hash (ApiKeys.keys (control a)) with
              | None => effect (auth_failure (remote q)) (deny UNAUTHORIZED "authentication failed") a
              | Some entry =>
                  let '(l, ok) := ApiLimit.check (later e) (remote q) (Some (ApiKeys.id entry)) (limiter a) in
                  let a := set_limiter l a in
                  if negb ok then
                    (a, Some (deny TOO_MANY_REQUESTS "rate limit exceeded for this API key or system capacity reached"))
                  else if negb (has_scope (ApiKeys.en_scopes entry) required) then
                    (a, Some (deny FORBIDDEN ("insufficient scope: requires '" +:+ as_str required +:+ "' permission")))
                  else
                    let ctx := mkAuth (ApiKeys.id entry) (ApiKeys.name entry) (ApiKeys.en_scopes entry)
                                 (ApiKeys.en_allowed_domains entry) in
                    let c := ApiKeys.touch_and_save (touching e) (api_keys_path a) (touched_at e) (ApiKeys.id entry) (control a) in
                    handle e ctx (route q) (set_control c a)
              end
          end
      end
  end.

Definition limit_exceeded (ip : string) : M Response unit :=
  record_threat_event (fun t => Threat.with_detail (Threat.event_new t Threat.RapidAccessPattern (F64.lit 3 10))
                                  ("rate limit exceeded: " +:+ ip)).

Definition rate_limit_middleware (e : Env) (q : Request) (a : App) : App * option Response :=
  if bool_decide (path_of (segment q) (route q) = "/health"%string) then auth_middleware e q a
  else
    let '(l, ok) := ApiLimit.check (instant e) (remote q) None (limiter a) in
    let a := set_limiter l a in
    if negb ok then effect (limit_exceeded (remote q)) (deny TOO_MANY_REQUESTS "rate limit exceeded") a
    else auth_middleware e q a.

(** ** Steps *)

Inductive Step :=
| Serve (e : Env) (q : Request)
(** the background task: cleaning the limiter, and expiring keys *)
| Tick (now : Z).

Definition step (s : Step) (a : App) : App * option Response :=
  match s with
  | Serve e q => rate_limit_middleware e q a
  | Tick t =>
      (set_ks (expire_due_keys (ks a)).1 (set_limiter (ApiLimit.cleanup t (limiter a)) a), None)
  end.

Fixpoint steps (l : list Step) (a : App) : App :=
  match l with [] => a | s :: l => steps l (step s a).1 end.
End server.
End ApiServer.
