(* ===== verification/KeystoreFrame.v ===== *)
(** * What the keystore's helpers leave alone

    [Keeps R m]: running [m] relates the world before to the world after by
    [R].  The instances follow the structure of a method, so that type class
    search proves the frame of the read-only helpers; [wp_calm] then steps over
    them. *)

From S2P Require Import Prelude.
From S2P Require Import Wire.
From S2P Require Import WireV2.
From S2P Require Import Crypto.
From S2P Require Import Envelope.
From S2P Require Import Enforcer.
From S2P Require Import F64.
From S2P Require Import Types.
From S2P Require Import Hierarchy.
From S2P Require Import Policy.
From S2P Require Import AuditLog.
From S2P Require Import Threat.
From S2P Require Import Storage.
From S2P Require Import Replay.
From S2P Require Import KeystoreBase.
From S2P Require Import KeystoreWrap.
From S2P Require Import Keystore.
From S2P Require Import KeystoreCrypto.
From S2P Require Import KeystoreSign.
From S2P Require Import Migration.
Import Types.

Class Keeps {PF : Platform} (R : World -> World -> Prop) {E A} (m : M E A) : Prop :=
  keeps w : R w (m w).1.

(** The search goes by the names of the methods, without unfolding them. *)
#[export] Hint Opaque lift throw panic asks modify or_throw throw_if mapping attempt on_error tick now
  fill_bytes st_query st_update storage_get storage_put storage_list storage_list_by_state
  storage_list_by_parent overwrite_key_file record record_key record_system with_threat replay_claim
  replay_release : typeclass_instances.
#[export] Hint Opaque Wrap.generate_keypair Wrap.seal Wrap.open Wrap.decode_hex
  Wrap.wrap_with_master_key Wrap.wrap_with_citadel_key Wrap.wrap_secret_key_for Wrap.unwrap_encrypted
  Wrap.find_parent Wrap.open_wrapped Wrap.unwrap_key_version_inner Wrap.unwrap_key_version
  Wrap.unwrap_key_version_for_rewrap Wrap.extract_wrap_nonce : typeclass_instances.
#[export] Hint Opaque Keystore.current_threat_level Keystore.effective_policy_for
  Keystore.grace_period_for Keystore.max_lifetime_for Keystore.evaluate_now
  Keystore.record_threat_event Keystore.get Keystore.resolve_from Keystore.resolve_domain_for_key
  Keystore.check_hierarchy Keystore.require_master_key Keystore.transition Keystore.check_expiration
  Keystore.expire KsCrypto.enforce_policy KsCrypto.check_cryptoperiod KsCrypto.opaque
  KsCrypto.cache_key_of KsCrypto.give_back KsCrypto.claim_slot KsCrypto.open_claimed KsCrypto.encrypt
  KsCrypto.decrypt KsCrypto.validate_authz KsCrypto.enforce_authorized_domain : typeclass_instances.
#[export] Hint Opaque Migration.cmd_hierarchy Migration.create_one Migration.rewrap_one Migration.list_or_default : typeclass_instances.
#[export] Hint Opaque KsSign.signing_keypair KsSign.check_signing_parent KsSign.signing_denied KsSign.sign
  KsSign.verify_signature : typeclass_instances.

Section combinators.
Context {PF : Platform} (R : World -> World -> Prop) {PO : PreOrder R}.

#[export] Instance keeps_ret {E A} (a : A) : Keeps (E := E) R (mret a).
Proof. intros w. reflexivity. Qed.
#[export] Instance keeps_lift {E A} (r : result (fault E) A) : Keeps R (lift r).
Proof. intros w. reflexivity. Qed.
#[export] Instance keeps_throw {E A} (e : E) : Keeps (A := A) R (throw e).
Proof. intros w. reflexivity. Qed.
#[export] Instance keeps_asks {E A} (f : World -> A) : Keeps (E := E) R (asks f).
Proof. intros w. reflexivity. Qed.
#[export] Instance keeps_or_throw {E A} (o : option A) (e : E) : Keeps R (or_throw o e).
Proof. intros w. destruct o; reflexivity. Qed.
#[export] Instance keeps_throw_if {E} b (e : E) : Keeps R (throw_if b e).
Proof. intros w. destruct b; reflexivity. Qed.
#[export] Instance keeps_bind {E A B} (m : M E A) (f : A -> M E B) :
  Keeps R m -> (forall a, Keeps R (f a)) -> Keeps R (m ≫= f).
Proof.
  intros Hm Hf w. specialize (Hm w). unfold mbind, M_bind. destruct (m w) as [w' [a|e]]; cbn in *.
  - etransitivity; [exact Hm|apply Hf].
  - exact Hm.
Qed.
#[export] Instance keeps_mapping {E F A} (f : E -> F) (m : M E A) : Keeps R m -> Keeps R (mapping f m).
Proof. intros Hm w. specialize (Hm w). unfold mapping. by destruct (m w) as [w' [a|[e|]]]. Qed.
#[export] Instance keeps_attempt {E F A} (m : M E A) : Keeps R m -> Keeps (E := F) R (attempt m).
Proof. intros Hm w. specialize (Hm w). unfold attempt. by destruct (m w) as [w' [a|[e|]]]. Qed.
#[export] Instance keeps_on_error {E F A} (m : M E A) (h : E -> M F A) :
  Keeps R m -> (forall e, Keeps R (h e)) -> Keeps R (on_error m h).
Proof.
  intros Hm Hh w. specialize (Hm w). unfold on_error. destruct (m w) as [w' [a|[e|]]]; cbn in *.
  - exact Hm.
  - etransitivity; [exact Hm|apply Hh].
  - exact Hm.
Qed.

Lemma keeps_weaken (R' : World -> World -> Prop) {E A} (m : M E A) :
  (forall a b, R' a b -> R a b) -> Keeps R' m -> Keeps R m.
Proof. intros H Hm w. apply H, Hm. Qed.

Lemma wp_keeps {E A} (m : M E A) (Q : result (fault E) A -> World -> Prop) w :
  Keeps R m -> (forall r w', R w w' -> Q r w') -> wp m Q w.
Proof. intros Hm HQ. unfold wp. apply HQ, Hm. Qed.
End combinators.

(** Case analyses inside a method. *)
#[export] Hint Extern 5 (Keeps _ (if ?b then _ else _)) => destruct b : typeclass_instances.
#[export] Hint Extern 5 (Keeps _ (match ?x with _ => _ end)) => destruct x : typeclass_instances.
#[export] Hint Extern 8 (Keeps _ (let _ := _ in _)) => cbv zeta : typeclass_instances.

(** The same by structure alone, for long methods. *)
Ltac keeps_walk :=
  cbv beta zeta;
  lazymatch goal with
  | |- Keeps _ (_ ≫= _) => apply keeps_bind; [apply _|keeps_walk|intros ?; keeps_walk]
  | |- Keeps _ (on_error _ _) => apply keeps_on_error; [apply _|keeps_walk|intros ?; keeps_walk]
  | |- Keeps _ (mapping _ _) => apply keeps_mapping; keeps_walk
  | |- Keeps _ (attempt _) => apply keeps_attempt; keeps_walk
  | |- Keeps _ (if ?b then _ else _) => destruct b; keeps_walk
  | |- Keeps _ (match ?x with _ => _ end) => destruct x; keeps_walk
  | |- _ => apply _
  end.

(** Everything but the audit trail, the threat state and the position on the
    tape is unchanged. *)
Record calm {PF : Platform} (w w' : World) : Prop := mkCalm {
  calm_store : store w' = store w;
  calm_replay : replay w' = replay w;
  calm_enforcer : enforcer w' = enforcer w;
  calm_policies : policies w' = policies w;
  calm_master : master_key w' = master_key w;
  calm_env : env_var w' = env_var w;
  calm_tape : tape w' = tape w;
  calm_pos : (pos w <= pos w')%nat;
}.

Section calm.
Context {PF : Platform}.

#[export] Instance calm_preorder : PreOrder calm.
Proof.
  split.
  - intros w. by split.
  - intros w1 w2 w3 [] []. split; etrans; eauto.
Qed.

Lemma calm_view w w' : calm w w' -> view w' = view w.
Proof. intros []. unfold view. congruence. Qed.

#[export] Instance calm_tick {E} : Keeps (E := E) calm tick.
Proof. intros w. split; cbn; auto. Qed.
#[export] Instance calm_record {E} e : Keeps (E := E) calm (record e).
Proof. intros w. split; cbn; auto. Qed.
#[export] Instance calm_query {A} f : Keeps (A := A) calm (st_query f).
Proof. intros w. split; cbn; auto. Qed.
#[export] Instance calm_with_threat {E A} f : Keeps (E := E) (A := A) calm (with_threat f).
Proof.
  intros w. unfold with_threat. destruct (threat w) as [a|]; [|reflexivity].
  destruct (f a) as [[[? ?] ?]|]; split; cbn; auto.
Qed.

#[export] Instance calm_now {E} : Keeps (E := E) calm now.
Proof. unfold now. apply _. Qed.
#[export] Instance calm_fill_bytes {E} n : Keeps (E := E) calm (fill_bytes n).
Proof. unfold fill_bytes. apply _. Qed.
#[export] Instance calm_record_key {E} k t s a : Keeps (E := E) calm (record_key k t s a).
Proof. unfold record_key. apply _. Qed.
#[export] Instance calm_record_system {E} a : Keeps (E := E) calm (record_system a).
Proof. unfold record_system. apply _. Qed.
#[export] Instance calm_get_storage k : Keeps calm (storage_get k).
Proof. unfold storage_get. apply _. Qed.
#[export] Instance calm_list : Keeps calm storage_list.
Proof. unfold storage_list. apply _. Qed.
#[export] Instance calm_list_state s : Keeps calm (storage_list_by_state s).
Proof. unfold storage_list_by_state. apply _. Qed.
#[export] Instance calm_list_parent p : Keeps calm (storage_list_by_parent p).
Proof. unfold storage_list_by_parent. apply _. Qed.

#[export] Instance calm_get k : Keeps calm (Keystore.get k).
Proof. unfold Keystore.get. apply _. Qed.
#[export] Instance calm_level {E} : Keeps (E := E) calm Keystore.current_threat_level.
Proof. unfold Keystore.current_threat_level. apply _. Qed.
#[export] Instance calm_effective {E} m : Keeps (E := E) calm (Keystore.effective_policy_for m).
Proof. unfold Keystore.effective_policy_for. apply _. Qed.
#[export] Instance calm_grace {E} m : Keeps (E := E) calm (Keystore.grace_period_for m).
Proof. unfold Keystore.grace_period_for. apply _. Qed.
#[export] Instance calm_lifetime {E} m : Keeps (E := E) calm (Keystore.max_lifetime_for m).
Proof. unfold Keystore.max_lifetime_for. apply _. Qed.
#[export] Instance calm_evaluate {E} p m : Keeps (E := E) calm (Keystore.evaluate_now p m).
Proof. unfold Keystore.evaluate_now. apply _. Qed.
#[export] Instance calm_threat_event {E} e : Keeps (E := E) calm (Keystore.record_threat_event e).
Proof. unfold Keystore.record_threat_event. apply _. Qed.
#[export] Instance calm_threat_events {E} e : Keeps (E := E) calm (Keystore.record_threat_events e).
Proof. unfold Keystore.record_threat_events. apply _. Qed.
#[export] Instance calm_reset {E} : Keeps (E := E) calm Keystore.reset_threat_state.
Proof. unfold Keystore.reset_threat_state. apply _. Qed.
#[export] Instance calm_require_master : Keeps calm Keystore.require_master_key.
Proof. unfold Keystore.require_master_key. apply _. Qed.
#[export] Instance calm_check_hierarchy t p : Keeps calm (Keystore.check_hierarchy t p).
Proof. unfold Keystore.check_hierarchy. apply _. Qed.
#[export] Instance calm_check_expiration {E} m : Keeps (E := E) calm (Keystore.check_expiration m).
Proof. unfold Keystore.check_expiration. apply _. Qed.
#[export] Instance calm_transition m s : Keeps calm (Keystore.transition m s).
Proof. unfold Keystore.transition. apply _. Qed.

#[export] Instance calm_resolve_from n d k c : Keeps calm (Keystore.resolve_from n d k c).
Proof.
  revert d c. induction n as [|n IH]; intros d c; cbn [Keystore.resolve_from]; apply _.
Qed.
#[export] Instance calm_resolve k : Keeps calm (Keystore.resolve_domain_for_key k).
Proof. apply calm_resolve_from. Qed.

#[export] Instance calm_keypair {E} : Keeps (E := E) calm Wrap.generate_keypair.
Proof. unfold Wrap.generate_keypair. apply _. Qed.
#[export] Instance calm_seal pk p a c : Keeps calm (Wrap.seal pk p a c).
Proof. unfold Wrap.seal. apply _. Qed.
#[export] Instance calm_open sk p a c : Keeps calm (Wrap.open sk p a c).
Proof. unfold Wrap.open. apply _. Qed.
#[export] Instance calm_decode_hex s : Keeps calm (Wrap.decode_hex s).
Proof. unfold Wrap.decode_hex. apply _. Qed.
#[export] Instance calm_wrap_master k v s : Keeps calm (Wrap.wrap_with_master_key k v s).
Proof. unfold Wrap.wrap_with_master_key. apply _. Qed.
#[export] Instance calm_wrap_citadel k v p n h s : Keeps calm (Wrap.wrap_with_citadel_key k v p n h s).
Proof. unfold Wrap.wrap_with_citadel_key. apply _. Qed.
#[export] Instance calm_wrap k v p s : Keeps calm (Wrap.wrap_secret_key_for k v p s).
Proof. unfold Wrap.wrap_secret_key_for. apply _. Qed.
#[export] Instance calm_unwrap_enc k v s : Keeps calm (Wrap.unwrap_encrypted k v s).
Proof. unfold Wrap.unwrap_encrypted. apply _. Qed.
#[export] Instance calm_find_parent k v s : Keeps calm (Wrap.find_parent k v s).
Proof. unfold Wrap.find_parent. apply _. Qed.
#[export] Instance calm_open_wrapped k v c p s : Keeps calm (Wrap.open_wrapped k v c p s).
Proof. unfold Wrap.open_wrapped. apply _. Qed.
#[export] Instance calm_unwrap_inner n k v b : Keeps calm (Wrap.unwrap_key_version_inner n k v b).
Proof.
  revert k v. induction n as [|n IH]; intros k v; cbn [Wrap.unwrap_key_version_inner]; apply _.
Qed.
#[export] Instance calm_unwrap k v d : Keeps calm (Wrap.unwrap_key_version k v d).
Proof. apply calm_unwrap_inner. Qed.
#[export] Instance calm_unwrap_rewrap k v : Keeps calm (Wrap.unwrap_key_version_for_rewrap k v).
Proof. apply calm_unwrap_inner. Qed.
#[export] Instance calm_wrap_nonce {E} m : Keeps (E := E) calm (Wrap.extract_wrap_nonce m).
Proof. unfold Wrap.extract_wrap_nonce. apply _. Qed.

#[export] Instance calm_enforce_policy k m : Keeps calm (KsCrypto.enforce_policy k m).
Proof. unfold KsCrypto.enforce_policy, KsCrypto.blocked. apply _. Qed.
#[export] Instance calm_cryptoperiod k m : Keeps calm (KsCrypto.check_cryptoperiod k m).
Proof. unfold KsCrypto.check_cryptoperiod. apply _. Qed.
#[export] Instance calm_cache_key d b c : Keeps calm (KsCrypto.cache_key_of d b c).
Proof. unfold KsCrypto.cache_key_of, KsCrypto.opaque. apply _. Qed.
#[export] Instance calm_authorized_domain d k : Keeps calm (KsCrypto.enforce_authorized_domain d k).
Proof. unfold KsCrypto.enforce_authorized_domain. apply _. Qed.
#[export] Instance calm_opaque {E A} (m : M E A) : Keeps calm m -> Keeps calm (KsCrypto.opaque m).
Proof. unfold KsCrypto.opaque. apply _. Qed.

#[export] Instance calm_signing_keypair : Keeps calm KsSign.signing_keypair.
Proof. unfold KsSign.signing_keypair. apply _. Qed.
#[export] Instance calm_signing_parent p : Keeps calm (KsSign.check_signing_parent p).
Proof. unfold KsSign.check_signing_parent. apply _. Qed.
#[export] Instance calm_signing_denied {A} k m n r : Keeps calm (KsSign.signing_denied (A := A) k m n r).
Proof. unfold KsSign.signing_denied. apply _. Qed.
#[export] Instance calm_sign k m : Keeps calm (KsSign.sign k m).
Proof. unfold KsSign.sign. keeps_walk. Qed.
#[export] Instance calm_verify k m p : Keeps calm (KsSign.verify_signature k m p).
Proof. unfold KsSign.verify_signature. keeps_walk. Qed.

Lemma wp_calm {E A} (m : M E A) {K : Keeps calm m} (Q : result (fault E) A -> World -> Prop) w :
  (forall r w', calm w w' -> m w = (w', r) -> Q r w') -> wp m Q w.
Proof. intros HQ. unfold wp. specialize (K w). destruct (m w) as [w' r]. by apply HQ. Qed.
End calm.

(** A migration relates its worlds by whatever the three operations it is made
    of do. *)
Section migration.
Context {PF : Platform} (R : World -> World -> Prop) {PO : PreOrder R}.
Context (Hcalm : forall w w', calm w w' -> R w w').
Context {Hgen : forall n t p par, Keeps R (Keystore.generate n t p par)}.
Context {Hact : forall k, Keeps R (Keystore.activate k)}.
Context {Hrew : forall k p, Keeps R (Keystore.rewrap k p)}.

#[local] Instance keeps_list_or_default {E} : Keeps (E := E) R Migration.list_or_default.
Proof using Hcalm. apply (keeps_weaken R calm); [exact Hcalm|]. unfold Migration.list_or_default. apply _. Qed.
#[local] Instance keeps_create_one {E} s st : Keeps (E := E) R (Migration.create_one s st).
Proof using PO Hgen Hact. unfold Migration.create_one. keeps_walk. Qed.
#[local] Instance keeps_create_all {E} ss st : Keeps (E := E) R (Migration.create_all ss st).
Proof using PO Hgen Hact. revert st. induction ss as [|s ss IH]; intros st; cbn [Migration.create_all]; apply _. Qed.
#[local] Instance keeps_rewrap_one {E} k s n : Keeps (E := E) R (Migration.rewrap_one k s n).
Proof using PO Hrew. unfold Migration.rewrap_one. keeps_walk. Qed.
#[local] Instance keeps_rewrap_all {E} k ss n : Keeps (E := E) R (Migration.rewrap_all k ss n).
Proof using PO Hrew. revert n. induction ss as [|s ss IH]; intros n; cbn [Migration.rewrap_all]; apply _. Qed.

Lemma keeps_migration {E} op dry ex r d k : Keeps (E := E) R (Migration.cmd_hierarchy op dry ex r d k).
Proof using PO Hcalm Hgen Hact Hrew.
  assert (Hn : Keeps (E := E) R now) by (apply (keeps_weaken R calm); [exact Hcalm|apply _]).
  unfold Migration.cmd_hierarchy, Migration.execute_plan. keeps_walk.
Qed.
End migration.
