(* ===== verification/KeystoreLaws.v ===== *)
(** * The key lifecycle, over whole runs of the keystore

    A key's record only ever evolves: its identity is fixed, its state follows
    the transition table, its versions accumulate, and destruction purges them.
    The relation is proved method by method and then for every sequence of
    commands. *)

From S2P Require Import Prelude.
From S2P Require Import Wire.
From S2P Require Import WireV2.
From S2P Require Import Crypto.
From S2P Require Import Envelope.
From S2P Require Import Enforcer.
From S2P Require Import F64.
From S2P Require Import Types.
From S2P Require Import Hierarchy.
From S2P Require Import Policy.
From S2P Require Import AuditLog.
From S2P Require Import Threat.
From S2P Require Import Storage.
From S2P Require Import Replay.
From S2P Require Import KeystoreBase.
From S2P Require Import KeystoreWrap.
From S2P Require Import Keystore.
From S2P Require Import KeystoreCrypto.
From S2P Require Import KeystoreSign.
From S2P Require Import KeystoreFrame.
Import Types.

Module KsLaws.
Import Wrap Keystore KsCrypto KsSign.

(** ** Evolution of one record *)

(** A version keeps its number and creation time; its public key only goes when
    it is destroyed, together with the secret. *)
Record same_version (v v' : KeyVersion) : Prop := {
  sv_number : version v' = version v;
  sv_created : kv_created_at v' = kv_created_at v;
  sv_public : public_key_hex v' = public_key_hex v \/
              public_key_hex v' = "DESTROYED"%string /\ secret_key_material v' = Purged;
  sv_purged : secret_key_material v = Purged -> secret_key_material v' = Purged;
}.

Record evolves (m m' : KeyMetadata) : Prop := {
  ev_id : id m' = id m;
  ev_name : name m' = name m;
  ev_type : key_type m' = key_type m;
  ev_policy : policy_id m' = policy_id m;
  ev_parent : parent_id m' = parent_id m;
  ev_created : created_at m' = created_at m;
  ev_tags : tags m' = tags m;
  ev_state : reaches (state m) (state m');
  ev_rotated : state m' = Rotated -> state m = Rotated;
  ev_versions : exists vs new, versions m' = vs ++ new /\ Forall2 same_version (versions m) vs;
}.

#[local] Instance same_version_preorder : PreOrder same_version.
Proof.
  split.
  - intros v. split; auto.
  - intros v1 v2 v3 [] []. split; try congruence; [|tauto]. naive_solver congruence.
Qed.

Lemma reaches_trans s t u : reaches s t -> reaches t u -> reaches s u.
Proof. induction 1; [done|]. intros. econstructor; eauto. Qed.
Lemma reaches_one s t : can_transition_to s t = true -> reaches s t.
Proof. intros. by apply reaches_step with t; [|apply reaches_refl]. Qed.

#[global] Instance evolves_preorder : PreOrder evolves.
Proof.
  split.
  - intros m. split; try done; [constructor|].
    exists (versions m), []. split; [by rewrite app_nil_r|]. reflexivity.
  - intros m1 m2 m3 H1 H2. destruct H1, H2. split; try congruence; [by eapply reaches_trans|auto|].
    destruct ev_versions0 as (vs1 & n1 & E1 & F1), ev_versions1 as (vs2 & n2 & E2 & F2).
    rewrite E1 in F2. apply Forall2_app_inv_l in F2 as (vs2' & n2' & F2 & F2' & ->).
    exists vs2', (n2' ++ n2). split; [by rewrite E2, <- (assoc_L (++))|]. by etransitivity.
Qed.

(** ** The invariant of a stored record *)

(** The versions carry the numbers 1, 2, .. (as [u32]), the last is current,
    and a destroyed key has no material left. *)
Record wf_key (k : string) (m : KeyMetadata) : Prop := {
  wf_id : id m = k;
  wf_plain : plain_id k = true;
  wf_numbers : version <$> versions m =
    (fun i => Z.of_nat i mod 2 ^ 32) <$> seq 1 (length (versions m));
  wf_current : current_version m = Z.of_nat (length (versions m)) mod 2 ^ 32;
  wf_some : versions m <> [];
  wf_purged : state m = Destroyed ->
    Forall (fun v => secret_key_material v = Purged /\ public_key_hex v = "DESTROYED"%string) (versions m);
}.

Definition wf_view (v : gmap string KeyMetadata) : Prop := map_Forall wf_key v.

(** [b] can replace [a] in the store. *)
Definition updates (a b : KeyMetadata) : Prop := evolves a b /\ forall k, wf_key k a -> wf_key k b.

#[local] Instance updates_preorder : PreOrder updates.
Proof.
  split; [by split|]. intros a b c [? Hk] [? Hk']. split; [by etransitivity|]. intros k Ha. by apply Hk', Hk.
Qed.

Definition same_but_state (m m' : KeyMetadata) : Prop :=
  id m' = id m /\ name m' = name m /\ key_type m' = key_type m /\ policy_id m' = policy_id m /\
  parent_id m' = parent_id m /\ created_at m' = created_at m /\ tags m' = tags m /\
  versions m' = versions m /\ current_version m' = current_version m.

Lemma updates_state m m' :
  same_but_state m m' -> reaches (state m) (state m') -> state m' <> Destroyed \/ state m = Destroyed ->
  (state m' = Rotated -> state m = Rotated) -> updates m m'.
Proof.
  intros (E1 & E2 & E3 & E4 & E5 & E6 & E7 & E8 & E9) Hr Hd Hrot. split.
  - split; try done. exists (versions m), []. split; [by rewrite E8, app_nil_r|reflexivity].
  - intros k [W1 W0 W2 W3 W4 W5]. split.
    + congruence.
    + done.
    + by rewrite E8.
    + by rewrite E8, E9.
    + by rewrite E8.
    + intros Hs. rewrite E8. apply W5. destruct Hd; congruence.
Qed.

Lemma update_first_spec {A} p (f : A -> A) l l' x :
  update_first p f l = Some l' -> List.find p l = Some x ->
  exists l1 l2, l = l1 ++ x :: l2 /\ l' = l1 ++ f x :: l2 /\ p x = true /\
    Forall (fun y => p y = false) l1.
Proof.
  revert l'. induction l as [|y l IH]; intros l'; cbn; [done|]. destruct (p y) eqn:Ep.
  - intros [= <-] [= ->]. by exists [], l.
  - destruct (update_first p f l) as [l0|]; [|done]. intros [= <-] Hx.
    destruct (IH l0) as (l1 & l2 & -> & -> & Hp & Hl); [done..|]. exists (y :: l1), l2.
    split_and!; try done. by constructor.
Qed.

(** New versions appended, with the next number. *)
Lemma updates_append m m' v :
  id m' = id m -> name m' = name m -> key_type m' = key_type m -> policy_id m' = policy_id m ->
  parent_id m' = parent_id m -> created_at m' = created_at m -> tags m' = tags m ->
  state m = Active -> state m' = Active ->
  versions m' = versions m ++ [v] -> version v = wrapping_add 32 (current_version m) 1 ->
  current_version m' = version v -> updates m m'.
Proof.
  intros E1 E2 E3 E4 E5 E6 E7 Hs Hs' Ev En Ec. split.
  - split; try done; [by rewrite Hs, Hs'; constructor|by rewrite Hs'|].
    exists (versions m), [v]. split; [done|reflexivity].
  - intros k [W1 W0 W2 W3 W4 W5].
    assert (Hv : version v = Z.of_nat (S (length (versions m))) mod 2 ^ 32).
    { rewrite En, W3. unfold wrapping_add. rewrite Zplus_mod_idemp_l. f_equal. lia. }
    split.
    + congruence.
    + done.
    + rewrite Ev, fmap_app, length_app, seq_app, fmap_app, W2. cbn [length]. f_equal.
      rewrite list_fmap_singleton, Hv. do 2 f_equal. 
    + rewrite Ec, Hv, Ev, length_app. cbn [length]. f_equal. lia.
    + rewrite Ev. by destruct (versions m).
    + rewrite Hs'. done.
Qed.

(** Versions changed in place. *)
Lemma updates_versions m m' vs :
  id m' = id m -> name m' = name m -> key_type m' = key_type m -> policy_id m' = policy_id m ->
  parent_id m' = parent_id m -> created_at m' = created_at m -> tags m' = tags m ->
  reaches (state m) (state m') -> (state m' = Rotated -> state m = Rotated) ->
  current_version m' = current_version m ->
  versions m' = vs -> Forall2 same_version (versions m) vs ->
  (state m' = Destroyed -> Forall (fun v => secret_key_material v = Purged /\
                              public_key_hex v = "DESTROYED"%string) (versions m) ->
     Forall (fun v => secret_key_material v = Purged /\ public_key_hex v = "DESTROYED"%string) vs) ->
  (state m' = Destroyed -> state m = Destroyed \/
     Forall (fun v => secret_key_material v = Purged /\ public_key_hex v = "DESTROYED"%string) vs) ->
  updates m m'.
Proof.
  intros E1 E2 E3 E4 E5 E6 E7 Hr Hrot Ec Ev F Hd1 Hd2. split.
  - split; try done. exists vs, []. by rewrite app_nil_r.
  - intros k [W1 W0 W2 W3 W4 W5]. pose proof (Forall2_length _ _ _ F) as Hl.
    assert (Hn : version <$> vs = version <$> versions m).
    { clear -F. induction F as [|v v' l l' Hv _ IH]; [done|]. cbn. by rewrite (sv_number _ _ Hv), IH. }
    split.
    + congruence.
    + done.
    + by rewrite Ev, Hn, W2, Hl.
    + by rewrite Ec, W3, Ev, Hl.
    + rewrite Ev. intros ->. by destruct (versions m).
    + intros Hs. rewrite Ev. destruct (Hd2 Hs) as [Hs0|]; [|done]. auto.
Qed.

(** ** Evolution of the store *)

Section legal.
Context {PF : Platform} {PL : PlatformLaws PF}.

(** The identifier that would be generated from position [i] of the tape. *)
Definition name_at (w : World) (i : nat) : string := hex_encode (rd_bytes (tape w i) 0 16).

(** Every key of the later world either evolved from the key of that name, or
    was generated in between. *)
Definition keys_from (w w' : World) : Prop := forall k m',
  view w' !! k = Some m' ->
  (exists m, view w !! k = Some m /\ evolves m m') \/
  (exists i, (pos w <= i < pos w')%nat /\ k = name_at w i).

Record legal (w w' : World) : Prop := {
  lg_tape : tape w' = tape w;
  lg_pos : (pos w <= pos w')%nat;
  lg_env : env_var w' = env_var w;
  lg_master : master_key w' = master_key w;
  lg_keys : wf_view (view w) -> wf_view (view w') /\ keys_from w w';
}.

#[global] Instance legal_preorder : PreOrder legal.
Proof.
  split.
  - intros w. split; auto. intros Hwf. split; [done|]. intros k m Hm. left. by exists m.
  - intros w1 w2 w3 [T1 P1 E1 M1 K1] [T2 P2 E2 M2 K2]. split; [congruence|lia|congruence..|].
    intros H1. destruct (K1 H1) as [H2 F1], (K2 H2) as [H3 F2]. split; [done|].
    intros k m3 Hm3. destruct (F2 k m3 Hm3) as [(m2 & Hm2 & Ev2)|(i & Hi & ->)].
    + destruct (F1 k m2 Hm2) as [(m1 & Hm1 & Ev1)|(i & Hi & ->)].
      * left. exists m1. split; [done|by etransitivity].
      * right. exists i. split; [lia|done].
    + right. exists i. split; [lia|]. unfold name_at. by rewrite T1.
Qed.

Lemma calm_legal w w' : calm w w' -> legal w w'.
Proof.
  intros Hc. pose proof (calm_view _ _ Hc) as Hv. destruct Hc. split; auto.
  intros Hwf. unfold keys_from. rewrite Hv. split; [done|]. intros k m Hm. left. by exists m.
Qed.

Lemma legal_put k m m' w s :
  view w !! k = Some m -> updates m m' -> st_view s = <[ id m' := m' ]> (view w) ->
  legal w (set_store s (advance w)).
Proof.
  intros Hm [Hev Hup] Hs. split; cbn; auto. intros Hwf. unfold keys_from, view in *; cbn. rewrite Hs.
  pose proof (Hwf k m Hm) as Hk. pose proof (wf_id _ _ (Hup k Hk)) as ->. split.
  - apply map_Forall_insert_2; [by apply Hup|done].
  - intros k' m0. destruct (decide (k = k')) as [<-|Hn].
    + rewrite lookup_insert_eq. intros [= <-]. left. by exists m.
    + rewrite lookup_insert_ne by done. intros Hm0. left. by exists m0.
Qed.

Lemma legal_unchanged w s : st_view s = view w -> legal w (set_store s (advance w)).
Proof.
  intros Hs. split; cbn; auto. intros Hwf. unfold keys_from, view in *; cbn. rewrite Hs.
  split; [done|]. intros k m Hm. left. by exists m.
Qed.

Lemma legal_delete w s k : st_view s = delete k (view w) -> legal w (set_store s (advance w)).
Proof.
  intros Hs. split; cbn; auto. intros Hwf. unfold keys_from, view in *; cbn. rewrite Hs. split.
  - by apply map_Forall_delete.
  - intros k' m. rewrite lookup_delete_Some. intros [_ Hm]. left. by exists m.
Qed.

(** *** What is written reads back *)

Lemma storable_read k m w : view w !! k = Some m -> storable m.
Proof. apply view_storable. Qed.
Lemma storable_tagged m : all_tagged m -> storable m.
Proof. intros H. eapply Forall_impl; [exact H|]. intros v. apply keeps_tagged. Qed.

(** One version is new. *)
Lemma storable_new m m' l1 l2 v :
  storable m -> versions m' = l1 ++ v :: l2 -> l1 ⊆ versions m -> l2 ⊆ versions m ->
  tagged (secret_key_material v) -> storable m'.
Proof.
  unfold storable. rewrite !Forall_forall. intros Hm -> H1 H2 Hv u [Hu|[->|Hu]%elem_of_cons]%elem_of_app; auto. by apply keeps_tagged.
Qed.

Lemma plain_tagged b : tagged (Plaintext (hex_encode b)).
Proof. apply hex_tagged, hex_encode_digits. Qed.
Lemma enc_tagged s : tagged (Encrypted ("enc:" +:+ s)).
Proof. cbn [tagged]. apply starts_with_iff. by exists s. Qed.
Lemma ckw_tagged s : tagged (CitadelWrapped ("ckw:" +:+ s)).
Proof. cbn [tagged]. apply starts_with_iff. by exists s. Qed.

Lemma wrap_tagged k n p bs w w' x : wrap_secret_key_for k n p bs w = (w', Ok x) -> tagged x.1.1.
Proof.
  intros H. refine (wp_Ok (fun x _ => tagged x.1.1) _ _ _ _ H _). clear H.
  assert (Hm : forall w, wp (material ← wrap_with_master_key k n bs; mret (M := M string) (material, None, None))
    (fun r _ => forall x : SecretKeyMaterial * option string * option Z, r = Ok x -> tagged x.1.1) w).
  { intros w1. unfold wrap_with_master_key. apply wp_bind, wp_bind, wp_asks. destruct (master_key w1) as [mk|].
    - apply wp_bind, wp_or_throw; [|done]. intros a _. apply wp_bind, wp_fill_bytes, wp_bind, wp_or_throw; [|done].
      intros c _. apply wp_ret, wp_ret. intros y [= <-]. apply enc_tagged.
    - apply wp_ret, wp_ret. intros y [= <-]. apply plain_tagged. }
  unfold wrap_secret_key_for. destruct p as [p|]; [|apply Hm].
  apply wp_bind, wp_intro. intros w1 [o|e] _; [|done]. apply wp_bind, wp_or_throw; [|done]. intros pm _.
  destruct (wraps_children (key_type pm)); [|apply Hm]. apply wp_bind, wp_or_throw; [|done]. intros pv _.
  unfold wrap_with_citadel_key. apply wp_bind, wp_bind, wp_intro. intros w2 [b|e] _; [|done].
  apply wp_bind, wp_intro. intros w3 [pk|e] _; [|done]. apply wp_bind, wp_intro. intros w4 [c|e] _; [|done].
  apply wp_ret, wp_ret. intros y [= <-]. apply ckw_tagged.
Qed.

Lemma wp_put_legal k m m' (Q : result _ _ -> World -> Prop) w :
  view w !! k = Some m -> updates m m' -> storable m' ->
  (forall r w', legal w w' -> Q r w') -> wp (storage_put m') Q w.
Proof.
  intros Hm Hu Hst HQ. apply wp_put; [done|..].
  - intros s r Hs _. apply HQ. by eapply legal_put.
  - intros s e Hs. apply HQ. by apply legal_unchanged.
Qed.

Lemma wp_ks_get k (Q : result _ _ -> World -> Prop) w :
  (forall m w', view w !! k = Some m -> calm w w' -> Q (Ok m) w') ->
  (forall e w', calm w w' -> Q (Err (Fail e)) w') -> wp (get k) Q w.
Proof.
  intros H1 H2. unfold get. apply wp_bind, wp_get.
  - assert (calm w (advance w)) by (apply (calm_tick (E := unit) w)).
    apply wp_or_throw; intros; [by apply H1|by apply H2].
  - intros e. apply H2. apply (calm_tick (E := unit) w).
Qed.
End legal.

Ltac chain :=
  repeat match goal with
  | |- legal ?x ?x => reflexivity
  | H : legal ?x ?y |- legal ?x _ => transitivity y; [exact H|]
  | H : calm ?x ?y |- legal ?x _ => transitivity y; [exact (calm_legal _ _ H)|]
  end.

Ltac calm_chain :=
  repeat match goal with
  | |- calm ?x ?x => reflexivity
  | H : calm ?x ?y |- calm ?x ?y => exact H
  | H : calm ?x ?y |- calm ?x _ => transitivity y; [exact H|clear H]
  end.

(** One step of a method; reads are stepped over by their frame. *)
Ltac ks_step :=
  lazymatch goal with
  | |- wp (mret _) _ _ => apply wp_ret
  | |- wp (throw _) _ _ => apply wp_throw
  | |- wp (_ ≫= _) _ _ => apply wp_bind
  | |- wp (mapping _ _) _ _ => apply wp_mapping
  | |- wp (attempt _) _ _ => apply wp_attempt
  | |- wp (get _) _ _ => apply wp_ks_get; [intros ? ? ? ?|intros ? ? ?]
  | |- wp (throw_if _ _) _ _ => apply wp_throw_if; intros ?
  | |- wp (or_throw _ _) _ _ => apply wp_or_throw; [intros ? ?|intros ?]
  | |- wp (asks _) _ _ => apply wp_asks
  | |- wp (storage_put _) _ _ => fail
  | |- wp (overwrite_key_file _) _ _ => fail
  | |- wp _ _ _ => apply wp_calm; [solve [apply _]|intros [?|[?|]] ? ? ?]
  end; cbn beta iota.

Ltac views := repeat match goal with H : calm _ _ |- _ => rewrite (calm_view _ _ H) end.

(** Facts about the worlds passed through, at the state of a later one. *)
Ltac at_view := views; eassumption.

Ltac method m := let w := fresh "w" in intros w; change (wp m (fun _ w' => legal w w') w).
Ltac ks_run := repeat (ks_step; try solve [chain]).
(** After a write, nothing but the audit event and the result is left. *)
Ltac after_put := intros [?|[?|]] ? ?; cbn beta iota; ks_run; chain.

Section lifecycle.
Context {PF : Platform} {PL : PlatformLaws PF}.

#[export] Instance legal_of_calm {E A} (m : M E A) : Keeps calm m -> Keeps legal m | 20.
Proof. intros Hm w. apply calm_legal, Hm. Qed.

#[export] Instance legal_modify_policies {E} f : Keeps (E := E) legal (modify (fun w => set_policies (f w) w)).
Proof. intros w. split; cbn; auto. intros Hwf. split; [done|]. intros k m Hm. left. by exists m. Qed.
#[export] Instance legal_modify_enforcer {E} s : Keeps (E := E) legal (modify (set_enforcer s)).
Proof. intros w. split; cbn; auto. intros Hwf. split; [done|]. intros k m Hm. left. by exists m. Qed.
#[export] Instance legal_claim k t : Keeps legal (replay_claim k t).
Proof.
  intros w. unfold replay_claim. destruct (claim _ _ _ _). split; cbn; auto. intros Hwf.
  split; [done|]. intros x m Hm. left. by exists m.
Qed.
#[export] Instance legal_release k : Keeps legal (replay_release k).
Proof.
  intros w. unfold replay_release. destruct (release _ _ _). split; cbn; auto. intros Hwf.
  split; [done|]. intros x m Hm. left. by exists m.
Qed.

Lemma wp_put_state k m m' (Q : result _ _ -> World -> Prop) w :
  view w !! k = Some m -> same_but_state m m' -> can_transition_to (state m) (state m') = true ->
  state m' <> Destroyed -> state m' <> Rotated ->
  (forall r w', legal w w' -> Q r w') -> wp (storage_put m') Q w.
Proof.
  intros Hm Hs Ht Hd Hr HQ. eapply wp_put_legal; [done| | |done].
  2: { unfold storable. destruct Hs as (_ & _ & _ & _ & _ & _ & _ & -> & _). by eapply storable_read. }
  apply updates_state; [done|by apply reaches_one|by left|done].
Qed.

#[export] Instance legal_activate k : Keeps legal (activate k).
Proof.
  method (activate k). unfold activate, transition. ks_run.
  eapply wp_put_state; [at_view|done| | | |after_put]; bool_hyps; done.
Qed.

#[export] Instance legal_revoke k r : Keeps legal (revoke k r).
Proof.
  method (revoke k r). unfold revoke. ks_run.
  eapply wp_put_state; [at_view|done| | | |after_put]; bool_hyps; try done.
  match goal with H : state _ = Active |- _ => by rewrite H end.
Qed.

Lemma required_state {E} m w w' reason src :
  check_expiration (E := E) m w = (w', Ok (Required reason src)) -> state m = Active \/ state m = Rotated.
Proof. unfold check_expiration. destruct (state m); auto; intros [=]. Qed.

#[export] Instance legal_expire k : Keeps legal (expire k).
Proof.
  method (expire k). unfold expire. ks_run. case_match; ks_run.
  match goal with H : check_expiration _ _ = _ |- _ => apply required_state in H as Hst end.
  eapply wp_put_state; [at_view|done| | | |after_put]; cbn; try done.
  by destruct Hst as [-> | ->].
Qed.

#[export] Instance legal_rotate k : Keeps legal (rotate k).
Proof.
  method (rotate k). unfold rotate. ks_run.
  match goal with H : wrap_secret_key_for _ _ _ _ _ = _ |- _ => apply wrap_tagged in H end.
  eapply wp_put_legal; [at_view| | |after_put].
  - bool_hyps. eapply updates_append; cbn; done.
  - eapply (storable_new m _ (versions m) []); [by eapply storable_read|done|done|set_solver|done].
Qed.

Lemma unwrap_not_purged n k kv b w w' bs :
  unwrap_key_version_inner n k kv b w = (w', Ok bs) -> secret_key_material kv <> Purged.
Proof. destruct n; cbn; [done|]. by destruct (secret_key_material kv). Qed.

Lemma get_version_Some m n v : get_version m n = Some v -> v ∈ versions m /\ version v = n.
Proof.
  unfold get_version. intros [Hin Hv]%List.find_some. apply list_elem_of_In in Hin.
  split; [done|]. by apply Z.eqb_eq.
Qed.

(** A version that still has material shows the key is not destroyed. *)
Lemma material_not_destroyed k m v :
  wf_key k m -> v ∈ versions m -> secret_key_material v <> Purged -> state m <> Destroyed.
Proof.
  intros Hwf Hv Hp Hs. apply (wf_purged _ _ Hwf) in Hs. rewrite Forall_forall in Hs.
  by apply Hs in Hv as [? _].
Qed.

#[export] Instance legal_rewrap k p : Keeps legal (rewrap k p).
Proof.
  method (rewrap k p). unfold rewrap. ks_run.
  match goal with H : unwrap_key_version_for_rewrap _ _ _ = _ |- _ => apply unwrap_not_purged in H as Hnp end.
  match goal with H : update_first _ _ _ = _, Hc : current_key_version _ = Some ?v |- _ =>
    apply (update_first_spec _ _ _ _ v) in H as (l1 & l2 & El & -> & Hx & _); [|exact Hc] end.
  assert (Hin : forall P, Forall P (versions m) -> P a) by (rewrite El; intros P HP; by decompose_Forall).
  match goal with H : wrap_secret_key_for _ _ _ _ _ = _ |- _ => apply wrap_tagged in H as Hsv end.
  eapply wp_put_legal; [at_view| | |after_put].
  { eapply updates_versions; cbn; try done.
    - constructor.
    - rewrite El. apply Forall2_app; [reflexivity|]. constructor; [|reflexivity]. by split; auto.
    - intros _ Hall. by apply Hin in Hall as [? _].
    - auto. }
  eapply (storable_new m _ l1 l2); [by eapply storable_read|done|rewrite El; set_solver..|done].
Qed.


(** Overwriting followed by the write of the destroyed record, from the world
    before both. *)
Lemma wp_overwrite_put {A} k m m' (f : unit -> M KeystoreError A) Q w :
  view w !! k = Some m -> updates m m' -> storable m' ->
  (forall r w', legal w w' -> match r with Ok a => wp (f a) Q w' | Err e => Q (Err e) w' end) ->
  wp (overwrite_key_file k) (fun r w' =>
    match r with Ok _ => wp (storage_put m' ≫= f) Q w' | Err e => Q (Err e) w' end) w.
Proof.
  intros Hm Hu Hst HQ. apply wp_overwrite. intros s r Hs.
  assert (Hl : legal w (set_store s (advance w))).
  { destruct Hs; [by apply legal_unchanged|by eapply legal_delete]. }
  destruct r as [[]|e]; [|by apply (HQ (Err e))]. apply wp_bind, wp_put; [done|..].
  - intros s' r Hs' _. apply HQ. destruct Hu as [Hev Hup]. split; cbn; auto.
    intros Hwf. pose proof (Hwf k m Hm) as Hk. pose proof (wf_id _ _ (Hup k Hk)) as Hid.
    unfold keys_from, view in *; cbn in *. rewrite Hs', Hid.
    assert (Hsub : forall k' m0, k <> k' -> st_view s !! k' = Some m0 -> view w !! k' = Some m0).
    { intros k' m0 Hn. destruct Hs as [-> | ->]; [done|]. by rewrite lookup_delete_ne. }
    split.
    + intros k' m0. destruct (decide (k = k')) as [<-|Hn].
      * rewrite lookup_insert_eq. intros [= <-]. by apply Hup.
      * rewrite lookup_insert_ne by done. intros Hm0%Hsub; [|done]. by apply Hwf.
    + intros k' m0. destruct (decide (k = k')) as [<-|Hn].
      * rewrite lookup_insert_eq. intros [= <-]. left. by exists m.
      * rewrite lookup_insert_ne by done. intros Hm0%Hsub; [|done]. left. by exists m0.
  - intros s' e Hs'. apply (HQ (Err (Fail e))). etransitivity; [exact Hl|]. by apply legal_unchanged.
Qed.

Lemma storable_destroyed m t : storable (set_versions (destroy_version <$> versions m) t).
Proof. apply storable_tagged, Forall_fmap, Forall_true. done. Qed.

#[export] Instance legal_destroy k : Keeps legal (destroy k).
Proof.
  method (destroy k). unfold destroy. ks_run. bool_hyps.
  eapply wp_overwrite_put; [at_view| |apply storable_destroyed|after_put].
  assert (Hp : forall vs, Forall (fun v => secret_key_material v = Purged /\
                 public_key_hex v = "DESTROYED"%string) (destroy_version <$> vs)).
  { intros vs. by apply Forall_fmap, Forall_true. }
  eapply updates_versions; cbn; try done; auto.
  - by apply reaches_one.
  - apply Forall2_fmap_r, Forall_Forall2_diag, Forall_true. intros v. split; auto.
Qed.

(** *** Generation *)

Lemma name_plain w i : plain_id (name_at w i) = true.
Proof.
  apply hex_plain; [apply hex_encode_digits|]. intros E. apply (f_equal String.length) in E. revert E.
  unfold name_at. rewrite length_hex_encode. done.
Qed.

Lemma wp_put_new m (Q : result _ _ -> World -> Prop) w0 w i :
  legal w0 w -> (pos w0 <= i < pos w)%nat -> id m = name_at w0 i ->
  (plain_id (id m) = true -> wf_key (id m) m) -> all_tagged m ->
  (forall r w', legal w0 w' -> Q r w') -> wp (storage_put m) Q w.
Proof.
  intros Hl Hi Hid Hk Hst HQ. apply wp_put; [by apply storable_tagged|..].
  - intros s r Hs _. apply HQ. destruct Hl as [T P E Mk K]. split; cbn; [done|lia|done|done|].
    intros Hwf. destruct (K Hwf) as [Hwf' Hf]. unfold keys_from, view in *; cbn. rewrite Hs. split.
    + apply map_Forall_insert_2; [|done]. apply Hk. rewrite Hid. apply name_plain.
    + intros k' m0. destruct (decide (id m = k')) as [<-|Hn].
      * rewrite lookup_insert_eq. intros [= <-]. right. exists i. split; [lia|done].
      * rewrite lookup_insert_ne by done. intros Hm0. destruct (Hf k' m0 Hm0) as [?|(j & ? & ?)]; [by left|].
        right. exists j. split; [lia|done].
  - intros s e Hs. apply HQ. etransitivity; [exact Hl|]. by apply legal_unchanged.
Qed.

Lemma wp_fresh w0 (Q : result (fault KeystoreError) _ -> World -> Prop) w :
  legal w0 w ->
  (forall i bytes w', calm w w' -> (pos w0 <= i < pos w')%nat -> hex_encode bytes = name_at w0 i ->
     Q (Ok bytes) w') -> wp (fill_bytes 16) Q w.
Proof.
  intros [T P E Mk K] HQ. apply wp_fill_bytes, (HQ (pos w)).
  - apply (calm_tick (E := unit) w).
  - cbn. lia.
  - unfold name_at, reading. by rewrite T.
Qed.

Ltac calm_positions :=
  repeat match goal with H : calm _ _ |- _ => apply calm_pos in H end.

#[export] Instance legal_generate n t p par : Keeps legal (generate n t p par).
Proof.
  method (generate n t p par). unfold generate. do 6 (ks_step; try solve [chain]).
  ks_step. apply (wp_fresh w); [chain|]. intros i bytes w1 Hc Hi Hn. ks_run.
  match goal with H : wrap_secret_key_for _ _ _ _ _ = _ |- _ => apply wrap_tagged in H as Hsv end.
  eapply (wp_put_new _ _ w _ i); [chain|calm_positions; lia|done|by split|by constructor|after_put].
Qed.

#[export] Instance legal_generate_signing n p par : Keeps legal (generate_signing_key n p par).
Proof.
  method (generate_signing_key n p par). unfold generate_signing_key. do 4 (ks_step; try solve [chain]).
  ks_step. apply (wp_fresh w); [chain|]. intros i bytes w1 Hc Hi Hn. ks_run.
  match goal with H : wrap_secret_key_for _ _ _ _ _ = _ |- _ => apply wrap_tagged in H as Hsv end.
  eapply (wp_put_new _ _ w _ i); [chain|calm_positions; lia|done|by split|by constructor|after_put].
Qed.
End lifecycle.
End KsLaws.
