(* ===== verification/KeystoreCascade.v ===== *)
(** * The revocation cascade

    [revoke_cascade] terminates with fuel two above the number of keys, and
    suspends every usable descendant it does not report as an error. *)

From S2P Require Import Prelude.
From S2P Require Import Wire.
From S2P Require Import WireV2.
From S2P Require Import Crypto.
From S2P Require Import Envelope.
From S2P Require Import Enforcer.
From S2P Require Import F64.
From S2P Require Import Types.
From S2P Require Import Hierarchy.
From S2P Require Import Policy.
From S2P Require Import AuditLog.
From S2P Require Import Threat.
From S2P Require Import Storage.
From S2P Require Import Replay.
From S2P Require Import KeystoreBase.
From S2P Require Import KeystoreWrap.
From S2P Require Import Keystore.
From S2P Require Import KeystoreCrypto.
From S2P Require Import KeystoreSign.
From S2P Require Import KeystoreFrame.
From S2P Require Import KeystoreLaws.
Import Types.

Module KsCascade.
Import Wrap Keystore KsLaws.

Notation keymap := (gmap string KeyMetadata).

(** The states from which a key can be suspended. *)
Definition live (m : KeyMetadata) : Prop := state m = Active \/ state m = Rotated.
#[global] Instance live_dec m : Decision (live m).
Proof. unfold live. apply _. Defined.

Definition suspend (t : Z) (m : KeyMetadata) : KeyMetadata := set_updated t (set_state Suspended m).

Definition is_suspended (v : keymap) (k : string) : Prop :=
  exists m, v !! k = Some m /\ state m = Suspended.

(** [v'] is [v] with some live keys suspended. *)
Definition swept (v v' : keymap) : Prop := forall k,
  v' !! k = v !! k \/ exists m t, v !! k = Some m /\ live m /\ v' !! k = Some (suspend t m).

Lemma live_transition m : live m <-> can_transition_to (state m) Suspended = true.
Proof.
  unfold live, can_transition_to. rewrite bool_decide_eq_true.
  destruct (state m); cbn; set_unfold; naive_solver.
Qed.

Lemma suspend_not_live t m : ~ live (suspend t m).
Proof. intros [[=]|[=]]. Qed.

#[global] Instance swept_preorder : PreOrder swept.
Proof.
  split.
  - intros v k. by left.
  - intros v1 v2 v3 H1 H2 k.
    destruct (H1 k) as [E1|(m & t & Hm & Hl & E1)], (H2 k) as [E2|(m' & t' & Hm' & Hl' & E2)].
    + left. congruence.
    + right. exists m', t'. split_and!; congruence.
    + right. exists m, t. split_and!; congruence.
    + exfalso. rewrite E1 in Hm'. injection Hm' as <-. by eapply suspend_not_live.
Qed.

Lemma swept_suspended v v' k : swept v v' -> is_suspended v k -> is_suspended v' k.
Proof.
  intros Hs (m & Hm & Hst). destruct (Hs k) as [E|(m' & t & Hm' & _ & E)].
  - exists m. by rewrite E.
  - by exists (suspend t m').
Qed.

Lemma swept_put v v1 c t :
  swept v v1 -> v !! id c = Some c -> live c -> swept v (<[ id c := suspend t c ]> v1).
Proof.
  intros Hs Hc Hl k. destruct (decide (id c = k)) as [<-|Hn].
  - right. exists c, t. rewrite lookup_insert_eq. done.
  - rewrite lookup_insert_ne by done. apply Hs.
Qed.

Section loop.
Context {PF : Platform} {PL : PlatformLaws PF}.

(** Writing the suspended form of a listed key, whose record is by now either
    the listed one or already suspended. *)
Lemma wp_put_suspend v c t (Q : result (fault KeystoreError) unit -> World -> Prop) w :
  swept v (view w) -> v !! id c = Some c -> live c ->
  (forall r w', legal w w' -> swept v (view w') ->
     (forall k, is_suspended (view w) k -> is_suspended (view w') k) ->
     (r = Ok () -> is_suspended (view w') (id c)) ->
     (forall k, k <> id c -> view w' !! k = view w !! k) ->
     r <> Err Panic -> Q r w') ->
  wp (storage_put (suspend t c)) Q w.
Proof.
  intros Hs Hc Hl HQ. apply wp_put.
  - destruct (Hs (id c)) as [E|(c' & t' & Hc' & _ & E)]; [rewrite Hc in E; exact (storable_read _ _ _ E)|].
    rewrite Hc in Hc'. injection Hc' as <-. exact (storable_read _ _ _ E).
  - intros s r Hv Hnp.
    assert (Hview : view (set_store s (advance w)) = <[ id c := suspend t c ]> (view w)) by exact Hv.
    apply HQ; rewrite ?Hview.
    + destruct (Hs (id c)) as [E|(c' & t' & Hc' & _ & E)].
      * eapply legal_put; [rewrite E; exact Hc| |exact Hv].
        apply updates_state; [done| |by left|done]. apply reaches_one. by apply live_transition.
      * eapply legal_put; [exact E| |exact Hv]. rewrite Hc in Hc'. injection Hc' as <-.
        apply updates_state; [done|constructor|by left|done].
    + by apply swept_put.
    + intros k (m & Hm & Hst). destruct (decide (id c = k)) as [<-|Hn].
      * exists (suspend t c). by rewrite lookup_insert_eq.
      * exists m. by rewrite lookup_insert_ne.
    + intros _. exists (suspend t c). by rewrite lookup_insert_eq.
    + intros k Hn. by rewrite lookup_insert_ne.
    + done.
  - intros s e Hv. assert (Hview : view (set_store s (advance w)) = view w) by exact Hv.
    apply HQ; rewrite ?Hview; try done. by apply legal_unchanged.
Qed.

(** What one child leaves behind: [new] keys pushed, [es] errors added. *)
Record child_done (v : keymap) (c : KeyMetadata) (st st' : Cascade) (v1 v2 : keymap) : Prop := {
  cd_swept : swept v v2;
  cd_keeps k : is_suspended v1 k -> is_suspended v2 k;
  cd_other k : k <> id c -> v2 !! k = v1 !! k;
  cd_shape : exists new es,
    queue st' = new ++ queue st /\ c_errors st' = c_errors st ++ es /\
    (new = [] \/ new = [id c] /\ live c /\ is_suspended v2 (id c)) /\
    (live c -> id c ∈ new \/ id c ∈ es.*1) /\ (v2 !! id c <> v1 !! id c -> id c ∈ new \/ id c ∈ es.*1);
}.

Lemma child_spec p v c st (Q : result (fault KeystoreError) Cascade -> World -> Prop) w :
  swept v (view w) -> v !! id c = Some c ->
  (forall st' w', legal w w' -> child_done v c st st' (view w) (view w') -> Q (Ok st') w') ->
  wp (cascade_child p c st) Q w.
Proof.
  intros Hs Hc HQ. unfold cascade_child. case_bool_decide as Hterm.
  { apply wp_ret, HQ; [reflexivity|]. split; try done. exists [], [].
    split_and!; [done|by rewrite app_nil_r|by left| |done].
    intros Hl. exfalso. unfold live in Hl. naive_solver congruence. }
  destruct (can_transition_to (state c) Suspended) eqn:Ht; cbn [negb].
  2: { apply wp_ret, HQ; [reflexivity|]. split; try done. eexists [], [_].
    split_and!; [done|done|by left| |]; intros; right; apply list_elem_of_here. }
  apply live_transition in Ht. apply wp_bind, wp_now, wp_bind, wp_attempt.
  assert (Hc1 : calm w (advance w)) by (apply (calm_tick (E := unit) w)).
  generalize (rd_now (reading w)) as t. intros t.
  eapply wp_put_suspend; [views; exact Hs|done|done|].
  intros r w2 Hl Hs2 Hk Hok Ho Hnp. destruct r as [[]|[e|]]; cbn beta iota; [| |done].
  - apply wp_bind, wp_calm; [apply _|]. intros r w3 Hc3 E3. injection E3 as <- <-.
    apply wp_ret, HQ; [chain|]. rewrite !(calm_view _ _ Hc3).
    rewrite <- (calm_view _ _ Hc1) in *. split; try done.
    eexists [_], []. split_and!; [done|by rewrite app_nil_r| | |].
    + right. split_and!; [done|done|by apply Hok].
    + intros _. left. apply list_elem_of_here.
    + intros _. left. apply list_elem_of_here.
  - apply wp_ret, HQ; [chain|]. rewrite <- (calm_view _ _ Hc1) in *. split; try done.
    eexists [], [_]. split_and!; [done|done|by left| |]; intros; right; apply list_elem_of_here.
Qed.

Record children_done (v : keymap) (cs : list KeyMetadata) (st st' : Cascade) (v1 v2 : keymap) : Prop := {
  cs_swept : swept v v2;
  cs_keeps k : is_suspended v1 k -> is_suspended v2 k;
  cs_shape : exists new es,
    queue st' = new ++ queue st /\ c_errors st' = c_errors st ++ es /\
    (forall k, k ∈ new -> is_suspended v2 k /\ exists c, c ∈ cs /\ id c = k /\ live c) /\
    (forall c, c ∈ cs -> live c -> id c ∈ new \/ id c ∈ es.*1) /\
    (forall k, v2 !! k <> v1 !! k -> k ∈ new \/ k ∈ es.*1) /\
    (NoDup (id <$> cs) -> NoDup new);
}.

Lemma children_spec p v cs st (Q : result (fault KeystoreError) Cascade -> World -> Prop) w :
  swept v (view w) -> (forall c, c ∈ cs -> v !! id c = Some c) ->
  (forall st' w', legal w w' -> children_done v cs st st' (view w) (view w') -> Q (Ok st') w') ->
  wp (cascade_children p cs st) Q w.
Proof.
  revert st w Q. induction cs as [|c cs IH]; intros st w Q Hs Hc HQ; cbn [cascade_children].
  { apply wp_ret, HQ; [reflexivity|]. split; [done..|]. exists [], [].
    split_and!; try done; [by rewrite app_nil_r|..]; try (intros ?; set_solver). }
  apply wp_bind. eapply child_spec; [done|apply Hc, list_elem_of_here|].
  intros st1 w1 Hl1 [S1 K1 O1 (n1 & e1 & Eq1 & Ee1 & Hn1 & Hv1 & Hx1)].
  apply IH; [done|intros; by apply Hc, list_elem_of_further|].
  intros st2 w2 Hl2 [S2 K2 (n2 & e2 & Eq2 & Ee2 & Hn2 & Hv2 & Hx2 & Hd2)].
  apply HQ; [by etransitivity|]. split; [done|by auto|].
  exists (n2 ++ n1), (e1 ++ e2).
  split_and!.
  - by rewrite Eq2, Eq1, (assoc_L (++)).
  - by rewrite Ee2, Ee1, (assoc_L (++)).
  - intros k [Hk|Hk]%elem_of_app.
    + destruct (Hn2 k Hk) as (? & c' & ? & ? & ?). split; [done|]. exists c'. set_solver.
    + destruct Hn1 as [->|(-> & ? & ?)]; [set_solver|]. apply list_elem_of_singleton in Hk as ->.
      split; [by apply K2|]. exists c. set_solver.
  - intros c' [->|Hc']%elem_of_cons Hlive.
    + destruct (Hv1 Hlive); [left|right]; rewrite ?fmap_app; set_solver.
    + destruct (Hv2 c' Hc' Hlive); [left|right]; rewrite ?fmap_app; set_solver.
  - intros k Hk. rewrite fmap_app. destruct (decide (view w2 !! k = view w1 !! k)) as [E|E].
    + rewrite E in Hk. destruct (decide (k = id c)) as [->|Hn]; [|by apply O1 in Hn].
      destruct (Hx1 Hk); set_solver.
    + destruct (Hx2 k E); set_solver.
  - rewrite fmap_cons. intros [Hn Hnd]%NoDup_cons. apply NoDup_app. split_and!; [auto| |].
    + intros k Hk2 Hk1. destruct Hn1 as [->|(-> & _)]; [set_solver|].
      apply list_elem_of_singleton in Hk1 as ->. apply Hn.
      destruct (Hn2 _ Hk2) as (_ & c' & ? & <- & _). by apply list_elem_of_fmap_2.
    + destruct Hn1 as [->|(-> & _)]; [constructor|apply NoDup_singleton].
Qed.

(** ** The measure *)

Definition live_keys (v : keymap) : gset string := dom (filter (fun p => live p.2) v).

Lemma live_keys_spec v k : k ∈ live_keys v <-> exists m, v !! k = Some m /\ live m.
Proof.
  unfold live_keys. rewrite elem_of_dom. unfold is_Some.
  setoid_rewrite map_lookup_filter_Some. naive_solver.
Qed.

Lemma suspended_not_live v k : is_suspended v k -> k ∉ live_keys v.
Proof.
  intros (m & Hm & Hst) (m' & Hm' & Hl)%live_keys_spec. unfold live in Hl. naive_solver congruence.
Qed.

Lemma swept_live v v' : swept v v' -> live_keys v' ⊆ live_keys v.
Proof.
  intros Hs k (m & Hm & Hl)%live_keys_spec. apply live_keys_spec.
  destruct (Hs k) as [E|(m' & t & Hm' & _ & E)]; [exists m; by rewrite <- E|].
  rewrite E in Hm. injection Hm as <-. by apply suspend_not_live in Hl.
Qed.

(** Each key pushed was live before and is not any more. *)
Lemma measure_decreases v v' (new : list string) :
  swept v v' -> NoDup new -> (forall k, k ∈ new -> k ∈ live_keys v /\ is_suspended v' k) ->
  (size (live_keys v') + length new <= size (live_keys v))%nat.
Proof.
  intros Hs Hnd Hnew. rewrite <- (size_list_to_set (C := gset string) new) by done.
  rewrite <- size_union.
  - apply subseteq_size, union_least; [by apply swept_live|].
    intros k Hk%elem_of_list_to_set. by apply Hnew.
  - intros k Hk Hk'%elem_of_list_to_set. apply Hnew in Hk' as [_ Hk'].
    by apply (suspended_not_live v' k).
Qed.

(** ** The loop *)

Record cascade_inv (v1 : keymap) (D : list string) (st : Cascade) (v : keymap) : Prop := {
  ci_swept : swept v1 v;
  ci_children p c m : p ∈ D -> v1 !! c = Some m -> parent_id m = Some p -> live m ->
    (c ∈ D ++ queue st /\ is_suspended v c) \/ c ∈ (c_errors st).*1;
  ci_changed k : v !! k <> v1 !! k ->
    (k ∈ D ++ queue st /\ is_suspended v k) \/ k ∈ (c_errors st).*1;
}.

(** One iteration: the head of the stack moves to the processed keys. *)
Lemma inv_step v1 D n es p q st' l v v' :
  cascade_inv v1 D (mkCascade n es (p :: q)) v ->
  (forall c, c ∈ l <-> parent_id c = Some p /\ v !! id c = Some c) ->
  (forall k m, v !! k = Some m -> id m = k) ->
  children_done v l (mkCascade n es q) st' v v' ->
  cascade_inv v1 (p :: D) st' v'.
Proof.
  intros [Hs Hch Hcg] Hl Hid [S K (new & es' & Eq & Ee & Hnew & Hlive & Hx & _)]; cbn in *.
  assert (Hold : forall c, (c ∈ D ++ p :: q /\ is_suspended v c) \/ c ∈ es.*1 ->
    (c ∈ (p :: D) ++ queue st' /\ is_suspended v' c) \/ c ∈ (c_errors st').*1).
  { intros c [[Hc Hsus]|Hc]; [left|right].
    - split; [|by apply K]. rewrite Eq. set_solver.
    - rewrite Ee, fmap_app. set_solver. }
  assert (Hfresh : forall c, c ∈ new \/ c ∈ es'.*1 ->
    (c ∈ (p :: D) ++ queue st' /\ is_suspended v' c) \/ c ∈ (c_errors st').*1).
  { intros c [Hc|Hc]; [left|right].
    - split; [rewrite Eq; set_solver|by apply Hnew].
    - rewrite Ee, fmap_app. set_solver. }
  split.
  - by etransitivity.
  - intros p' c m [->|Hp']%elem_of_cons Hc Hpar Hlv; [|by eapply Hold, Hch].
    destruct (decide (v !! c = v1 !! c)) as [E|E]; [|by apply Hold, Hcg].
    rewrite Hc in E. pose proof (Hid _ _ E) as Hi. rewrite <- Hi. apply Hfresh, Hlive; [|done].
    apply Hl. by rewrite Hi.
  - intros k Hk. destruct (decide (v' !! k = v !! k)) as [E|E]; [|by apply Hfresh, Hx].
    rewrite E in Hk. by apply Hold, Hcg.
Qed.

Lemma loop_spec v1 fuel D st (Q : result (fault KeystoreError) (option Cascade) -> World -> Prop) w :
  wf_view (view w) -> cascade_inv v1 D st (view w) ->
  (forall w', legal w w' -> swept v1 (view w') ->
     (fuel <= size (live_keys (view w)) + length (queue st))%nat -> Q (Ok None) w') ->
  (forall st' D' w', legal w w' -> cascade_inv v1 D' st' (view w') -> queue st' = [] ->
     (forall k, k ∈ D ++ queue st -> k ∈ D') -> Q (Ok (Some st')) w') ->
  (forall e w', legal w w' -> swept v1 (view w') -> Q (Err e) w') ->
  wp (cascade_loop fuel st) Q w.
Proof.
  revert D st w Q. induction fuel as [|fuel IH]; intros D st w Q Hwf Hinv HN HS HE; cbn [cascade_loop].
  { apply wp_ret, HN; [reflexivity|by apply Hinv|lia]. }
  destruct st as [n es [|p q]]; cbn [queue suspended c_errors].
  { apply wp_ret, (HS _ D); [reflexivity|done|done|]. cbn. intros k. by rewrite app_nil_r. }
  apply wp_bind, wp_query;
    [|intros e; apply HE; [apply calm_legal, (calm_tick (E := unit) w)|by apply Hinv]].
  intros l Hl.
  assert (Hid : forall k m, view w !! k = Some m -> id m = k) by (intros k m Hm; by apply (wf_id _ _ (Hwf k m Hm))).
  assert (Hin : forall c, c ∈ l <-> parent_id c = Some p /\ view w !! id c = Some c).
  { intros c. rewrite (list_by_parent_view _ _ _ _ Hl) by (intros k m Hm; by apply (wf_plain _ _ (Hwf k m Hm))).
    unfold view in *. split.
    - intros (? & k & Hk). split; [done|]. by rewrite (Hid _ _ Hk).
    - intros (? & Hk). split; [done|]. by exists (id c). }
  assert (Hc0 : calm w (advance w)) by (apply (calm_tick (E := unit) w)).
  apply wp_bind. eapply (children_spec _ (view w)); [views; reflexivity|by intros c [_ ?]%Hin|].
  intros st1 w1 Hl1 Hd. rewrite (calm_view _ _ Hc0) in Hd.
  pose proof (inv_step _ _ _ _ _ _ _ _ _ _ Hinv Hin Hid Hd) as Hinv1.
  assert (Hl2 : legal w w1) by (transitivity (advance w); [by apply calm_legal|done]).
  assert (Hm : (size (live_keys (view w1)) + length (queue st1) <= size (live_keys (view w)) + length q)%nat).
  { destruct Hd as [S _ (new & es' & -> & _ & Hnew & _ & _ & Hnd)]. rewrite length_app. cbn [queue].
    assert (size (live_keys (view w1)) + length new <= size (live_keys (view w)))%nat; [|lia].
    apply measure_decreases; [done|by eapply Hnd, list_by_parent_nodup|].
    intros k Hk. destruct (Hnew k Hk) as (? & c & [_ Hv]%Hin & <- & ?). split; [|done].
    apply live_keys_spec. by exists c. }
  apply (IH (p :: D)); [by apply (lg_keys _ _ Hl2)|done| | |].
  - intros w' Hl' Hsw Hf. apply HN; [by etransitivity|done|]. cbn [queue length]. lia.
  - intros st' D' w' Hl' Hinv' Hq Hsub. apply (HS _ D'); [by etransitivity|done|done|].
    intros k Hk. apply Hsub. cbn [queue] in Hk.
    destruct Hd as [_ _ (new & es' & -> & _)]. cbn [queue]. set_solver.
  - intros e w' Hl' Hsw. apply HE; [by etransitivity|done].
Qed.

#[export] Instance legal_cascade_wf fuel k reason :
  Keeps (fun w w' => wf_view (view w) -> legal w w') (revoke_cascade fuel k reason).
Proof.
  intros w Hwf. change (wp (revoke_cascade fuel k reason) (fun _ w' => legal w w') w).
  unfold revoke_cascade. apply wp_bind, (wp_keeps legal); [apply _|]. intros [[]|e] w1 Hl1; [|done].
  apply wp_bind. eapply (loop_spec (view w1) _ []); [by apply (lg_keys _ _ Hl1)| | | |].
  - split; [reflexivity| |done]. intros ???; set_solver.
  - intros w' Hl' _ _. cbn. apply wp_ret. by etransitivity.
  - intros st' D' w' Hl' _ _ _. cbn. apply wp_ret. by etransitivity.
  - intros e w' Hl' _. by etransitivity.
Qed.

(** ** The whole operation *)

Lemma revoke_Ok k reason w w' :
  wf_view (view w) -> revoke k reason w = (w', Ok ()) ->
  exists m m', view w !! k = Some m /\ state m = Active /\ state m' = Revoked /\
    parent_id m' = parent_id m /\ view w' = <[ k := m' ]> (view w).
Proof.
  intros Hwf.
  enough (H : wp (revoke k reason) (fun r w' => r = Ok () -> exists m m',
    view w !! k = Some m /\ state m = Active /\ state m' = Revoked /\
    parent_id m' = parent_id m /\ view w' = <[ k := m' ]> (view w)) w).
  { intros E. by apply (wp_run _ _ _ _ _ H E). }
  unfold revoke. repeat (ks_step; try done). bool_hyps.
  pose proof (wf_id _ _ (Hwf _ _ H)) as Hid. apply wp_put; [exact (storable_read _ _ _ H)| |done].
  intros s [[]|[e|]] Hs _; cbn beta iota; try done. ks_step; [|done..]. intros _.
  eexists m, _. split_and!; [done|done| | |views; unfold view at 1; cbn; rewrite Hs; cbn; views; by rewrite Hid].
  all: done.
Qed.

(** The usable keys below [k], through usable keys that are not in [bad]. *)
Inductive below (v : keymap) (bad : list string) (k : string) : string -> Prop :=
| below_child c m :
    v !! c = Some m -> parent_id m = Some k -> live m -> c <> k -> c ∉ bad -> below v bad k c
| below_step p c m :
    below v bad k p -> v !! c = Some m -> parent_id m = Some p -> live m ->
    c <> k -> c ∉ bad -> below v bad k c.

Lemma live_keys_size v : (size (live_keys v) <= size v)%nat.
Proof.
  rewrite <- (size_dom (D := gset string)). apply subseteq_size. intros k (m & Hm & _)%live_keys_spec.
  apply elem_of_dom. by exists m.
Qed.

(** C16: The cascade finishes, revokes its target, and suspends every usable descendant
    that it can reach through usable keys and that it does not report. *)
Theorem revoke_cascade_suspends fuel k reason w w' r :
  wf_view (view w) -> (size (view w) + 2 <= fuel)%nat ->
  revoke_cascade fuel k reason w = (w', Ok r) ->
  exists n errs, r = Some (1, n, errs) /\
    (exists m, view w' !! k = Some m /\ state m = Revoked) /\
    (forall d, below (view w) errs.*1 k d -> is_suspended (view w') d).
Proof.
  intros Hwf Hfuel.
  enough (H : wp (revoke_cascade fuel k reason) (fun x w' => x = Ok r -> exists n errs,
    r = Some (1, n, errs) /\ (exists m, view w' !! k = Some m /\ state m = Revoked) /\
    (forall d, below (view w) errs.*1 k d -> is_suspended (view w') d)) w).
  { intros E. by apply (wp_run _ _ _ _ _ H E). }
  unfold revoke_cascade. apply wp_bind, wp_intro. intros w1 [[]|e] E; [|done].
  assert (Hwf1 : wf_view (view w1)).
  { pose proof (legal_revoke k reason w) as L. rewrite E in L. by apply (lg_keys _ _ L). }
  destruct (revoke_Ok _ _ _ _ Hwf E) as (m & m' & Hm & Ha & Hr & Hpar & Hv1).
  apply wp_bind. eapply (loop_spec (view w1) _ []); [done| | | |done].
  - split; [reflexivity| |done]. intros ???; set_solver.
  - intros w2 _ _ Hf. exfalso. pose proof (live_keys_size (view w1)) as Hz. cbn [queue length] in Hf.
    assert (size (view w1) = size (view w)); [|lia].
    rewrite Hv1, map_size_insert, Hm. done.
  - intros st' D' w2 _ [Hs Hch _] Hq HD. cbn. apply wp_ret. intros [= <-].
    exists (suspended st'), (c_errors st'). split_and!; [done| |].
    + exists m'. split; [|done]. destruct (Hs k) as [E'|(m0 & t & E' & Hl & _)].
      * by rewrite E', Hv1, lookup_insert_eq.
      * exfalso. rewrite Hv1, lookup_insert_eq in E'. injection E' as <-. unfold live in Hl.
        naive_solver congruence.
    + assert (G : forall d, below (view w) (c_errors st').*1 k d ->
        d ∈ D' /\ is_suspended (view w2) d); [|by intros d []%G].
      assert (S : forall p c mc, p ∈ D' -> view w !! c = Some mc -> parent_id mc = Some p -> live mc ->
        c <> k -> c ∉ (c_errors st').*1 -> c ∈ D' /\ is_suspended (view w2) c).
      { intros p c mc Hp Hc Hpc Hl Hck Hbad. destruct (Hch p c mc Hp) as [[Hin Hsus]|]; [..|done].
        - by rewrite Hv1, lookup_insert_ne.
        - done.
        - done.
        - rewrite Hq, app_nil_r in Hin. done. }
      induction 1 as [c mc|p c mc _ [IH _]]; [eapply S; [apply HD|..]|eapply S]; try done.
      cbn. set_solver.
Qed.
End loop.
End KsCascade.
