(* ===== verification/KeystoreRuns.v ===== *)
(** * Runs of the keystore

    Every public operation as a command, sequences of commands, and the
    lifecycle guarantee over them. *)

From S2P Require Import Prelude.
From S2P Require Import Wire.
From S2P Require Import WireV2.
From S2P Require Import Crypto.
From S2P Require Import Envelope.
From S2P Require Import Enforcer.
From S2P Require Import F64.
From S2P Require Import Types.
From S2P Require Import Hierarchy.
From S2P Require Import Policy.
From S2P Require Import AuditLog.
From S2P Require Import Threat.
From S2P Require Import Storage.
From S2P Require Import Replay.
From S2P Require Import KeystoreBase.
From S2P Require Import KeystoreWrap.
From S2P Require Import Keystore.
From S2P Require Import KeystoreCrypto.
From S2P Require Import KeystoreSign.
From S2P Require Import Migration.
From S2P Require Import KeystoreFrame.
From S2P Require Import KeystoreLaws.
From S2P Require Import KeystoreCascade.
Import Types.

Module KsRuns.
Import Wrap Keystore KsCrypto KsSign KsLaws.

Inductive command : Type :=
| CmdGenerate (name : string) (t : KeyType) (policy parent : option string)
| CmdGenerateSigning (name : string) (policy : option string) (parent : string)
| CmdActivate (k : string)
| CmdRotate (k : string)
| CmdRewrap (k : string) (new_parent : option string)
| CmdRevoke (k reason : string)
| CmdRevokeCascade (fuel : nat) (k reason : string)
| CmdExpire (k : string)
| CmdExpireDue
| CmdDestroy (k : string)
| CmdEncrypt (k : string) (plaintext aad context : list byte)
| CmdDecrypt (blob : EncryptedBlob) (aad context : list byte)
| CmdEncryptAuthorized (authz : Enforcer.AuthorizedContext) (plaintext aad context : list byte)
| CmdDecryptAuthorized (authz : Enforcer.AuthorizedContext) (blob : EncryptedBlob) (aad context : list byte)
| CmdSign (k : string) (message : list byte)
| CmdSignAuthorized (authz : Enforcer.AuthorizedContext) (message : list byte)
| CmdVerify (k : string) (message : list byte) (payload : SignedPayload)
| CmdRegisterPolicy (p : Policy.KeyPolicy)
| CmdEvaluatePolicy (k : string)
| CmdEvaluateAdaptive (k : string)
| CmdRotationDue
| CmdAdaptiveRotationDue
| CmdThreatEvent (kind : Threat.ThreatEventKind) (severity : f64) (detail : option string)
| CmdThreatEvents (es : list Threat.ThreatEvent)
| CmdResetThreat
| CmdSecurityMetrics
| CmdResolveDomain (k : string)
| CmdShouldExpire (k : string)
| CmdMigrate (opened : result string unit) (dry_run execute : bool) (root_name domain_name kek_name : string)
(** a reading of the clock, of random bytes or of the storage *)
| CmdRead
| CmdThreatLevel
| CmdAudit (a : Audit.AuditAction)
(** the enforcer is shared: others register, revoke and authorize on it *)
| CmdEnforcer (c : Enforcer.call).

Section runs.
Context {PF : Platform}.

Definition enforcer_call {E} (c : Enforcer.call) : M E (option Enforcer.answer) :=
  e ← asks enforcer;
  match e with
  | Some s =>
      let '(s', a) := Enforcer.exec s c in
      _ ← modify (set_enforcer (Some s')); mret (Some a)
  | None => mret None
  end.

Definition event_of (kd : Threat.ThreatEventKind) (sev : f64) (d : option string) (t : Z) : Threat.ThreatEvent :=
  let e := Threat.event_new t kd sev in
  match d with Some d => Threat.with_detail e d | None => e end.

Definition exec (c : command) (w : World) : World :=
  match c with
  | CmdGenerate n t p par => (generate n t p par w).1
  | CmdGenerateSigning n p par => (generate_signing_key n p par w).1
  | CmdActivate k => (activate k w).1
  | CmdRotate k => (rotate k w).1
  | CmdRewrap k p => (rewrap k p w).1
  | CmdRevoke k r => (revoke k r w).1
  | CmdRevokeCascade fuel k r => (revoke_cascade fuel k r w).1
  | CmdExpire k => (expire k w).1
  | CmdExpireDue => (expire_due_keys w).1
  | CmdDestroy k => (destroy k w).1
  | CmdEncrypt k pt aad ctx => (encrypt k pt aad ctx w).1
  | CmdDecrypt b aad ctx => (decrypt b aad ctx w).1
  | CmdEncryptAuthorized a pt aad ctx => (encrypt_authorized a pt aad ctx w).1
  | CmdDecryptAuthorized a b aad ctx => (decrypt_authorized a b aad ctx w).1
  | CmdSign k m => (sign k m w).1
  | CmdSignAuthorized a m => (sign_authorized a m w).1
  | CmdVerify k m p => (verify_signature k m p w).1
  | CmdRegisterPolicy p => (register_policy (E := KeystoreError) p w).1
  | CmdEvaluatePolicy k => (evaluate_policy k w).1
  | CmdEvaluateAdaptive k => (evaluate_adaptive_policy k w).1
  | CmdRotationDue => (check_rotation_due w).1
  | CmdAdaptiveRotationDue => (check_adaptive_rotation_due w).1
  | CmdThreatEvent kd sev d => (record_threat_event (E := KeystoreError) (event_of kd sev d) w).1
  | CmdThreatEvents es => (record_threat_events (E := KeystoreError) es w).1
  | CmdResetThreat => (reset_threat_state (E := KeystoreError) w).1
  | CmdSecurityMetrics => (security_metrics w).1
  | CmdResolveDomain k => (resolve_domain_for_key k w).1
  | CmdShouldExpire k => (should_expire k w).1
  | CmdMigrate op dry ex r d k => (Migration.cmd_hierarchy (E := KeystoreError) op dry ex r d k w).1
  | CmdRead => (tick (E := KeystoreError) w).1
  | CmdThreatLevel => (current_threat_level (E := KeystoreError) w).1
  | CmdAudit a => (record_audit_event (E := KeystoreError) a w).1
  | CmdEnforcer c => (enforcer_call (E := KeystoreError) c w).1
  end.

Fixpoint run (cs : list command) (w : World) : World :=
  match cs with [] => w | c :: cs => run cs (exec c w) end.

Lemma run_commands_app cs1 cs2 w : run (cs1 ++ cs2) w = run cs2 (run cs1 w).
Proof. revert w. induction cs1 as [|c cs1 IH]; intros w; cbn; [done|]. apply IH. Qed.

Section laws.
Context {PL : PlatformLaws PF}.

#[export] Instance legal_encrypt k pt aad ctx : Keeps legal (encrypt k pt aad ctx).
Proof.
  method (encrypt k pt aad ctx). unfold encrypt. ks_run. bool_hyps.
  match goal with H : can_encrypt _ = true |- _ => apply bool_decide_eq_true in H as Hact end.
  eapply wp_put_legal; [at_view| |exact (storable_read _ _ _ H)|after_put].
  apply updates_state; cbn; [done|constructor|by left; rewrite Hact|done].
Qed.

#[export] Instance legal_give_back {E} k : Keeps (E := E) legal (give_back k).
Proof. unfold give_back. apply _. Qed.
#[export] Instance legal_claim_slot k b m : Keeps legal (claim_slot k b m).
Proof. unfold claim_slot. apply _. Qed.
#[export] Instance legal_open_claimed k d b m v c aad ctx :
  Keeps legal (open_claimed k d b m v c aad ctx).
Proof. unfold open_claimed. keeps_walk. Qed.
#[export] Instance legal_decrypt b aad ctx : Keeps legal (decrypt b aad ctx).
Proof.
  unfold decrypt. keeps_walk.
Qed.

#[export] Instance legal_validate_authz a : Keeps legal (validate_authz a).
Proof. unfold validate_authz. apply _. Qed.
#[export] Instance legal_encrypt_authorized a pt aad ctx :
  Keeps legal (encrypt_authorized a pt aad ctx).
Proof. unfold encrypt_authorized. apply _. Qed.
#[export] Instance legal_decrypt_authorized a b aad ctx : Keeps legal (decrypt_authorized a b aad ctx).
Proof. unfold decrypt_authorized. apply _. Qed.
#[export] Instance legal_sign_authorized a m : Keeps legal (sign_authorized a m).
Proof. unfold sign_authorized. apply _. Qed.
#[export] Instance legal_expire_one m r : Keeps legal (expire_one m r).
Proof. unfold expire_one. apply _. Qed.
#[export] Instance legal_expire_all ms r : Keeps legal (expire_all ms r).
Proof. revert r. induction ms as [|m ms IH]; intros r; cbn [expire_all]; apply _. Qed.
#[export] Instance legal_expire_due : Keeps legal expire_due_keys.
Proof. unfold expire_due_keys. apply _. Qed.
#[export] Instance legal_register {E} p : Keeps (E := E) legal (register_policy p).
Proof. unfold register_policy. apply _. Qed.
#[export] Instance legal_migrate {E} op dry ex r d k : Keeps (E := E) legal (Migration.cmd_hierarchy op dry ex r d k).
Proof. apply (keeps_migration _ calm_legal). Qed.
#[export] Instance legal_enforcer_call {E} c : Keeps (E := E) legal (enforcer_call c).
Proof. unfold enforcer_call. apply _. Qed.

#[export] Instance calm_due f g ms : Keeps calm (rotation_due_among f g ms).
Proof. induction ms as [|m ms IH]; cbn [rotation_due_among]; apply _. Qed.
#[export] Instance calm_count l ms n : Keeps calm (count_compliant l ms n).
Proof. revert n. induction ms as [|m ms IH]; intros n; cbn [count_compliant]; apply _. Qed.

(** Every command preserves the invariant and lets keys only evolve. *)
Lemma exec_legal c w : wf_view (view w) -> legal w (exec c w).
Proof.
  assert (G : forall E A (m : M E A), Keeps legal m -> legal w (m w).1) by (intros E A m Hm; apply Hm).
  intros Hwf. destruct c; cbn [exec]; try (apply G; apply _).
  - by apply KsCascade.legal_cascade_wf.
Qed.

Lemma run_legal cs w : wf_view (view w) -> legal w (run cs w).
Proof.
  revert w. induction cs as [|c cs IH]; intros w Hwf; [reflexivity|]. cbn [run].
  pose proof (exec_legal c w Hwf) as L. etransitivity; [exact L|]. apply IH. by apply L.
Qed.

(** No identifier still to be drawn names an existing key. *)
Definition fresh_ids (w : World) : Prop := forall i, (pos w <= i)%nat -> view w !! name_at w i = None.

Lemma run_evolves cs w k m m' :
  wf_view (view w) -> fresh_ids w -> view w !! k = Some m -> view (run cs w) !! k = Some m' ->
  evolves m m'.
Proof.
  intros Hwf Hf Hm Hm'. destruct (lg_keys _ _ (run_legal cs w Hwf) Hwf) as [_ HK].
  destruct (HK k m' Hm') as [(m0 & Hm0 & He)|(i & [Hi _] & ->)]; [congruence|].
  rewrite (Hf i Hi) in Hm. done.
Qed.

Lemma destroyed_stays k m m' :
  wf_key k m' -> evolves m m' -> state m = Destroyed ->
  state m' = Destroyed /\ Forall (fun v => secret_key_material v = Purged) (versions m').
Proof.
  intros Hk He Hd. assert (Hd' : state m' = Destroyed).
  { pose proof (ev_state _ _ He) as Hr. rewrite Hd in Hr. inversion Hr as [|? t ? Ht]; [done|]. by destruct t. }
  split; [done|]. eapply Forall_impl; [by apply (wf_purged _ _ Hk)|]. by intros v [? _].
Qed.

(** C2: Whatever operations are performed, in any order and with any outcome, a key that
    is still there has only evolved: same identity, parent and policy, a state reached
    by valid transitions, its versions kept and numbered; in particular a destroyed key
    stays destroyed, without material, and no operation ever enters the state [Rotated]. *)
Theorem lifecycle_sound cs w k m m' :
  wf_view (view w) -> fresh_ids w -> view w !! k = Some m -> view (run cs w) !! k = Some m' ->
  evolves m m' /\ wf_key k m' /\
  (state m = Destroyed -> state m' = Destroyed /\
     Forall (fun v => secret_key_material v = Purged) (versions m')) /\
  (state m <> Rotated -> state m' <> Rotated).
Proof.
  intros Hwf Hf Hm Hm'. pose proof (run_evolves _ _ _ _ _ Hwf Hf Hm Hm') as He.
  pose proof (proj1 (lg_keys _ _ (run_legal cs w Hwf) Hwf) k m' Hm') as Hk.
  split_and!; [done..| |].
  - by apply (destroyed_stays k).
  - intros Hn Hr. by apply Hn, (ev_rotated _ _ He).
Qed.
End laws.
End runs.
End KsRuns.
