(* ===== verification/KeystoreGates.v ===== *)
(** * What encryption and decryption require

    The conditions under which the raw and the authorized operations succeed,
    and that a ciphertext is decrypted at most once. *)

From S2P Require Import Prelude.
From S2P Require Import Wire.
From S2P Require Import WireV2.
From S2P Require Import Crypto.
From S2P Require Import Envelope.
From S2P Require Import Enforcer.
From S2P Require Import F64.
From S2P Require Import Types.
From S2P Require Import Hierarchy.
From S2P Require Import Policy.
From S2P Require Import AuditLog.
From S2P Require Import Threat.
From S2P Require Import Storage.
From S2P Require Import Replay.
From S2P Require Import KeystoreBase.
From S2P Require Import KeystoreWrap.
From S2P Require Import Keystore.
From S2P Require Import KeystoreCrypto.
From S2P Require Import KeystoreSign.
From S2P Require Import KeystoreFrame.
From S2P Require Import KeystoreLaws.
From S2P Require Import KeystoreCascade.
From S2P Require Import KeystoreRuns.
Import Types.

Module KsGates.
Import Wrap Keystore KsCrypto KsLaws KsRuns.

Notation keymap := (gmap string KeyMetadata).

(** ** Reading the key graph *)

(** The nearest ancestor of type [Domain], the key itself included. *)
Inductive in_domain (v : keymap) : string -> string -> Prop :=
| dom_self k m : v !! k = Some m -> key_type m = Domain -> in_domain v k (id m)
| dom_up k m p d :
    v !! k = Some m -> key_type m <> Domain -> key_type m <> Root -> parent_id m = Some p ->
    in_domain v p d -> in_domain v k d.

(** Every version that wraps [kv], directly or not, belongs to a key that is
    active or rotated. *)
Inductive usable_chain (v : keymap) : KeyVersion -> Prop :=
| chain_end kv :
    is_citadel_wrapped (secret_key_material kv) = false -> secret_key_material kv <> Purged ->
    usable_chain v kv
| chain_wrapped kv p pm n pkv :
    is_citadel_wrapped (secret_key_material kv) = true ->
    wrapping_key_id kv = Some p -> v !! p = Some pm -> state pm = Active \/ state pm = Rotated ->
    wrapping_key_version kv = Some n -> get_version pm n = Some pkv -> usable_chain v pkv ->
    usable_chain v kv.

Lemma in_domain_stable v v' k d d' :
  (forall x m m', v !! x = Some m -> v' !! x = Some m' -> evolves m m') ->
  in_domain v k d -> in_domain v' k d' -> d = d'.
Proof.
  intros He Hd. revert d'. induction Hd as [k m Hm Ht|k m p d Hm Ht1 Ht2 Hp _ IH]; intros d' Hd'.
  - destruct Hd' as [k m' Hm'|k m' ?? Hm']; destruct (He _ _ _ Hm Hm'); congruence.
  - destruct Hd' as [k m' Hm'|k m' p' d' Hm' ?? Hp' Hd']; destruct (He _ _ _ Hm Hm'); [congruence|].
    apply IH. congruence.
Qed.

Section gates.
Context {PF : Platform} {PL : PlatformLaws PF}.

Lemma mapping_Ok {E F A} (f : E -> F) (m : M E A) w w' a :
  mapping f m w = (w', Ok a) <-> m w = (w', Ok a).
Proof. unfold mapping. destruct (m w) as [w0 [x|[e|]]]; naive_solver. Qed.

Lemma bindM_Ok {E A B} (m : M E A) (f : A -> M E B) w w' b :
  (m ≫= f) w = (w', Ok b) -> exists w1 a, m w = (w1, Ok a) /\ f a w1 = (w', Ok b).
Proof. unfold mbind, M_bind. destruct (m w) as [w1 [a|e]]; [eauto|done]. Qed.

Lemma get_Ok k w w' m : get k w = (w', Ok m) -> view w !! k = Some m.
Proof.
  intros E. apply (wp_Ok (fun m _ => view w !! k = Some m) _ _ _ _ E).
  apply wp_ks_get; [|done]. intros m0 w1 Hm _ ? [= <-]. done.
Qed.

Lemma resolve_from_Ok n dp k0 k w w' d :
  resolve_from n dp k0 k w = (w', Ok d) -> in_domain (view w) k d.
Proof.
  revert dp k w w' d. induction n as [|n IH]; intros dp k w w' d; cbn [resolve_from]; [done|].
  intros E. apply (wp_Ok (fun d _ => in_domain (view w) k d) _ _ _ _ E). clear E.
  apply wp_bind, wp_ks_get; [|done]. intros m w1 Hm Hc.
  destruct (key_type m) eqn:Ht.
  1: { apply wp_throw. done. }
  1: { apply wp_ret. intros ? [= <-]. by eapply dom_self. }
  all: apply wp_bind, wp_or_throw; [|done]; intros p Hp; apply wp_intro; intros w2 r E2 d' ->.
  all: apply IH in E2; rewrite (calm_view _ _ Hc) in E2; eapply dom_up; eauto; by rewrite Ht.
Qed.

Lemma resolve_Ok k w w' d : resolve_domain_for_key k w = (w', Ok d) -> in_domain (view w) k d.
Proof. apply resolve_from_Ok. Qed.

(** An unwrapping that respects the states of the parents succeeds only along
    a usable chain. *)
Lemma find_parent_Ok k kv b w w' p pkv :
  find_parent k kv b w = (w', Ok (p, pkv)) ->
  calm w w' /\ wrapping_key_id kv = Some p /\
  exists pm n, view w !! p = Some pm /\ (b = false -> state pm = Active \/ state pm = Rotated) /\
    wrapping_key_version kv = Some n /\ get_version pm n = Some pkv.
Proof.
  intros E. split; [pose proof (calm_find_parent k kv b w) as C; by rewrite E in C|].
  apply (wp_Ok (fun x _ => wrapping_key_id kv = Some x.1 /\
    exists pm n, view w !! x.1 = Some pm /\ (b = false -> state pm = Active \/ state pm = Rotated) /\
    wrapping_key_version kv = Some n /\ get_version pm n = Some x.2) _ _ _ _ E).
  unfold find_parent. ks_step. ks_step; [|done]. ks_step. ks_step.
  apply wp_get; [|done]. ks_step. ks_step; [|done]. ks_step.
  destruct (negb b && negb (usable (state a0))) eqn:Eb; [repeat (ks_step; try done)|].
  apply wp_ret. cbn beta iota. repeat (ks_step; try done). intros ? [= <-].
  split; [done|]. exists a0, a1. split_and!; try done.
  intros ->. cbn in Eb. by apply negb_false_iff, bool_decide_eq_true in Eb.
Qed.

Lemma unwrap_chain n k kv w w' bs :
  unwrap_key_version_inner n k kv false w = (w', Ok bs) -> usable_chain (view w) kv.
Proof.
  revert k kv w w' bs. induction n as [|n IH]; intros k kv w w' bs E;
    [done|]. cbn [unwrap_key_version_inner] in E.
  destruct (secret_key_material kv) eqn:Em; [by apply chain_end; rewrite Em| |by apply chain_end; rewrite Em|done].
  apply (wp_Ok (fun _ _ => usable_chain (view w) kv) _ _ _ _ E).
  apply wp_bind, wp_intro. intros w1 [[p pkv]|e] E1; [|done].
  apply find_parent_Ok in E1 as (C & Hp & pm & v & Hpm & Hst & Hv & Hpkv).
  apply wp_bind, wp_intro. intros w2 [bs2|e] E2; [|done]. apply IH in E2.
  rewrite (calm_view _ _ C) in E2. apply wp_intro. intros w3 r _ bs3 _.
  eapply chain_wrapped; [by rewrite Em|done|done|by apply Hst|done|done|done].
Qed.

(** ** The policy in force *)

(** The clock at the [i]-th access from [w] on. *)
Definition clock (w : World) (i : nat) : Z := rd_now (tape w (pos w + i)).

Lemma keeps_Ok {E A} (m : M E A) `{!Keeps calm m} w w' r : m w = (w', r) -> calm w w'.
Proof. intros H. pose proof (keeps (m := m) w) as C. by rewrite H in C. Qed.
Lemma get_world k w w' r : get k w = (w', r) -> w' = advance w.
Proof.
  unfold get, storage_get, st_query, mbind, M_bind. destruct (st_get _ _ _) as [[m|]|e];
    intros [= <- _]; reflexivity.
Qed.

Lemma level_Ok {E} w w' level :
  current_threat_level (E := E) w = (w', Ok level) ->
  exists a, threat w = Some a /\ level = (Threat.current_level (clock w 0) (clock w 1) (clock w 2) a).2 /\
    policies w' = policies w /\ tape w' = tape w /\ pos w' = (pos w + 3)%nat.
Proof.
  unfold current_threat_level, now, tick, with_threat, mbind, M_bind, mret, M_ret, reading, clock. cbn.
  destruct (threat w) as [a|]; [|done]. rewrite Nat.add_0_r.
  rewrite !(Nat.add_comm (pos w)). cbn. destruct (Threat.current_level _ _ _ a) as [[a' evs] l] eqn:El.
  intros [= <- <-]. exists a. by rewrite El.
Qed.

(** The policy in force, as the call reads it: three readings for the threat
    level, two for the evaluation. *)
Lemma policy_Ok {E} m w w' p :
  effective_policy_for (E := E) m w = (w', Ok p) ->
  exists a, threat w = Some a /\ tape w' = tape w /\ pos w' = (pos w + 3)%nat /\
    p = (fun b => Threat.adapt b (Threat.current_level (clock w 0) (clock w 1) (clock w 2) a).2)
          <$> policy_of w m.
Proof.
  unfold effective_policy_for, mbind, M_bind.
  destruct (current_threat_level w) as [w1 [level|e]] eqn:E1; [|done]. intros [= <- <-].
  apply level_Ok in E1 as (a & Ha & -> & Hp & Ht & Hn). exists a. split_and!; [done..|].
  unfold policy_of. by rewrite Hp.
Qed.

Lemma evaluate_now_Ok {E} p m w w' v :
  evaluate_now (E := E) p m w = (w', Ok v) -> Policy.evaluate (clock w 0) (clock w 1) p m = Some v.
Proof.
  unfold evaluate_now, now, tick, mbind, M_bind, mret, M_ret, reading, clock, lift. cbn.
  rewrite Nat.add_0_r, Nat.add_1_r. by intros [= _ H%ok_or_Ok].
Qed.

(** The key's policy, adapted to the threat level at the time of the check
    (which starts in [w]) and evaluated at that time, gives a verdict that
    satisfies [P]. *)
Definition policy_verdict (w : World) (m : KeyMetadata) (P : Policy.PolicyVerdict -> Prop) : Prop :=
  forall base, policy_of w m = Some base ->
  exists a v, threat w = Some a /\
    Policy.evaluate (clock w 3) (clock w 4)
      (Threat.adapt base (Threat.current_level (clock w 0) (clock w 1) (clock w 2) a).2) m = Some v /\
    P v.

Lemma verdict_intro {E} m w w1 w2 p v (P : Policy.PolicyVerdict -> Prop) :
  effective_policy_for (E := E) m w = (w1, Ok (Some p)) -> evaluate_now (E := E) p m w1 = (w2, Ok v) ->
  P v -> policy_verdict w m P.
Proof.
  intros (a & Ha & Ht & Hn & Hp)%policy_Ok Hv%evaluate_now_Ok HP base Hb. exists a, v.
  rewrite Hb in Hp. injection Hp as ->. split_and!; [done| |done].
  revert Hv. unfold clock. rewrite Ht, Hn, Nat.add_0_r, <- Nat.add_assoc. done.
Qed.

Lemma verdict_none {E} m w w1 P :
  effective_policy_for (E := E) m w = (w1, Ok None) -> policy_verdict w m P.
Proof. intros (a & _ & _ & _ & Hp)%policy_Ok base Hb. by rewrite Hb in Hp. Qed.

Lemma enforce_policy_Ok k m w w' :
  enforce_policy k m w = (w', Ok ()) ->
  policy_verdict w m (fun v => v = Policy.Compliant \/ exists r, v = Policy.PWarning r).
Proof.
  unfold enforce_policy. intros (w1 & [p|] & H1 & H)%bindM_Ok; [|by eapply verdict_none].
  apply bindM_Ok in H as (w2 & v & H2 & H). eapply verdict_intro; [done..|].
  destruct v; cbn in H; [by left|done|right; eauto|done|done].
Qed.

Lemma check_cryptoperiod_Ok k m w w' :
  check_cryptoperiod k m w = (w', Ok ()) ->
  policy_verdict w m (fun v => Policy.is_expired v = false).
Proof.
  unfold check_cryptoperiod. intros (w1 & [p|] & H1 & H)%bindM_Ok; [|by eapply verdict_none].
  apply bindM_Ok in H as (w2 & v & H2 & H). eapply verdict_intro; [done..|].
  by destruct v.
Qed.

Lemma lift_Ok {E A} (r : result (fault E) A) w w' a : lift r w = (w', Ok a) -> w' = w /\ r = Ok a.
Proof. unfold lift. naive_solver. Qed.
Lemma decode_hex_Ok s w w' b : decode_hex s w = (w', Ok b) -> hex_decode s = Some b.
Proof. unfold decode_hex. destruct (hex_decode s); cbn; intros [=]; congruence. Qed.
Lemma seal_Ok pk pt aad ctx w w' ct :
  seal pk pt aad ctx w = (w', Ok ct) ->
  exists r, Engine.encrypt (K := hybrid_kem) (rd_draws r) (rd_nonce r) pk pt aad ctx = Ok ct.
Proof. unfold seal. cbn. unfold lift. intros [= _ H]. eauto. Qed.

(** ** Encryption *)

(** What a successful encryption has checked, produced and written.  The key is
    read first, so the policy is checked one access after the start. *)
Record encrypted (w w' : World) (k : string) (pt aad ctx : list byte) (blob : EncryptedBlob)
    (m : KeyMetadata) (v : KeyVersion) (pk : Kem.PublicKey) (d : string) (ct : list byte) : Prop := {
  en_key : view w !! k = Some m;
  en_state : state m = Active;
  en_type : key_type m = DataEncrypting \/ key_type m = HybridIdentity;
  en_policy : policy_verdict (advance w) m (fun v => v = Policy.Compliant \/ exists r, v = Policy.PWarning r);
  en_version : current_key_version m = Some v;
  en_public : exists bs, hex_decode (public_key_hex v) = Some bs /\ Kem.PublicKey_from_bytes bs = Ok pk;
  en_domain : in_domain (view w) k d;
  en_sealed : exists r, Engine.encrypt (K := hybrid_kem) (rd_draws r) (rd_nonce r) pk pt
                          (bound_aad d aad) ctx = Ok ct;
  en_blob : blob_key_id blob = k /\ key_version blob = current_version m /\
            ciphertext_hex blob = hex_encode ct;
  en_counted : exists t, view w' = <[ id m := set_updated t (set_usage
                 (wrapping_add 64 (usage_count m) 1) m) ]> (view w);
  en_replay : replay w' = replay w;
}.

Lemma encrypt_Ok k pt aad ctx w w' blob :
  encrypt k pt aad ctx w = (w', Ok blob) ->
  exists m v pk d ct, encrypted w w' k pt aad ctx blob m v pk d ct.
Proof.
  intros H. refine (wp_Ok (fun blob w' => exists m v pk d ct,
    encrypted w w' k pt aad ctx blob m v pk d ct) _ _ _ _ H _). clear H.
  unfold encrypt. apply wp_bind, wp_mapping, wp_intro. intros w'0 [m|[e|]] E; cbn beta iota; [|done..].
  pose proof (get_Ok _ _ _ _ E) as H. pose proof (get_world _ _ _ _ E) as Hw.
  apply keeps_Ok in E as H0; [|apply _]. clear E.
  repeat (ks_step; try done). bool_hyps.
  match goal with H : can_encrypt _ = true |- _ => apply bool_decide_eq_true in H end.
  match goal with H : (negb _ && negb _)%bool = false |- _ => apply andb_false_iff in H end.
  match goal with H : enforce_policy _ _ _ = _ |- _ => destruct a; apply enforce_policy_Ok in H end.
  match goal with H : decode_hex _ _ = _ |- _ => apply decode_hex_Ok in H end.
  match goal with H : lift _ _ = _ |- _ => apply lift_Ok in H as [-> Hpk] end.
  match goal with H : resolve_domain_for_key _ _ = _ |- _ => apply resolve_Ok in H end.
  match goal with H : seal _ _ _ _ _ = _ |- _ => apply seal_Ok in H end.
  match goal with |- wp _ _ ?x => assert (C : calm w x) by calm_chain end.
  apply wp_put; [exact (storable_read _ _ _ H)| |done]. intros s [[]|[e|]] Hs _; cbn beta iota; try done.
  repeat (ks_step; try done). intros b [= <-].
  assert (C2 : exists x y, view x = <[ id m := set_updated a5 (set_usage (wrapping_add 64 (usage_count m) 1) m) ]> (view w) /\
    replay x = replay w /\ calm x y /\ y = w'7).
  { exists (set_store s (advance w'6)), w'7. split_and!; [|cbn; by apply C|calm_chain|done].
    unfold view at 1. cbn. by rewrite Hs, (calm_view _ _ C). }
  destruct C2 as (x & y & Hx & Hrx & Cx & ->).
  do 5 eexists. split; try done.
  - destruct H2 as [H2|H2]; apply negb_false_iff, bool_decide_eq_true in H2; auto.
  - by rewrite <- Hw.
  - eauto.
  - rewrite <- (calm_view w w'2); [done|]. clear C Cx. calm_chain.
  - exists a5. by rewrite (calm_view _ _ Cx).
  - by rewrite (calm_replay _ _ Cx).
Qed.

(** ** Decryption *)

Lemma on_error_Ok {E F A} (m : M E A) (h : E -> M F A) w w' a :
  on_error m h w = (w', Ok a) -> m w = (w', Ok a) \/ exists e w1, h e w1 = (w', Ok a).
Proof. unfold on_error. destruct (m w) as [w1 [x|[e|]]]; [by intros [= -> ->]; left|eauto|done]. Qed.
Lemma throw_if_Ok {E} b (e : E) w w' u : throw_if b e w = (w', Ok u) -> b = false /\ w' = w.
Proof. destruct b; cbn; [done|]. by intros [= ->]. Qed.
Lemma or_throw_Ok {E A} (o : option A) (e : E) w w' a : or_throw o e w = (w', Ok a) -> o = Some a /\ w' = w.
Proof. destruct o; cbn; [|done]. by intros [= -> ->]. Qed.
Lemma claim_slot_Ok key blob m w w' :
  claim_slot key blob m w = (w', Ok ()) ->
  (claim (rd_rs (reading w)) key REPLAY_TTL (replay w)).2 = Ok true /\
  w' = set_replay (claim (rd_rs (reading w)) key REPLAY_TTL (replay w)).1 (advance w).
Proof.
  unfold claim_slot. intros (w1 & r & H1 & H2)%bindM_Ok.
  unfold attempt, replay_claim in H1. destruct (claim _ _ _ _) as [s [b|e]]; cbn in *.
  - injection H1 as <- <-. destruct b; [|done]. injection H2 as <-. done.
  - injection H1 as <- <-. done.
Qed.

Lemma open_claimed_Ok key d blob m kv ct aad ctx w w' pt :
  open_claimed key d blob m kv ct aad ctx w = (w', Ok pt) ->
  calm w w' /\ usable_chain (view w) kv /\ exists sk bs w1,
    unwrap_key_version (blob_key_id blob) kv 0 w = (w1, Ok bs) /\ Kem.SecretKey_from_bytes bs = Ok sk /\
    Engine.decrypt (K := hybrid_kem) sk ct (bound_aad d aad) ctx = Ok pt.
Proof.
  unfold open_claimed. cbv zeta. intros (w1 & bs & H1 & H)%bindM_Ok.
  apply on_error_Ok in H1 as [H1|(? & ? & (? & ? & _ & [=])%bindM_Ok)].
  apply bindM_Ok in H as (w2 & sk & H2 & H).
  apply on_error_Ok in H2 as [[-> H2]%lift_Ok|(? & ? & (? & ? & _ & [=])%bindM_Ok)].
  apply on_error_Ok in H as [H|(? & ? & H)].
  - unfold open in H. apply lift_Ok in H as [-> H]. split; [by apply (keeps_Ok _ _ _ _ H1)|].
    split; [by eapply unwrap_chain|]. by exists sk, bs, w1.
  - exfalso. do 3 (apply bindM_Ok in H as (? & ? & _ & H)). done.
Qed.

(** What a successful decryption has checked; [wc] is the world at the claim. *)
Record decrypted (w w' wc : World) (blob : EncryptedBlob) (aad ctx pt : list byte) (m : KeyMetadata)
    (kv : KeyVersion) (d : string) (ct nonce : list byte) : Prop := {
  de_key : view w !! blob_key_id blob = Some m;
  de_state : state m = Active \/ state m = Rotated;
  de_policy : policy_verdict (advance w) m (fun v => Policy.is_expired v = false);
  de_version : get_version m (key_version blob) = Some kv;
  de_ct : hex_decode (ciphertext_hex blob) = Some ct;
  de_len : 16 <= len ct;
  de_domain : in_domain (view w) (blob_key_id blob) d;
  de_nonce : WireV2.envelope_nonce ct = Ok nonce;
  de_before : calm w wc;
  de_claim : (claim (rd_rs (reading wc))
    (Replay.derive_replay_key d (blob_key_id blob) (key_version blob) nonce (aead_tag ct))
    REPLAY_TTL (replay wc)).2 = Ok true;
  de_after : calm (set_replay (claim (rd_rs (reading wc))
    (Replay.derive_replay_key d (blob_key_id blob) (key_version blob) nonce (aead_tag ct))
    REPLAY_TTL (replay wc)).1 (advance wc)) w';
  de_chain : usable_chain (view w) kv;
  de_open : exists w1 w2 bs sk, (view w1 = view w /\ master_key w1 = master_key w /\ tape w1 = tape w /\
      (pos w <= pos w1 <= pos w')%nat) /\
    unwrap_key_version (blob_key_id blob) kv 0 w1 = (w2, Ok bs) /\
    Kem.SecretKey_from_bytes bs = Ok sk /\
    Engine.decrypt (K := hybrid_kem) sk ct (bound_aad d aad) ctx = Ok pt;
}.

(** Conversion compares applications of [resolve_from] before it unfolds them. *)
#[local] Strategy 1000 [resolve_from].

Lemma decrypt_Ok blob aad ctx w w' pt :
  decrypt blob aad ctx w = (w', Ok pt) ->
  exists wc m kv d ct nonce, decrypted w w' wc blob aad ctx pt m kv d ct nonce.
Proof.
  unfold decrypt. cbv zeta. intros (w1 & m & H1%mapping_Ok & H)%bindM_Ok.
  pose proof (get_Ok _ _ _ _ H1) as Hm. pose proof (get_world _ _ _ _ H1) as Hw1.
  apply keeps_Ok in H1; [|apply _].
  apply bindM_Ok in H as (? & [] & [Hst ->]%throw_if_Ok & H).
  apply bindM_Ok in H as (w2 & [] & H2 & H). pose proof (check_cryptoperiod_Ok _ _ _ _ H2) as Hpol.
  rewrite Hw1 in Hpol.
  apply keeps_Ok in H2; [|apply _].
  apply bindM_Ok in H as (? & kv & [Hkv ->]%or_throw_Ok & H).
  apply bindM_Ok in H as (w3 & ct & Hct%mapping_Ok & H). unfold decode_hex in Hct.
  apply or_throw_Ok in Hct as [Hct ->].
  apply bindM_Ok in H as (? & [] & [Hlen ->]%throw_if_Ok & H).
  apply bindM_Ok in H as (w4 & d & Hd%mapping_Ok & H). pose proof (resolve_Ok _ _ _ _ Hd) as Hdom.
  apply keeps_Ok in Hd; [|apply _].
  apply bindM_Ok in H as (w5 & key & Hk & H). unfold cache_key_of in Hk.
  apply bindM_Ok in Hk as (? & nonce & [-> Hn]%mapping_Ok%lift_Ok & Hk). injection Hk as <- <-.
  apply bindM_Ok in H as (wc' & [] & [Hcl ->]%claim_slot_Ok & H).
  apply bindM_Ok in H as (w6 & pt' & (Ho & Hch & sk & bs & w7 & Hu & Hsk & Hop)%open_claimed_Ok & H).
  apply bindM_Ok in H as (w8 & [] & Hr & H). injection H as <- <-. apply keeps_Ok in Hr; [|apply _].
  assert (C : calm w w4) by (etransitivity; [exact H1|]; etransitivity; eassumption).
  exists w4, m, kv, d, ct, nonce. split; try done.
  - by apply negb_false_iff, bool_decide_eq_true in Hst.
  - bool_hyps. exact Hlen.
  - rewrite <- (calm_view w w2); [done|]. transitivity w1; done.
  - by transitivity w6.
  - rewrite <- (calm_view w w4) by done. exact Hch.
  - eexists _, w7, bs, sk. split; [|done]. pose proof (calm_pos _ _ Ho). pose proof (calm_pos _ _ Hr).
    destruct C as [Cs _ _ _ Cm _ Ct Cp]. unfold view. cbn in *. rewrite Cs. split_and!; [done..|lia|lia].
Qed.
End gates.
End KsGates.
