(* ===== verification/KeystoreInit.v ===== *)
(** * Construction of the keystore ([citadel-keystore/src/keystore.rs])

    The constructors, with the parsing of the master key from the environment. *)

From S2P Require Import Prelude.
From S2P Require Import Text.
From S2P Require Import Types.
From S2P Require Import Policy.
From S2P Require Import AuditLog.
From S2P Require Import Threat.
From S2P Require Import Enforcer.
From S2P Require Import Storage.
From S2P Require Import Replay.
From S2P Require Import RootKey.
From S2P Require Import KeystoreBase.
From S2P Require Import Keystore.
From S2P Require Import KeystoreSign.
From S2P Require Import KeystoreFrame.
From S2P Require Import KeystoreLaws.
From S2P Require Import KeystoreRuns.
From S2P Require Import KeystoreGates.
Import Types.

Module KsInit.
Import Keystore KsSign KsLaws KsRuns KsGates.

Section init.
Context {PF : Platform}.

Definition AUTHORITY_SCOPE : string := "crypto-role-key-state-replay-execution".

(** What a new keystore is given: the storage and the trail behind the audit
    sink, the environment, and the readings to come. *)
Record Process := mkProcess {
  p_store : st_state;
  p_trail : list Audit.AuditEvent;
  p_env : string -> option string;
  p_tape : nat -> Reading;
  p_pos : nat;
}.

Definition load_master_key_from_env (env : string -> option string) : option (list byte) :=
  hex_str ← env "CITADEL_MASTER_KEY"%string;
  bytes ← hex_decode (Text.trim hex_str);
  if bool_decide (length bytes = 32%nat) then Some bytes else None.

(** [fresh] is the memory store that the constructors create. *)
Definition assemble (p : Process) (c : Threat.ThreatConfig) (master : option (list byte)) (fresh : rs_state) : World := {|
  store := p_store p; trail := p_trail p;
  threat := Some (Threat.with_audit (Threat.assessor_new (rd_now (p_tape p (p_pos p))) c));
  replay := fresh; enforcer := None; policies := ∅; master_key := master;
  env_var := p_env p; tape := p_tape p; pos := S (p_pos p);
|}.

(** A keystore and its provider name. *)
Definition named (env : string -> option string) : option string :=
  _ ← env "CITADEL_MASTER_KEY"%string; Some "development-env-v1"%string.

Definition new (p : Process) (fresh : rs_state) : World * option string :=
  let w := assemble p Threat.default_config (load_master_key_from_env (p_env p)) fresh in
  ((audit_plaintext_mode_if_active (E := KeystoreError) w).1, named (p_env p)).

Definition with_master_key (p : Process) (master_key : list byte) (fresh : rs_state) : World * option string :=
  let w := assemble p Threat.default_config (Some master_key) fresh in
  ((audit_plaintext_mode_if_active (E := KeystoreError) w).1, Some "explicit-development-v1"%string).

Definition with_root_key_provider (p : Process) (path : string) (o : RootKey.Os) (fresh : rs_state) :
    result string (World * option string) :=
  master_key ← RootKey.load_root_key path o;
  Ok ((with_master_key p master_key fresh).1, Some RootKey.provider_name).

Definition with_threat_config (p : Process) (c : Threat.ThreatConfig) (fresh : rs_state) : World * option string :=
  (assemble p c (load_master_key_from_env (p_env p)) fresh, named (p_env p)).

Definition set_replay_store (s : rs_state) (w : World) : World := set_replay s w.
Definition set_replay_cache (s : rs_state) (w : World) : World := set_replay_store s w.
Definition with_enforcer (e : Enforcer.StateEnforcer) (w : World) : World := set_enforcer (Some e) w.

(** ** Properties *)

Lemma new_world p fresh :
  master_key (new p fresh).1 = load_master_key_from_env (p_env p) /\ env_var (new p fresh).1 = p_env p /\
  view (new p fresh).1 = st_view (p_store p).
Proof.
  unfold new. set (w := assemble _ _ _ _).
  assert (C : calm w (audit_plaintext_mode_if_active (E := KeystoreError) w).1).
  { assert (K : Keeps (E := KeystoreError) calm audit_plaintext_mode_if_active)
      by (unfold audit_plaintext_mode_if_active; apply _). apply K. }
  cbn [fst]. by rewrite (calm_master _ _ C), (calm_env _ _ C), (calm_view _ _ C).
Qed.

(** The master key is used only if the whole text, trimmed, is 32 bytes of hexadecimal. *)
Lemma load_master_key_iff env k :
  load_master_key_from_env env = Some k <->
  exists t, env "CITADEL_MASTER_KEY"%string = Some t /\ hex_decode (Text.trim t) = Some k /\ length k = 32%nat.
Proof.
  unfold load_master_key_from_env. destruct (env _) as [t|]; cbn; [|split; [done|by intros (? & ? & _)]].
  destruct (hex_decode (Text.trim t)) as [b|] eqn:E; cbn.
  - case_bool_decide as Hl; split.
    + intros [= <-]. by exists t.
    + by intros (? & [= <-] & Hb & _); rewrite E in Hb.
    + done.
    + intros (? & [= <-] & Hb & Hk). rewrite E in Hb. injection Hb as ->. done.
  - split; [done|]. intros (? & [= <-] & Hb & _). by rewrite E in Hb.
Qed.

Lemma require_fails w :
  master_key w = None -> dev_mode w = false -> require_master_key w = (w, Err (Fail master_key_unset)).
Proof. intros Hm Hd. unfold require_master_key, asks, mbind, M_bind. by rewrite Hm, Hd. Qed.

Context {PL : PlatformLaws PF}.

(** A keystore constructed outside of the development environment, without a usable
    master key in the environment, never makes key material: after any operations,
    generation of keys and of signing keys, and rotation, fail. *)
Theorem no_master_key_fails_closed p fresh cs n t pol par k :
  wf_view (st_view (p_store p)) -> load_master_key_from_env (p_env p) = None ->
  p_env p "CITADEL_ENV"%string <> Some "development"%string ->
  let w := run cs (new p fresh).1 in
  is_ok (generate n t pol par w).2 = false /\ is_ok (generate_signing_key n pol k w).2 = false /\
  is_ok (rotate k w).2 = false.
Proof.
  intros Hwf Hk He w. destruct (new_world p fresh) as (N1 & N2 & N3).
  assert (L : legal (new p fresh).1 w) by (apply run_legal; by rewrite N3).
  assert (Hm : master_key w = None) by (by rewrite (lg_master _ _ L), N1).
  assert (Hd : forall w', env_var w' = env_var w -> dev_mode w' = false).
  { intros w' E. unfold dev_mode, is_development. rewrite E, (lg_env _ _ L), N2.
    rewrite (bool_decide_false (_ = Some "development"%string)) by done. apply andb_false_r. }
  split_and!; apply not_true_iff_false; intros (x & Hx)%is_ok_true.
  - destruct (generate n t pol par w) as [w' r] eqn:E. cbn in Hx. subst r. unfold generate in E.
    apply bindM_Ok in E as (? & [] & [_ ->]%throw_if_Ok & E). apply bindM_Ok in E as (? & [] & E & _).
    by rewrite require_fails in E by auto.
  - destruct (generate_signing_key n pol k w) as [w' r] eqn:E. cbn in Hx. subst r. unfold generate_signing_key in E.
    apply bindM_Ok in E as (? & [] & E & _). by rewrite require_fails in E by auto.
  - destruct (rotate k w) as [w' r] eqn:E. cbn in Hx. subst r. unfold rotate in E.
    apply bindM_Ok in E as (w1 & m & Hg & E). apply keeps_Ok in Hg; [|apply _].
    apply bindM_Ok in E as (? & [] & [_ ->]%throw_if_Ok & E). apply bindM_Ok in E as (? & [] & E & _).
    rewrite require_fails in E; [done| |].
    + by rewrite (calm_master _ _ Hg).
    + apply Hd. by apply Hg.
Qed.
End init.
End KsInit.
