(* ===== verification/Cli.v ===== *)
(** * The command line ([citadel-cli/src/commands/key.rs], [backup.rs], [replay.rs])

    Every command is one process: it opens the stored keys, works on them through
    a keystore of its own, and ends with an exit code.  What it prints is left
    out, except for the slices of texts that can panic. *)

From S2P Require Import Prelude.
From S2P Require Import Text.
From S2P Require Import Types.
From S2P Require Import Hierarchy.
From S2P Require Import AuditLog.
From S2P Require Import Storage.
From S2P Require Import Replay.
From S2P Require Import Backup.
From S2P Require Import KeystoreBase.
From S2P Require Import Keystore.
From S2P Require Import Migration.
From S2P Require Import Graph.
From S2P Require Import ApiBase.
From S2P Require Import KeystoreFrame.
From S2P Require Import KeystoreLaws.
From S2P Require Import KeystoreRuns.
From S2P Require Import KeystoreInit.
Import Types.

Module Cli.
Import Keystore KsLaws KsRuns.

Definition parse_key_type (s : string) : option KeyType :=
  let s := ApiBase.to_lowercase s in
  if bool_decide (s = "root"%string) then Some Root
  else if bool_decide (s = "domain"%string) then Some Domain
  else if bool_decide (s = "kek"%string \/ s = "keyencrypting"%string) then Some KeyEncrypting
  else if bool_decide (s = "dek"%string \/ s = "dataencrypting"%string) then Some DataEncrypting
  else if bool_decide (s = "hybrid-id"%string \/ s = "hybrididentity"%string) then Some HybridIdentity
  else if bool_decide (s = "signing"%string \/ s = "sign"%string) then Some Signing
  else None.

Inductive KeyAction : Type :=
| ShowGraph
| Inspect (id : string)
| Generate (name key_type : string) (parent policy : option string) (activate : bool)
| Rotate (id : string)
| Revoke (id reason : string)
| Destroy (id : string) (confirm : bool)
| Rewrap (id : string) (parent : option string).

Section cli.
Context {PF : Platform} {HO : Graph.HashOrder}.

(** What a command finds: the answer of [FileBackend::new], the process with the
    stored keys and the audit trail, and the storage's readings outside of the
    keystore. *)
Record Host := mkHost {
  opened : result string unit;
  output_json : bool;
  process : KsInit.Process;
  memory : rs_state;
  st_at : nat -> st_env;
}.

Definition stored (h : Host) : st_state := KsInit.p_store (process h).
Definition logged (h : Host) : list Audit.AuditEvent := KsInit.p_trail (process h).

(** What it leaves; [Err Panic] when the process aborts. *)
Record Outcome := mkOutcome {
  left_store : st_state;
  left_trail : list Audit.AuditEvent;
  exit : result (fault unit) Z;
}.

Definition untouched (h : Host) (code : result (fault unit) Z) : Outcome := mkOutcome (stored h) (logged h) code.

Definition no_error {E} (f : fault E) : fault unit := match f with Fail _ => Fail () | Panic => Panic end.

Definition open_keystore (h : Host) : World := (KsInit.new (process h) (memory h)).1.

Definition with_keystore (h : Host) (m : M KeystoreError Z) : Outcome :=
  match opened h with
  | Err _ => untouched h (Ok 1)
  | Ok _ =>
      let '(w, r) := m (open_keystore h) in
      mkOutcome (store w) (trail w) (map_err no_error r)
  end.

(** [Ok(..) => 0, Err(..) => 1]. *)
Definition code_of {A} (m : M KeystoreError A) : M KeystoreError Z :=
  r ← attempt m; mret (match r : result KeystoreError A with Ok _ => 0 | Err _ => 1 end).

(** ** [citadel key] *)

Definition cmd_graph (h : Host) : Outcome :=
  untouched h
    match opened h, st_list (st_at h 0) (stored h) with
    | Ok _, Ok keys =>
        graph ← Graph.build (length keys) keys;
        if output_json h then Ok 0 else _ ← Graph.render graph; Ok 0
    | _, _ => Ok 1
    end.

(** The line of one version. *)
Definition version_summary (v : KeyVersion) : result (fault unit) string :=
  Migration.mode_summary (effective_wrapping_mode v).

Definition matches (id_prefix : string) (k : KeyMetadata) : bool :=
  str_starts_with (id k) id_prefix || bool_decide (name k = id_prefix).

Definition cmd_inspect (h : Host) (id_prefix : string) : Outcome :=
  untouched h
    match opened h with
    | Err _ => Ok 1
    | Ok _ =>
        let keys := match st_list (st_at h 0) (stored h) with Ok l => l | Err _ => [] end in
        match filter (fun k => matches id_prefix k = true) keys with
        | [key] => if output_json h then Ok 0 else _ ← mapM version_summary (versions key); Ok 0
        | _ => Ok 1
        end
    end.

Definition cmd_generate (h : Host) (name key_type : string) (parent policy : option string) (act : bool) : Outcome :=
  match parse_key_type key_type with
  | None => untouched h (Ok 1)
  | Some kt =>
      with_keystore h (
        r ← attempt (generate name kt policy parent);
        match r : result KeystoreError string with
        | Err _ => mret 1
        | Ok id =>
            if act then code_of (activate id)
            else _ ← lift (str_split_at 8 id); mret 0
        end)
  end.

Definition cmd_rotate (h : Host) (id : string) : Outcome := with_keystore h (code_of (rotate id)).
Definition cmd_revoke (h : Host) (id reason : string) : Outcome := with_keystore h (code_of (revoke id reason)).
Definition cmd_destroy (h : Host) (id : string) (confirm : bool) : Outcome :=
  if confirm then with_keystore h (code_of (destroy id)) else untouched h (Ok 1).
Definition cmd_rewrap (h : Host) (id : string) (parent : option string) : Outcome :=
  with_keystore h (code_of (rewrap id parent)).

Definition run (h : Host) (a : KeyAction) : Outcome :=
  match a with
  | ShowGraph => cmd_graph h
  | Inspect id => cmd_inspect h id
  | Generate name key_type parent policy act => cmd_generate h name key_type parent policy act
  | Rotate id => cmd_rotate h id
  | Revoke id reason => cmd_revoke h id reason
  | Destroy id confirm => cmd_destroy h id confirm
  | Rewrap id parent => cmd_rewrap h id parent
  end.

(** ** [citadel backup] *)

Section backup.
Context {BJ : Backup.BackupJson}.

Definition load_master_key (env : string -> option string) : result string (list byte) :=
  hex_str ← ok_or (env "CITADEL_MASTER_KEY"%string) "CITADEL_MASTER_KEY not set"%string;
  bytes ← ok_or (hex_decode (Text.trim hex_str)) ("CITADEL_MASTER_KEY invalid hex: " +:+ hex_error (Text.trim hex_str));
  _ ← bail_if (negb (bool_decide (length bytes = 32%nat)))
        ("CITADEL_MASTER_KEY must be 32 bytes, got " +:+ pretty (length bytes));
  Ok bytes.

Definition master (h : Host) : result string (list byte) := load_master_key (KsInit.p_env (process h)).

(** The clock, the bytes drawn, and the answer of [std::fs::write]; the file
    written, if all of it was, and the exit code. *)
Definition cmd_create (h : Host) (now_unix now : Z) (nonce : list byte) (written : result string unit) :
    option (list byte) * Z :=
  match master h, opened h, st_list (st_at h 0) (stored h) with
  | Ok master_key, Ok _, Ok keys =>
      match Backup.create_backup hkdf_error now_unix now nonce keys master_key, written with
      | Ok data, Ok _ => (Some data, 0)
      | _, _ => (None, 1)
      end
  | _, _, _ => (None, 1)
  end.

Definition cmd_verify (h : Host) (read : result string (list byte)) : Z :=
  match master h, read with
  | Ok master_key, Ok data =>
      match Backup.verify_backup hkdf_error data master_key with Ok _ => 0 | Err _ => 1 end
  | _, _ => 1
  end.

Record Tally := mkTally { restored : Z; skipped : Z; errors : Z }.

(** The loop; the storage answers with two readings for each key. *)
Fixpoint restore_all (overwrite : bool) (envs : nat -> st_env) (keys : list KeyMetadata) (s : st_state) (t : Tally) :
    st_state * Tally :=
  match keys with
  | [] => (s, t)
  | key :: rest =>
      let put :=
        let '(s, r) := st_put (envs 1%nat) key s in
        restore_all overwrite (fun i => envs (S (S i))) rest s
          (match r with
           | Ok _ => mkTally (restored t + 1) (skipped t) (errors t)
           | Err _ => mkTally (restored t) (skipped t) (errors t + 1)
           end) in
      match st_get (envs 0%nat) (id key) s with
      | Ok (Some _) =>
          if overwrite then put
          else restore_all overwrite (fun i => envs (S (S i))) rest s (mkTally (restored t) (skipped t + 1) (errors t))
      | Ok None => put
      | Err _ =>
          restore_all overwrite (fun i => envs (S (S i))) rest s (mkTally (restored t) (skipped t) (errors t + 1))
      end
  end.

Definition cmd_restore (h : Host) (read : result string (list byte)) (dry_run overwrite : bool) : st_state * Z :=
  match master h, read with
  | Ok master_key, Ok data =>
      match Backup.restore_backup hkdf_error data master_key with
      | Ok keys =>
          if dry_run then (stored h, 0) else
          match opened h with
          | Ok _ =>
              let '(s, t) := restore_all overwrite (st_at h) keys (stored h) (mkTally 0 0 0) in
              (s, if 0 <? errors t then 1 else 0)
          | Err _ => (stored h, 1)
          end
      | Err _ => (stored h, 1)
      end
  | _, _ => (stored h, 1)
  end.
End backup.

(** ** [citadel replay status] *)

Definition replay_backend (env : string -> option string) : string :=
  match env "CITADEL_REPLAY_STORE"%string with
  | Some v => v
  | None => default "memory"%string (env "CITADEL_REPLAY_BACKEND"%string)
  end.

Definition cmd_status (h : Host) : Z :=
  let env := KsInit.p_env (process h) in
  if output_json h then 0
  else if bool_decide (replay_backend env = "redis"%string) && bool_decide (env "CITADEL_REDIS_URL"%string = None) then 1
  else 0.

(** ** Sessions *)

Section sessions.
Context {PL : PlatformLaws PF}.

(** A command is given to whatever the commands before it left. *)
Definition continue_on (o : st_state * list Audit.AuditEvent) (h : Host) : Host :=
  mkHost (opened h) (output_json h)
    (KsInit.mkProcess o.1 o.2 (KsInit.p_env (process h)) (KsInit.p_tape (process h)) (KsInit.p_pos (process h)))
    (memory h) (st_at h).

Fixpoint session (cs : list (Host * KeyAction)) (o : st_state * list Audit.AuditEvent) :
    st_state * list Audit.AuditEvent :=
  match cs with
  | [] => o
  | (h, a) :: cs => let r := run (continue_on o h) a in session cs (left_store r, left_trail r)
  end.

(** The command does not draw the identifier [k] for a new key. *)
Definition not_drawn (k : string) (h : Host) : Prop :=
  forall i, hex_encode (rd_bytes (KsInit.p_tape (process h) i) 0 16) <> k.

#[local] Instance legal_code_of {A} (m : M KeystoreError A) : Keeps legal m -> Keeps legal (code_of m).
Proof. intros Hm. unfold code_of. apply _. Qed.

(** What a command makes of the store of a keystore that it opened. *)
Definition evolved (s s' : st_state) (k : string) : Prop :=
  wf_view (st_view s') /\
  forall m', st_view s' !! k = Some m' -> exists m, st_view s !! k = Some m /\ evolves m m'.

Lemma evolved_refl s k : wf_view (st_view s) -> evolved s s k.
Proof. intros Hwf. split; [done|]. intros m Hm. by exists m. Qed.

Lemma open_tape h : tape (open_keystore h) = KsInit.p_tape (process h).
Proof.
  assert (K : Keeps (E := KeystoreError) calm audit_plaintext_mode_if_active)
    by (unfold audit_plaintext_mode_if_active; apply _).
  unfold open_keystore, KsInit.new. cbn [fst]. by rewrite (calm_tape _ _ (K _)).
Qed.

Lemma with_keystore_evolved h m k :
  Keeps legal m -> wf_view (st_view (stored h)) -> not_drawn k h -> evolved (stored h) (left_store (with_keystore h m)) k.
Proof.
  intros Hm Hwf Hk. unfold with_keystore. destruct (opened h); [|by apply evolved_refl].
  pose proof (Hm (open_keystore h)) as L. destruct (m (open_keystore h)) as [w r]. cbn [fst left_store] in *.
  destruct (KsInit.new_world (process h) (memory h)) as (_ & _ & V). fold (open_keystore h) in V.
  destruct (lg_keys _ _ L) as [Hwf' HK]; [by rewrite V|]. split; [done|]. intros m' Hm'.
  destruct (HK k m' Hm') as [(m0 & Hm0 & He)|(i & _ & ->)].
  - rewrite V in Hm0. by exists m0.
  - destruct (Hk i). unfold name_at. by rewrite open_tape.
Qed.

Lemma run_evolved h a k :
  wf_view (st_view (stored h)) -> not_drawn k h -> evolved (stored h) (left_store (run h a)) k.
Proof.
  intros Hwf Hk. destruct a; cbn [run];
    unfold cmd_graph, cmd_inspect, cmd_generate, cmd_rotate, cmd_revoke, cmd_destroy, cmd_rewrap;
    repeat case_match; try (by apply evolved_refl); (apply with_keystore_evolved; [apply _|done..]).
Qed.

Lemma session_evolved cs o k :
  wf_view (st_view o.1) -> Forall (not_drawn k) cs.*1 -> evolved o.1 (session cs o).1 k.
Proof.
  revert o. induction cs as [|[h a] cs IH]; intros o Hwf Hk; cbn [session]; [by apply evolved_refl|].
  cbn in Hk. apply Forall_cons in Hk as [Hh Hk].
  destruct (run_evolved (continue_on o h) a k) as [W1 E1]; [done..|]. cbn [stored] in E1.
  destruct (IH (left_store (run (continue_on o h) a), left_trail (run (continue_on o h) a))) as [W2 E2]; [done..|].
  split; [done|]. intros m' (m1 & Hm1 & He1)%E2. destruct (E1 _ Hm1) as (m & Hm & He).
  exists m. split; [done|]. by etransitivity.
Qed.

(** C33: The life cycle of a key survives the end of processes: through any session of
    [citadel key] commands, each a new process with an environment and a master key of
    its own, a key only evolves by valid transitions, and once destroyed it stays
    destroyed, without material. *)
Theorem cli_sessions_sound cs s t k m m' :
  wf_view (st_view s) -> Forall (not_drawn k) cs.*1 ->
  st_view s !! k = Some m -> st_view (session cs (s, t)).1 !! k = Some m' ->
  evolves m m' /\ wf_key k m' /\
  (state m = Destroyed -> state m' = Destroyed /\ Forall (fun v => secret_key_material v = Purged) (versions m')).
Proof.
  intros Hwf Hk Hm Hm'. destruct (session_evolved cs (s, t) k Hwf Hk) as [W E].
  destruct (E _ Hm') as (m0 & Hm0 & He). cbn [fst] in Hm0. assert (m0 = m) as -> by congruence.
  pose proof (W _ _ Hm') as Hw. split_and!; [done..|]. by apply destroyed_stays with (k := k).
Qed.

(** ** Restoring *)

Context {BJ : Backup.BackupJson} {BL : Backup.BackupJsonLaws BJ}.

(** Without [--overwrite], whatever the file holds and the storage answers: what was there
    stays, what is new comes from the file, and without an error every identifier of the
    file is in use. *)
Lemma restore_all_spec envs ks s t s' t' :
  Forall all_tagged ks -> restore_all false envs ks s t = (s', t') ->
  st_view s ⊆ st_view s' /\
  (forall k m, st_view s' !! k = Some m -> st_view s !! k = Some m \/ (m ∈ ks /\ id m = k)) /\
  errors t <= errors t' /\
  (errors t' = errors t -> forall m, m ∈ ks -> is_Some (st_view s' !! id m)).
Proof.
  intros Ht. revert envs s t. induction Ht as [|key rest Hkey _ IH]; intros envs s t; cbn [restore_all].
  { intros [= <- <-]. split_and!; [done|by left|lia|]. by intros _ m ?%elem_of_nil. }
  destruct (st_get (envs 0%nat) (id key) s) as [o|] eqn:Hg.
  2: { intros (G1 & G2 & G3 & G4)%IH. cbn in G3, G4. split_and!; [done| |lia|lia]. intros k m Hm. set_solver. }
  apply get_view in Hg. destruct o as [old|].
  { intros (G1 & G2 & G3 & G4)%IH. cbn in G3, G4. split_and!; [done| |done|].
    - intros k m Hm. set_solver.
    - intros He m [->|Hm]%elem_of_cons; [|by apply G4]. exists old. by eapply lookup_weaken. }
  destruct (st_put (envs 1%nat) key s) as [s1 r] eqn:Hp.
  intros (G1 & G2 & G3 & G4)%IH. pose proof (put_view (envs 1%nat) key s (storable_tagged _ Hkey)) as Hv. rewrite Hp in Hv. cbn [fst snd] in Hv.
  assert (H1 : st_view s ⊆ st_view s1).
  { destruct Hv as [->|[_ ->]]; [|done]. by apply insert_subseteq. }
  split_and!.
  - by etransitivity.
  - intros k m [Hm|[Hm <-]]%G2; [|right; set_solver]. destruct Hv as [E|[_ E]]; rewrite E in Hm; [|by left].
    apply lookup_insert_Some in Hm as [[<- <-]|[_ Hm]]; [right; set_solver|by left].
  - destruct r; cbn in G3; lia.
  - intros He m [->|Hm]%elem_of_cons.
    + destruct Hv as [E|[Hr _]].
      * exists key. eapply lookup_weaken; [|done]. rewrite E. by apply lookup_insert_eq.
      * destruct r as [[]|]; [done|]. cbn in G3. lia.
    + apply G4; [|done]. destruct r; cbn in *; lia.
Qed.

(** A restore without [--overwrite] never changes a stored key. *)
Theorem restore_keeps_existing h read dry_run :
  st_view (stored h) ⊆ st_view (cmd_restore h read dry_run false).1.
Proof.
  unfold cmd_restore. repeat case_match; cbn [fst]; try done.
  all: match goal with H : restore_all _ _ _ _ _ = _, Hb : Backup.restore_backup _ _ _ = Ok _ |- _ =>
    by apply restore_all_spec in H as [? _]; [|by eapply Backup.restored_tagged] end.
Qed.

(** C32: Recovery from a disaster: the backup file that [backup create] wrote from a
    store, given to [backup restore] on a host with an empty store and the same master
    key, makes the stored keys exactly what they were, if the command ends with exit
    code 0. The stored material must carry the tags of its variants, as all does that
    was read from key files. *)
Theorem disaster_recovery h now_unix now nonce written data h' s' :
  wf_view (st_view (stored h)) -> map_Forall (fun _ => all_tagged) (st_view (stored h)) ->
  0 <= now_unix < 2 ^ 64 -> len nonce = 12 ->
  cmd_create h now_unix now nonce written = (Some data, 0) ->
  st_view (stored h') = ∅ -> master h' = master h ->
  cmd_restore h' (Ok data) false false = (s', 0) ->
  st_view s' = st_view (stored h).
Proof.
  unfold cmd_create, cmd_restore. intros Hwf Htag Hu Hn Hc He Hm Hr. rewrite Hm in Hr.
  destruct (master h) as [mk|]; [|done]. destruct (opened h); [|done].
  destruct (st_list _ _) as [l|] eqn:El; [|done].
  destruct (Backup.create_backup _ _ _ _ _ _) as [d|] eqn:Ec; [|done]. destruct written; [|done]. injection Hc as ->.
  pose proof (list_view _ _ _ El (fun k m H => wf_plain _ _ (Hwf k m H))) as Hl.
  assert (Hlt : Forall all_tagged l) by (apply Forall_forall; intros m (k & Hk)%Hl; by eapply Htag).
  destruct (Backup.backup_roundtrip _ _ _ _ _ _ _ Hlt Hu Hn Ec) as (Hb & _). rewrite Hb in Hr.
  destruct (opened h'); [|done]. destruct (restore_all _ _ _ _ _) as [s1 t1] eqn:Er. injection Hr as -> Ht.
  destruct (restore_all_spec _ _ _ _ _ _ Hlt Er) as (_ & G2 & G3 & G4). rewrite He in G2. cbn in G3, G4.
  assert (Hin : forall m, m ∈ l -> st_view (stored h) !! id m = Some m).
  { intros m (k & Hk)%Hl. by rewrite (wf_id _ _ (Hwf _ _ Hk)). }
  assert (Hs : forall k m, st_view s' !! k = Some m -> st_view (stored h) !! k = Some m).
  { intros k m [Hk|[Hk <-]]%G2; [by rewrite lookup_empty in Hk|by apply Hin]. }
  apply map_eq. intros k. destruct (st_view s' !! k) as [m|] eqn:E; [by rewrite (Hs _ _ E)|].
  destruct (st_view (stored h) !! k) as [m|] eqn:E2; [|done]. exfalso.
  destruct (G4 ltac:(destruct (Z.ltb_spec 0 (errors t1)); [done|lia]) m) as [m' Hm']; [apply Hl; by exists k|].
  rewrite (wf_id _ _ (Hwf _ _ E2)) in Hm'. congruence.
Qed.
End sessions.
End cli.
End Cli.
