(* ===== verification/ApiStart.v ===== *)
(** * Secrets and start-up of the server ([citadel-api/src/main.rs])

    The hash of API keys, the checks on the master key, [create_keystore],
    [seed_demo_keys] and the start of the enforcer in [build_app].  The process's
    variables are a list of pairs; a message that ends the process is an error,
    a panic is [Panic]. *)

From S2P Require Import Prelude.
From S2P Require Import Text.
From S2P Require Import RootKey.
From S2P Require Import Wire.
From S2P Require Import WireV2.
From S2P Require Import Crypto.
From S2P Require Import Types.
From S2P Require Import Hierarchy.
From S2P Require Import Enforcer.
From S2P Require Import Policy.
From S2P Require Import AuditLog.
From S2P Require Import Threat.
From S2P Require Import Storage.
From S2P Require Import Replay.
From S2P Require Import Signer.
From S2P Require Import KeystoreBase.
From S2P Require Import KeystoreWrap.
From S2P Require Import Keystore.
From S2P Require Import KeystoreCrypto.
From S2P Require Import KeystoreSign.
From S2P Require Import KeystoreFrame.
From S2P Require Import KeystoreLaws.
From S2P Require Import KeystoreGates.
From S2P Require Import KeystoreInit.
From S2P Require Import ApiBase.
From S2P Require Import ApiKeys.
From S2P Require Import Api.
Import Types.

Module ApiStart.
Import Keystore KsCrypto KsLaws Api.

Definition Variables : Type := list (string * string).
Definition var (vars : Variables) (x : string) : option string := RootKey.collect vars !! x.

(** ** The master key and the hash of API keys *)

Definition is_arithmetic_progression (bytes : list byte) : bool :=
  if (length bytes <? 3)%nat then false
  else let stride := (Z_of_byte (RootKey.at_ bytes 1) - Z_of_byte (RootKey.at_ bytes 0)) mod 256 in
       forallb (fun s => bool_decide (s = stride)) (RootKey.strides bytes).

Definition shortest_repeating_period (bytes : list byte) : option nat :=
  List.find (fun p => (p <? length bytes)%nat && RootKey.repeats bytes p) (seq 1 16).

Section secrets.
Context {HX : Hex} {HM : HmacSha256} (hex_error : string -> string).

(** An error is the message of a panic. *)
Definition validate_master_key (hex_str : string) : result string (list byte) :=
  let generate := " Generate with: openssl rand -hex 32"%string in
  let strong := " Generate a strong key with: openssl rand -hex 32"%string in
  bytes ← ok_or (hex_decode (Text.trim hex_str))
            ("[FATAL] CITADEL_MASTER_KEY is not valid hex: " +:+ hex_error (Text.trim hex_str) +:+ "." +:+ generate);
  _ ← bail_if (negb (bool_decide (length bytes = 32%nat)))
        ("[FATAL] CITADEL_MASTER_KEY must be exactly 32 bytes (64 hex chars). Got " +:+ pretty (length bytes)
           +:+ " bytes." +:+ generate);
  let unique := size (list_to_set bytes : gset byte) in
  _ ← bail_if (unique <? 16)%nat
        ("[FATAL] CITADEL_MASTER_KEY has insufficient entropy: only " +:+ pretty unique +:+ " unique bytes out of 32. " +:+
         "This indicates a weak or patterned key (e.g., all zeros, repeating pattern)." +:+ strong);
  let all_zeros := forallb (fun b => bool_decide (b = Byte.x00)) bytes in
  let all_same := forallb (fun b => bool_decide (b = RootKey.at_ bytes 0)) bytes in
  _ ← bail_if (all_zeros || all_same)
        ("[FATAL] CITADEL_MASTER_KEY uses a trivial pattern (all same byte)." +:+ strong);
  _ ← bail_if (is_arithmetic_progression bytes)
        ("[FATAL] CITADEL_MASTER_KEY is an arithmetic byte sequence (constant stride)" +:+ Hierarchy.dash +:+ "not random." +:+ strong);
  match shortest_repeating_period bytes with
  | Some period => Err ("[FATAL] CITADEL_MASTER_KEY repeats with a short period (" +:+ pretty period +:+ " bytes)" +:+ Hierarchy.dash
                        +:+ "not random." +:+ strong)
  | None => Ok bytes
  end.

Definition pepper : string := "citadel-api-pepper-not-configured".

(** [None]: it panics. In the local pilot the root key is read twice, once by
    [open]. *)
Definition hash_api_key (vars : Variables) (o1 o2 : RootKey.Os) (key : string) : option (list byte) :=
  let mac k := hmac k (bytes_of_string key) in
  if bool_decide (var vars "CITADEL_PROFILE" = Some "local-pilot"%string) then
    match (config ← RootKey.validate_pairs vars;
           provider ← RootKey.open (RootKey.root_key_file config) o1;
           RootKey.load_root_key provider o2) with
    | Ok root_key => Some (mac root_key)
    | Err _ => None
    end
  else
    let master_key_str := default pepper (var vars "CITADEL_MASTER_KEY") in
    if bool_decide (master_key_str = pepper) then Some (mac (bytes_of_string master_key_str))
    else match validate_master_key master_key_str with Ok k => Some (mac k) | Err _ => None end.

(** ** [create_keystore] *)

(** The gate on the master key outside of the local pilot. *)
Definition check_master_key (vars : Variables) : result string unit :=
  match var vars "CITADEL_MASTER_KEY" with
  | Some val =>
      bytes ← ok_or (hex_decode (Text.trim val))
                ("[FATAL] CITADEL_MASTER_KEY is not valid hex: " +:+ hex_error (Text.trim val));
      bail_if (negb (bool_decide (length bytes = 32%nat)))
        ("[FATAL] CITADEL_MASTER_KEY must decode to 32 bytes, got " +:+ pretty (length bytes) +:+ ".")
  | None =>
      _ ← bail_if (negb (bool_decide (var vars "CITADEL_ALLOW_PLAINTEXT_KEYS" = Some "1"%string)))
            "[FATAL] CITADEL_MASTER_KEY is not set."%string;
      bail_if (negb (bool_decide (var vars "CITADEL_ENV" = Some "development"%string)))
        "[FATAL] Plaintext key storage requires explicit dev mode."%string
  end.

Inductive ReplayChoice := FileStore | RedisStore | MemoryStore.

(** [redis_feature]: the build has it. *)
Definition choose_replay (redis_feature : bool) (vars : Variables) : result string ReplayChoice :=
  match var vars "CITADEL_REPLAY_STORE" with
  | Some v =>
      if bool_decide (v = "file"%string) then Ok FileStore
      else if bool_decide (v = "redis"%string) then
        if redis_feature then Ok RedisStore
        else Err "[FATAL] CITADEL_REPLAY_STORE=redis but binary compiled without Redis support."%string
      else Err ("[FATAL] Unknown CITADEL_REPLAY_STORE value: '" +:+ v +:+ "'. Use 'file' or 'redis'.")
  | None =>
      if bool_decide (var vars "CITADEL_ENV" = Some "development"%string) then Ok MemoryStore
      else Err "[FATAL] CITADEL_REPLAY_STORE is not set."%string
  end.

(** ** The two validators *)

(** Few distinct bytes: what the checks for one repeated byte look for. *)
Lemma one_byte_few b d : forallb (fun x => bool_decide (x = d)) b = true -> (size (list_to_set b : gset byte) <= 1)%nat.
Proof.
  intros H. transitivity (size ({[d]} : gset byte)); [|by rewrite size_singleton].
  apply subseteq_size. intros x Hx%elem_of_list_to_set%list_elem_of_In. rewrite forallb_forall in H.
  specialize (H x Hx). bool_hyps. set_solver.
Qed.

Lemma find_period (f : nat -> bool) l : match List.find f l with Some _ => true | None => false end = existsb f l.
Proof. induction l as [|x l IH]; [done|]. cbn. by destruct (f x). Qed.

Lemma short_period b :
  length b = 32%nat ->
  (match shortest_repeating_period b with Some _ => true | None => false end) = existsb (RootKey.repeats b) (seq 1 16).
Proof. intros Hl. unfold shortest_repeating_period. rewrite find_period, Hl. done. Qed.

(** [validate_master_key] of the server accepts exactly what the library's
    own check of key material accepts. *)
Theorem validators_agree h b :
  validate_master_key h = Ok b <->
  hex_decode (Text.trim h) = Some b /\ length b = 32%nat /\ RootKey.validate_key_material b = Ok ().
Proof.
  unfold validate_master_key, RootKey.validate_key_material. destruct (hex_decode (Text.trim h)) as [k|]; cbn -[existsb size seq Nat.ltb].
  2: { split; [done|by intros []]. }
  destruct (bool_decide (length k = 32%nat)) eqn:El; bool_hyps; cbn -[existsb size seq Nat.ltb].
  2: { split; [done|]. by intros ([= ->] & ? & _). }
  pose proof (short_period k El) as Hp. unfold is_arithmetic_progression. rewrite El. change (32 <? 3)%nat with false.
  set (d := (Z_of_byte (RootKey.at_ k 1) - _) mod 256).
  transitivity (k = b /\ (_ ← bail_if (size (list_to_set k : gset byte) <? 16)%nat "root-key material has insufficient byte diversity"%string;
    _ ← bail_if (forallb (fun s => bool_decide (s = d)) (RootKey.strides k)) "root-key material is an arithmetic byte sequence"%string;
    bail_if (existsb (RootKey.repeats k) (seq 1 16)) "root-key material repeats with a short period"%string) = Ok ()).
  2: { split; [by intros [-> ?]|]. by intros ([= ->] & _ & ?). }
  destruct (size _ <? 16)%nat eqn:E1; [split; [done|by intros []]|]. apply Nat.ltb_ge in E1. cbn -[existsb size seq Nat.ltb].
  destruct (forallb _ k || forallb _ k) eqn:E2.
  { exfalso. apply orb_true_iff in E2 as [E2|E2]; apply one_byte_few in E2; lia. }
  destruct (forallb _ (RootKey.strides k)) eqn:E3; [split; [done|by intros []]|]. cbn -[existsb size seq Nat.ltb].
  rewrite <- Hp. destruct (shortest_repeating_period k); cbn; (split; [intros H|intros [? ?]]; [|]); by simplify_eq.
Qed.
End secrets.

Section start.
Context {PF : Platform} {J : Json}.

(** The replay stores that can be opened: of memory, of a file, of Redis. *)
Record Replays := mkReplays {
  memory : rs_state;
  file_store : result string rs_state;
  redis_store : result string rs_state;
}.

(** The data directory and the key files have been opened in [p]; [o1] and [o2]
    answer the two reads of the root key. *)
Definition create_keystore (redis_feature : bool) (data_dir : string) (vars : Variables) (p : KsInit.Process) (rs : Replays)
    (o1 o2 : RootKey.Os) : result string World :=
  let local_pilot := bool_decide (var vars "CITADEL_PROFILE" = Some "local-pilot"%string) in
  ks ← (if (local_pilot : bool) then
          config ← RootKey.validate_pairs vars;
          provider ← RootKey.open (RootKey.root_key_file config) o1;
          r ← KsInit.with_root_key_provider p provider o2 (memory rs);
          Ok r.1
        else
          _ ← check_master_key hex_error vars;
          Ok (KsInit.new p (memory rs)).1);
  choice ← choose_replay redis_feature vars;
  ks ← match choice with
       | FileStore =>
           s ← map_err (fun e => "[FATAL] Replay store init failed for '" +:+
                    default (data_dir +:+ "/replay.json") (var vars "CITADEL_REPLAY_STORE_PATH") +:+ "': " +:+ e) (file_store rs);
           Ok (KsInit.set_replay_store s ks)
       | RedisStore =>
           s ← map_err (fun e => "[FATAL] CITADEL_REPLAY_STORE=redis but Redis init failed: " +:+ e) (redis_store rs);
           Ok (KsInit.set_replay_store s ks)
       | MemoryStore => Ok ks
       end;
  let enforce := var vars "CITADEL_ENFORCE_CRYPTOPERIODS" in
  Ok ((_ ← register_policy (E := KeystoreError) (Policy.default_dek enforce);
       register_policy (Policy.default_kek enforce)) ks).1.

(** ** Demo keys *)

Definition generate_active (name : string) (t : KeyType) (policy parent : option string) : M KeystoreError string :=
  k ← generate name t policy parent; _ ← activate k; mret k.

(** The payloads of one demo key, with an enforcer of its own. *)
Fixpoint demo_payloads (n : nat) (dek : string) (s : Enforcer.StateEnforcer) : M KeystoreError unit :=
  match n with
  | O => mret ()
  | S n =>
      d ← draw;
      let '(s, r) := Enforcer.authorize_encrypt s d dek None None in
      _ ← match r with
          | Ok auth_ctx =>
              _ ← attempt (encrypt_authorized auth_ctx (bytes_of_string "demo payload") (bytes_of_string "demo")
                             (bytes_of_string "seed"));
              mret ()
          | Err _ => mret ()
          end;
      demo_payloads n dek s
  end.

(** [{:02}] of the numbers 1 to 4; [fresh i] is the enforcer of the [i]-th key. *)
Definition seed_demo_dek (fresh : nat -> Enforcer.StateEnforcer) (kek : string) (i : nat) : M KeystoreError unit :=
  dek ← generate_active ("prod-dek-0" +:+ pretty i) DataEncrypting (Some "default-dek"%string) (Some kek);
  demo_payloads i dek (Enforcer.register_key (fresh i) dek None).

Fixpoint seed_demo_deks (fresh : nat -> Enforcer.StateEnforcer) (kek : string) (l : list nat) : M KeystoreError unit :=
  match l with
  | [] => mret ()
  | i :: l => _ ← seed_demo_dek fresh kek i; seed_demo_deks fresh kek l
  end.

(** An error is the panic of an [unwrap]. *)
Definition seed_demo_keys (fresh : nat -> Enforcer.StateEnforcer) : M KeystoreError unit :=
  root ← generate_active "root-master" Root None None;
  domain ← generate_active "production" Domain None (Some root);
  kek ← generate_active "prod-kek-01" KeyEncrypting (Some "default-kek"%string) (Some domain);
  _ ← seed_demo_deks fresh kek (seq 1 4);
  old ← generate_active "prod-dek-legacy" DataEncrypting (Some "default-dek"%string) (Some kek);
  _ ← attempt (F := KeystoreError) (rotate old);
  _ ← generate "prod-dek-staged" DataEncrypting (Some "default-dek"%string) (Some kek);
  mret ().

(** ** The enforcer at the start *)

Fixpoint register_all {E} (keys : list KeyMetadata) (s : Enforcer.StateEnforcer) : M E Enforcer.StateEnforcer :=
  match keys with
  | [] => mret s
  | key_meta :: keys =>
      actual_domain ← domain_or_none (id key_meta);
      register_all keys (Enforcer.register_key s (id key_meta) actual_domain)
  end.

(** [fresh] is [StateEnforcer::new()]; the keystore is bound to the result. *)
Definition init_enforcer {E} (fresh : Enforcer.StateEnforcer) : M E unit :=
  keys ← attempt list_keys;
  s ← match keys with Ok keys => register_all keys fresh | Err _ => mret fresh end;
  modify (KsInit.with_enforcer s).

(** ** Properties *)

Lemma load_root_key_length path o k : RootKey.load_root_key path o = Ok k -> length k = 32%nat.
Proof.
  unfold RootKey.load_root_key. intros H. inv_ok H. unfold RootKey.read_exact in Hx2.
  destruct (32 <=? length (RootKey.content o))%nat eqn:El; [|done]. apply Nat.leb_le in El. injection Hx2 as <-.
  rewrite length_take. lia.
Qed.

Lemma with_master_key_calm p k fresh :
  calm (KsInit.assemble p Threat.default_config (Some k) fresh) (KsInit.with_master_key p k fresh).1.
Proof.
  unfold KsInit.with_master_key. set (w := KsInit.assemble _ _ _ _). cbn [fst].
  assert (K : Keeps (E := KeystoreError) calm audit_plaintext_mode_if_active)
    by (unfold audit_plaintext_mode_if_active; apply _). apply K.
Qed.

Lemma register_policy_keeps {E} p w :
  let w' := (register_policy (E := E) p w).1 in
  master_key w' = master_key w /\ replay w' = replay w /\ store w' = store w.
Proof.
  cbn zeta. unfold register_policy. cbv [mbind M_bind modify].
  pose proof (keeps (R := calm) (m := record_system (E := E) (Audit.PolicyRegistered (Policy.pol_id p))) w) as C.
  destruct (record_system _ w) as [w1 [[]|[]]]; cbn in *; destruct C; by split_and!.
Qed.

Lemma check_master_key_production vars :
  var vars "CITADEL_ENV" <> Some "development"%string -> check_master_key hex_error vars = Ok () ->
  exists k, KsInit.load_master_key_from_env (var vars) = Some k /\ length k = 32%nat.
Proof.
  intros Hd. unfold check_master_key, KsInit.load_master_key_from_env.
  destruct (var vars "CITADEL_MASTER_KEY") as [t|]; cbn.
  - intros H. inv_ok H. bool_hyps. exists x. rewrite Hx. cbn. by rewrite bool_decide_true.
  - intros H. inv_ok H. by bool_hyps.
Qed.

Lemma choose_replay_production redis vars c :
  var vars "CITADEL_ENV" <> Some "development"%string -> choose_replay redis vars = Ok c ->
  c = FileStore \/ c = RedisStore /\ redis = true.
Proof.
  intros Hd. unfold choose_replay. rewrite (bool_decide_false _ Hd).
  destruct (var vars "CITADEL_REPLAY_STORE") as [v|]; [|done].
  destruct (bool_decide (v = "file"%string)); [intros [= <-]; by left|].
  destruct (bool_decide (v = "redis"%string)), redis; [intros [= <-]; by right|done..].
Qed.

(** Outside of the development environment: a master key of 32 bytes, in the local pilot the
    content of the root key file, with no secret in the variables, otherwise the one in the
    variables; a replay store that outlives
    the process; the keys on disk. *)
Lemma create_keystore_production redis data_dir vars p rs o1 o2 w :
  KsInit.p_env p = var vars -> var vars "CITADEL_ENV" <> Some "development"%string ->
  create_keystore redis data_dir vars p rs o1 o2 = Ok w ->
  (exists k, master_key w = Some k /\ length k = 32%nat /\
     (var vars "CITADEL_PROFILE" = Some "local-pilot"%string ->
        (forall f, f ∈ RootKey.forbidden_variables -> var vars f = None) /\
        exists path, var vars "CITADEL_ROOT_KEY_FILE" = Some path /\ RootKey.load_root_key path o2 = Ok k) /\
     (var vars "CITADEL_PROFILE" <> Some "local-pilot"%string -> KsInit.load_master_key_from_env (var vars) = Some k)) /\
  (file_store rs = Ok (replay w) \/ redis = true /\ redis_store rs = Ok (replay w)) /\
  view w = st_view (KsInit.p_store p).
Proof.
  intros He Hd H. unfold create_keystore in H.
  apply bind_Ok in H as (w0 & Hk & H). apply bind_Ok in H as (c & Hc & H).
  apply bind_Ok in H as (w1 & Hr & H). apply Ok_inj in H. subst w.
  assert (H0 : (exists k, master_key w0 = Some k /\ length k = 32%nat /\
     (var vars "CITADEL_PROFILE" = Some "local-pilot"%string ->
        (forall f, f ∈ RootKey.forbidden_variables -> var vars f = None) /\
        exists path, var vars "CITADEL_ROOT_KEY_FILE" = Some path /\ RootKey.load_root_key path o2 = Ok k) /\
     (var vars "CITADEL_PROFILE" <> Some "local-pilot"%string -> KsInit.load_master_key_from_env (var vars) = Some k)) /\
     view w0 = st_view (KsInit.p_store p)).
  { destruct (bool_decide _) eqn:El; bool_hyps.
    - apply bind_Ok in Hk as (cfg & Hv & Hk). apply bind_Ok in Hk as (path & Ho & Hk).
      apply bind_Ok in Hk as ([w' nm] & Hw & [= <-]). unfold KsInit.with_root_key_provider in Hw.
      apply bind_Ok in Hw as (k & Hl & [= Hw _]). pose proof (with_master_key_calm p k (memory rs)) as C. subst w'.
      unfold RootKey.open in Ho. inv_ok Ho. split; [|exact (calm_view _ _ C)].
      exists k. split; [exact (calm_master _ _ C)|]. split; [by eapply load_root_key_length|]. split; [intros _|done].
      apply RootKey.validate_pairs_iff in Hv as (_ & Hf & _ & _ & Hp & _). split; [done|]. by exists (RootKey.root_key_file cfg).
    - apply bind_Ok in Hk as ([] & Hm & [= <-]). apply check_master_key_production in Hm as (k & Hk & Hl); [|done].
      destruct (KsInit.new_world p (memory rs)) as (Hn & _ & Hv). split; [|exact Hv]. exists k. split; [|done]. etransitivity; [exact Hn|]. by rewrite He. }
  destruct H0 as [(k & Hm & Hl & Hp) Hv].
  set (d := Policy.default_dek _) in *. set (kk := Policy.default_kek _) in *.
  assert (R : forall w1 : World, let w := ((_ ← register_policy (E := KeystoreError) d; register_policy kk) w1).1 in
    master_key w = master_key w1 /\ replay w = replay w1 /\ view w = view w1).
  { intros w2. cbn zeta. cbv [mbind M_bind]. destruct (register_policy_keeps (E := KeystoreError) d w2) as (F1 & F2 & F3).
    destruct (register_policy d w2) as [w3 [[]|[]]]; cbn in *; [|unfold view; by rewrite F3..].
    destruct (register_policy_keeps (E := KeystoreError) kk w3) as (G1 & G2 & G3). unfold view. split_and!; congruence. }
  destruct (R w1) as (R1 & R2 & R3).
  assert (H1 : master_key w1 = master_key w0 /\ view w1 = view w0 /\
               (file_store rs = Ok (replay w1) \/ redis = true /\ redis_store rs = Ok (replay w1))).
  { apply choose_replay_production in Hc as [->|[-> ->]]; [..|done]; apply bind_Ok in Hr as (s & Hs & [= <-]);
      apply map_err_Ok in Hs; split_and!; [done|done|by left|done|done|by right]. }
  destruct H1 as (H1 & H2 & H3). split_and!; [|by rewrite R2|congruence].
  exists k. split; [congruence|]. by split.
Qed.

(** ** Restarts *)

Context {PL : PlatformLaws PF}.

#[local] Instance domain_calm {E} k : Keeps (E := E) calm (domain_or_none k).
Proof. unfold domain_or_none. apply _. Qed.

(** Conversion compares applications of [resolve_from] before it unfolds them. *)
#[local] Strategy 1000 [resolve_from].

Lemma resolve_from_no_panic n dp k0 k w : wp (resolve_from n dp k0 k) (fun r _ => r <> Err Panic) w.
Proof.
  revert dp k w. induction n as [|n IH]; intros dp k w; cbn [resolve_from]; [done|].
  apply wp_bind, wp_ks_get; [|done]. intros m w1 _ _. destruct (key_type m); try done.
  all: apply wp_bind, wp_or_throw; [|done]; intros p _; apply IH.
Qed.

Lemma resolve_no_panic k w : (resolve_domain_for_key k w).2 <> Err Panic.
Proof. exact (resolve_from_no_panic MAX_DEPTH 0 k k w). Qed.

Lemma attempt_returns {E F A} (m : M E A) w :
  wp m (fun r _ => r <> Err Panic) w -> exists w' r, attempt (F := F) m w = (w', Ok r).
Proof. unfold wp, attempt. destruct (m w) as [w' [a|[e|]]]; intros H; [by eexists _, _..|done]. Qed.

Lemma domain_or_none_returns {E} k w : exists w' d, domain_or_none (E := E) k w = (w', Ok d) /\ calm w w'.
Proof.
  pose proof (keeps (R := calm) (m := domain_or_none (E := E) k) w) as C.
  destruct (attempt_returns (F := E) _ _ (resolve_from_no_panic MAX_DEPTH 0 k k w)) as (w' & r & Er).
  unfold domain_or_none, mbind, M_bind, resolve_domain_for_key in *. rewrite Er in *. by eexists _, _.
Qed.

Lemma register_all_spec {E} keys s w :
  exists w' s', register_all (E := E) keys s w = (w', Ok s') /\ calm w w' /\
    Enforcer.revoked_keys s' = Enforcer.revoked_keys s /\
    (forall k, k ∈ Enforcer.valid_keys s' <-> k ∈ Enforcer.valid_keys s \/ k ∈ id <$> keys).
Proof.
  revert s w. induction keys as [|m keys IH]; intros s w; cbn [register_all].
  { exists w, s. split_and!; [done..|]. set_solver. }
  destruct (domain_or_none_returns (E := E) (id m) w) as (w1 & d & E1 & C1).
  destruct (IH (Enforcer.register_key s (id m) d) w1) as (w2 & s2 & E2 & C2 & Hr & Hv).
  exists w2, s2. unfold mbind, M_bind. rewrite E1. split_and!; [done|by etransitivity|done|].
  intros k. rewrite Hv. cbn. set_solver.
Qed.

Lemma list_keys_calm w w' r : list_keys w = (w', r) -> calm w w'.
Proof. intros E. pose proof (calm_list w) as C. unfold list_keys in E. by rewrite E in C. Qed.

Lemma list_keys_no_panic w : (list_keys w).2 <> Err Panic.
Proof. unfold list_keys, storage_list, st_query. cbn [snd]. by destruct (st_list _ _). Qed.

Lemma list_keys_complete w w' keys :
  wf_view (view w) -> list_keys w = (w', Ok keys) -> forall k, k ∈ id <$> keys <-> is_Some (view w !! k).
Proof.
  intros Hwf E k. unfold list_keys, storage_list, st_query in E. injection E as _ E. apply map_err_Ok in E.
  assert (Hc : forall m, m ∈ keys <-> exists k, view w !! k = Some m).
  { intros m. apply (list_view _ _ _ E). intros k' m' Hm. by apply (wf_plain _ _ (Hwf _ _ Hm)). }
  rewrite list_elem_of_fmap. split.
  - intros (m & -> & [k' Hm]%Hc). exists m. by rewrite (wf_id _ _ (Hwf _ _ Hm)).
  - intros [m Hm]. exists m. split; [by rewrite (wf_id _ _ (Hwf _ _ Hm))|]. apply Hc. by exists k.
Qed.

(** The enforcer is always bound; it knows the keys that could be listed. *)
Lemma init_enforcer_spec {E} fresh w :
  exists w1 s, init_enforcer (E := E) fresh w = (set_enforcer (Some s) w1, Ok ()) /\ calm w w1 /\
    Enforcer.revoked_keys s = Enforcer.revoked_keys fresh /\
    (wf_view (view w) -> forall k,
       (k ∈ Enforcer.valid_keys s -> k ∈ Enforcer.valid_keys fresh \/ is_Some (view w !! k)) /\
       (is_ok (list_keys w).2 = true -> k ∈ Enforcer.valid_keys fresh \/ is_Some (view w !! k) -> k ∈ Enforcer.valid_keys s)).
Proof.
  unfold init_enforcer, mbind, M_bind, attempt. pose proof (list_keys_no_panic w) as N.
  destruct (list_keys w) as [w1 r] eqn:E1. pose proof (list_keys_calm _ _ _ E1) as C1.
  destruct r as [keys|[e|]]; cbn in N; [| |done].
  - destruct (register_all_spec (E := E) keys fresh w1) as (w2 & s & -> & C2 & Hr & Hv).
    exists w2, s. split_and!; [done|by etransitivity|done|]. intros Hwf k.
    rewrite Hv, (list_keys_complete _ _ _ Hwf E1). by split.
  - exists w1, fresh. split_and!; [done..|]. intros _ k. split; [by left|done].
Qed.

(** The enforcer that a starting server binds knows every stored key, whatever its
    state, and has no revocation: a key that was revoked or destroyed before the restart
    is authorized again by the enforcer, and only its state in the keystore refuses it. *)
Theorem start_registers_every_key e1 e2 c w :
  wf_view (view w) -> is_ok (list_keys w).2 = true ->
  let w' := (init_enforcer (E := KeystoreError) (Enforcer.new e1 e2 c).1 w).1 in
  view w' = view w /\
  exists s, enforcer w' = Some s /\ Enforcer.revoked_keys s = ∅ /\
    (forall k, k ∈ Enforcer.valid_keys s <-> is_Some (view w !! k)) /\
    forall k m d, view w !! k = Some m ->
      is_ok (Enforcer.authorize_encrypt s d k None None).2 = true /\
      is_ok (Enforcer.authorize_decrypt s d k None).2 = true.
Proof.
  intros Hwf Hl. destruct (init_enforcer_spec (E := KeystoreError) (Enforcer.new e1 e2 c).1 w) as (w1 & s & -> & C & Hr & Hv).
  cbn -[Enforcer.new]. split; [by rewrite <- (calm_view _ _ C)|].
  assert (Hk : forall k, k ∈ Enforcer.valid_keys s <-> is_Some (view w !! k)).
  { intros k. destruct (Hv Hwf k) as [H1 H2]. specialize (H2 Hl). change (Enforcer.valid_keys (Enforcer.new e1 e2 c).1) with (∅ : gset string) in *.
    set_solver. }
  exists s. split_and!; [done|done|done|]. intros k m d Hm.
  assert (V : Enforcer.validate_key s k None = None).
  { unfold Enforcer.validate_key. rewrite Hr. rewrite bool_decide_false by set_solver.
    by rewrite bool_decide_true by (apply Hk; by eexists). }
  unfold Enforcer.authorize_encrypt, Enforcer.authorize_decrypt. by rewrite V.
Qed.
End start.
End ApiStart.
