(* ===== verification/HashTool.v ===== *)
(** * The hash of an API key, off line ([citadel-api/src/hash_apikey.rs])

    The tool with which an operator prepares [CITADEL_API_KEY_HASH]; it prints
    the key and the hash it computed. *)

From S2P Require Import Prelude.
From S2P Require Import Text.
From S2P Require Import RootKey.
From S2P Require Import Crypto.
From S2P Require Import ApiStart.

Module HashTool.
Import ApiStart.

Section tool.
Context {HX : Hex} {HM : HmacSha256} (hex_error : string -> string).

(** The key under [--generate] is drawn; [None]: the random source fails, and
    [expect] panics. *)
Definition api_key (args : list string) (drawn : option (list byte)) : result (fault string) string :=
  match args with
  | _ :: arg :: _ =>
      if bool_decide (arg = "--generate"%string) then buf ← ok_or drawn Panic; Ok (hex_encode buf)
      else Ok arg
  | _ => Err (Fail "usage")
  end.

Definition hmac_key (vars : Variables) (o1 o2 : RootKey.Os) : result (fault string) (list byte) :=
  if bool_decide (var vars "CITADEL_PROFILE" = Some "local-pilot"%string) then
    config ← map_err (fun _ => Fail "[FATAL] Invalid local-pilot configuration"%string) (RootKey.validate_pairs vars);
    provider ← map_err (fun _ => Fail "[FATAL] Linux root-key provider failed"%string)
                 (RootKey.open (RootKey.root_key_file config) o1);
    map_err (fun _ => Fail "[FATAL] Linux root-key provider failed"%string) (RootKey.load_root_key provider o2)
  else
    master_key ← ok_or (var vars "CITADEL_MASTER_KEY") (Fail "ERROR: CITADEL_MASTER_KEY is not set."%string);
    bytes ← ok_or (hex_decode (Text.trim master_key))
              (Fail ("[FATAL] CITADEL_MASTER_KEY is not valid hex: " +:+ hex_error (Text.trim master_key)));
    _ ← bail_if (negb (bool_decide (length bytes = 32%nat)))
          (Fail ("[FATAL] CITADEL_MASTER_KEY must decode to 32 bytes, got " +:+ pretty (length bytes) +:+ "."));
    Ok bytes.

(** The key and its hash. *)
Definition main (vars : Variables) (o1 o2 : RootKey.Os) (args : list string) (drawn : option (list byte)) :
    result (fault string) (string * string) :=
  key ← api_key args drawn;
  secret ← hmac_key vars o1 o2;
  Ok (key, hex_encode (hmac secret (bytes_of_string key))).

Context {HL : HexLaws HX}.

Lemma validate_master_key_bytes s k :
  validate_master_key hex_error s = Ok k -> hex_decode (Text.trim s) = Some k.
Proof.
  unfold validate_master_key. cbn zeta. intros H.
  apply bind_Ok in H as (b & Hb & H). apply ok_or_Ok in Hb. rewrite Hb. f_equal.
  do 4 (apply bind_Ok in H as (? & _ & H)). destruct (shortest_repeating_period b); [done|by injection H].
Qed.

(** The placeholder that the server uses without a master key is no key. *)
Lemma pepper_is_no_key b : hex_decode (Text.trim pepper) = Some b -> length b <> 32%nat.
Proof. intros H%length_hex_decode Hb. rewrite Hb in H. vm_compute in H. done. Qed.

(** A server with the same variables and the same root key file authenticates the key whose
    hash the tool printed: it computes the same hash, or refuses the master key. *)
Theorem hash_apikey_agrees vars o1 o2 args drawn key h m :
  main vars o1 o2 args drawn = Ok (key, h) -> hash_api_key hex_error vars o1 o2 key = Some m -> h = hex_encode m.
Proof.
  unfold main. intros H. apply bind_Ok in H as (key' & _ & H). apply bind_Ok in H as (s & Hs & H).
  injection H as -> <-. unfold hmac_key in Hs. unfold hash_api_key. case_bool_decide.
  - inv_ok Hs. rewrite Hx. cbn. rewrite Hx0. cbn. rewrite Hs. by intros [= <-].
  - inv_ok Hs. rewrite Hx. cbn [default id]. bool_hyps. case_bool_decide as Hp.
    + cbn in Hp. rewrite Hp in Hx0. by apply pepper_is_no_key in Hx0.
    + destruct (validate_master_key _ _) as [k|] eqn:E; [|done]. intros [= <-].
      apply validate_master_key_bytes in E. unfold id in E. congruence.
Qed.
End tool.
End HashTool.
