(* ===== verification/ApiBoot.v ===== *)
(** * The server from its start ([citadel-api/src/main.rs], [build_app])

    [build_app] joins the start of the API keys, of the keystore and of the
    enforcer.  A failure is an exit of the process or a panic. *)

From S2P Require Import Prelude.
From S2P Require Import Text.
From S2P Require Import F64.
From S2P Require Import RootKey.
From S2P Require Import Crypto.
From S2P Require Import Types.
From S2P Require Import Hierarchy.
From S2P Require Import Enforcer.
From S2P Require Import Policy.
From S2P Require Import AuditLog.
From S2P Require Import Threat.
From S2P Require Import Storage.
From S2P Require Import Signer.
From S2P Require Import KeystoreBase.
From S2P Require Import KeystoreWrap.
From S2P Require Import Keystore.
From S2P Require Import KeystoreCrypto.
From S2P Require Import KeystoreSign.
From S2P Require Import KeystoreFrame.
From S2P Require Import KeystoreLaws.
From S2P Require Import KeystoreRuns.
From S2P Require Import KeystoreGates.
From S2P Require Import KeystoreInit.
From S2P Require Import ApiBase.
From S2P Require Import ApiKeys.
From S2P Require Import ApiLimit.
From S2P Require Import Api.
From S2P Require Import ApiServer.
From S2P Require Import ApiStart.
Import Types.

Module ApiBoot.
Import Keystore KsLaws KsRuns KsGates ApiServer ApiStart.

Section boot.
Context {PF : Platform} {J : Json} {SJ : ApiKeys.StoreJson} {HM : HmacSha256}.

(** What the process finds: the file of API keys, whether the directory of keys
    is empty, what is behind the keystore, the answers to the reads of the root
    key, the parsed rate, the clock, and the enforcers that [StateEnforcer::new]
    makes. *)
Record Found := mkFound {
  read_error : option string;
  api_keys_file : option string;
  saving : ApiKeys.SaveEnv;
  now_text : string;
  is_fresh : bool;
  process : KsInit.Process;
  replays : Replays;
  hash_1 : RootKey.Os;
  hash_2 : RootKey.Os;
  open_1 : RootKey.Os;
  open_2 : RootKey.Os;
  rate_limit_rps : option f64;
  started : Z;
  demo_enforcer : nat -> Enforcer.StateEnforcer;
  new_enforcer : Enforcer.StateEnforcer;
}.

Definition burst_of (vars : Variables) : Z :=
  match var vars "CITADEL_RATE_LIMIT_BURST" with
  | Some v => match Text.parse_unsigned U32_MAX v with Ok n => n | Err _ => 50 end
  | None => 50
  end.

(** Seeding, or counting the keys for the log. *)
Definition prepare (seed_demo : bool) (f : Found) : M KeystoreError unit :=
  if seed_demo && is_fresh f then seed_demo_keys (demo_enforcer f)
  else if negb (is_fresh f) then _ ← attempt (F := KeystoreError) list_keys; mret ()
  else mret ().

Definition build_app (redis_feature : bool) (vars : Variables) (f : Found) : result (fault string) App :=
  let data_dir := default "./citadel-data"%string (var vars "CITADEL_DATA_DIR") in
  let seed_demo := bool_decide (var vars "CITADEL_SEED_DEMO" = Some "true"%string) in
  control ← ApiKeys.bootstrap_api_keys (var vars) (hash_api_key hex_error vars (hash_1 f) (hash_2 f)) (now_text f)
              (saving f) (read_error f) data_dir (api_keys_file f);
  ks ← map_err Fail (create_keystore redis_feature data_dir vars (process f) (replays f) (open_1 f) (open_2 f));
  let '(ks, r) := prepare seed_demo f ks in
  _ ← match r with Ok _ => Ok () | Err _ => Err Panic end;
  let '(ks, _) := init_enforcer (E := KeystoreError) (new_enforcer f) ks in
  Ok (mkApp ks control (ApiLimit.new (started f) (default (F64.of_Z 20) (rate_limit_rps f)) (burst_of vars))
        (data_dir +:+ "/api-keys.json")).

(** ** Properties *)

Context {PL : PlatformLaws PF}.

#[local] Instance legal_active n t p par : Keeps legal (generate_active n t p par).
Proof. unfold generate_active. apply _. Qed.
#[local] Instance legal_draw {E} : Keeps (E := E) legal Api.draw.
Proof. unfold Api.draw. apply _. Qed.
#[local] Instance legal_payloads n dek s : Keeps legal (demo_payloads n dek s).
Proof.
  revert s. induction n as [|n IH]; intros s; cbn [demo_payloads]; [apply _|]. apply keeps_bind; [apply _..|]. intros d.
  destruct (Enforcer.authorize_encrypt s d dek None None) as [s' [a|r]]; apply _.
Qed.
#[local] Instance legal_deks fresh kek l : Keeps legal (seed_demo_deks fresh kek l).
Proof. induction l as [|i l IH]; cbn [seed_demo_deks]; [apply _|]. unfold seed_demo_dek. apply _. Qed.
#[local] Instance calm_keys : Keeps calm list_keys.
Proof. unfold list_keys. apply _. Qed.
#[local] Instance legal_prepare b f : Keeps legal (prepare b f).
Proof. unfold prepare, seed_demo_keys. keeps_walk. Qed.

Lemma register_policies_view (p1 p2 : Policy.KeyPolicy) w :
  legal w ((_ ← register_policy (E := KeystoreError) p1; register_policy p2) w).1.
Proof. assert (K : Keeps (E := KeystoreError) legal (_ ← register_policy p1; register_policy p2)) by apply _. apply K. Qed.

(** C21: Outside of the development environment, a server that starts is protected: its
    keystore has a master key of 32 bytes, in the local pilot the content of the root
    key file, with none of the forbidden variables set, and otherwise the one of the
    environment; it is bound to an enforcer without revocations that knows no other keys
    than the stored ones, and knows all of those if they could be listed; stored keys
    that were well-formed still are; every API key with access to all domains is an
    admin key; without seeding, the stored keys are those that were found, and the
    replay store is the one of a file or of Redis. *)
Theorem server_starts_protected redis vars f a e1 e2 c :
  var vars "CITADEL_ENV" <> Some "development"%string -> KsInit.p_env (process f) = var vars ->
  wf_view (st_view (KsInit.p_store (process f))) -> new_enforcer f = (Enforcer.new e1 e2 c).1 ->
  build_app redis vars f = Ok a ->
  (exists k, master_key (ks a) = Some k /\ length k = 32%nat /\
     (var vars "CITADEL_PROFILE" = Some "local-pilot"%string ->
        (forall v, v ∈ RootKey.forbidden_variables -> var vars v = None) /\
        exists path, var vars "CITADEL_ROOT_KEY_FILE" = Some path /\ RootKey.load_root_key path (open_2 f) = Ok k) /\
     (var vars "CITADEL_PROFILE" <> Some "local-pilot"%string -> KsInit.load_master_key_from_env (var vars) = Some k)) /\
  (exists w0 s,
     create_keystore redis (default "./citadel-data"%string (var vars "CITADEL_DATA_DIR")) vars (process f) (replays f)
       (open_1 f) (open_2 f) = Ok w0 /\
     let w1 := (prepare (bool_decide (var vars "CITADEL_SEED_DEMO" = Some "true"%string)) f w0).1 in
     view (ks a) = view w1 /\ enforcer (ks a) = Some s /\ Enforcer.revoked_keys s = ∅ /\
     (forall k, k ∈ Enforcer.valid_keys s -> is_Some (view (ks a) !! k)) /\
     (is_ok (list_keys w1).2 = true -> forall k, is_Some (view (ks a) !! k) -> k ∈ Enforcer.valid_keys s)) /\
  wf_view (view (ks a)) /\
  ApiKeys.well_scoped (ApiKeys.keys (control a)) /\
  (var vars "CITADEL_SEED_DEMO" <> Some "true"%string ->
     view (ks a) = st_view (KsInit.p_store (process f)) /\
     (file_store (replays f) = Ok (replay (ks a)) \/ redis = true /\ redis_store (replays f) = Ok (replay (ks a)))).
Proof.
  intros Hd He Hwf Hf H. unfold build_app in H. apply bind_Ok in H as (ctl & Hc & H). apply bind_Ok in H as (w0 & Hk%map_err_Ok & H).
  destruct (prepare _ f w0) as [w1 r] eqn:Ep. apply bind_Ok in H as (u & _ & H).
  destruct (init_enforcer_spec (E := KeystoreError) (new_enforcer f) w1) as (w2 & s & Ei & C & Hr & Hv). rewrite Ei in H.
  apply Ok_inj in H. subst a. cbn [ks control].
  pose proof Hk as Hk0. apply create_keystore_production in Hk as ((k & Hm & Hl & Hp) & Hrs & Hv0); [|done..].
  assert (L : legal w0 w1) by (pose proof (legal_prepare (bool_decide (var vars "CITADEL_SEED_DEMO" = Some "true"%string)) f w0) as L; by rewrite Ep in L).
  assert (Hwf1 : wf_view (view w1)) by (apply (lg_keys _ _ L); by rewrite Hv0).
  change (view (set_enforcer (Some s) w2)) with (view w2). rewrite (calm_view _ _ C). rewrite Hf in Hr, Hv. split_and!.
  - exists k. split; [|by split]. change (master_key w2 = Some k). by rewrite (calm_master _ _ C), (lg_master _ _ L).
  - exists w0, s. split; [exact Hk0|]. cbn zeta. rewrite Ep. split_and!; [done..| |].
    + intros k' Hk'. destruct (Hv Hwf1 k') as [H1 _]. destruct (H1 Hk'); [set_solver|done].
    + intros Hlist k' Hk'. destruct (Hv Hwf1 k') as [_ H2]. apply H2; [done|by right].
  - done.
  - by eapply ApiKeys.bootstrap_scoped.
  - intros Hn. rewrite bool_decide_false in Ep by done. change (replay (set_enforcer (Some s) w2)) with (replay w2).
    assert (C1 : calm w0 w1).
    { unfold prepare in Ep. cbn [andb] in Ep. eapply keeps_Ok; [|exact Ep]. destruct (negb (is_fresh f)); apply _. }
    rewrite (calm_view _ _ C1), (calm_replay _ _ C), (calm_replay _ _ C1). done.
Qed.
End boot.
End ApiBoot.
