(* ===== verification/KeystoreOnce.v ===== *)
(** * A ciphertext is decrypted once

    A successful decryption leaves its replay key claimed, no command frees or
    grants a live key, and the key of the same ciphertext is the same as long as
    its domain can be resolved. *)

From S2P Require Import Prelude.
From S2P Require Import Wire.
From S2P Require Import WireV2.
From S2P Require Import Crypto.
From S2P Require Import Envelope.
From S2P Require Import Enforcer.
From S2P Require Import F64.
From S2P Require Import Types.
From S2P Require Import Hierarchy.
From S2P Require Import Policy.
From S2P Require Import AuditLog.
From S2P Require Import Threat.
From S2P Require Import Storage.
From S2P Require Import Replay.
From S2P Require Import KeystoreBase.
From S2P Require Import KeystoreWrap.
From S2P Require Import Keystore.
From S2P Require Import KeystoreCrypto.
From S2P Require Import KeystoreSign.
From S2P Require Import Migration.
From S2P Require Import KeystoreFrame.
From S2P Require Import KeystoreLaws.
From S2P Require Import KeystoreCascade.
From S2P Require Import KeystoreRuns.
From S2P Require Import KeystoreGates.
Import Types.

Module KsOnce.
Import Wrap Keystore KsCrypto KsSign KsLaws KsRuns KsGates.

Section once.
Context {PF : Platform} {PL : PlatformLaws PF}.

(** [key] is claimed at every reading of the tape before [N]. *)
Definition held (key : list byte) (N : nat) (w : World) : Prop :=
  forall j, (pos w <= j < N)%nat -> rs_live (rd_rs (tape w j)) (replay w) key.

Definition keeps_held (key : list byte) (N : nat) (w w' : World) : Prop :=
  tape w' = tape w /\ (pos w <= pos w')%nat /\
  ((pos w' <= N)%nat -> held key N w -> held key N w').

#[export] Instance keeps_held_preorder key N : PreOrder (keeps_held key N).
Proof.
  split.
  - intros w. split_and!; auto.
  - intros w1 w2 w3 (T1 & P1 & H1) (T2 & P2 & H2). split_and!; [congruence|lia|].
    intros HN Hh. apply H2, H1; [lia..|done].
Qed.

Lemma held_calm key N w w' : calm w w' -> keeps_held key N w w'.
Proof.
  intros []. split_and!; [done..|]. unfold held. rewrite calm_tape, calm_replay.
  intros _ H j Hj. apply H. lia.
Qed.

#[export] Instance held_of_calm {E A} key N (m : M E A) :
  Keeps calm m -> Keeps (keeps_held key N) m | 20.
Proof. intros Hm w. apply held_calm, Hm. Qed.

(** Changes that touch neither the replay store nor the tape. *)
Lemma held_frame key N w w' :
  tape w' = tape w -> (pos w <= pos w')%nat -> replay w' = replay w -> keeps_held key N w w'.
Proof.
  intros T P R. split_and!; [done..|]. unfold held. rewrite T, R. intros _ H j Hj. apply H. lia.
Qed.

#[export] Instance held_update {A} key N f : Keeps (A := A) (keeps_held key N) (st_update f).
Proof. intros w. unfold st_update. destruct (f _ _). by apply held_frame; cbn; auto. Qed.
#[export] Instance held_put key N m : Keeps (keeps_held key N) (storage_put m).
Proof. unfold storage_put. apply _. Qed.
#[export] Instance held_overwrite key N k : Keeps (keeps_held key N) (overwrite_key_file k).
Proof. unfold overwrite_key_file. apply _. Qed.
#[export] Instance held_policies {E} key N f :
  Keeps (E := E) (keeps_held key N) (modify (fun w => set_policies (f w) w)).
Proof. intros w. by apply held_frame. Qed.
#[export] Instance held_enforcer {E} key N s : Keeps (E := E) (keeps_held key N) (modify (set_enforcer s)).
Proof. intros w. by apply held_frame. Qed.

#[export] Instance held_claim key N k t : Keeps (keeps_held key N) (replay_claim k t).
Proof.
  intros w. unfold replay_claim. pose proof (fun e' H => claim_keeps (rd_rs (reading w)) e' (replay w) key k t H) as HK.
  destruct (claim _ _ _ _) as [s r]. cbn in *. split_and!; [done|cbn; lia|]. cbn. intros HN Hh j Hj.
  cbn in Hj. apply HK; apply Hh; lia.
Qed.
Lemma held_release key N k : k <> key -> Keeps (keeps_held key N) (replay_release k).
Proof.
  intros Hn w. unfold replay_release.
  pose proof (fun e' => release_keeps (rd_rs (reading w)) e' (replay w) key k (not_eq_sym Hn)) as HK.
  destruct (release _ _ _) as [s r]. cbn in *. split_and!; [done|cbn; lia|]. cbn. intros HN Hh j Hj.
  cbn in Hj. apply HK, Hh. lia.
Qed.
Lemma held_give_back {E} key N k : k <> key -> Keeps (E := E) (keeps_held key N) (give_back k).
Proof. intros Hn. pose proof (held_release key N k Hn). unfold give_back. apply _. Qed.
#[export] Instance held_claim_slot key N k b m : Keeps (keeps_held key N) (claim_slot k b m).
Proof. unfold claim_slot. apply _. Qed.
Lemma held_open_claimed key N k d b m v c aad ctx :
  k <> key -> Keeps (keeps_held key N) (open_claimed k d b m v c aad ctx).
Proof.
  intros Hn. pose proof (fun E => held_give_back (E := E) key N k Hn). unfold open_claimed. keeps_walk.
Qed.

Lemma held_not_claimed key N w :
  held key N w -> (pos w < N)%nat -> (claim (rd_rs (reading w)) key REPLAY_TTL (replay w)).2 <> Ok true.
Proof. intros Hh HN. apply claim_live, Hh. lia. Qed.

(** The part of a decryption from the claim on: a slot that is released was
    granted, so it is not the held one. *)
#[export] Instance held_from_claim {A} key N k d b m v c aad ctx (f : list byte -> M string A) :
  (forall x, Keeps calm (f x)) ->
  Keeps (keeps_held key N) (claim_slot k b m ≫= fun _ => open_claimed k d b m v c aad ctx ≫= f).
Proof.
  intros Hf w. unfold mbind at 1, M_bind at 1. pose proof (held_claim_slot key N k b m w) as H1.
  destruct (claim_slot k b m w) as [w1 [[]|e]] eqn:E; [|done]. cbn in H1.
  destruct (decide (k = key)) as [->|Hn].
  - apply claim_slot_Ok in E as [Hc ->].
    set (w1 := set_replay _ _) in *.
    assert (L : Keeps legal (open_claimed key d b m v c aad ctx ≫= f)) by apply _.
    destruct (L w1) as [T P _ _ _]. split_and!; [done|cbn in P; lia|]. intros HN Hh. exfalso.
    cbn in P. eapply held_not_claimed; [exact Hh|lia|done].
  - etransitivity; [exact H1|]. pose proof (held_open_claimed key N k d b m v c aad ctx Hn) as Ho.
    assert (K : Keeps (keeps_held key N) (open_claimed k d b m v c aad ctx ≫= f)) by apply _.
    apply K.
Qed.

#[export] Instance held_decrypt key N b aad ctx : Keeps (keeps_held key N) (decrypt b aad ctx).
Proof.
  unfold decrypt. cbv zeta.
  do 8 (apply keeps_bind; [apply _|apply _|intros ?]). apply held_from_claim. intros x. apply _.
Qed.
#[export] Instance held_validate_authz key N a : Keeps (keeps_held key N) (validate_authz a).
Proof. unfold validate_authz. apply _. Qed.
#[export] Instance held_decrypt_authorized key N a b aad ctx :
  Keeps (keeps_held key N) (decrypt_authorized a b aad ctx).
Proof. unfold decrypt_authorized. apply _. Qed.
#[export] Instance held_encrypt key N k pt aad ctx : Keeps (keeps_held key N) (encrypt k pt aad ctx).
Proof. unfold encrypt. keeps_walk. Qed.
#[export] Instance held_encrypt_authorized key N a pt aad ctx :
  Keeps (keeps_held key N) (encrypt_authorized a pt aad ctx).
Proof. unfold encrypt_authorized. apply _. Qed.

#[export] Instance held_revoke key N k r : Keeps (keeps_held key N) (revoke k r).
Proof. unfold revoke. keeps_walk. Qed.
#[export] Instance held_cascade_child key N p c st : Keeps (keeps_held key N) (cascade_child p c st).
Proof. unfold cascade_child. keeps_walk. Qed.
#[export] Instance held_cascade_children key N p cs st :
  Keeps (keeps_held key N) (cascade_children p cs st).
Proof. revert st. induction cs as [|c cs IH]; intros st; cbn [cascade_children]; apply _. Qed.
#[export] Instance held_cascade_loop key N n st : Keeps (keeps_held key N) (cascade_loop n st).
Proof. revert st. induction n as [|n IH]; intros st; cbn [cascade_loop]; apply _. Qed.
#[export] Instance held_expire key N k : Keeps (keeps_held key N) (expire k).
Proof. unfold expire. keeps_walk. Qed.
#[export] Instance held_expire_one key N m r : Keeps (keeps_held key N) (expire_one m r).
Proof. unfold expire_one. apply _. Qed.
#[export] Instance held_expire_all key N ms r : Keeps (keeps_held key N) (expire_all ms r).
Proof. revert r. induction ms as [|m ms IH]; intros r; cbn [expire_all]; apply _. Qed.

#[export] Instance held_migrate {E} key N op dry ex r d k :
  Keeps (E := E) (keeps_held key N) (Migration.cmd_hierarchy op dry ex r d k).
Proof. apply (keeps_migration _ (held_calm key N)). Qed.

Lemma exec_held key N c w : keeps_held key N w (exec c w).
Proof.
  assert (G : forall E A (m : M E A), Keeps (keeps_held key N) m -> keeps_held key N w (m w).1)
    by (intros E A m Hm; apply Hm).
  destruct c; cbn [exec]; apply G; apply _.
Qed.

Lemma run_held key N cs w : keeps_held key N w (run cs w).
Proof.
  revert w. induction cs as [|c cs IH]; intros w; [reflexivity|]. cbn [run].
  etransitivity; [apply exec_held|apply IH].
Qed.

Lemma within_calm w w' t a b : calm w w' -> rs_within (replay w') t a b <-> rs_within (replay w) t a b.
Proof. intros []. by rewrite calm_replay. Qed.

(** After a successful decryption its replay key is held over the window. *)
Lemma decrypted_held w w' wc blob aad ctx pt m kv d ct nonce N :
  decrypted w w' wc blob aad ctx pt m kv d ct nonce ->
  (forall i j, (pos w <= i < j)%nat -> (j < N)%nat ->
     rs_within (replay w) REPLAY_TTL (rd_rs (tape w i)) (rd_rs (tape w j))) ->
  held (Replay.derive_replay_key d (blob_key_id blob) (key_version blob) nonce (aead_tag ct)) N w'.
Proof.
  intros D Hw j Hj. pose proof (de_before _ _ _ _ _ _ _ _ _ _ _ _ D) as C1.
  pose proof (de_after _ _ _ _ _ _ _ _ _ _ _ _ D) as C2. pose proof (calm_pos _ _ C2) as P2. cbn in P2.
  rewrite (calm_replay _ _ C2), (calm_tape _ _ C2). cbn.
  apply claim_true; [by apply (de_claim _ _ _ _ _ _ _ _ _ _ _ _ D)|].
  unfold reading. rewrite (calm_tape _ _ C1), (calm_replay _ _ C1).
  apply Hw; [|lia]. pose proof (calm_pos _ _ C1). lia.
Qed.

(** The same bytes presented again, perhaps with other associated data. *)
Definition same_ciphertext (b b' : EncryptedBlob) : Prop :=
  blob_key_id b' = blob_key_id b /\ key_version b' = key_version b /\
  hex_decode (ciphertext_hex b') = hex_decode (ciphertext_hex b).

(** C1: A ciphertext that was decrypted is not decrypted again while its claim is within
    the time-to-live, whatever operations (decryptions of other blobs, failures and
    releases included) are performed in between. *)
Theorem decrypt_once w w1 blob aad ctx pt cs blob' aad' ctx' :
  wf_view (view w) -> fresh_ids w ->
  decrypt blob aad ctx w = (w1, Ok pt) ->
  same_ciphertext blob blob' ->
  let w2 := run cs w1 in let again := decrypt blob' aad' ctx' w2 in
  (forall i j, (pos w <= i < j)%nat -> (j < pos again.1)%nat ->
     rs_within (replay w) REPLAY_TTL (rd_rs (tape w i)) (rd_rs (tape w j))) ->
  is_ok again.2 = false.
Proof.
  intros Hwf Hf E1 (Ek & Ev & Ec) w2 again Hw. destruct again as [w3 [pt'|e]] eqn:E2; [|done].
  exfalso. unfold again in E2. cbn [fst] in Hw.
  destruct (decrypt_Ok _ _ _ _ _ _ E1) as (wc & m & kv & d & ct & nonce & D1).
  destruct (decrypt_Ok _ _ _ _ _ _ E2) as (wc' & m' & kv' & d' & ct' & nonce' & D2).
  assert (Hv1 : view w1 = view w).
  { rewrite (calm_view _ _ (de_after _ _ _ _ _ _ _ _ _ _ _ _ D1)).
    change (view wc = view w). by apply calm_view, (de_before _ _ _ _ _ _ _ _ _ _ _ _ D1). }
  pose proof (legal_decrypt blob aad ctx w) as L1. rewrite E1 in L1. cbn in L1.
  assert (Hf1 : fresh_ids w1).
  { intros i Hi. rewrite Hv1. unfold name_at. rewrite (lg_tape _ _ L1).
    apply Hf. pose proof (lg_pos _ _ L1). lia. }
  assert (Hwf1 : wf_view (view w1)) by (by rewrite Hv1).
  pose proof (run_legal cs w1 Hwf1) as L2. fold w2 in L2.
  pose proof (run_held (Replay.derive_replay_key d (blob_key_id blob) (key_version blob) nonce (aead_tag ct))
    (pos w3) cs w1) as (_ & _ & K). fold w2 in K.
  pose proof (legal_decrypt blob' aad' ctx' w2) as L3. rewrite E2 in L3. cbn in L3.
  pose proof (decrypted_held _ _ _ _ _ _ _ _ _ _ _ _ _ D1 Hw) as Hh.
  apply K in Hh; [|by apply lg_pos]. clear K.
  assert (ct' = ct) as -> by (pose proof (de_ct _ _ _ _ _ _ _ _ _ _ _ _ D1);
    pose proof (de_ct _ _ _ _ _ _ _ _ _ _ _ _ D2); congruence).
  assert (nonce' = nonce) as -> by (pose proof (de_nonce _ _ _ _ _ _ _ _ _ _ _ _ D1);
    pose proof (de_nonce _ _ _ _ _ _ _ _ _ _ _ _ D2); congruence).
  assert (d' = d) as ->.
  { symmetry. eapply in_domain_stable; [|exact (de_domain _ _ _ _ _ _ _ _ _ _ _ _ D1)
      |rewrite <- Ek; exact (de_domain _ _ _ _ _ _ _ _ _ _ _ _ D2)].
    intros x a b Ha Hb. rewrite <- Hv1 in Ha. by apply (run_evolves cs w1 x). }
  pose proof (de_claim _ _ _ _ _ _ _ _ _ _ _ _ D2) as Hc. rewrite Ek, Ev in Hc.
  pose proof (de_before _ _ _ _ _ _ _ _ _ _ _ _ D2) as C2.
  pose proof (calm_pos _ _ (de_after _ _ _ _ _ _ _ _ _ _ _ _ D2)) as P3. cbn in P3.
  revert Hc. apply held_not_claimed with (N := pos w3); [|lia].
  destruct (held_calm (Replay.derive_replay_key d (blob_key_id blob) (key_version blob) nonce
    (aead_tag ct)) (pos w3) _ _ C2) as (_ & _ & G). apply G; [lia|done].
Qed.
End once.
End KsOnce.
