(* ===== verification/KeystoreAuth.v ===== *)
(** * The keystore's boundary

    What the authorized operations require of the bound enforcer, that they
    fail closed without one, and that decryption reports one opaque error. *)

From S2P Require Import Prelude.
From S2P Require Import Wire.
From S2P Require Import WireV2.
From S2P Require Import Crypto.
From S2P Require Import Envelope.
From S2P Require Import Enforcer.
From S2P Require Import F64.
From S2P Require Import Types.
From S2P Require Import Hierarchy.
From S2P Require Import Policy.
From S2P Require Import AuditLog.
From S2P Require Import Threat.
From S2P Require Import Storage.
From S2P Require Import Replay.
From S2P Require Import KeystoreBase.
From S2P Require Import KeystoreWrap.
From S2P Require Import Keystore.
From S2P Require Import KeystoreCrypto.
From S2P Require Import KeystoreSign.
From S2P Require Import KeystoreFrame.
From S2P Require Import KeystoreLaws.
From S2P Require Import KeystoreCascade.
From S2P Require Import KeystoreRuns.
From S2P Require Import KeystoreGates.
Import Types.

Module KsAuth.
Import Wrap Keystore KsCrypto KsLaws KsRuns KsGates.

Section auth.
Context {PF : Platform} {PL : PlatformLaws PF}.

(** The world after [n] accesses that changed nothing else. *)
Definition skip (n : nat) (w : World) : World :=
  mkWorld (store w) (trail w) (threat w) (replay w) (enforcer w) (policies w) (master_key w)
    (env_var w) (tape w) (pos w + n).

(** The context was issued by the bound enforcer for this operation and key, and
    is within its lifetime at the first two readings of the call; its token is
    used up.  Nothing else has changed: the [n] later accesses resolve the domain
    of the key. *)
Record admitted (w w' : World) (authz : Enforcer.AuthorizedContext) (op : Enforcer.OperationType)
    (k : string) : Prop := {
  ad_valid : exists s s' n, enforcer w = Some s /\
    Enforcer.validate authz s (clock w 0) (clock w 1) = (s', Ok ()) /\
    w' = skip (2 + n) (set_enforcer (Some s') w) /\
    Enforcer.issued_tokens s' !! Enforcer.tk_nonce (Enforcer.capability authz) = None;
  ad_op : Enforcer.operation authz = op;
  ad_key : Enforcer.key_id authz = k;
  ad_state : Enforcer.lifecycle_state authz = Enforcer.Active;
  ad_domain : forall d, Enforcer.domain_id authz = Some d -> in_domain (view w) k d;
}.

Lemma validate_consumes c s t1 t2 s' :
  Enforcer.validate c s t1 t2 = (s', Ok ()) ->
  Enforcer.issued_tokens s' !! Enforcer.tk_nonce (Enforcer.capability c) = None.
Proof.
  unfold Enforcer.validate, Enforcer.validate_capability.
  destruct (_ =? 0); [done|]. destruct (negb _); [done|]. case_bool_decide; cbn [negb]; [|done].
  intros [= <- _]. apply lookup_delete_eq.
Qed.

Lemma require_for_Ok op r s c k :
  Enforcer.require_for op r s c k = Ok () ->
  Enforcer.operation c = op /\ Enforcer.key_id c = k /\ Enforcer.lifecycle_state c = Enforcer.Active.
Proof. unfold Enforcer.require_for. intros H. inv_ok H. bool_hyps. done. Qed.

Lemma skip_skip n m w : skip m (skip n w) = skip (n + m) w.
Proof. unfold skip. cbn. by rewrite Nat.add_assoc. Qed.
Lemma skip_0 w : skip 0 w = w.
Proof. unfold skip. rewrite Nat.add_0_r. by destruct w. Qed.
Lemma advance_skip w : advance w = skip 1 w.
Proof. unfold skip, advance. by rewrite Nat.add_1_r. Qed.

(** The two checks before the domain, as they change the world. *)
Lemma validate_authz_Ok authz w w' :
  validate_authz authz w = (w', Ok ()) ->
  exists s s', enforcer w = Some s /\ Enforcer.validate authz s (clock w 0) (clock w 1) = (s', Ok ()) /\
    w' = skip 2 (set_enforcer (Some s') w).
Proof.
  unfold validate_authz. intros H. apply bindM_Ok in H as (? & e & [= <- <-] & H).
  destruct (enforcer w) as [s|] eqn:Es; [|done].
  apply bindM_Ok in H as (w1 & t1 & [= <- <-] & H). apply bindM_Ok in H as (w2 & t2 & [= <- <-] & H).
  destruct (Enforcer.validate authz s _ _) as [s' r] eqn:Ev.
  apply bindM_Ok in H as (w3 & [] & [= <-] & H). apply mapping_Ok, lift_Ok in H as [-> Hr].
  apply map_err_Ok in Hr as ->. exists s, s'. split_and!; [done| |].
  - rewrite <- Ev. unfold clock. by rewrite Nat.add_0_r, Nat.add_1_r.
  - unfold skip, advance, set_enforcer. cbn. by rewrite Nat.add_comm.
Qed.

(** Conversion compares applications of [resolve_from] before it unfolds them. *)
#[local] Strategy 1000 [resolve_from].

Lemma resolve_skips n dp k0 k w w' r :
  resolve_from n dp k0 k w = (w', r) -> exists j, w' = skip j w.
Proof.
  revert dp k w. induction n as [|n IH]; intros dp k w; cbn [resolve_from].
  { intros [= <- _]. exists 0%nat. by rewrite skip_0. }
  unfold mbind at 1, M_bind at 1. destruct (get k w) as [w1 [m|e]] eqn:E1; apply get_world in E1 as ->;
    rewrite advance_skip; [|intros [= <- _]; by exists 1%nat].
  assert (Hstop : forall w2, w2 = skip 1 w -> exists j, w2 = skip j w) by eauto.
  destruct (key_type m); try (intros [= <- _]; by apply Hstop).
  all: destruct (parent_id m) as [p|]; cbn; [|intros [= <- _]; by apply Hstop].
  all: intros [j ->]%IH; exists (1 + j)%nat; by rewrite skip_skip.
Qed.

Lemma authorized_domain_Ok dom k w w' :
  enforce_authorized_domain dom k w = (w', Ok ()) ->
  (exists n, w' = skip n w) /\ forall d, dom = Some d -> in_domain (view w) k d.
Proof.
  destruct dom as [d|]; unfold enforce_authorized_domain.
  2: { intros [= <-]. split; [exists 0%nat; by rewrite skip_0|done]. }
  intros (w1 & d' & Hd%mapping_Ok & [Hb ->]%throw_if_Ok)%bindM_Ok.
  apply negb_false_iff, bool_decide_eq_true in Hb as ->. split.
  - by eapply resolve_skips.
  - intros ? [= <-]. by eapply resolve_Ok.
Qed.

(** Everything an authorized operation does before the raw one. *)
Lemma admission {A} authz op r s k w w' (raw : M string A) a :
  (validate_authz authz ≫= fun _ => lift (map_err Fail (Enforcer.require_for op r s authz k)) ≫= fun _ =>
     enforce_authorized_domain (Enforcer.domain_id authz) k ≫= fun _ => raw) w = (w', Ok a) ->
  exists w1, admitted w w1 authz op k /\ raw w1 = (w', Ok a).
Proof.
  intros H. apply bindM_Ok in H as (w1 & [] & Hv & H).
  apply validate_authz_Ok in Hv as (e & e' & He & Hval & ->).
  apply bindM_Ok in H as (? & [] & [-> Hreq%map_err_Ok%require_for_Ok]%lift_Ok & H).
  destruct Hreq as (Ho & Hk & Hs).
  apply bindM_Ok in H as (w2 & [] & [[n ->] Hd]%authorized_domain_Ok & H).
  eexists. split; [|exact H]. rewrite skip_skip. split; [|done..].
  exists e, e', n. split_and!; [done..|by eapply validate_consumes].
Qed.

(** C6: Encryption on behalf of a caller succeeds only with an unused capability of the
    bound enforcer for that key and operation, live at the first two clock readings of
    the call, in the key's own domain. The key is then an active data key; its policy,
    adapted to the threat level at the five clock readings that follow the read of the
    key, is met with at most a warning; the blob names the key's current version and is
    sealed under that version's public key and the key's domain, and its usage is
    counted. *)
Theorem encrypt_authorized_requires authz pt aad ctx w w' blob :
  encrypt_authorized authz pt aad ctx w = (w', Ok blob) ->
  exists w1 m v pk d ct, admitted w w1 authz Enforcer.Encrypt (Enforcer.key_id authz) /\
    encrypted w1 w' (Enforcer.key_id authz) pt aad ctx blob m v pk d ct.
Proof.
  intros (w1 & Ha & E)%admission. apply encrypt_Ok in E as (m & v & pk & d & ct & E).
  by exists w1, m, v, pk, d, ct.
Qed.


(** C15: Without an enforcer the three authorized operations are refused outright: no
    key is read, nothing is recorded, no replay slot is taken. *)
Theorem fail_closed authz blob pt aad ctx w :
  enforcer w = None ->
  encrypt_authorized authz pt aad ctx w = (w, Err (Fail no_enforcer)) /\
  decrypt_authorized authz blob aad ctx w = (w, Err (Fail no_enforcer)) /\
  KsSign.sign_authorized authz pt w = (w, Err (Fail no_enforcer)).
Proof.
  intros He. unfold encrypt_authorized, decrypt_authorized, KsSign.sign_authorized, validate_authz,
    asks, mbind, M_bind.
  by rewrite He.
Qed.

(** ** One opaque error *)

Definition uniform {A} (m : M string A) : Prop := forall w w' e,
  m w = (w', Err e) -> e = Fail OPAQUE \/ e = Panic.

Lemma uniform_bind {A B} (m : M string A) (f : A -> M string B) :
  uniform m -> (forall a, uniform (f a)) -> uniform (m ≫= f).
Proof.
  intros Hm Hf w w' e. unfold mbind, M_bind. destruct (m w) as [w1 [a|e1]] eqn:E.
  - apply Hf.
  - intros [= _ ->]. by eapply Hm.
Qed.
Lemma uniform_opaque {E A} (m : M E A) : uniform (opaque m).
Proof. intros w w' e. unfold opaque, mapping. destruct (m w) as [w1 [a|[x|]]]; intros [= _ <-]; auto. Qed.
Lemma uniform_throw {A} : uniform (A := A) (throw OPAQUE).
Proof. intros w w' e [= _ <-]. by left. Qed.
Lemma uniform_ret {A} (a : A) : uniform (mret a).
Proof. done. Qed.
Lemma uniform_throw_if b : uniform (throw_if b OPAQUE).
Proof. destruct b; [apply uniform_throw|apply uniform_ret]. Qed.
Lemma uniform_or_throw {A} (o : option A) : uniform (or_throw o OPAQUE).
Proof. destruct o; [apply uniform_ret|apply uniform_throw]. Qed.
Lemma uniform_on_error {E A} (m : M E A) (h : E -> M string A) :
  (forall e, uniform (h e)) -> uniform (on_error m h).
Proof.
  intros Hh w w' e. unfold on_error. destruct (m w) as [w1 [a|[x|]]]; [done|apply Hh|].
  intros [= _ <-]. by right.
Qed.
Lemma uniform_attempt {E A} (m : M E A) : uniform (attempt m).
Proof. intros w w' e. unfold attempt. destruct (m w) as [w1 [a|[x|]]]; intros [=]; auto. Qed.
Lemma uniform_record e : uniform (record e).
Proof. done. Qed.
Lemma uniform_asks {A} (f : World -> A) : uniform (asks f).
Proof. done. Qed.
Lemma uniform_now : uniform now.
Proof. done. Qed.
Lemma uniform_threat {A} f : uniform (A := A) (with_threat f).
Proof. intros w w' e. unfold with_threat. repeat case_match; intros [=]; auto. Qed.
Lemma uniform_evaluate p m : uniform (evaluate_now p m).
Proof.
  repeat (apply uniform_bind; [apply uniform_now|intros ?]). intros w w' e.
  unfold lift. destruct (Policy.evaluate _ _ _ _); intros [=]; auto.
Qed.

Ltac uniform_walk :=
  cbv beta zeta;
  first
    [ apply uniform_opaque | apply uniform_throw | apply uniform_ret | apply uniform_throw_if
    | apply uniform_or_throw | apply uniform_attempt | apply uniform_record | apply uniform_now
    | apply uniform_threat | apply uniform_evaluate
    | apply uniform_on_error; intros ?; uniform_walk
    | apply uniform_bind; [uniform_walk|intros ?; uniform_walk]
    | match goal with |- uniform (match ?x with _ => _ end) => destruct x; uniform_walk end
    | apply uniform_asks ].

(** A failed decryption tells the caller nothing but that it failed: every error of
    the method is the same text. *)
Theorem decrypt_errors_uniform blob aad ctx w w' e :
  decrypt blob aad ctx w = (w', Err e) -> e = Fail OPAQUE \/ e = Panic.
Proof.
  enough (H : uniform (decrypt blob aad ctx)) by apply H.
  unfold decrypt, check_cryptoperiod, effective_policy_for, current_threat_level, cache_key_of,
    claim_slot, open_claimed, give_back, record_threat_event, record_key.
  uniform_walk.
Qed.
End auth.
End KsAuth.
