(* ===== verification/KeystoreOps.v ===== *)
(** * What generation and rewrapping write

    Generation enforces the hierarchy and never stores plaintext outside
    development; rewrapping replaces the current version's material in place,
    and nothing stops a key from being wrapped under itself, after which its
    secret cannot be recovered. *)

From S2P Require Import Prelude.
From S2P Require Import Wire.
From S2P Require Import WireV2.
From S2P Require Import Crypto.
From S2P Require Import Envelope.
From S2P Require Import Enforcer.
From S2P Require Import F64.
From S2P Require Import Types.
From S2P Require Import Hierarchy.
From S2P Require Import Policy.
From S2P Require Import AuditLog.
From S2P Require Import Threat.
From S2P Require Import Storage.
From S2P Require Import Replay.
From S2P Require Import KeystoreBase.
From S2P Require Import KeystoreWrap.
From S2P Require Import Keystore.
From S2P Require Import KeystoreCrypto.
From S2P Require Import KeystoreSign.
From S2P Require Import KeystoreFrame.
From S2P Require Import KeystoreLaws.
From S2P Require Import KeystoreCascade.
From S2P Require Import KeystoreRuns.
From S2P Require Import KeystoreGates.
Import Types.

Module KsOps.
Import Wrap Keystore KsLaws KsGates.

Section ops.
Context {PF : Platform} {PL : PlatformLaws PF}.

Lemma storage_get_Ok k w w' o : storage_get k w = (w', Ok o) -> o = view w !! k.
Proof.
  intros H. unfold storage_get, st_query in H. injection H as _ H. apply map_err_Ok in H.
  by apply get_view in H.
Qed.

(** Wrapping under a parent that wraps its children names that parent and its
    current version. *)
Lemma wrap_under_parent k n p pm sk w w' x :
  wrap_secret_key_for k n (Some p) sk w = (w', Ok x) -> view w !! p = Some pm ->
  wraps_children (key_type pm) = true ->
  exists v s, current_key_version pm = Some v /\ x = (CitadelWrapped s, Some p, Some (version v)).
Proof.
  unfold wrap_secret_key_for. intros H Hp Ht.
  apply bindM_Ok in H as (w1 & o & H1%mapping_Ok%storage_get_Ok & H). rewrite Hp in H1. subst o.
  apply bindM_Ok in H as (w2 & m & [[= <-] ->]%or_throw_Ok & H). rewrite Ht in H.
  apply bindM_Ok in H as (w3 & v & [Hv ->]%or_throw_Ok & H).
  apply bindM_Ok in H as (w4 & mat & Hm & H). injection H as _ <-. unfold wrap_with_citadel_key in Hm.
  apply bindM_Ok in Hm as (w5 & ? & _ & Hm). apply bindM_Ok in Hm as (w6 & ? & _ & Hm).
  apply bindM_Ok in Hm as (w7 & ct & _ & Hm). injection Hm as _ <-. eauto.
Qed.

(** The other case: the master key, or plaintext without one. *)
Lemma wrap_Ok k n p sk w w' x :
  wrap_secret_key_for k n p sk w = (w', Ok x) ->
  (is_plaintext x.1.1 = true -> master_key w = None) /\
  ((exists q pm v s, p = Some q /\ view w !! q = Some pm /\ wraps_children (key_type pm) = true /\
      current_key_version pm = Some v /\ x = (CitadelWrapped s, Some q, Some (version v))) \/
   (forall q pm, p = Some q -> view w !! q = Some pm -> wraps_children (key_type pm) = false) /\
   is_citadel_wrapped x.1.1 = false /\ x.1.2 = None /\ x.2 = None).
Proof.
  assert (G : forall w0, calm w w0 ->
    (wrap_with_master_key k n sk ≫= fun m => mret (m, None, None)) w0 = (w', Ok x) ->
    (is_plaintext x.1.1 = true -> master_key w = None) /\
    is_citadel_wrapped x.1.1 = false /\ x.1.2 = None /\ x.2 = None).
  { intros w0 C H. apply bindM_Ok in H as (w1 & m & H & [= <- <-]). cbn. unfold wrap_with_master_key in H.
    apply bindM_Ok in H as (? & mk & [= <- <-] & H). rewrite (calm_master _ _ C) in H.
    destruct (master_key w) as [mk|]; [|by injection H as _ <-].
    apply bindM_Ok in H as (? & ? & _ & H). apply bindM_Ok in H as (? & ? & _ & H).
    apply bindM_Ok in H as (? & ? & _ & H). by injection H as _ <-. }
  destruct p as [q|].
  - intros H. pose proof H as H0. unfold wrap_secret_key_for in H.
    apply bindM_Ok in H as (w1 & o & H1%mapping_Ok & H). pose proof (keeps_Ok _ _ _ _ H1) as C.
    apply storage_get_Ok in H1.
    apply bindM_Ok in H as (w2 & pm & [-> ->]%or_throw_Ok & H). symmetry in H1.
    destruct (wraps_children (key_type pm)) eqn:Ht.
    + destruct (wrap_under_parent _ _ _ _ _ _ _ _ H0 H1 Ht) as (v & s & Hv & ->).
      split; [done|]. left. by exists q, pm, v, s.
    + destruct (G w1 C H) as (? & ? & ? & ?). split; [done|]. right. split_and!; try done. congruence.
  - intros H. destruct (G w (reflexivity w) H) as (? & ? & ? & ?). split; [done|]. by right.
Qed.

Lemma storage_put_Ok m w w' u :
  storable m -> storage_put m w = (w', Ok u) -> view w' = <[ id m := m ]> (view w).
Proof.
  intros Hs H. apply (wp_Ok (fun _ w' => view w' = <[ id m := m ]> (view w)) _ _ _ _ H).
  by apply wp_put.
Qed.

(** The write of a successful rewrap. *)
Lemma rewrap_Ok k p w w' :
  wf_view (view w) -> rewrap k p w = (w', Ok ()) ->
  exists m kv bs wx wy x nonce t l1 l2,
    view w !! k = Some m /\ current_key_version m = Some kv /\
    calm w wx /\ wrap_secret_key_for k (version kv) p bs wx = (wy, Ok x) /\
    versions m = l1 ++ kv :: l2 /\ Forall (fun v => version v <> current_version m) l1 /\
    view w' = <[ k := set_updated t (set_versions (l1 ++ rewrapped x nonce kv :: l2) m) ]> (view w).
Proof.
  intros Hwf H. unfold rewrap in H.
  apply bindM_Ok in H as (w1 & m & Hm%mapping_Ok & H). pose proof (get_Ok _ _ _ _ Hm) as Hk.
  apply keeps_Ok in Hm; [|apply _].
  apply bindM_Ok in H as (w1' & kv & [Hkv ->]%or_throw_Ok & H).
  apply bindM_Ok in H as (w2 & bs & Hu%mapping_Ok & H). apply keeps_Ok in Hu; [|apply _].
  apply bindM_Ok in H as (w3 & x & Hx%mapping_Ok & H). pose proof Hx as Hx0. apply keeps_Ok in Hx; [|apply _].
  apply bindM_Ok in H as (w4 & nonce & Hn & H). apply keeps_Ok in Hn; [|apply _].
  apply bindM_Ok in H as (w4' & vs & [Hvs ->]%or_throw_Ok & H).
  apply bindM_Ok in H as (w5 & t & Ht & H). apply keeps_Ok in Ht; [|apply _].
  apply bindM_Ok in H as (w6 & [] & Hput & H). apply keeps_Ok in H; [|apply _].
  destruct (update_first_spec _ _ _ _ _ Hvs Hkv) as (l1 & l2 & El & -> & _ & Hl1).
  apply storage_put_Ok in Hput.
  2: { eapply (storable_new m _ l1 l2); [by eapply storable_read|done|rewrite El; set_solver..|by eapply wrap_tagged]. }
  exists m, kv, bs, w2, w3, x, nonce, t, l1, l2. split_and!; try done.
  - by etransitivity.
  - eapply Forall_impl; [exact Hl1|]. intros v Hv. by apply Z.eqb_neq.
  - rewrite (calm_view _ _ H), Hput. cbn. rewrite (wf_id _ _ (Hwf _ _ Hk)).
    assert (C : calm w w5) by (repeat (etransitivity; [eassumption|]); done).
    by rewrite (calm_view _ _ C).
Qed.

Lemma find_after_update (m : KeyMetadata) l1 kv l2 f :
  Forall (fun v => version v <> current_version m) l1 -> version kv = current_version m ->
  version (f kv) = version kv ->
  List.find (fun v => version v =? current_version m) (l1 ++ f kv :: l2) = Some (f kv).
Proof.
  intros Hl Hk Hf. induction Hl as [|v l1 Hv _ IH]; cbn.
  - by rewrite Hf, Hk, Z.eqb_refl.
  - by rewrite (proj2 (Z.eqb_neq _ _) Hv).
Qed.

(** Rewrapping a key under itself is accepted, and afterwards no unwrapping of its
    current version succeeds, at any depth: the secret is lost. *)
Theorem rewrap_under_itself_loses_key k m w w' :
  wf_view (view w) -> view w !! k = Some m -> wraps_children (key_type m) = true ->
  rewrap k (Some k) w = (w', Ok ()) ->
  exists m' kv', view w' !! k = Some m' /\ current_key_version m' = Some kv' /\
    forall n skip w1 w2 bs, view w1 = view w' -> unwrap_key_version_inner n k kv' skip w1 <> (w2, Ok bs).
Proof.
  intros Hwf Hm Ht H. apply rewrap_Ok in H
    as (m0 & kv & bs & wx & wy & x & nonce & t & l1 & l2 & Hm0 & Hkv & C & Hx & El & Hl1 & Hv); [|done].
  rewrite Hm in Hm0. injection Hm0 as <-.
  apply (wrap_under_parent _ _ _ m) in Hx as (v & s & Hcv & ->); [|by rewrite (calm_view _ _ C)|done].
  rewrite Hkv in Hcv. injection Hcv as <-. pose proof (get_version_Some _ _ _ Hkv) as [_ Hn].
  set (m' := set_updated _ _) in Hv.
  assert (Hm' : view w' !! k = Some m') by (by rewrite Hv, lookup_insert_eq).
  assert (Hkv' : current_key_version m' = Some (rewrapped (CitadelWrapped s, Some k, Some (version kv)) nonce kv))
    by (by apply (find_after_update m)).
  exists m', (rewrapped (CitadelWrapped s, Some k, Some (version kv)) nonce kv). split_and!; [done..|].
  intros n. induction n as [|n IH]; intros skip w1 w2 b Hw1; [done|].
  cbn [unwrap_key_version_inner secret_key_material rewrapped fst snd]. intros Hu.
  apply bindM_Ok in Hu as (w3 & [p pkv] & Hp & Hu).
  apply find_parent_Ok in Hp as (C3 & Hp & pm & n' & Hpm & _ & Hn' & Hg). cbn in Hp, Hn'.
  injection Hp as <-. injection Hn' as <-. rewrite Hw1, Hm' in Hpm. injection Hpm as <-.
  assert (E : pkv = rewrapped (CitadelWrapped s, Some k, Some (version kv)) nonce kv).
  { unfold current_key_version in Hkv'. change (current_version m') with (current_version m) in Hkv'.
    rewrite <- Hn in Hkv'. congruence. }
  subst pkv. apply bindM_Ok in Hu as (w4 & b' & Hu & _). eapply IH; [|exact Hu].
  by rewrite (calm_view _ _ C3).
Qed.

(** ** Generation *)

Lemma check_hierarchy_Ok t par w w' :
  check_hierarchy t par w = (w', Ok ()) -> flat_override w = false ->
  match par with
  | None => t = Root
  | Some p => exists pm, view w !! p = Some pm /\
      Hierarchy.can_wrap (Hierarchy.role_of (key_type pm)) (Hierarchy.role_of t) = true
  end.
Proof.
  unfold check_hierarchy. intros H Hf. apply bindM_Ok in H as (? & b & [= <- <-] & H). rewrite Hf in H.
  destruct par as [p|].
  - apply bindM_Ok in H as (w1 & o & H1%mapping_Ok%storage_get_Ok & H).
    apply bindM_Ok in H as (w2 & pm & [-> ->]%or_throw_Ok & [Hb _]%throw_if_Ok).
    exists pm. split; [done|]. by destruct (Hierarchy.can_wrap _ _).
  - apply throw_if_Ok in H as [Hb _]. by case_bool_decide.
Qed.

(** What a successful generation did. *)
Lemma generate_Ok n t pol par w w' k :
  generate n t pol par w = (w', Ok k) ->
  exists i tm pk sk wc x wx wy nonce m,
    (pos w <= i < pos w')%nat /\ k = name_at w i /\ tape w' = tape w /\
    t <> Signing /\ (master_key w = None -> dev_mode w = true) /\ check_hierarchy t par w = (wc, Ok ()) /\
    calm w wx /\ wrap_secret_key_for k 1 par sk wx = (wy, Ok x) /\
    view w' = <[ k := m ]> (view w) /\ id m = k /\ name m = n /\ key_type m = t /\ state m = Pending /\
    parent_id m = par /\ policy_id m = pol /\ versions m = [new_version 1 tm pk x nonce] /\
    current_version m = 1.
Proof.
  intros H. pose proof (legal_generate n t pol par w) as L. rewrite H in L. cbn in L. unfold generate in H.
  apply bindM_Ok in H as (? & [] & [Hs ->]%throw_if_Ok & H). bool_hyps.
  apply bindM_Ok in H as (w1 & [] & H1 & H). unfold require_master_key in H1.
  apply bindM_Ok in H1 as (? & b & [= <- <-] & [Hb ->]%throw_if_Ok).
  apply bindM_Ok in H as (w2 & [] & H2 & H). pose proof H2 as Hh. apply keeps_Ok in H2; [|apply _].
  apply bindM_Ok in H as (w3 & bs & H3 & H). injection H3 as <- <-.
  apply bindM_Ok in H as (w4 & t4 & H4 & H). apply keeps_Ok in H4; [|apply _].
  apply bindM_Ok in H as (w5 & kp & H5 & H). apply keeps_Ok in H5; [|apply _].
  apply bindM_Ok in H as (w6 & x & Hx%mapping_Ok & H). pose proof (keeps_Ok _ _ _ _ Hx) as H6.
  apply bindM_Ok in H as (w7 & nonce & H7 & H). apply keeps_Ok in H7; [|apply _].
  apply bindM_Ok in H as (w8 & [] & Hp & H). pose proof Hp as Hp'. apply storage_put_Ok in Hp.
  2: { apply storable_tagged, Forall_singleton. by eapply wrap_tagged. }
  assert (P8 : pos w8 = S (pos w7)).
  { unfold storage_put, st_update in Hp'. destruct (st_put _ _ _). by injection Hp' as <- _. }
  apply bindM_Ok in H as (w9 & [] & H9 & [= <- <-]). apply keeps_Ok in H9; [|apply _].
  assert (C3 : calm w (advance w2)) by (transitivity w2; [done|apply (calm_tick (E := unit))]).
  assert (C5 : calm w w5) by calm_chain.
  assert (C7 : calm w w7) by (transitivity w5; [done|]; by transitivity w6).
  eexists (pos w2), _, _, _, _, _, w5, w6, _, _. rewrite (calm_view _ _ H9), Hp, (calm_view _ _ C7).
  assert (Hn : hex_encode (rd_bytes (reading w2) 0 16) = name_at w (pos w2)).
  { unfold name_at, reading. by rewrite (calm_tape _ _ H2). }
  split_and!; try exact Hn; try exact Hx; try exact Hh; try done; try apply L.
  - apply (calm_pos _ _ H2).
  - pose proof (calm_pos _ _ H4). pose proof (calm_pos _ _ H5). pose proof (calm_pos _ _ H6).
    pose proof (calm_pos _ _ H7). pose proof (calm_pos _ _ H9). cbn in *. lia.
  - intros Hm. rewrite Hm in Hb. by destruct (dev_mode w).
Qed.

(** The write of a successful activation. *)
Lemma activate_Ok k w w' :
  wf_view (view w) -> activate k w = (w', Ok ()) ->
  exists m t1 t2, view w !! k = Some m /\
    view w' = <[ k := set_activated t2 (set_updated t1 (set_state Active m)) ]> (view w).
Proof.
  intros Hwf H. unfold activate in H.
  apply bindM_Ok in H as (w1 & m & Hg & H). pose proof (get_Ok _ _ _ _ Hg) as Hk.
  apply keeps_Ok in Hg; [|apply _].
  apply bindM_Ok in H as (w2 & m2 & Ht & H). pose proof Ht as Ht'. apply keeps_Ok in Ht; [|apply _].
  unfold transition in Ht'. apply bindM_Ok in Ht' as (? & [] & [_ ->]%throw_if_Ok & Ht').
  apply bindM_Ok in Ht' as (w2' & t1 & _ & [= _ <-]).
  apply bindM_Ok in H as (w3 & t2 & Hn & H). apply keeps_Ok in Hn; [|apply _].
  apply bindM_Ok in H as (w4 & [] & Hp%storage_put_Ok & H); [|exact (storable_read _ _ _ Hk)]. apply keeps_Ok in H; [|apply _].
  exists m, t1, t2. split; [done|]. rewrite (calm_view _ _ H), Hp. cbn. rewrite (wf_id _ _ (Hwf _ _ Hk)).
  assert (C : calm w w3) by calm_chain. by rewrite (calm_view _ _ C).
Qed.

(** The write of a successful rotation. *)
Lemma rotate_Ok k w w' k' :
  wf_view (view w) -> rotate k w = (w', Ok k') ->
  exists m pk sk x wx wy nonce t, let n := wrapping_add 32 (current_version m) 1 in
    view w !! k = Some m /\ state m = Active /\
    calm w wx /\ wrap_secret_key_for k n (parent_id m) sk wx = (wy, Ok x) /\
    view w' = <[ k := set_updated t (set_rotated t (set_activated t (set_state Active (set_current n
      (set_versions (versions m ++ [new_version n t pk x nonce]) m))))) ]> (view w).
Proof.
  intros Hwf H. unfold rotate in H.
  apply bindM_Ok in H as (w1 & m & Hg & H). pose proof (get_Ok _ _ _ _ Hg) as Hk.
  apply keeps_Ok in Hg; [|apply _].
  apply bindM_Ok in H as (? & [] & [Hs ->]%throw_if_Ok & H). bool_hyps.
  apply bindM_Ok in H as (w2 & [] & Hr & H). apply keeps_Ok in Hr; [|apply _].
  apply bindM_Ok in H as (w3 & kp & Hkp & H). apply keeps_Ok in Hkp; [|apply _].
  apply bindM_Ok in H as (w4 & t & Ht & H). apply keeps_Ok in Ht; [|apply _].
  apply bindM_Ok in H as (w5 & x & Hx%mapping_Ok & H). pose proof (keeps_Ok _ _ _ _ Hx) as C5.
  apply bindM_Ok in H as (w6 & nonce & Hn & H). apply keeps_Ok in Hn; [|apply _].
  apply bindM_Ok in H as (w7 & [] & Hp%storage_put_Ok & H).
  2: { eapply (storable_new m _ (versions m) []); [by eapply storable_read|done|done|set_solver|by eapply wrap_tagged]. }
  apply bindM_Ok in H as (w8 & [] & H & [= <- _]). apply keeps_Ok in H; [|apply _].
  assert (C4 : calm w w4) by calm_chain. assert (C6 : calm w w6) by calm_chain.
  exists m, kp.1, (Kem.SecretKey_to_bytes kp.2), x, w4, w5, nonce, t. split_and!; [done..|].
  rewrite (calm_view _ _ H), Hp. cbn. by rewrite (wf_id _ _ (Hwf _ _ Hk)), (calm_view _ _ C6).
Qed.

(** C25: Without the development override, a key is generated only where the hierarchy
    allows it; the new record is pending with one version, wrapped to the parent's
    current key where the parent wraps its children, and in plaintext only in
    development mode. *)
Theorem generate_requires n t pol par w w' k :
  generate n t pol par w = (w', Ok k) -> flat_override w = false ->
  t <> Signing /\
  match par with
  | None => t = Root
  | Some p => exists pm, view w !! p = Some pm /\
      Hierarchy.can_wrap (Hierarchy.role_of (key_type pm)) (Hierarchy.role_of t) = true
  end /\
  exists m v, view w' = <[ k := m ]> (view w) /\ id m = k /\ key_type m = t /\ state m = Pending /\
    parent_id m = par /\ policy_id m = pol /\ versions m = [v] /\ current_version m = 1 /\ version v = 1 /\
    (is_plaintext (secret_key_material v) = true -> master_key w = None /\ dev_mode w = true) /\
    (forall p pm, par = Some p -> view w !! p = Some pm ->
       if wraps_children (key_type pm)
       then is_citadel_wrapped (secret_key_material v) = true /\ wrapping_key_id v = Some p /\
            wrapping_key_version v = version <$> current_key_version pm
       else is_citadel_wrapped (secret_key_material v) = false /\ wrapping_key_id v = None).
Proof.
  intros H Hf. apply generate_Ok in H
    as (i & tm & pk & sk & wc & x & wx & wy & nonce & m & _ & _ & _ & Hs & Hmk & Hh & C & Hx & Hv & Em).
  destruct Em as (E1 & E2 & E3 & E4 & E5 & E6 & E7 & E8).
  apply check_hierarchy_Ok in Hh; [|done]. split_and!; [done|done|].
  exists m, (new_version 1 tm pk x nonce). split_and!; [done..| |];
    cbn [secret_key_material wrapping_key_id wrapping_key_version new_version];
    apply wrap_Ok in Hx as [Hpl Hx]; rewrite ?(calm_view _ _ C), ?(calm_master _ _ C) in *.
  - intros Hpt. specialize (Hpl Hpt). auto.
  - intros p pm -> Hpm. destruct Hx as [(q & pm' & v & s & [= <-] & Hpm' & Hw & Hcv & ->)|(Hw & Hc & Hi & _)].
    + rewrite Hpm in Hpm'. injection Hpm' as <-. by rewrite Hw, Hcv.
    + by rewrite (Hw p pm).
Qed.
End ops.
End KsOps.
