(* ===== verification/KeystoreSeal.v ===== *)
(** * The secrets behind the keystore

    A ghost map assigns to every version of every key the secret it was created
    with.  [coherent] says that the store represents those secrets: what is
    stored for a version is its secret, sealed in one of the forms the code
    writes, and its public part.  Every operation extends the map without
    changing it ([seals]), so a secret is the same before and after rotation,
    rewrapping, suspension or a failed write; and whatever unwrapping returns is
    the secret itself ([unwrap_secret]). *)

From S2P Require Import Prelude.
From S2P Require Import Wire.
From S2P Require Import WireV2.
From S2P Require Import Crypto.
From S2P Require Import Envelope.
From S2P Require Import Enforcer.
From S2P Require Import Types.
From S2P Require Import Hierarchy.
From S2P Require Import AuditLog.
From S2P Require Import Storage.
From S2P Require Import Signer.
From S2P Require Import KeystoreBase.
From S2P Require Import KeystoreWrap.
From S2P Require Import Keystore.
From S2P Require Import KeystoreCrypto.
From S2P Require Import KeystoreSign.
From S2P Require Import KeystoreFrame.
From S2P Require Import KeystoreLaws.
From S2P Require Import KeystoreCascade.
From S2P Require Import KeystoreRuns.
From S2P Require Import KeystoreGates.
From S2P Require Import KeystoreOps.
Import Types.

Module KsSeal.
Import Wrap Keystore KsCrypto KsSign KsLaws KsCascade KsRuns KsGates KsOps.

Section seal.
Context {PF : Platform}.

(** ** Secrets *)

Inductive secret :=
| KemSecret (sk : Kem.SecretKey)
| DsaSecret (seed : list byte).

Definition secret_bytes (s : secret) : list byte :=
  match s with KemSecret sk => Kem.SecretKey_to_bytes sk | DsaSecret seed => seed end.
Definition public_bytes (s : secret) : list byte :=
  match s with
  | KemSecret sk => Kem.PublicKey_to_bytes (Kem.public_key sk)
  | DsaSecret seed => vk_encode seed
  end.
Definition valid_secret (s : secret) : Prop :=
  match s with KemSecret sk => len (Kem.sk_x25519 sk) = 32 | DsaSecret seed => len seed = 32 end.

Notation secrets := (gmap (string * Z) secret).

(** The stored forms of the bytes [bs] of version [n] of the key [k]. *)
Inductive sealed_material (mk : option (list byte)) (S : secrets) (k : string) (n : Z)
    (bs : list byte) : SecretKeyMaterial -> option string -> option Z -> Prop :=
| sealed_plain wi wv : sealed_material mk S k n bs (Plaintext (hex_encode bs)) wi wv
| sealed_master key aes nonce ct wi wv :
    mk = Some key -> hkdf_expand None key (kek_info k n) 32 = Some aes -> len nonce = 12 ->
    gcm_encrypt aes nonce bs [] = Some ct ->
    sealed_material mk S k n bs (Encrypted ("enc:" +:+ hex_encode nonce +:+ hex_encode ct)) wi wv
| sealed_parent p pn psk ct :
    S !! (p, pn) = Some (KemSecret psk) ->
    Engine.decrypt (K := hybrid_kem) psk ct HIERARCHY_WRAP_AAD (wrap_context k n p) = Ok bs ->
    sealed_material mk S k n bs (CitadelWrapped ("ckw:" +:+ hex_encode ct)) (Some p) (Some pn)
| sealed_purged wi wv : sealed_material mk S k n bs Purged wi wv.

Definition sealed_version (mk : option (list byte)) (S : secrets) (m : KeyMetadata)
    (v : KeyVersion) : Prop := exists s,
  S !! (id m, version v) = Some s /\ (key_type m <> Signing -> exists sk, s = KemSecret sk) /\
  (state m <> Destroyed -> public_key_hex v = hex_encode (public_bytes s)) /\
  sealed_material mk S (id m) (version v) (secret_bytes s) (secret_key_material v)
    (wrapping_key_id v) (wrapping_key_version v).

(** [N] bounds the part of the tape that is read: the identifiers drawn from it
    are new and distinct, and version numbers do not wrap around. *)
Record coherent (N : nat) (S : secrets) (w : World) : Prop := {
  co_sealed k m v : view w !! k = Some m -> v ∈ versions m -> sealed_version (master_key w) S m v;
  co_valid : map_Forall (fun _ => valid_secret) S;
  co_numbered k n m : is_Some (S !! (k, n)) -> view w !! k = Some m -> n ∈ version <$> versions m;
  co_room k m : view w !! k = Some m ->
    Z.of_nat (length (versions m)) + (Z.of_nat N - Z.of_nat (pos w)) < 2 ^ 32 - 1;
  co_future i : (pos w <= i < N)%nat ->
    view w !! name_at w i = None /\ forall n, S !! (name_at w i, n) = None;
  co_distinct i j : (pos w <= i)%nat -> (i < j < N)%nat -> name_at w i <> name_at w j;
  co_bound : Z.of_nat N < 2 ^ 32 - 1;
  (** only [generate_signing_key] creates signing secrets *)
  co_first k n seed : S !! (k, n) = Some (DsaSecret seed) -> n = 1;
}.

Lemma sealed_material_mono mk S S' k n bs m wi wv :
  S ⊆ S' -> sealed_material mk S k n bs m wi wv -> sealed_material mk S' k n bs m wi wv.
Proof. intros Hs []; econstructor; eauto. by eapply lookup_weaken. Qed.

Lemma sealed_version_mono mk S S' m v : S ⊆ S' -> sealed_version mk S m v -> sealed_version mk S' m v.
Proof.
  intros Hs (s & Hl & Ht & Hp & Hm). exists s. split_and!; [by eapply lookup_weaken|done..|].
  by eapply sealed_material_mono.
Qed.

(** ** How the store may change *)

(** The part of the world [coherent] reads besides the keys. *)
Record later (w w' : World) : Prop := {
  lt_tape : tape w' = tape w;
  lt_master : master_key w' = master_key w;
  lt_pos : (pos w <= pos w')%nat;
}.

Lemma calm_later w w' : calm w w' -> later w w'.
Proof. intros []. by split. Qed.
Lemma legal_later w w' : legal w w' -> later w w'.
Proof. intros []. by split. Qed.

Lemma later_name w w' i : later w w' -> name_at w' i = name_at w i.
Proof. intros []. unfold name_at. congruence. Qed.

(** One key replaced, its new versions added to the secrets. *)
Lemma coherent_put N S S' w w' m :
  coherent N S w -> later w w' -> view w' !! id m = Some m ->
  (forall k m', k <> id m -> view w' !! k = Some m' -> view w !! k = Some m') ->
  S ⊆ S' -> map_Forall (fun _ => valid_secret) S' ->
  (forall k n, is_Some (S' !! (k, n)) -> is_Some (S !! (k, n)) \/ k = id m) ->
  (forall n, is_Some (S' !! (id m, n)) -> n ∈ version <$> versions m) ->
  Forall (sealed_version (master_key w) S' m) (versions m) ->
  Z.of_nat (length (versions m)) + (Z.of_nat N - Z.of_nat (pos w')) < 2 ^ 32 - 1 ->
  (forall i, (pos w' <= i < N)%nat -> name_at w i <> id m) ->
  (forall k n seed, S' !! (k, n) = Some (DsaSecret seed) -> n = 1) ->
  coherent N S' w'.
Proof.
  intros [C1 C2 C3 C4 C5 C6 C7 C8] L Hm Hne Hs Hval Hdom Hnum Hsealed Hroom Hfut Hfirst.
  destruct (L) as [T K P]. split.
  - intros k m' v Hk Hv. rewrite K. destruct (decide (k = id m)) as [->|Hn].
    + rewrite Hm in Hk. injection Hk as <-. by eapply Forall_forall in Hsealed.
    + eapply sealed_version_mono; [done|]. by eapply C1; [apply Hne|].
  - done.
  - intros k n m' Hk Hm'. destruct (decide (k = id m)) as [->|Hn].
    + rewrite Hm in Hm'. injection Hm' as <-. by apply Hnum.
    + destruct (Hdom _ _ Hk); [|done]. by eapply C3; [|apply Hne].
  - intros k m' Hk. destruct (decide (k = id m)) as [->|Hn].
    + rewrite Hm in Hk. by injection Hk as <-.
    + specialize (C4 k m' (Hne _ _ Hn Hk)). lia.
  - intros i Hi. rewrite (later_name _ _ _ L). specialize (Hfut i Hi).
    destruct (C5 i) as [V1 V2]; [lia|]. split.
    + destruct (view w' !! name_at w i) as [m'|] eqn:E; [|done]. apply Hne in E; [congruence|done].
    + intros n. destruct (S' !! (name_at w i, n)) eqn:E; [|done]. exfalso.
      destruct (Hdom (name_at w i) n) as [[? ?]|]; [eauto|specialize (V2 n); congruence|done].
  - intros i j Hi Hj. rewrite !(later_name _ _ _ L). apply C6; lia.
  - done.
  - done.
Qed.

(** The same secrets: keys are gone, or carry the same versions, purged at most
    when the key is destroyed. *)
Record restated (m m' : KeyMetadata) : Prop := {
  rs_id : id m' = id m;
  rs_type : key_type m' = key_type m;
  rs_destroyed : state m = Destroyed -> state m' = Destroyed;
  rs_versions : Forall2 (fun v v' => v' = v \/
    state m' = Destroyed /\ version v' = version v /\ secret_key_material v' = Purged)
    (versions m) (versions m');
}.

Definition restates (v v' : gmap string KeyMetadata) : Prop :=
  forall k m', v' !! k = Some m' -> exists m, v !! k = Some m /\ restated m m'.

Lemma restated_same m m' :
  id m' = id m -> key_type m' = key_type m -> (state m = Destroyed -> state m' = Destroyed) ->
  versions m' = versions m -> restated m m'.
Proof.
  intros H1 H2 H3 H4. split; try done. rewrite H4.
  apply Forall_Forall2_diag, Forall_true. by left.
Qed.

Lemma restated_numbers m m' : restated m m' -> version <$> versions m' = version <$> versions m.
Proof.
  intros [_ _ _ F]. induction F as [|v v' l l' Hv _ IH]; [done|]. rewrite !fmap_cons, IH. f_equal.
  by destruct Hv as [->|(_ & ? & _)].
Qed.

Lemma restated_sealed mk S m m' v' :
  restated m m' -> (forall v, v ∈ versions m -> sealed_version mk S m v) -> v' ∈ versions m' ->
  sealed_version mk S m' v'.
Proof.
  intros [E1 E2 E3 F] Hall [i Hi]%list_elem_of_lookup.
  destruct (Forall2_lookup_r _ _ _ _ _ F Hi) as (v & Hv & Hor).
  destruct (Hall v) as (s & Hs & Ht & Hp & Hm); [by eapply list_elem_of_lookup_2|].
  exists s. rewrite E1, E2. destruct Hor as [->|(Hd & -> & ->)].
  - split_and!; [done|done| |done]. intros Hn. apply Hp. by intros ?%E3.
  - split_and!; [done|done|done|constructor].
Qed.

Lemma coherent_restates N S w w' :
  coherent N S w -> later w w' -> restates (view w) (view w') -> coherent N S w'.
Proof.
  intros [C1 C2 C3 C4 C5 C6 C7 C8] L Hr. destruct (L) as [T K P]. split.
  - intros k m' v Hk Hv. destruct (Hr k m' Hk) as (m & Hm & R). rewrite K.
    eapply restated_sealed; [done| |done]. intros v0 Hv0. by eapply C1.
  - done.
  - intros k n m' Hk Hm'. destruct (Hr k m' Hm') as (m & Hm & R).
    rewrite (restated_numbers _ _ R). by eapply C3.
  - intros k m' Hk. destruct (Hr k m' Hk) as (m & Hm & R). specialize (C4 k m Hm).
    pose proof (f_equal length (restated_numbers _ _ R)) as Hl. rewrite !length_fmap in Hl. lia.
  - intros i Hi. rewrite (later_name _ _ _ L). destruct (C5 i) as [V1 V2]; [lia|]. split; [|done].
    destruct (view w' !! name_at w i) as [m'|] eqn:E; [|done]. destruct (Hr _ _ E) as (? & ? & _). congruence.
  - intros i j Hi Hj. rewrite !(later_name _ _ _ L). apply C6; lia.
  - done.
  - done.
Qed.

Lemma restates_refl v v' : v' = v -> restates v v'.
Proof. intros ->. intros k m Hm. exists m. split; [done|]. by apply restated_same. Qed.

(** ** Wrapping and unwrapping *)

Context {PL : PlatformLaws PF}.

Lemma secret_key_parses s sk :
  valid_secret s -> s = KemSecret sk -> Kem.SecretKey_from_bytes (secret_bytes s) = Ok sk.
Proof. intros Hv ->. by apply Kem.SecretKey_roundtrip. Qed.

Lemma hex_24 nonce : len nonce = 12 -> String.length (hex_encode nonce) = 24%nat.
Proof. intros H. rewrite length_hex_encode. lia. Qed.

(** Running a method forwards. *)
Lemma bind_run {E A B} (m : M E A) (f : A -> M E B) w w1 a :
  m w = (w1, Ok a) -> (m ≫= f) w = f a w1.
Proof. unfold mbind, M_bind. by intros ->. Qed.
Lemma or_throw_run {E A} (o : option A) (e : E) a w : o = Some a -> or_throw o e w = (w, Ok a).
Proof. by intros ->. Qed.
Lemma throw_if_run {E} b (e : E) w : b = false -> throw_if b e w = (w, Ok ()).
Proof. by intros ->. Qed.
Lemma lift_run {E A} (r : result (fault E) A) a w : r = Ok a -> lift r w = (w, Ok a).
Proof. by intros ->. Qed.
Lemma mapping_run {E F A} (f : E -> F) (m : M E A) w w1 a :
  m w = (w1, Ok a) -> mapping f m w = (w1, Ok a).
Proof. apply mapping_Ok. Qed.
Lemma decode_hex_run b w : decode_hex (hex_encode b) w = (w, Ok b).
Proof. unfold decode_hex. by rewrite hex_decode_encode. Qed.

(** Unwrapping what [wrap_with_master_key] stored. *)
Lemma unwrap_encrypted_sealed k kv mk aes nonce ct bs w :
  master_key w = Some mk -> hkdf_expand None mk (kek_info k (version kv)) 32 = Some aes ->
  len nonce = 12 -> gcm_encrypt aes nonce bs [] = Some ct ->
  unwrap_encrypted k kv ("enc:" +:+ hex_encode nonce +:+ hex_encode ct) w = (w, Ok bs).
Proof.
  intros Hm Hk Hn Hc. unfold unwrap_encrypted. erewrite bind_run by reflexivity.
  erewrite bind_run by by apply or_throw_run. erewrite bind_run by apply or_throw_run, strip_prefix_app.
  erewrite bind_run.
  2: { apply throw_if_run. rewrite length_str_app, (hex_24 _ Hn). apply Nat.ltb_ge. lia. }
  erewrite bind_run.
  2: { apply lift_run, str_split_at_app; [by apply hex_24|apply hex_encode_digits]. }
  erewrite bind_run by apply mapping_run, decode_hex_run.
  erewrite bind_run by apply mapping_run, decode_hex_run.
  erewrite bind_run by by apply or_throw_run.
  erewrite bind_run by by apply throw_if_run; rewrite (proj2 (Z.eqb_eq _ _) Hn).
  by apply or_throw_run, gcm_correct.
Qed.

Lemma open_wrapped_sealed k kv p psk s ct bs w w' bs' :
  valid_secret s -> s = KemSecret psk ->
  Engine.decrypt (K := hybrid_kem) psk ct HIERARCHY_WRAP_AAD (wrap_context k (version kv) p) = Ok bs ->
  open_wrapped k kv ("ckw:" +:+ hex_encode ct) p (secret_bytes s) w = (w', Ok bs') -> w' = w /\ bs' = bs.
Proof.
  intros Hv Hs Hd. unfold open_wrapped.
  intros (w1 & sk & [-> Hsk]%mapping_Ok%lift_Ok & H)%bindM_Ok.
  rewrite (secret_key_parses _ _ Hv Hs) in Hsk. injection Hsk as <-.
  apply bindM_Ok in H as (w2 & payload & [Hp ->]%or_throw_Ok & H).
  rewrite strip_prefix_app in Hp. injection Hp as <-.
  apply bindM_Ok in H as (w3 & ct' & Hct%mapping_Ok & H). unfold decode_hex in Hct.
  apply or_throw_Ok in Hct as [Hct ->]. rewrite hex_decode_encode in Hct. injection Hct as <-.
  apply mapping_Ok, lift_Ok in H as [-> H]. rewrite Hd in H. by injection H as <-.
Qed.

Lemma sealed_secret N S w k m v :
  coherent N S w -> wf_view (view w) -> view w !! k = Some m -> v ∈ versions m ->
  exists s, S !! (k, version v) = Some s /\ valid_secret s /\
    (key_type m <> Signing -> exists sk, s = KemSecret sk) /\
    (state m <> Destroyed -> public_key_hex v = hex_encode (public_bytes s)) /\
    sealed_material (master_key w) S k (version v) (secret_bytes s) (secret_key_material v)
      (wrapping_key_id v) (wrapping_key_version v).
Proof.
  intros C Hwf Hm Hv. destruct (co_sealed _ _ _ C _ _ _ Hm Hv) as (s & Hs & ?).
  rewrite (wf_id _ _ (Hwf _ _ Hm)) in *. exists s. split; [done|]. split; [|done].
  exact (co_valid _ _ _ C _ _ Hs).
Qed.

Lemma coherent_calm N S w w' : coherent N S w -> calm w w' -> coherent N S w'.
Proof.
  intros C L. eapply coherent_restates; [done|by apply calm_later|]. apply restates_refl, (calm_view _ _ L).
Qed.
Lemma wf_calm w w' : wf_view (view w) -> calm w w' -> wf_view (view w').
Proof. intros Hwf L. by rewrite (calm_view _ _ L). Qed.

(** Whatever unwrapping returns is the secret. *)
Lemma unwrap_secret N S n k m v b w w' bs s :
  coherent N S w -> wf_view (view w) -> view w !! k = Some m -> v ∈ versions m ->
  S !! (k, version v) = Some s -> unwrap_key_version_inner n k v b w = (w', Ok bs) ->
  bs = secret_bytes s.
Proof.
  revert k m v w w' bs s. induction n as [|n IH]; intros k m v w w' bs s C Hwf Hm Hv Hs; [done|].
  destruct (sealed_secret _ _ _ _ _ _ C Hwf Hm Hv) as (s' & Hs' & Hval & _ & _ & Hsl).
  rewrite Hs in Hs'. injection Hs' as <-. cbn [unwrap_key_version_inner].
  inversion Hsl as [wi wv E1|mk aes nonce ct wi wv Hmk Haes Hn Hct E1|p pn psk ct Hp Hd E1 E2 E3|wi wv E1].
  - intros H%mapping_Ok. apply decode_hex_Ok in H. rewrite hex_decode_encode in H. by injection H as <-.
  - erewrite unwrap_encrypted_sealed by done. by intros [= _ <-].
  - intros (w1 & [p' pkv] & Hf & H)%bindM_Ok. apply find_parent_Ok in Hf as (C1 & Hp' & pm & n' & Hpm & _ & Hn' & Hg).
    rewrite <- E2 in Hp'. rewrite <- E3 in Hn'. injection Hp' as <-. injection Hn' as <-.
    apply get_version_Some in Hg as [Hin Hnum]. cbn [fst snd] in H.
    apply bindM_Ok in H as (w2 & pbs & Hu & H).
    apply (IH p pm pkv w1 w2 pbs (KemSecret psk)) in Hu as ->.
    + eapply open_wrapped_sealed in H; [by destruct H| |reflexivity|done].
      exact (co_valid _ _ _ C _ _ Hp).
    + by eapply coherent_calm.
    + by eapply wf_calm.
    + by rewrite (calm_view _ _ C1).
    + done.
    + by rewrite Hnum.
  - done.
Qed.

Lemma length_rd_bytes r a n : length (rd_bytes r a n) = n.
Proof. unfold rd_bytes. by rewrite length_fmap, length_seq. Qed.

Lemma rd_nonce_draw r : nonce_draw (rd_nonce r).
Proof. unfold nonce_draw, rd_nonce. destruct (rd_no_random r); [done|]. by rewrite length_rd_bytes. Qed.

Lemma wrap_master_sealed S k n bs w w' mat wi wv :
  wrap_with_master_key k n bs w = (w', Ok mat) -> sealed_material (master_key w) S k n bs mat wi wv.
Proof.
  unfold wrap_with_master_key. intros (? & mk & [= <- <-] & H)%bindM_Ok.
  destruct (master_key w) as [mk|] eqn:Hmk; [|injection H as _ <-; constructor].
  apply bindM_Ok in H as (w1 & aes & [Ha ->]%or_throw_Ok & H).
  apply bindM_Ok in H as (w2 & nonce & Hn & H). apply bindM_Ok in H as (w3 & ct & [Hc ->]%or_throw_Ok & H).
  injection H as _ <-. injection Hn as _ <-. by eapply sealed_master.
Qed.

(** The public key of a parent parses to that of its secret. *)
Lemma parent_public N S w p pm v bytes pk :
  coherent N S w -> wf_view (view w) -> view w !! p = Some pm -> v ∈ versions pm ->
  key_type pm <> Signing -> hex_decode (public_key_hex v) = Some bytes ->
  Kem.PublicKey_from_bytes bytes = Ok pk ->
  exists psk, S !! (p, version v) = Some (KemSecret psk) /\ pk = Kem.public_key psk.
Proof.
  intros C Hwf Hp Hv Ht Hx Hpk. destruct (sealed_secret _ _ _ _ _ _ C Hwf Hp Hv) as (s & Hs & _ & Hk & Hpub & _).
  destruct (Hk Ht) as [psk ->]. exists psk. split; [done|]. destruct (decide (state pm = Destroyed)) as [Hd|Hd].
  - exfalso. apply (wf_purged _ _ (Hwf _ _ Hp)) in Hd. rewrite Forall_forall in Hd.
    destruct (Hd _ Hv) as [_ E]. rewrite E in Hx. apply length_hex_decode in Hx. cbn in Hx. lia.
  - rewrite (Hpub Hd), hex_decode_encode in Hx. injection Hx as <-. cbn [public_bytes] in Hpk.
    rewrite Kem.PublicKey_roundtrip in Hpk by apply Kem.public_key_valid. by injection Hpk as <-.
Qed.

Lemma current_in m v : current_key_version m = Some v -> v ∈ versions m /\ version v = current_version m.
Proof. apply get_version_Some. Qed.

Lemma wrap_sealed N S w k n p bs w' x :
  coherent N S w -> wf_view (view w) -> wrap_secret_key_for k n p bs w = (w', Ok x) ->
  sealed_material (master_key w) S k n bs x.1.1 x.1.2 x.2.
Proof.
  intros C Hwf. unfold wrap_secret_key_for. destruct p as [p|].
  2: { intros (w1 & mat & H & [= _ <-])%bindM_Ok. by eapply wrap_master_sealed. }
  intros (w1 & o & H1%mapping_Ok & H)%bindM_Ok. pose proof (keeps_Ok _ _ _ _ H1) as C1.
  apply storage_get_Ok in H1. apply bindM_Ok in H as (w2 & pm & [-> ->]%or_throw_Ok & H). symmetry in H1.
  destruct (wraps_children (key_type pm)) eqn:Ht.
  - apply bindM_Ok in H as (w3 & v & [Hv ->]%or_throw_Ok & H). apply current_in in Hv as [Hv _].
    apply bindM_Ok in H as (w4 & mat & Hm & [= _ <-]). unfold wrap_with_citadel_key in Hm.
    apply bindM_Ok in Hm as (w5 & bytes & Hb%mapping_Ok%decode_hex_Ok & Hm).
    apply bindM_Ok in Hm as (w6 & pk & [_ Hpk]%mapping_Ok%lift_Ok & Hm).
    apply bindM_Ok in Hm as (w7 & ct & Hc%mapping_Ok & [= _ <-]). apply seal_Ok in Hc as [r Hc].
    assert (Hnt : key_type pm <> Signing) by (by destruct (key_type pm)).
    destruct (parent_public _ _ _ _ _ _ _ _ C Hwf H1 Hv Hnt Hb Hpk) as (psk & Hpsk & ->).
    cbn [fst snd]. eapply sealed_parent; [done|]. eapply Engine.open_sealed; [apply rd_nonce_draw|reflexivity|exact Hc].
  - apply bindM_Ok in H as (w3 & mat & H & [= _ <-]). rewrite <- (calm_master _ _ C1). by eapply wrap_master_sealed.
Qed.

(** ** The relation *)

Definition kept (N : nat) (w w' : World) : Prop := later w w' /\
  ((pos w' <= N)%nat -> forall S, coherent N S w -> exists S', S ⊆ S' /\ coherent N S' w').

(** Started in a well-formed store, a method keeps every secret. *)
Definition seals (N : nat) (w w' : World) : Prop :=
  wf_view (view w) -> wf_view (view w') /\ kept N w w'.

#[global] Instance later_preorder : PreOrder later.
Proof. split; [by split|]. intros w1 w2 w3 [] []. split; [congruence..|lia]. Qed.

#[global] Instance kept_preorder N : PreOrder (kept N).
Proof.
  split.
  - intros w. split; [reflexivity|]. intros _ S C. by exists S.
  - intros w1 w2 w3 [L1 K1] [L2 K2]. split; [by etransitivity|]. intros Hp S C.
    destruct (K1 ltac:(destruct L2; lia) S C) as (S1 & H1 & C1), (K2 Hp S1 C1) as (S2 & H2 & C2).
    exists S2. split; [by etransitivity|done].
Qed.
#[global] Instance seals_preorder N : PreOrder (seals N).
Proof.
  split.
  - intros w Hwf. split; [done|reflexivity].
  - intros w1 w2 w3 H1 H2 Hwf. destruct (H1 Hwf) as [Hwf2 K1]. destruct (H2 Hwf2) as [Hwf3 K2].
    split; [done|by etransitivity].
Qed.

Lemma calm_kept N w w' : calm w w' -> kept N w w'.
Proof.
  intros C. split; [by apply calm_later|]. intros _ S HS. exists S. split; [done|]. by eapply coherent_calm.
Qed.
Lemma calm_seals N w w' : calm w w' -> seals N w w'.
Proof. intros C Hwf. split; [by eapply wf_calm|]. by apply calm_kept. Qed.
#[export] Instance seals_of_calm N {E A} (m : M E A) : Keeps calm m -> Keeps (seals N) m | 20.
Proof. intros Hm w. by apply calm_seals. Qed.

Lemma seals_method N {E A} (m : M E A) :
  Keeps legal m -> (forall w, wf_view (view w) -> wp m (fun _ w' => kept N w w') w) -> Keeps (seals N) m.
Proof. intros Hl Hk w Hwf. split; [by apply (lg_keys _ _ (Hl w))|by apply Hk]. Qed.

Lemma restates_kept N w w' : later w w' -> restates (view w) (view w') -> kept N w w'.
Proof. intros L R. split; [done|]. intros _ S C. exists S. split; [done|]. by eapply coherent_restates. Qed.

End seal.
End KsSeal.
