(* ===== verification/KeystoreKeep.v ===== *)
(** * Every operation keeps the secrets

    Method by method, then for every command and every run: the store
    represents the same secrets afterwards, extended by those of the versions
    that were created. *)

From S2P Require Import Prelude.
From S2P Require Import Wire.
From S2P Require Import WireV2.
From S2P Require Import Crypto.
From S2P Require Import Envelope.
From S2P Require Import Enforcer.
From S2P Require Import Types.
From S2P Require Import Hierarchy.
From S2P Require Import AuditLog.
From S2P Require Import Storage.
From S2P Require Import Replay.
From S2P Require Import Signer.
From S2P Require Import KeystoreBase.
From S2P Require Import KeystoreWrap.
From S2P Require Import Keystore.
From S2P Require Import KeystoreCrypto.
From S2P Require Import KeystoreSign.
From S2P Require Import Migration.
From S2P Require Import KeystoreFrame.
From S2P Require Import KeystoreLaws.
From S2P Require Import KeystoreCascade.
From S2P Require Import KeystoreRuns.
From S2P Require Import KeystoreGates.
From S2P Require Import KeystoreOps.
From S2P Require Import KeystoreSeal.
Import Types.

Module KsKeep.
Import Wrap Keystore KsCrypto KsSign KsLaws KsCascade KsRuns KsGates KsOps KsSeal.

Notation secrets := (gmap (string * Z) secret).

Ltac chain_k :=
  repeat match goal with
  | |- kept _ ?x ?x => reflexivity
  | H : kept _ ?x ?y |- kept _ ?x _ => transitivity y; [exact H|]
  | H : calm ?x ?y |- kept _ ?x _ => transitivity y; [exact (calm_kept _ _ _ H)|]
  end.
Ltac keep m :=
  apply seals_method; [apply _|]; let w := fresh "w" in let Hwf := fresh "Hwf" in intros w Hwf;
  unfold m.
Ltac keep_run := repeat (ks_step; try solve [chain_k]).
Ltac after_write := intros [?|[?|]] ? ?; cbn beta iota; keep_run; chain_k.

Section keep.
Context {PF : Platform} {PL : PlatformLaws PF} (N : nat).

(** ** Writes *)

Lemma restated_storable k m m' w : view w !! k = Some m -> restated m m' -> storable m'.
Proof.
  intros Hm%storable_read [_ _ _ R]. unfold storable in *. rewrite Forall_forall in Hm |- *.
  intros v' (i & Hv')%list_elem_of_lookup. destruct (Forall2_lookup_r _ _ _ _ _ R Hv') as (v & Hv & [->|(_ & _ & ->)]).
  - apply Hm. by eapply list_elem_of_lookup_2.
  - by apply keeps_tagged.
Qed.

Lemma later_put w0 w s : calm w0 w -> later w0 (set_store s (advance w)).
Proof. intros []. split; cbn; [done..|lia]. Qed.

Lemma unwritten_kept w0 w s : calm w0 w -> st_view s = view w -> kept N w0 (set_store s (advance w)).
Proof.
  intros C Hs. apply restates_kept; [by apply later_put|]. apply restates_refl.
  unfold view at 1; cbn. rewrite Hs. apply (calm_view _ _ C).
Qed.

Lemma restates_insert v m m' : v !! id m = Some m -> restated m m' -> restates v (<[ id m' := m' ]> v).
Proof.
  intros Hm R k m0. rewrite (rs_id _ _ R). destruct (decide (id m = k)) as [<-|Hn].
  - rewrite lookup_insert_eq. intros [= <-]. by exists m.
  - rewrite lookup_insert_ne by done. intros Hm0. by apply (restates_refl v v).
Qed.

Lemma wp_put_restated k m m' (Q : result _ _ -> World -> Prop) w0 w :
  wf_view (view w0) -> calm w0 w -> view w0 !! k = Some m -> restated m m' ->
  (forall r w', kept N w0 w' -> Q r w') -> wp (storage_put m') Q w.
Proof.
  intros Hwf C Hm R HQ. apply wp_put; [by eapply restated_storable| |intros s e Hs; by apply HQ, unwritten_kept].
  intros s r Hs _. apply HQ, restates_kept; [by apply later_put|].
  unfold view at 2; cbn. rewrite Hs, (calm_view _ _ C). apply restates_insert with m; [|done].
  by rewrite (wf_id _ _ (Hwf _ _ Hm)).
Qed.

(** What a write of new material must establish, at the time of the write. *)
Record extends (S S' : secrets) (w0 w : World) (m : KeyMetadata) : Prop := {
  ex_sub : S ⊆ S';
  ex_valid : map_Forall (fun _ => valid_secret) S';
  ex_dom k n : is_Some (S' !! (k, n)) -> is_Some (S !! (k, n)) \/ k = id m;
  ex_numbered n : is_Some (S' !! (id m, n)) -> n ∈ version <$> versions m;
  ex_sealed : Forall (sealed_version (master_key w0) S' m) (versions m);
  ex_room : Z.of_nat (length (versions m)) + (Z.of_nat N - Z.of_nat (pos w) - 1) < 2 ^ 32 - 1;
  ex_names i : (pos w < i < N)%nat -> name_at w0 i <> id m;
  ex_first k n seed : S' !! (k, n) = Some (DsaSecret seed) -> n = 1;
}.

Lemma wp_put_kept m (Q : result _ _ -> World -> Prop) w0 w :
  calm w0 w -> storable m ->
  (forall S, (pos w < N)%nat -> coherent N S w0 -> exists S', extends S S' w0 w m) ->
  (forall r w', kept N w0 w' -> Q r w') -> wp (storage_put m) Q w.
Proof.
  intros C Hm He HQ. apply wp_put; [done| |intros s e Hs; by apply HQ, unwritten_kept].
  intros s r Hs _. apply HQ. split; [by apply later_put|]. intros Hp S HS. cbn in Hp.
  destruct (He S ltac:(lia) HS) as [S' [E1 E2 E3 E4 E5 E6 E7 E8]]. exists S'. split; [done|].
  assert (Hv : view (set_store s (advance w)) = <[ id m := m ]> (view w0)).
  { unfold view at 1; cbn. by rewrite Hs, (calm_view _ _ C). }
  apply (coherent_put N S S' w0 _ m); try done; rewrite ?Hv.
  - by apply later_put.
  - by rewrite lookup_insert_eq.
  - intros k m' Hk. by rewrite lookup_insert_ne.
  - change (pos (set_store s (advance w))) with (Datatypes.S (pos w)). lia.
Qed.

(** ** Operations that only restate records *)

#[export] Instance seals_activate k : Keeps (seals N) (activate k).
Proof.
  keep @activate. unfold transition. keep_run. bool_hyps.
  eapply (wp_put_restated k _ _ _ w); [done|calm_chain|at_view| |after_write].
  apply restated_same; cbn; try done.
  match goal with H : can_transition_to _ _ = true |- _ => intros E; rewrite E in H end. done.
Qed.

#[export] Instance seals_revoke k r : Keeps (seals N) (revoke k r).
Proof.
  keep @revoke. keep_run. bool_hyps.
  eapply (wp_put_restated k _ _ _ w); [done|calm_chain|at_view| |after_write].
  apply restated_same; cbn; congruence.
Qed.

#[export] Instance seals_expire k : Keeps (seals N) (expire k).
Proof.
  keep @expire. keep_run. case_match; keep_run.
  match goal with H : check_expiration _ _ = _ |- _ => apply required_state in H as Hst end.
  eapply (wp_put_restated k _ _ _ w); [done|calm_chain|at_view| |after_write].
  apply restated_same; cbn; try done. destruct Hst; congruence.
Qed.

#[export] Instance seals_encrypt k pt aad ctx : Keeps (seals N) (encrypt k pt aad ctx).
Proof.
  keep @encrypt. keep_run. bool_hyps.
  eapply (wp_put_restated k _ _ _ w); [done|calm_chain|at_view| |after_write].
  by apply restated_same.
Qed.

(** ** Destruction *)

Lemma restated_destroyed m m' :
  id m' = id m -> key_type m' = key_type m -> state m' = Destroyed ->
  versions m' = destroy_version <$> versions m -> restated m m'.
Proof.
  intros H1 H2 H3 H4. split; try done. rewrite H4, H3.
  apply Forall2_fmap_r, Forall_Forall2_diag, Forall_true. intros v. by right.
Qed.

Lemma wp_overwrite_put_restated {A} k m m' (f : unit -> M KeystoreError A) Q w0 w :
  wf_view (view w0) -> calm w0 w -> view w0 !! k = Some m -> restated m m' ->
  (forall r w', kept N w0 w' -> match r with Ok a => wp (f a) Q w' | Err e => Q (Err e) w' end) ->
  wp (overwrite_key_file k) (fun r w' =>
    match r with Ok _ => wp (storage_put m' ≫= f) Q w' | Err e => Q (Err e) w' end) w.
Proof.
  intros Hwf C Hm R HQ. apply wp_overwrite. intros s r Hs.
  assert (Hsub : forall k' m0, st_view s !! k' = Some m0 -> view w0 !! k' = Some m0).
  { intros k' m0. destruct Hs as [-> | ->]; rewrite (calm_view _ _ C); [done|].
    by intros [_ ?]%lookup_delete_Some. }
  assert (K : forall v, (forall k' m0, v !! k' = Some m0 -> view w0 !! k' = Some m0) -> restates (view w0) v).
  { intros v Hv k' m0 ?%Hv. by apply (restates_refl (view w0) (view w0)). }
  assert (L : later w0 (set_store s (advance w))) by (by apply later_put).
  destruct r as [[]|e]; [|apply (HQ (Err e)), restates_kept; [done|by apply K]].
  apply wp_bind, wp_put; [by eapply restated_storable| |].
  - intros s' r Hs' _. apply HQ, restates_kept.
    { etransitivity; [exact L|]. apply later_put. reflexivity. }
    unfold view at 2; cbn. rewrite Hs'. intros k' m0. unfold view; cbn.
    destruct (decide (id m' = k')) as [<-|Hn].
    + rewrite lookup_insert_eq. intros [= <-]. exists m. split; [|done].
      by rewrite (rs_id _ _ R), (wf_id _ _ (Hwf _ _ Hm)).
    + rewrite lookup_insert_ne by done. by apply K.
  - intros s' e Hs'. apply (HQ (Err (Fail e))), restates_kept.
    { etransitivity; [exact L|]. apply later_put. reflexivity. }
    unfold view at 2; cbn. rewrite Hs'. by apply K.
Qed.

#[export] Instance seals_destroy k : Keeps (seals N) (destroy k).
Proof.
  keep @destroy. keep_run. bool_hyps.
  eapply (wp_overwrite_put_restated k m _ _ (fun _ w0 => kept N w w0) w); [done|calm_chain|at_view| |after_write].
  by apply restated_destroyed.
Qed.

(** ** New material *)

(** A version is sealed under the identity of its key. *)
Lemma sealed_version_meta mk S m m' v :
  id m' = id m -> key_type m' = key_type m -> (state m = Destroyed -> state m' = Destroyed) ->
  sealed_version mk S m v -> sealed_version mk S m' v.
Proof.
  intros E1 E2 E3 (s & Hs & Ht & Hp & Hm). exists s. rewrite E1, E2.
  split_and!; [done|done| |done]. intros Hn. apply Hp. by intros ?%E3.
Qed.

Lemma rewrap_sealed S w k m v n b w1 w2 bs p w3 w4 x :
  coherent N S w -> wf_view (view w) -> view w !! k = Some m -> v ∈ versions m ->
  calm w w1 -> unwrap_key_version_inner n k v b w1 = (w2, Ok bs) ->
  calm w w3 -> wrap_secret_key_for k (version v) p bs w3 = (w4, Ok x) ->
  exists s, S !! (k, version v) = Some s /\
    sealed_material (master_key w) S k (version v) (secret_bytes s) x.1.1 x.1.2 x.2.
Proof.
  intros C Hwf Hm Hv C1 Hu C3 Hx.
  destruct (sealed_secret _ _ _ _ _ _ C Hwf Hm Hv) as (s & Hs & _). exists s. split; [done|].
  apply (unwrap_secret N S _ _ m _ _ _ _ _ s) in Hu as ->; try done.
  - rewrite <- (calm_master _ _ C3). eapply wrap_sealed; [by eapply coherent_calm|by eapply wf_calm|done].
  - by eapply coherent_calm.
  - by eapply wf_calm.
  - by rewrite (calm_view _ _ C1).
Qed.

#[export] Instance seals_rewrap k p : Keeps (seals N) (rewrap k p).
Proof.
  keep @rewrap. keep_run. rename a into v, a0 into bs, a1 into x.
  match goal with H : update_first _ _ _ = _, Hc : current_key_version _ = Some _ |- _ =>
    apply (update_first_spec _ _ _ _ v) in H as (l1 & l2 & El & -> & Hx & _); [|exact Hc];
    apply current_in in Hc as [Hin _] end.
  eapply (wp_put_kept _ _ w); [calm_chain| | |after_write].
  { eapply (storable_new m _ l1 l2); [by eapply storable_read|done|rewrite El; set_solver..|by eapply wrap_tagged]. }
  intros S Hp C. exists S.
  pose proof (wf_id _ _ (Hwf _ _ H)) as Hid.
  edestruct (rewrap_sealed S w k m v) as (s & Hs & Hsealed); [done..|exact H0|exact H3| |exact H5|].
  { calm_chain. }
  assert (Hn : version <$> versions m = version <$> l1 ++ rewrapped x a2 v :: l2).
  { by rewrite El, !fmap_app, !fmap_cons. }
  assert (Hall : Forall (sealed_version (master_key w) S m) (versions m)).
  { apply Forall_forall. intros v' Hv'. by eapply co_sealed. }
  assert (Hl : length (versions m) = length (l1 ++ rewrapped x a2 v :: l2)).
  { by rewrite El, !length_app. }
  split; cbn [id set_updated set_versions versions].
  - done.
  - by eapply co_valid.
  - by left.
  - intros n. rewrite <- Hn, Hid. intros Hi. by eapply co_numbered.
  - eapply (Forall_impl (sealed_version (master_key w) S m)).
    2: { intros v'. by apply sealed_version_meta. }
    rewrite El in Hall. apply Forall_app in Hall as [H1' H2']. apply Forall_cons in H2' as [(s' & Hs' & Ht & Hpub & _) H2'].
    apply Forall_app. split; [done|]. constructor; [|done]. rewrite Hid in *.
    rewrite Hs in Hs'. injection Hs' as <-. exists s. by rewrite Hid.
  - rewrite <- Hl. pose proof (co_room _ _ _ C _ _ H) as Hr.
    match goal with |- context [pos ?x] => assert (Cx : calm w x) by calm_chain end.
    pose proof (calm_pos _ _ Cx). lia.
  - intros i Hi E. assert (pos w <= i)%nat.
    { match type of Hi with (pos ?x < _ < _)%nat => assert (Cx : calm w x) by calm_chain end.
      pose proof (calm_pos _ _ Cx). lia. }
    destruct (co_future _ _ _ C i) as [Hf _]; [lia|]. rewrite E, Hid in Hf. congruence.
  - by eapply co_first.
Qed.

(** A version added to the versions [vs] a key had. *)
Lemma extends_new S w w1 m vs v s :
  coherent N S w -> calm w w1 -> versions m = vs ++ [v] ->
  (forall n, is_Some (S !! (id m, n)) -> n ∈ version <$> vs) -> version v ∉ version <$> vs ->
  Forall (sealed_version (master_key w) S m) vs -> valid_secret s ->
  (key_type m <> Signing -> exists sk, s = KemSecret sk) ->
  public_key_hex v = hex_encode (public_bytes s) ->
  sealed_material (master_key w) S (id m) (version v) (secret_bytes s) (secret_key_material v)
    (wrapping_key_id v) (wrapping_key_version v) ->
  Z.of_nat (length vs) + (Z.of_nat N - Z.of_nat (pos w)) < 2 ^ 32 - 1 ->
  (forall i, (pos w1 < i < N)%nat -> name_at w i <> id m) ->
  (forall seed, s = DsaSecret seed -> version v = 1) ->
  extends S (<[ (id m, version v) := s ]> S) w w1 m.
Proof.
  intros C Cw Ev Hold Hnew Hvs Hval Ht Hpub Hsl Hroom Hnames Hfirst. pose proof (calm_pos _ _ Cw) as Hp.
  assert (Hsub : S ⊆ <[ (id m, version v) := s ]> S).
  { apply insert_subseteq. destruct (S !! (id m, version v)) eqn:E; [|done].
    exfalso. apply Hnew, Hold. eauto. }
  split.
  - done.
  - apply map_Forall_insert_2; [done|by eapply co_valid].
  - intros k n Hs. destruct (decide ((id m, version v) = (k, n))) as [[= <- <-]|Hn]; [by right|].
    rewrite lookup_insert_ne in Hs by done. by left.
  - intros n Hs. rewrite Ev, fmap_app. apply elem_of_app.
    destruct (decide (version v = n)) as [<-|Hn]; [right; by apply list_elem_of_singleton|left].
    apply Hold. rewrite lookup_insert_ne in Hs by congruence. done.
  - rewrite Ev. apply Forall_app. split.
    + eapply Forall_impl; [done|]. intros v'. by apply sealed_version_mono.
    + constructor; [|done]. exists s. rewrite lookup_insert_eq. split_and!; try done.
      by eapply sealed_material_mono.
  - rewrite Ev, length_app. cbn [length]. lia.
  - done.
  - intros k n seed. destruct (decide ((id m, version v) = (k, n))) as [[= <- <-]|Hn].
    + rewrite lookup_insert_eq. intros [= ->]. by eapply Hfirst.
    + rewrite lookup_insert_ne by done. by eapply co_first.
Qed.

Lemma keypair_Ok {E} w w' kp :
  generate_keypair (E := E) w = (w', Ok kp) ->
  kp.1 = Kem.public_key kp.2 /\ valid_secret (KemSecret kp.2).
Proof.
  unfold generate_keypair. intros [= _ <-]. split; [done|].
  change (len (rd_bytes (reading w) 0 32) = 32). by rewrite length_rd_bytes.
Qed.

(** The number [rotate] gives to the next version is not in use. *)
Lemma next_number k m :
  wf_key k m -> Z.of_nat (length (versions m)) < 2 ^ 32 - 1 ->
  wrapping_add 32 (current_version m) 1 ∉ version <$> versions m.
Proof.
  intros [_ _ W2 W3 _ _] Hl. rewrite W2, W3. unfold wrapping_add. rewrite Zplus_mod_idemp_l.
  rewrite list_elem_of_fmap. intros (i & E & Hi%elem_of_seq).
  rewrite !Z.mod_small in E by lia. lia.
Qed.

#[export] Instance seals_rotate k : Keeps (seals N) (rotate k).
Proof.
  keep @rotate. keep_run. rename a0 into kp, a2 into x. bool_hyps.
  match goal with H : generate_keypair _ = _ |- _ => apply keypair_Ok in H as [Hpk Hval] end.
  pose proof (wf_id _ _ (Hwf _ _ H)) as Hid.
  eapply (wp_put_kept _ _ w); [calm_chain| | |after_write].
  { eapply (storable_new m _ (versions m) []); [by eapply storable_read|done|done|set_solver|by eapply wrap_tagged]. }
  intros S Hp C. eexists.
  assert (Hr : Z.of_nat (length (versions m)) + (Z.of_nat N - Z.of_nat (pos w)) < 2 ^ 32 - 1)
    by (by eapply co_room).
  match goal with |- extends _ _ _ ?w1 _ => assert (Cw : calm w w1) by calm_chain end.
  pose proof (calm_pos _ _ Cw) as Hpos. cbv zeta.
  eapply (extends_new S w _ _ (versions m) _ (KemSecret kp.2)); try done; cbn.
  - intros n Hn. rewrite Hid in Hn. by eapply co_numbered.
  - eapply next_number; [by apply Hwf|]. lia.
  - apply Forall_forall. intros v' Hv'. apply sealed_version_meta with m; [done|done|cbn; congruence|].
    by eapply co_sealed.
  - intros _. eauto.
  - by rewrite Hpk.
  - rewrite Hid. match goal with H : wrap_secret_key_for _ _ _ _ ?w1 = _ |- _ =>
      assert (C3 : calm w w1) by (clear Cw; calm_chain); rewrite <- (calm_master _ _ C3);
      eapply (wrap_sealed N S); [| |exact H]; [by eapply coherent_calm|by eapply wf_calm] end.
  - intros i Hi E. destruct (co_future _ _ _ C i) as [Hf _]; [lia|]. rewrite E, Hid in Hf. congruence.
Qed.

(** *** Generation: the identifier is the one drawn at position [i] *)

Lemma wp_put_generated m v s i (Q : result _ _ -> World -> Prop) w0 w :
  wf_view (view w0) -> calm w0 w -> (pos w0 <= i < pos w)%nat -> id m = name_at w0 i ->
  versions m = [v] -> version v = 1 -> tagged (secret_key_material v) -> valid_secret s -> (key_type m <> Signing -> exists sk, s = KemSecret sk) ->
  public_key_hex v = hex_encode (public_bytes s) ->
  (forall S, coherent N S w0 -> sealed_material (master_key w0) S (id m) (version v) (secret_bytes s)
     (secret_key_material v) (wrapping_key_id v) (wrapping_key_version v)) ->
  (forall r w', kept N w0 w' -> Q r w') -> wp (storage_put m) Q w.
Proof.
  intros Hwf Cw Hi Hid Ev Ev1 Hsv Hval Ht Hpub Hsl HQ. eapply (wp_put_kept _ _ w0); [done| | |done].
  { apply storable_tagged. unfold all_tagged. rewrite Ev. by apply Forall_singleton. }
  intros S Hp C. destruct (co_future _ _ _ C i) as [Hf1 Hf2]; [lia|]. eexists.
  eapply (extends_new S w0 w m [] v s); try done.
  - intros n. rewrite Hid, Hf2. by intros [? ?].
  - set_solver.
  - by apply Hsl.
  - pose proof (co_bound _ _ _ C). cbn [length]. lia.
  - intros j Hj E. rewrite Hid in E. by apply (co_distinct _ _ _ C i j); [lia..|].
Qed.

Lemma wp_drawn (Q : result (fault KeystoreError) _ -> World -> Prop) w0 w :
  calm w0 w ->
  (forall i bytes w', calm w0 w' -> (pos w0 <= i < pos w')%nat -> hex_encode bytes = name_at w0 i ->
     Q (Ok bytes) w') -> wp (fill_bytes 16) Q w.
Proof.
  intros C HQ. apply wp_fill_bytes, (HQ (pos w)).
  - etransitivity; [exact C|]. apply (calm_tick (E := unit) w).
  - pose proof (calm_pos _ _ C). cbn. lia.
  - unfold name_at, reading. by rewrite (calm_tape _ _ C).
Qed.

Ltac generated_by secret_of_kp i w :=
  eapply (wp_put_generated _ _ secret_of_kp i _ w);
    [done|calm_chain| |done|reflexivity|reflexivity|by eapply wrap_tagged|done|intros Ht; solve [eauto|by destruct Ht]|cbn| |after_write];
    [repeat match goal with H : calm _ _ |- _ => apply calm_pos in H end; lia| |];
    [|intros S C; match goal with H : wrap_secret_key_for _ _ _ _ ?w1 = _ |- _ =>
      assert (C3 : calm w w1) by calm_chain; rewrite <- (calm_master _ _ C3);
      eapply (wrap_sealed _ S); [| |exact H]; [by eapply coherent_calm|by eapply wf_calm] end].

#[export] Instance seals_generate n t p par : Keeps (seals N) (generate n t p par).
Proof.
  keep @generate. do 6 (ks_step; try solve [chain_k]).
  ks_step. apply (wp_drawn _ w); [calm_chain|]. intros i bytes w1 Hc Hi Hn. clear H0 H1 H2 H3. keep_run.
  match goal with H : generate_keypair _ = (_, Ok ?k) |- _ => apply keypair_Ok in H as [Hpk Hval]; rename k into kp end.
  generated_by (KemSecret kp.2) i w. by rewrite Hpk.
Qed.

Lemma signing_keypair_Ok w w' kp :
  signing_keypair w = (w', Ok kp) -> valid_secret (DsaSecret kp.2) /\ kp.1 = vk_encode kp.2.
Proof.
  unfold signing_keypair. intros (w1 & seed & _ & [_ H%map_err_Ok]%lift_Ok)%bindM_Ok.
  destruct kp as [vk s]. pose proof (Dsa.generate_keypair_sizes _ _ _ H) as (_ & L & _). split; [exact L|].
  unfold Dsa.generate_keypair in H. inv_ok H. by simplify_eq.
Qed.

#[export] Instance seals_generate_signing n p par : Keeps (seals N) (generate_signing_key n p par).
Proof.
  keep @generate_signing_key. do 4 (ks_step; try solve [chain_k]).
  ks_step. apply (wp_drawn _ w); [calm_chain|]. intros i bytes w1 Hc Hi Hn. clear H H0 H1 H2. keep_run.
  match goal with H : signing_keypair _ = (_, Ok ?k) |- _ => apply signing_keypair_Ok in H as [Hval Hpk]; rename k into kp end.
  generated_by (DsaSecret kp.2) i w. by rewrite Hpk.
Qed.

(** ** The cascade *)

Lemma swept_restates v v' : swept v v' -> restates v v'.
Proof.
  intros Hs k m' Hm'. destruct (Hs k) as [E|(m & t & Hm & Hl & E)].
  - exists m'. rewrite <- E. split; [done|]. by apply restated_same.
  - rewrite E in Hm'. injection Hm' as <-. exists m. split; [done|]. apply restated_same; try done.
    unfold live in Hl. cbn. destruct Hl; congruence.
Qed.

#[export] Instance seals_cascade fuel k reason : Keeps (seals N) (revoke_cascade fuel k reason).
Proof.
  intros w Hwf. split.
  { by apply (lg_keys _ _ (legal_cascade_wf fuel k reason w Hwf)). }
  change (wp (revoke_cascade fuel k reason) (fun _ w' => kept N w w') w).
  unfold revoke_cascade. apply wp_bind, wp_intro. intros w1 r E.
  pose proof (seals_revoke k reason w Hwf) as [Hwf1 K1]. rewrite E in Hwf1, K1. cbn in Hwf1, K1.
  destruct r as [[]|e]; [|done]. apply wp_bind.
  assert (G : forall w', legal w1 w' -> swept (view w1) (view w') -> kept N w w').
  { intros w' L S. transitivity w1; [done|]. apply restates_kept; [by apply legal_later|by apply swept_restates]. }
  eapply (loop_spec (view w1) _ []); [done| | | |auto].
  - split; [reflexivity| |done]. intros ???; set_solver.
  - intros w' L S _. by apply wp_ret, G.
  - intros st' D' w' L I _ _. apply wp_ret, G; [done|apply I].
Qed.

(** ** Operations that write no key *)

Lemma same_keys_seals w w' : later w w' -> view w' = view w -> seals N w w'.
Proof. intros L E Hwf. split; [by rewrite E|]. by apply restates_kept, restates_refl. Qed.

#[export] Instance seals_policies {E} f : Keeps (E := E) (seals N) (modify (fun w => set_policies (f w) w)).
Proof. intros w. by apply same_keys_seals. Qed.
#[export] Instance seals_enforcer {E} s : Keeps (E := E) (seals N) (modify (set_enforcer s)).
Proof. intros w. by apply same_keys_seals. Qed.
#[export] Instance seals_claim k t : Keeps (seals N) (replay_claim k t).
Proof.
  intros w. unfold replay_claim. destruct (claim _ _ _ _). apply same_keys_seals; [|done].
  split; cbn; auto.
Qed.
#[export] Instance seals_release k : Keeps (seals N) (replay_release k).
Proof.
  intros w. unfold replay_release. destruct (release _ _ _). apply same_keys_seals; [|done].
  split; cbn; auto.
Qed.

#[export] Instance seals_give_back {E} k : Keeps (E := E) (seals N) (give_back k).
Proof. unfold give_back. apply _. Qed.
#[export] Instance seals_claim_slot k b m : Keeps (seals N) (claim_slot k b m).
Proof. unfold claim_slot. apply _. Qed.
#[export] Instance seals_open_claimed k d b m v c aad ctx :
  Keeps (seals N) (open_claimed k d b m v c aad ctx).
Proof. unfold open_claimed. keeps_walk. Qed.
#[export] Instance seals_decrypt b aad ctx : Keeps (seals N) (decrypt b aad ctx).
Proof. unfold decrypt. keeps_walk. Qed.
#[export] Instance seals_validate_authz a : Keeps (seals N) (validate_authz a).
Proof. unfold validate_authz. apply _. Qed.
#[export] Instance seals_encrypt_authorized a pt aad ctx : Keeps (seals N) (encrypt_authorized a pt aad ctx).
Proof. unfold encrypt_authorized. apply _. Qed.
#[export] Instance seals_decrypt_authorized a b aad ctx : Keeps (seals N) (decrypt_authorized a b aad ctx).
Proof. unfold decrypt_authorized. apply _. Qed.
#[export] Instance seals_sign_authorized a m : Keeps (seals N) (sign_authorized a m).
Proof. unfold sign_authorized. apply _. Qed.
#[export] Instance seals_expire_one m r : Keeps (seals N) (expire_one m r).
Proof. unfold expire_one. apply _. Qed.
#[export] Instance seals_expire_all ms r : Keeps (seals N) (expire_all ms r).
Proof. revert r. induction ms as [|m ms IH]; intros r; cbn [expire_all]; apply _. Qed.
#[export] Instance seals_expire_due : Keeps (seals N) expire_due_keys.
Proof. unfold expire_due_keys. apply _. Qed.
#[export] Instance seals_register {E} p : Keeps (E := E) (seals N) (register_policy p).
Proof. unfold register_policy. apply _. Qed.
#[export] Instance seals_migrate {E} op dry ex r d k : Keeps (E := E) (seals N) (Migration.cmd_hierarchy op dry ex r d k).
Proof. apply (keeps_migration _ (calm_seals N)). Qed.
#[export] Instance seals_enforcer_call {E} c : Keeps (E := E) (seals N) (enforcer_call c).
Proof. unfold enforcer_call. apply _. Qed.

(** ** Runs *)

Lemma exec_seals c w : seals N w (exec c w).
Proof.
  assert (G : forall E A (m : M E A), Keeps (seals N) m -> seals N w (m w).1) by (intros E A m Hm; apply Hm).
  destruct c; cbn [exec]; apply G; apply _.
Qed.

Lemma run_seals cs w : seals N w (run cs w).
Proof.
  revert w. induction cs as [|c cs IH]; intros w; [reflexivity|]. cbn [run].
  etransitivity; [apply exec_seals|apply IH].
Qed.

(** A keystore that holds no key yet is coherent. *)
Definition empty_at (w : World) : Prop :=
  view w = ∅ /\ Z.of_nat N < 2 ^ 32 - 1 /\
  forall i j, (pos w <= i)%nat -> (i < j < N)%nat -> name_at w i <> name_at w j.

Lemma empty_coherent w : empty_at w -> wf_view (view w) /\ coherent N ∅ w.
Proof.
  intros (Hv & HN & Hd). rewrite Hv. split; [by intros ??|]. by split; rewrite ?Hv.
Qed.

Lemma run_coherent cs w : empty_at w -> (pos (run cs w) <= N)%nat ->
  wf_view (view (run cs w)) /\ exists S, coherent N S (run cs w).
Proof.
  intros [Hwf C]%empty_coherent Hp. destruct (run_seals cs w Hwf) as [Hwf' [_ K]]. split; [done|].
  destruct (K Hp _ C) as (S & _ & ?). eauto.
Qed.
End keep.
End KsKeep.
