(* ===== verification/KeystoreRoundtrip.v ===== *)
(** * What comes back from the keystore is what went in

    End to end over whole runs: a ciphertext made by [encrypt] decrypts to its
    plaintext or not at all, a signature made by [sign] verifies, whatever
    rotations, rewrappings, revocations, failed writes and other operations
    happened in between.  And where the gates let a decryption through, it
    succeeds. *)

From S2P Require Import Prelude.
From S2P Require Import Wire.
From S2P Require Import WireV2.
From S2P Require Import Crypto.
From S2P Require Import Envelope.
From S2P Require Import Enforcer.
From S2P Require Import Types.
From S2P Require Import Hierarchy.
From S2P Require Import Policy.
From S2P Require Import AuditLog.
From S2P Require Import Storage.
From S2P Require Import Replay.
From S2P Require Import Signer.
From S2P Require Import KeystoreBase.
From S2P Require Import KeystoreWrap.
From S2P Require Import Keystore.
From S2P Require Import KeystoreCrypto.
From S2P Require Import KeystoreSign.
From S2P Require Import KeystoreFrame.
From S2P Require Import KeystoreLaws.
From S2P Require Import KeystoreCascade.
From S2P Require Import KeystoreRuns.
From S2P Require Import KeystoreGates.
From S2P Require Import KeystoreOps.
From S2P Require Import KeystoreSeal.
From S2P Require Import KeystoreKeep.
Import Types.

Module KsRoundtrip.
Import Wrap Keystore KsCrypto KsSign KsLaws KsRuns KsGates KsOps KsSeal KsKeep.

Section roundtrip.
Context {PF : Platform} {PL : PlatformLaws PF} (N : nat).

(** ** A keystore in use: the store is well formed and represents secrets *)

Definition sound (S : secrets) (w : World) : Prop := wf_view (view w) /\ coherent N S w.

Lemma sound_keeps {E A} (m : M E A) {K : Keeps (seals N) m} S w w' r :
  sound S w -> m w = (w', r) -> (pos w' <= N)%nat -> exists S', S ⊆ S' /\ sound S' w'.
Proof.
  intros [Hwf C] H Hp. specialize (K w Hwf). rewrite H in K. destruct K as [Hwf' [_ K]].
  destruct (K Hp S C) as (S' & ? & ?). by exists S'.
Qed.

Lemma sound_run cs S w : sound S w -> (pos (run cs w) <= N)%nat -> exists S', S ⊆ S' /\ sound S' (run cs w).
Proof.
  intros [Hwf C] Hp. destruct (run_seals N cs w Hwf) as [Hwf' [_ K]].
  destruct (K Hp S C) as (S' & ? & ?). by exists S'.
Qed.

Lemma sound_start cs w : empty_at N w -> (pos (run cs w) <= N)%nat -> exists S, sound S (run cs w).
Proof. intros He Hp. destruct (run_coherent N cs w He Hp) as (? & S & ?). by exists S. Qed.

(** Keys of a sound keystore are not replaced by others of the same name. *)
Lemma sound_evolves S w w' k m m' :
  sound S w -> legal w w' -> (pos w' <= N)%nat -> view w !! k = Some m -> view w' !! k = Some m' ->
  evolves m m'.
Proof.
  intros [Hwf C] L Hp Hm Hm'. destruct (lg_keys _ _ L Hwf) as [_ K].
  destruct (K k m' Hm') as [(m0 & Hm0 & He)|(i & Hi & ->)]; [congruence|].
  destruct (co_future _ _ _ C i) as [Hf _]; [lia|]. congruence.
Qed.

Lemma keeps_legal {E A} (m : M E A) {K : Keeps legal m} w w' r : m w = (w', r) -> legal w w'.
Proof. intros H. specialize (K w). by rewrite H in K. Qed.

(** A method run between two sequences of operations, from an empty keystore. *)
Lemma sound_between {E A} (m : M E A) {L : Keeps legal m} {K : Keeps (seals N) m} w0 cs0 cs1 w1 r :
  empty_at N w0 -> m (run cs0 w0) = (w1, r) -> (pos (run cs1 w1) <= N)%nat -> exists S S1 S2,
    sound S (run cs0 w0) /\ sound S1 w1 /\ sound S2 (run cs1 w1) /\ S ⊆ S1 /\ S1 ⊆ S2 /\
    legal (run cs0 w0) w1 /\ legal w1 (run cs1 w1).
Proof.
  intros He H Hp. pose proof (keeps_legal _ _ _ _ H) as L1. destruct (empty_coherent N w0 He) as [Hwf0 _].
  pose proof (proj1 (lg_keys _ _ (run_legal cs0 w0 Hwf0) Hwf0)) as Hwf.
  pose proof (run_legal cs1 w1 (proj1 (lg_keys _ _ L1 Hwf))) as L2.
  pose proof (lg_pos _ _ L1). pose proof (lg_pos _ _ L2).
  destruct (sound_start cs0 w0 He) as [S HS]; [lia|].
  destruct (sound_keeps _ _ _ _ _ HS H) as (S1 & Sub1 & HS1); [lia|].
  destruct (sound_run cs1 _ _ HS1) as (S2 & Sub2 & HS2); [lia|]. by exists S, S1, S2.
Qed.

Lemma same_secret (S S1 S2 : secrets) x s s' :
  S ⊆ S1 -> S1 ⊆ S2 -> S !! x = Some s -> S2 !! x = Some s' -> s' = s.
Proof.
  intros H1 H2 Hs Hs'. pose proof (lookup_weaken _ _ _ _ Hs ltac:(by etransitivity)) as E. congruence.
Qed.

(** The secret behind a version, by its number. *)
Lemma version_secret S w k m v n :
  sound S w -> view w !! k = Some m -> get_version m n = Some v -> exists s,
    S !! (k, n) = Some s /\ valid_secret s /\ (key_type m <> Signing -> exists sk, s = KemSecret sk) /\
    (state m <> Destroyed -> public_key_hex v = hex_encode (public_bytes s)) /\
    (forall l b w1 w2 bs, view w1 = view w -> master_key w1 = master_key w -> tape w1 = tape w ->
       (pos w <= pos w1)%nat -> unwrap_key_version_inner l k v b w1 = (w2, Ok bs) -> bs = secret_bytes s).
Proof.
  intros [Hwf C] Hm [Hin <-]%get_version_Some.
  destruct (sealed_secret _ _ _ _ _ _ C Hwf Hm Hin) as (s & Hs & Hv & Ht & Hp & _).
  exists s. split_and!; try done. intros l b w1 w2 bs E1 E2 E3 E4 Hu.
  apply (unwrap_secret N S _ _ m _ _ _ _ _ s) in Hu; [done| |by rewrite E1|by rewrite E1|done|done].
  eapply coherent_restates; [done|by split|by apply restates_refl].
Qed.

(** ** Encryption *)

(** The secret key that opens what [encrypt] made, and the domain bound. *)
Lemma encrypted_opens S w w' k pt aad ctx blob :
  sound S w -> encrypt k pt aad ctx w = (w', Ok blob) -> exists m d sk ct,
    view w !! k = Some m /\ blob_key_id blob = k /\ in_domain (view w) k d /\
    S !! (k, key_version blob) = Some (KemSecret sk) /\ valid_secret (KemSecret sk) /\
    ciphertext_hex blob = hex_encode ct /\
    Engine.decrypt (K := hybrid_kem) sk ct (bound_aad d aad) ctx = Ok pt /\
    starts_with ct WireV2.MAGIC = true.
Proof.
  intros HS (m & v & pk & d & ct & [Hm Hst Ht _ Hv (bs & Hbs & Hpk) Hd (r & Hc) (Hk & Hn & Hx) _ _])%encrypt_Ok.
  exists m, d. destruct (HS) as [Hwf C]. apply current_in in Hv as [Hin Hcv].
  assert (Hns : key_type m <> Signing) by (by destruct Ht as [-> | ->]).
  destruct (parent_public _ _ _ _ _ _ _ _ C Hwf Hm Hin Hns Hbs Hpk) as (sk & Hs & ->).
  exists sk, ct. rewrite Hn, <- Hcv. split_and!; try done.
  - exact (co_valid _ _ _ C _ _ Hs).
  - eapply Engine.open_sealed; [apply rd_nonce_draw|reflexivity|exact Hc].
  - eapply Engine.seal_magic. exact Hc.
Qed.

(** C3: From an empty keystore, after any operations, a plaintext is encrypted; after
    any further operations the ciphertext is decrypted, under the same associated data
    and context. If that succeeds at all it returns the plaintext: no sequence of
    rotations, rewrappings, cascades or failed writes exchanges the key material under a
    key's name and version. *)
Theorem decrypt_returns_plaintext w0 cs0 cs1 k pt aad ctx w1 blob w2 pt' :
  empty_at N w0 -> encrypt k pt aad ctx (run cs0 w0) = (w1, Ok blob) ->
  decrypt blob aad ctx (run cs1 w1) = (w2, Ok pt') -> (pos w2 <= N)%nat -> pt' = pt.
Proof.
  intros He Henc Hdec Hp. pose proof (lg_pos _ _ (keeps_legal _ _ _ _ Hdec)) as P3.
  destruct (sound_between _ _ cs0 cs1 _ _ He Henc) as (S & S1 & S2 & HS & _ & HS2 & Sub1 & Sub2 & L1 & L2); [lia|].
  destruct (encrypted_opens _ _ _ _ _ _ _ _ HS Henc) as (m & d & sk & ct & Hm & Hk & Hd & Hsk & Hval & Hct & Hop & _).
  apply decrypt_Ok in Hdec as (wc & m3 & kv & d3 & ct3 & n3 & [Dk _ _ Dv Dc _ Dd _ _ _ _ _ Do]).
  rewrite Hk in *. rewrite Hct, hex_decode_encode in Dc. injection Dc as <-.
  assert (d3 = d) as ->.
  { symmetry. eapply in_domain_stable; [|exact Hd|exact Dd]. intros x a b Ha Hb.
    eapply (sound_evolves S); [done| |  |exact Ha|exact Hb]; [by etransitivity|lia]. }
  destruct (version_secret _ _ _ _ _ _ HS2 Dk Dv) as (s & Hs & _ & _ & _ & Hu).
  rewrite (same_secret _ _ _ _ _ _ Sub1 Sub2 Hsk Hs) in *.
  destruct Do as (x1 & x2 & bs & sk' & (V & Mk & T & Px) & Hun & Hsk' & Hpt).
  apply Hu in Hun as ->; [|done..|lia]. rewrite (secret_key_parses _ _ Hval eq_refl) in Hsk'.
  injection Hsk' as <-. rewrite Hop in Hpt. by injection Hpt.
Qed.

(** ** Signatures *)

Lemma secret_is_seed s seed :
  secret_bytes s = seed -> valid_secret s -> len seed = 32 -> s = DsaSecret seed.
Proof.
  destruct s as [sk|sd]; cbn; [|by intros ->]. intros <- _. unfold Kem.SecretKey_to_bytes.
  pose proof (length_dk_bytes (Kem.mlkem sk)). rewrite length_app. lia.
Qed.

Lemma sign_message_sized seed msg g : Dsa.sign_message seed msg = Ok g ->
  len seed = 32 /\ Dsa.verifying_key_from_seed seed = Ok (vk_encode seed).
Proof.
  unfold Dsa.sign_message, Dsa.verifying_key_from_seed. intros H. inv_ok H. bool_hyps. split; [done|].
  unfold Dsa.MLDSA65_SEED_BYTES in *. rewrite (proj2 (Z.eqb_eq _ _)) by done. cbn.
  match goal with H : seed_try_from _ = true |- _ => by rewrite H end.
Qed.

Lemma denied_Ok (b : bool) k m n r w w' (u : unit) :
  (if b then signing_denied k m n r else mret ()) w = (w', Ok u) -> b = false /\ w' = w.
Proof.
  destruct b; [|by intros [= ->]]. unfold signing_denied. by intros (? & ? & _ & ?)%bindM_Ok.
Qed.

(** A signature comes from the current version's seed. *)
Lemma sign_Ok k msg w w' sp :
  sign k msg w = (w', Ok sp) -> exists m v seed g,
    view w !! k = Some m /\ key_type m = Signing /\ current_key_version m = Some v /\
    (exists w1 w2, calm w w1 /\ unwrap_key_version k v 0 w1 = (w2, Ok seed)) /\
    Dsa.sign_message seed msg = Ok g /\ sp_key_version sp = version v /\
    signature_hex sp = hex_encode g.
Proof.
  unfold sign. intros (w1 & m & H1%mapping_Ok & H)%bindM_Ok. pose proof (get_Ok _ _ _ _ H1) as Hm.
  apply keeps_Ok in H1; [|apply _].
  apply bindM_Ok in H as (w2 & [] & [Ht ->]%denied_Ok & H).
  apply bindM_Ok in H as (w3 & [] & [_ ->]%denied_Ok & H). bool_hyps.
  apply bindM_Ok in H as (w4 & v & [Hv ->]%or_throw_Ok & H).
  apply bindM_Ok in H as (w5 & seed & Hu & H).
  apply on_error_Ok in Hu as [Hu|(? & ? & (? & ? & _ & ?)%bindM_Ok)]; [|done].
  apply bindM_Ok in H as (w6 & g & [_ Hg%map_err_Ok]%mapping_Ok%lift_Ok & H).
  apply bindM_Ok in H as (w7 & [] & _ & H). apply bindM_Ok in H as (w8 & t & _ & [= _ <-]).
  exists m, v, seed, g. split_and!; try done. by exists w1, w5.
Qed.

Lemma signed_by S w w' k msg sp :
  sound S w -> sign k msg w = (w', Ok sp) -> exists m seed g,
    view w !! k = Some m /\ key_type m = Signing /\ sp_key_version sp = current_version m /\
    S !! (k, sp_key_version sp) = Some (DsaSecret seed) /\
    Dsa.sign_message seed msg = Ok g /\ signature_hex sp = hex_encode g.
Proof.
  intros HS (m & v & seed & g & Hm & Ht & Hv & (x1 & x2 & C & Hu) & Hg & Hn & Hx)%sign_Ok.
  pose proof (current_in _ _ Hv) as [_ Hcv]. exists m, seed, g.
  destruct (version_secret _ _ _ _ v (current_version m) HS Hm Hv) as (s & Hs & Hval & _ & _ & Hun).
  destruct C as [Cs _ _ _ Cm _ Ct Cp].
  apply Hun in Hu as Eb; [|unfold view; by rewrite Cs|done..].
  rewrite Hn, Hcv. split_and!; try done. rewrite Hs. f_equal.
  apply secret_is_seed; [done|done|]. by apply sign_message_sized in Hg as [? _].
Qed.

(** C4: A signature made by the keystore is never rejected: any time later, after any
    operations, verification that gives a verdict at all gives [true]. *)
Theorem signature_verifies w0 cs0 cs1 k msg w1 sp w2 b :
  empty_at N w0 -> sign k msg (run cs0 w0) = (w1, Ok sp) ->
  verify_signature k msg sp (run cs1 w1) = (w2, Ok b) -> (pos w2 <= N)%nat -> b = true.
Proof.
  intros He Hs Hv Hp. pose proof (calm_pos _ _ (keeps_Ok _ _ _ _ Hv)) as P3.
  destruct (sound_between _ _ cs0 cs1 _ _ He Hs) as (S & S1 & S2 & HS & _ & HS2 & Sub1 & Sub2 & _); [lia|].
  destruct (signed_by _ _ _ _ _ _ HS Hs) as (m & seed & g & _ & _ & _ & Hseed & Hg & Hx).
  unfold verify_signature in Hv.
  apply bindM_Ok in Hv as (x1 & m3 & Hm3%mapping_Ok%get_Ok & Hv).
  apply bindM_Ok in Hv as (x2 & [] & [_ ->]%throw_if_Ok & Hv).
  apply bindM_Ok in Hv as (x2 & [] & [Hu ->]%throw_if_Ok & Hv).
  apply bindM_Ok in Hv as (x2 & kv & [Hkv ->]%or_throw_Ok & Hv).
  apply bindM_Ok in Hv as (x2 & vk & Hvk%mapping_Ok%decode_hex_Ok & Hv).
  apply bindM_Ok in Hv as (x3 & sg & Hsg%mapping_Ok%decode_hex_Ok & Hv).
  apply bindM_Ok in Hv as (x4 & valid & [_ Hok%map_err_Ok]%mapping_Ok%lift_Ok & Hv).
  apply bindM_Ok in Hv as (x5 & [] & _ & [= _ <-]).
  rewrite Hx, hex_decode_encode in Hsg. injection Hsg as <-.
  destruct (version_secret _ _ _ _ _ _ HS2 Hm3 Hkv) as (s & Hs2 & _ & _ & Hpub & _).
  rewrite (same_secret _ _ _ _ _ _ Sub1 Sub2 Hseed Hs2) in *.
  apply negb_false_iff, bool_decide_eq_true in Hu.
  rewrite Hpub, hex_decode_encode in Hvk by (destruct Hu; congruence). injection Hvk as <-. cbn in Hok.
  destruct (sign_message_sized _ _ _ Hg) as [_ Hvk].
  pose proof (Dsa.verify_signed _ _ _ _ Hvk Hg). congruence.
Qed.

Lemma rotate_adds k w w1 k' :
  wf_view (view w) -> rotate k w = (w1, Ok k') ->
  exists m1, view w1 !! k = Some m1 /\ (2 <= length (versions m1))%nat.
Proof.
  intros Hwf (m & pk & sk & x & wx & wy & nonce & t & Hm & _ & _ & _ & Hv)%KsOps.rotate_Ok; [|done].
  rewrite Hv, lookup_insert_eq. eexists. split; [done|]. cbn. rewrite length_app.
  pose proof (wf_some _ _ (Hwf _ _ Hm)). destruct (versions m); [done|]. cbn. lia.
Qed.

(** C26: [rotate] does not look at the key's type: it gives a signing key a new current
    version with KEM keys, and from then on no operation makes it sign again. *)
Theorem rotate_bricks_signing_key w0 cs0 cs1 k w1 k' m msg w2 sp :
  empty_at N w0 -> view (run cs0 w0) !! k = Some m -> key_type m = Signing ->
  rotate k (run cs0 w0) = (w1, Ok k') -> (pos w2 <= N)%nat ->
  sign k msg (run cs1 w1) <> (w2, Ok sp).
Proof.
  intros He Hm Ht Hr Hp Hs. pose proof (calm_pos _ _ (keeps_Ok _ _ _ _ Hs)) as P3.
  destruct (sound_between _ _ cs0 cs1 _ _ He Hr) as (S & S1 & S2 & [Hwf _] & HS1 & HS2 & _ & _ & _ & L2); [lia|].
  destruct (signed_by _ _ _ _ _ _ HS2 Hs) as (m3 & seed & g & Hm3 & _ & Hn & Hseed & _ & _).
  destruct HS2 as [Hwf2 C2]. pose proof (co_first _ _ _ C2 _ _ _ Hseed) as E1. rewrite Hn in E1.
  destruct (rotate_adds _ _ _ _ Hwf Hr) as (m1 & Hm1 & Hl1).
  pose proof (sound_evolves _ _ _ _ _ _ HS1 L2 ltac:(lia) Hm1 Hm3) as Ev.
  destruct (ev_versions _ _ Ev) as (vs & new & Evs & F). apply Forall2_length in F.
  pose proof (wf_current _ _ (Hwf2 _ _ Hm3)) as Hc. pose proof (co_room _ _ _ C2 _ _ Hm3) as Hroom.
  rewrite Evs, length_app in *. rewrite Hc, Z.mod_small in E1 by lia. lia.
Qed.
End roundtrip.
End KsRoundtrip.
