(* ===== verification/KeystoreAvailable.v ===== *)
(** * Decryption succeeds

    Where storage can be read, the key and the keys that wrap it are usable, the
    policy lets the operation through and the ciphertext was not decrypted
    before, [decrypt] returns the plaintext: the cryptography and the
    bookkeeping add no failure of their own. *)

From S2P Require Import Prelude.
From S2P Require Import Wire.
From S2P Require Import WireV2.
From S2P Require Import Crypto.
From S2P Require Import Envelope.
From S2P Require Import Enforcer.
From S2P Require Import Types.
From S2P Require Import Hierarchy.
From S2P Require Import Policy.
From S2P Require Import AuditLog.
From S2P Require Import Storage.
From S2P Require Import Replay.
From S2P Require Import Signer.
From S2P Require Import KeystoreBase.
From S2P Require Import KeystoreWrap.
From S2P Require Import Keystore.
From S2P Require Import KeystoreCrypto.
From S2P Require Import KeystoreSign.
From S2P Require Import KeystoreFrame.
From S2P Require Import KeystoreLaws.
From S2P Require Import KeystoreCascade.
From S2P Require Import KeystoreRuns.
From S2P Require Import KeystoreGates.
From S2P Require Import KeystoreOps.
From S2P Require Import KeystoreSeal.
From S2P Require Import KeystoreKeep.
From S2P Require Import KeystoreRoundtrip.
Import Types.

Module KsAvailable.
Import Wrap Keystore KsCrypto KsLaws KsRuns KsGates KsOps KsSeal KsKeep KsRoundtrip.

Notation keymap := (gmap string KeyMetadata).

(** ** What the hierarchy must look like *)

(** The version unwraps through usable parents, in at most [n] steps. *)
Fixpoint chain_within (n : nat) (v : keymap) (kv : KeyVersion) : bool :=
  match n with
  | O => false
  | S n =>
      match secret_key_material kv with
      | Purged => false
      | CitadelWrapped _ =>
          match wrapping_key_id kv ≫= (v !!.), wrapping_key_version kv with
          | Some pm, Some i =>
              usable (state pm) &&
              match get_version pm i with Some pkv => chain_within n v pkv | None => false end
          | _, _ => false
          end
      | _ => true
      end
  end.

(** The identifier of the nearest ancestor of type [Domain], in at most [n]
    steps. *)
Fixpoint domain_within (n : nat) (v : keymap) (k : string) : option string :=
  match n with
  | O => None
  | S n =>
      m ← v !! k;
      match key_type m with
      | Domain => Some (id m)
      | Root => None
      | _ => parent_id m ≫= domain_within n v
      end
  end.

Section available.
Context {PF : Platform} {PL : PlatformLaws PF} (N : nat).

(** Storage answers every read from here on. *)
Definition readable (w : World) : Prop := forall i, (pos w <= i)%nat -> forall k s,
  st_get (rd_st (tape w i)) k s = Ok (st_view s !! k).

Lemma readable_calm w w' : readable w -> calm w w' -> readable w'.
Proof. intros R [_ _ _ _ _ _ T P] i Hi. rewrite T. apply R. lia. Qed.

Lemma storage_get_run k w : readable w -> storage_get k w = (advance w, Ok (view w !! k)).
Proof.
  intros R. unfold storage_get, st_query, reading. by rewrite (R (pos w)) by lia.
Qed.

Lemma get_run k w m : readable w -> view w !! k = Some m -> get k w = (advance w, Ok m).
Proof.
  intros R Hm. unfold get. erewrite bind_run by by apply storage_get_run. by apply or_throw_run.
Qed.

Lemma calm_advance w : calm w (advance w).
Proof. apply (calm_tick (E := unit) w). Qed.

(** ** Unwrapping and resolution succeed *)

Lemma find_parent_run k kv p pm i pkv w :
  readable w -> wrapping_key_id kv = Some p -> view w !! p = Some pm -> usable (state pm) = true ->
  wrapping_key_version kv = Some i -> get_version pm i = Some pkv ->
  find_parent k kv false w = (advance w, Ok (p, pkv)).
Proof.
  intros R Hp Hpm Hu Hi Hg. unfold find_parent.
  erewrite bind_run by by apply or_throw_run. erewrite bind_run by by apply mapping_run, storage_get_run.
  erewrite bind_run by by apply or_throw_run. rewrite Hu. cbn [negb andb].
  erewrite bind_run by reflexivity. erewrite bind_run by by apply or_throw_run.
  erewrite bind_run by by apply or_throw_run. done.
Qed.

Lemma open_wrapped_run k kv p psk s ct bs w :
  valid_secret s -> s = KemSecret psk ->
  Engine.decrypt (K := hybrid_kem) psk ct HIERARCHY_WRAP_AAD (wrap_context k (version kv) p) = Ok bs ->
  open_wrapped k kv ("ckw:" +:+ hex_encode ct) p (secret_bytes s) w = (w, Ok bs).
Proof.
  intros Hv Hs Hd. unfold open_wrapped.
  erewrite bind_run by by apply mapping_run, lift_run, secret_key_parses.
  erewrite bind_run by apply or_throw_run, strip_prefix_app.
  erewrite bind_run by apply mapping_run, decode_hex_run.
  by apply mapping_run, lift_run.
Qed.

Lemma unwrap_run S n k m v w s :
  sound N S w -> view w !! k = Some m -> v ∈ versions m -> S !! (k, version v) = Some s ->
  chain_within n (view w) v = true -> readable w ->
  exists w', calm w w' /\ unwrap_key_version_inner n k v false w = (w', Ok (secret_bytes s)).
Proof.
  revert k m v w s. induction n as [|n IH]; intros k m v w s [Hwf C] Hm Hv Hs Hch R; [done|].
  destruct (sealed_secret _ _ _ _ _ _ C Hwf Hm Hv) as (s' & Hs' & Hval & _ & _ & Hsl).
  rewrite Hs in Hs'. injection Hs' as <-. cbn [unwrap_key_version_inner chain_within] in *.
  inversion Hsl as [wi wv E1|mk aes nonce ct wi wv Hmk Haes Hn Hct E1|p pn psk ct Hp Hd E1 E2 E3|wi wv E1];
    rewrite <- E1 in Hch.
  - exists w. split; [reflexivity|]. apply mapping_run, decode_hex_run.
  - exists w. split; [reflexivity|]. by eapply unwrap_encrypted_sealed.
  - rewrite <- E2, <- E3 in Hch. cbn in Hch. destruct (view w !! p) as [pm|] eqn:Hpm; [|done].
    apply andb_true_iff in Hch as [Hu Hch]. destruct (get_version pm pn) as [pkv|] eqn:Hg; [|done].
    pose proof (get_version_Some _ _ _ Hg) as [Hin Hnum].
    assert (Ca : calm w (advance w)) by apply calm_advance.
    destruct (IH p pm pkv (advance w) (KemSecret psk)) as (w' & C' & Hu').
    + split; [by eapply wf_calm|by eapply coherent_calm].
    + done.
    + done.
    + by rewrite Hnum.
    + done.
    + by eapply readable_calm.
    + exists w'. split; [by etransitivity|].
      erewrite bind_run by (eapply find_parent_run; [done|symmetry; exact E2|exact Hpm|done|symmetry; exact E3|done]).
      cbn [fst snd]. erewrite bind_run by exact Hu'.
      eapply open_wrapped_run; [exact (co_valid _ _ _ C _ _ Hp)|reflexivity|exact Hd].
  - done.
Qed.

Lemma resolve_from_run n dp k0 k d w :
  domain_within n (view w) k = Some d -> readable w ->
  exists w', calm w w' /\ resolve_from n dp k0 k w = (w', Ok d).
Proof.
  revert dp k w. induction n as [|n IH]; intros dp k w; [done|]. cbn [domain_within resolve_from].
  intros Hd R. destruct (view w !! k) as [m|] eqn:Hm; [|done]. cbn in Hd. rewrite (bind_run _ _ _ _ _ (get_run _ _ _ R Hm)).
  assert (Ca : calm w (advance w)) by apply calm_advance.
  destruct (key_type m); [done|injection Hd as <-; by exists (advance w)|..];
    destruct (parent_id m) as [p|] eqn:Hp; try done; cbn in Hd; (erewrite bind_run by by apply or_throw_run);
    (destruct (IH (dp + 1) p (advance w)) as (w' & C' & H'); [done|by eapply readable_calm|]);
    (exists w'; split; [by etransitivity|done]).
Qed.

Lemma domain_within_in n v k d : domain_within n v k = Some d -> in_domain v k d.
Proof.
  revert k. induction n as [|n IH]; intros k; [done|]. cbn. intros Hd.
  destruct (v !! k) as [m|] eqn:Hm; [|done]. cbn in Hd. destruct (key_type m) eqn:Ht.
  1: done.
  1: injection Hd as <-; by apply dom_self.
  all: destruct (parent_id m) as [p|] eqn:Hp; [|done]; eapply dom_up; [done|by rewrite Ht..|done|by apply IH].
Qed.

Lemma get_version_exists n (m : KeyMetadata) : n ∈ version <$> versions m -> exists v, get_version m n = Some v.
Proof.
  unfold get_version. intros (v & -> & Hv)%list_elem_of_fmap. destruct (List.find _ _) eqn:E; [eauto|].
  apply list_elem_of_In, (List.find_none _ _ E) in Hv. by rewrite Z.eqb_refl in Hv.
Qed.

(** ** Decryption *)

Lemma opened_shape sk ct aad ctx pt :
  Engine.decrypt (K := hybrid_kem) sk ct aad ctx = Ok pt -> starts_with ct WireV2.MAGIC = true ->
  16 <= len ct /\ exists nonce, WireV2.envelope_nonce ct = Ok nonce.
Proof.
  unfold Engine.decrypt, WireV2.envelope_nonce. intros H Hm. rewrite Hm in *. unfold WireV2.open in H.
  inv_ok H. split.
  - match goal with H : WireV2.decode ct = Ok _ |- _ => unfold WireV2.decode in H; inv_ok H end.
    bool_hyps. etransitivity; [|eassumption]. by vm_compute.
  - match goal with H : WireV2.decode ct = Ok _ |- _ => rewrite H end. cbn. eauto.
Qed.

Lemma claim_slot_run key blob m w :
  (claim (rd_rs (reading w)) key REPLAY_TTL (replay w)).2 = Ok true ->
  claim_slot key blob m w =
    (set_replay (claim (rd_rs (reading w)) key REPLAY_TTL (replay w)).1 (advance w), Ok ()).
Proof.
  intros H. unfold claim_slot, attempt, replay_claim, mbind, M_bind.
  destruct (claim _ _ _ _) as [s r]; cbn in *. by rewrite H.
Qed.

Lemma cache_key_run d blob ct nonce w :
  WireV2.envelope_nonce ct = Ok nonce ->
  cache_key_of d blob ct w =
    (w, Ok (Replay.derive_replay_key d (blob_key_id blob) (key_version blob) nonce (aead_tag ct))).
Proof. intros H. unfold cache_key_of. by erewrite bind_run by by apply mapping_run, lift_run. Qed.

Lemma open_claimed_run S key d blob m kv sk ct aad ctx pt w :
  sound N S w -> view w !! blob_key_id blob = Some m -> get_version m (key_version blob) = Some kv ->
  S !! (blob_key_id blob, key_version blob) = Some (KemSecret sk) -> chain_within 5 (view w) kv = true ->
  readable w -> Engine.decrypt (K := hybrid_kem) sk ct (bound_aad d aad) ctx = Ok pt ->
  exists w', open_claimed key d blob m kv ct aad ctx w = (w', Ok pt).
Proof.
  intros HS Hm [Hin Hn]%get_version_Some Hs Hch R Hop. unfold open_claimed. cbv zeta.
  rewrite <- Hn in Hs. destruct (unwrap_run S 5 _ _ _ w _ HS Hm Hin Hs Hch R) as (w' & C & Hu).
  exists w'. erewrite bind_run.
  2: { unfold on_error. unfold unwrap_key_version. change (Z.to_nat (MAX_UNWRAP_DEPTH + 1 - 0)) with 5%nat.
       rewrite Hu. reflexivity. }
  erewrite bind_run.
  2: { unfold on_error, lift. rewrite (secret_key_parses _ sk); [reflexivity| |reflexivity].
       destruct HS as [_ Co]. exact (co_valid _ _ _ Co _ _ Hs). }
  unfold on_error, open, lift. by rewrite Hop.
Qed.

(** C5: Any time after [encrypt] made the ciphertext, where storage answers, the key and
    the keys that wrap it are active or rotated and at most five deep, the domain is
    found, the cryptoperiod check passes and the replay store has a free slot, [decrypt]
    returns the plaintext: the version is still there, its secret unwraps, the domain is
    the one that was bound, and the envelope opens. *)
Theorem decrypt_available w0 cs0 cs1 k pt aad ctx w1 blob m d wp :
  empty_at N w0 -> encrypt k pt aad ctx (run cs0 w0) = (w1, Ok blob) ->
  let w := run cs1 w1 in (pos w <= N)%nat -> readable w ->
  view w !! k = Some m -> usable (state m) = true ->
  (forall kv, get_version m (key_version blob) = Some kv -> chain_within 5 (view w) kv = true) ->
  domain_within MAX_DEPTH (view w) k = Some d ->
  check_cryptoperiod k m (advance w) = (wp, Ok ()) ->
  (forall e ct nonce, hex_decode (ciphertext_hex blob) = Some ct -> WireV2.envelope_nonce ct = Ok nonce ->
     (claim e (Replay.derive_replay_key d k (key_version blob) nonce (aead_tag ct)) REPLAY_TTL
        (replay w)).2 = Ok true) ->
  exists w2, decrypt blob aad ctx w = (w2, Ok pt).
Proof.
  intros He Henc w Hp R Hm Hst Hch Hdom Hpol Hfree.
  destruct (sound_between N _ _ cs0 cs1 _ _ He Henc Hp) as (S & S1 & S2 & HS & _ & HS2 & Sub1 & Sub2 & L1 & L2).
  fold w in HS2, L2.
  destruct (encrypted_opens N _ _ _ _ _ _ _ _ HS Henc) as (m0 & d0 & sk & ct & _ & Hk & Hd0 & Hsk & _ & Hct & Hop & Hmg).
  assert (d0 = d) as ->.
  { eapply in_domain_stable; [|exact Hd0|by eapply domain_within_in]. intros x a b Ha Hb.
    eapply (sound_evolves N S); [done| |done|exact Ha|exact Hb]. by etransitivity. }
  assert (Hsk2 : S2 !! (k, key_version blob) = Some (KemSecret sk))
    by (eapply lookup_weaken; [exact Hsk|by etransitivity]).
  assert (exists kv, get_version m (key_version blob) = Some kv) as [kv Hkv].
  { destruct HS2 as [_ C2]. eapply get_version_exists, co_numbered; eauto. }
  specialize (Hch kv Hkv). pose proof (opened_shape _ _ _ _ _ Hop Hmg) as [Hlen [nonce Hn]].
  pose proof (calm_advance w) as Ca. pose proof (keeps_Ok _ _ _ _ Hpol) as Cp.
  assert (Cw : calm w wp) by (by etransitivity).
  destruct (resolve_from_run MAX_DEPTH 0 k k d wp) as (wd & Cd & Hd);
    [by rewrite (calm_view _ _ Cw)|by eapply readable_calm|].
  assert (Cwd : calm w wd) by (by etransitivity).
  specialize (Hfree (rd_rs (reading wd)) ct nonce). rewrite Hct, hex_decode_encode in Hfree.
  rewrite <- (calm_replay _ _ Cwd) in Hfree. specialize (Hfree eq_refl Hn). rewrite <- Hk in Hfree.
  set (key := Replay.derive_replay_key d (blob_key_id blob) (key_version blob) nonce (aead_tag ct)) in *.
  set (wc := set_replay (claim (rd_rs (reading wd)) key REPLAY_TTL (replay wd)).1 (advance wd)).
  assert (Hvc : view wc = view w) by (exact (calm_view _ _ Cwd)).
  assert (Lc : later w wc).
  { destruct Cwd. split; cbn; [done|done|lia]. }
  destruct (open_claimed_run S2 key d blob m kv sk ct aad ctx pt wc) as (w2 & Ho).
  - destruct HS2 as [Hwf C2]. split; [by rewrite Hvc|]. eapply coherent_restates; [done|done|by apply restates_refl].
  - by rewrite Hvc, Hk.
  - done.
  - by rewrite Hk.
  - by rewrite Hvc.
  - intros i Hi. rewrite (lt_tape _ _ Lc). apply R. pose proof (lt_pos _ _ Lc). lia.
  - done.
  - eexists. unfold decrypt. cbv zeta. rewrite Hk.
    erewrite bind_run by by apply mapping_run, get_run.
    erewrite bind_run by by apply throw_if_run, negb_false_iff.
    erewrite bind_run by exact Hpol. erewrite bind_run by by apply or_throw_run.
    erewrite bind_run by (rewrite Hct; apply mapping_run, decode_hex_run).
    erewrite bind_run by by apply throw_if_run, Z.ltb_ge.
    erewrite bind_run by by apply mapping_run.
    erewrite bind_run by by apply cache_key_run.
    erewrite bind_run by by apply claim_slot_run.
    erewrite bind_run by exact Ho. erewrite bind_run by reflexivity. reflexivity.
Qed.
End available.
End KsAvailable.
