(* ===== verification/MigrationLaws.v ===== *)
(** * What a migration achieves

    A migration that reports success leaves nothing to migrate; and what a later
    rotation does to a migrated key. *)

From S2P Require Import Prelude.
From S2P Require Import Types.
From S2P Require Import Hierarchy.
From S2P Require Import Storage.
From S2P Require Import KeystoreBase.
From S2P Require Import KeystoreWrap.
From S2P Require Import Keystore.
From S2P Require Import Migration.
From S2P Require Import KeystoreFrame.
From S2P Require Import KeystoreLaws.
From S2P Require Import KeystoreGates.
From S2P Require Import KeystoreOps.
From S2P Require Import KeystoreRuns.
From S2P Require Import KeystoreKeep.
From S2P Require Import KeystoreRoundtrip.
Import Types.

Module MigrationLaws.
Import Wrap Keystore Migration KsLaws KsRuns KsGates KsOps.

Section laws.
Context {PF : Platform} {PL : PlatformLaws PF}.

Lemma attempt_Ok {E F A} (m : M E A) w w' r :
  attempt (F := F) m w = (w', Ok r) ->
  m w = (w', match r with Ok a => Ok a | Err e => Err (Fail e) end).
Proof. unfold attempt. destruct (m w) as [w1 [a|[e|]]]; intros [= <- <-]; done. Qed.

(** ** Creation *)

(** Every step reported as a success was one, and errors are only counted up. *)
Lemma create_one_Ok {E} s c n w w' c' n' :
  create_one (E := E) s (c, n) w = (w', Ok (c', n')) ->
  n <= n' /\ (n' = n -> exists k w1,
    generate (kc_name s) (type_of_text (kc_key_type s)) None (kc_parent_name s ≫= (fun p => c !! p)) w
      = (w1, Ok k) /\
    activate k w1 = (w', Ok ()) /\ c' = <[ kc_name s := k ]> c).
Proof.
  unfold create_one. intros H. apply bindM_Ok in H as (w1 & r & Hg%attempt_Ok & H).
  destruct r as [k|e].
  - apply bindM_Ok in H as (w2 & a & Ha%attempt_Ok & H). destruct a as [[]|e]; injection H as <- <- <-.
    + split; [lia|]. intros _. exists k, w1. done.
    + split; lia.
  - injection H as <- <- <-. split; lia.
Qed.

Lemma rewrap_one_Ok {E} kek s n w w' n' :
  rewrap_one (E := E) kek s n w = (w', Ok n') ->
  n <= n' /\ (n' = n -> exists p, kek = Some p /\ rewrap (kr_key_id s) (Some p) w = (w', Ok ())).
Proof.
  unfold rewrap_one. destruct kek as [p|]; intros H.
  - apply bindM_Ok in H as (w1 & r & Hr%attempt_Ok & H). destruct r as [[]|e].
    + apply bindM_Ok in H as (w2 & x & [-> _]%lift_Ok & [= <- <-]). split; [lia|]. intros _. by exists p.
    + injection H as <- <-. split; lia.
  - injection H as <- <-. split; lia.
Qed.

(** The names still to be drawn are new and pairwise different, up to [N]. *)
Definition supply (N : nat) (w : World) : Prop :=
  forall i, (pos w <= i)%nat -> (i < N)%nat ->
    view w !! name_at w i = None /\ forall j, (i < j < N)%nat -> name_at w i <> name_at w j.

Lemma supply_later N w w' :
  supply N w -> tape w' = tape w -> (pos w <= pos w')%nat ->
  (forall k, is_Some (view w' !! k) -> is_Some (view w !! k) \/
     exists i, (pos w <= i < pos w')%nat /\ (i < N)%nat /\ k = name_at w i) -> supply N w'.
Proof.
  intros HS Ht Hp Hv i Hi Hi'. assert (En : forall j, name_at w' j = name_at w j) by (intros j; unfold name_at; by rewrite Ht).
  destruct (HS i ltac:(lia) Hi') as [Hn Hd]. split.
  - apply eq_None_not_Some. rewrite En. intros [Hs|(j & Hj & HjN & E)]%Hv.
    + rewrite Hn in Hs. by destruct Hs.
    + destruct (HS j ltac:(lia) HjN) as [_ Hd']. apply (Hd' i); [lia|done].
  - intros j Hj. rewrite !En. by apply Hd.
Qed.

(** The keys a migration adds. *)
Definition adds (v v' : gmap string KeyMetadata) : Prop :=
  v ⊆ v' /\ forall k m, v' !! k = Some m -> v !! k = Some m \/ key_type m <> DataEncrypting.

#[local] Instance adds_preorder : PreOrder adds.
Proof.
  split; [split; eauto|]. intros a b c [S1 N1] [S2 N2]. split; [by etransitivity|].
  intros k m [H|H]%N2; [|by right]. by apply N1.
Qed.

Definition at_level (v : gmap string KeyMetadata) (n : string) (t : KeyType) : Prop :=
  exists k m, v !! k = Some m /\ key_type m = t /\ state m = Active /\ name m = n.

Lemma at_level_mono v v' n t : v ⊆ v' -> at_level v n t -> at_level v' n t.
Proof. intros S (k & m & H & ?). exists k, m. split; [|done]. by eapply lookup_weaken. Qed.

(** Identifiers recorded under a name are keys of one of its levels. *)
Definition resolved (opts : MigrationOptions) (v : gmap string KeyMetadata) (c : gmap string string) : Prop :=
  forall n i, c !! n = Some i -> exists m, v !! i = Some m /\ (n, key_type m) ∈ levels opts.

Lemma resolved_mono opts v v' c : v ⊆ v' -> resolved opts v c -> resolved opts v' c.
Proof. intros S H n i (m & Hm & ?)%H. exists m. split; [|done]. by eapply lookup_weaken. Qed.

Definition planned (opts : MigrationOptions) (s : KeyToCreate) : Prop :=
  (kc_name s, type_of_text (kc_key_type s)) ∈ levels opts.

Lemma level_not_data opts n t : (n, t) ∈ levels opts -> t <> DataEncrypting.
Proof. unfold levels. set_unfold. naive_solver. Qed.

Lemma created {E} N opts s c n w w' c' :
  wf_view (view w) -> supply N w -> (pos w' <= N)%nat -> planned opts s -> resolved opts (view w) c ->
  create_one (E := E) s (c, n) w = (w', Ok (c', n)) ->
  wf_view (view w') /\ supply N w' /\ adds (view w) (view w') /\ resolved opts (view w') c' /\
  at_level (view w') (kc_name s) (type_of_text (kc_key_type s)).
Proof.
  intros Hwf HS HN Hpl Hc [_ H]%create_one_Ok. destruct (H eq_refl) as (k & w1 & Hg & Ha & ->). clear H.
  pose proof (KsRoundtrip.keeps_legal _ _ _ _ Hg) as L1. pose proof (KsRoundtrip.keeps_legal _ _ _ _ Ha) as L2.
  pose proof (lg_keys _ _ L1 Hwf) as [Hwf1 _]. pose proof (lg_keys _ _ L2 Hwf1) as [Hwf2 _].
  apply generate_Ok in Hg
    as (i & tm & pk & sk & wc & x & wx & wy & nonce & m & Hi & Hk & Ht & _ & _ & _ & _ & _ & Hv & Em).
  destruct Em as (E1 & E2 & E3 & E4 & _).
  apply activate_Ok in Ha as (m1 & t1 & t2 & Hm1 & Hv2); [|done].
  rewrite Hv, lookup_insert_eq in Hm1. injection Hm1 as <-.
  pose proof (lg_pos _ _ L2) as P2.
  destruct (HS i ltac:(lia) ltac:(lia)) as [Hfree _]. rewrite <- Hk in Hfree.
  rewrite Hv, insert_insert_eq in Hv2. set (m' := set_activated _ _) in Hv2.
  assert (A : adds (view w) (view w')).
  { rewrite Hv2. split; [by apply insert_subseteq|]. intros k' m0. rewrite lookup_insert_Some.
    intros [[<- <-]|[_ ?]]; [right|by left]. cbn. rewrite E3. by eapply level_not_data. }
  split_and!; [done| |done| |].
  - eapply supply_later; [exact HS| | |].
    + by rewrite (lg_tape _ _ L2).
    + lia.
    + intros k'. rewrite Hv2, lookup_insert_is_Some. intros [<-|[_ ?]]; [right|by left].
      exists i. split_and!; [lia|lia|lia|done].
  - intros n' i'. rewrite lookup_insert_Some. intros [[<- <-]|[_ Hi']].
    + exists m'. split; [by rewrite Hv2, lookup_insert_eq|]. cbn. by rewrite E3.
    + by apply (resolved_mono _ _ _ _ (proj1 A) Hc).
  - exists k, m'. split; [by rewrite Hv2, lookup_insert_eq|]. cbn. by rewrite E2, E3.
Qed.

Lemma create_all_counts {E} ss c n w w' c' n' :
  create_all (E := E) ss (c, n) w = (w', Ok (c', n')) -> n <= n'.
Proof.
  revert c n w. induction ss as [|s ss IH]; intros c n w; cbn [create_all]; [by intros [= _ _ ->]|].
  intros (w1 & [c1 n1] & [Hn _]%create_one_Ok & H%IH)%bindM_Ok. lia.
Qed.

Lemma create_all_Ok {E} N opts ss c n w w' c' :
  wf_view (view w) -> supply N w -> (pos w' <= N)%nat -> Forall (planned opts) ss ->
  resolved opts (view w) c -> create_all (E := E) ss (c, n) w = (w', Ok (c', n)) ->
  wf_view (view w') /\ adds (view w) (view w') /\ resolved opts (view w') c' /\
  Forall (fun s => at_level (view w') (kc_name s) (type_of_text (kc_key_type s))) ss.
Proof.
  intros Hwf HS HN Hpl. revert c w Hwf HS. induction Hpl as [|s ss Hp _ IH]; intros c w Hwf HS Hc; cbn [create_all].
  { intros [= <- <-]. done. }
  intros (w1 & [c1 n1] & H1 & H)%bindM_Ok.
  pose proof (create_one_Ok _ _ _ _ _ _ _ H1) as [Hn1 _]. pose proof (create_all_counts _ _ _ _ _ _ _ H) as Hn2.
  assert (n1 = n) as -> by lia.
  assert (Hpos : (pos w1 <= pos w')%nat).
  { pose proof (keeps_create_all (E := E) legal ss (c1, n) w1) as L. rewrite H in L. apply L. }
  destruct (created (E := E) N opts s c n w w1 c1) as (Hwf1 & HS1 & A1 & Hc1 & L1); [done|done|lia|done..|].
  destruct (IH c1 w1 Hwf1 HS1 Hc1 H) as (Hwf2 & A2 & Hc2 & L2). split_and!; [done|by etransitivity|done|].
  constructor; [|done]. by apply (at_level_mono _ _ _ _ (proj1 A2)).
Qed.

(** ** Rewrapping *)

Lemma rewrap_migrates k p pm w w' :
  wf_view (view w) -> rewrap k (Some p) w = (w', Ok ()) -> view w !! p = Some pm ->
  wraps_children (key_type pm) = true ->
  exists m m', view w !! k = Some m /\ view w' = <[ k := m' ]> (view w) /\ key_type m' = key_type m /\
    state m' = state m /\ name m' = name m /\ Hierarchy.parent_ref m' = Some p.
Proof.
  intros Hwf (m & kv & bs & wx & wy & x & nonce & t & l1 & l2 & Hm & Hkv & C & Hx & El & Hl1 & Hv)%rewrap_Ok Hp Ht; [|done].
  apply (wrap_under_parent _ _ _ pm) in Hx as (v & s & Hcv & ->); [|by rewrite (calm_view _ _ C)|done].
  pose proof (get_version_Some _ _ _ Hkv) as [_ Hn]. eexists m, _. split; [done|]. split; [exact Hv|].
  split_and!; [done..|]. unfold Hierarchy.parent_ref, current_key_version, get_version. cbn [versions current_version set_updated set_versions].
  by rewrite (find_after_update m).
Qed.

(** The keys left to migrate are named in the list. *)
Definition only (opts : MigrationOptions) (l : list string) (v : gmap string KeyMetadata) : Prop :=
  forall k m, v !! k = Some m -> to_migrate opts m -> k ∈ l.

Definition refiled (v v' : gmap string KeyMetadata) : Prop := forall k m, v !! k = Some m ->
  exists m', v' !! k = Some m' /\ key_type m' = key_type m /\ state m' = state m /\ name m' = name m.

Lemma at_level_refiled v v' n t : refiled v v' -> at_level v n t -> at_level v' n t.
Proof. intros S (k & m & (m' & H & E1 & E2 & E3)%S & ?). exists k, m'. by rewrite E1, E2, E3. Qed.

Lemma rewrap_all_counts {E} kek ss n w w' n' : rewrap_all (E := E) kek ss n w = (w', Ok n') -> n <= n'.
Proof.
  revert n w. induction ss as [|s ss IH]; intros n w; cbn [rewrap_all]; [by intros [= _ ->]|].
  intros (w1 & n1 & [Hn _]%rewrap_one_Ok & H%IH)%bindM_Ok. lia.
Qed.

Lemma rewrap_all_Ok {E} opts kek ss n w w' :
  wf_view (view w) -> skip_already_wrapped opts = true ->
  (forall p, kek = Some p -> exists pm, view w !! p = Some pm /\ wraps_children (key_type pm) = true) ->
  only opts (kr_key_id <$> ss) (view w) -> rewrap_all (E := E) kek ss n w = (w', Ok n) ->
  wf_view (view w') /\ refiled (view w) (view w') /\ only opts [] (view w').
Proof.
  intros Hwf Hskip. revert w Hwf. induction ss as [|s ss IH]; intros w Hwf Hkek Hon; cbn [rewrap_all].
  { intros [= <-]. split_and!; [done| |done]. intros k m Hm. by exists m. }
  intros (w1 & n1 & H1 & H)%bindM_Ok. pose proof (rewrap_one_Ok _ _ _ _ _ _ H1) as [Hn1 Hr].
  pose proof (rewrap_all_counts _ _ _ _ _ _ H) as Hn2. assert (n1 = n) as -> by lia.
  destruct (Hr eq_refl) as (p & -> & Hrw). destruct (Hkek p eq_refl) as (pm & Hpm & Hw).
  pose proof (KsRoundtrip.keeps_legal _ _ _ _ Hrw) as L. pose proof (lg_keys _ _ L Hwf) as [Hwf1 _].
  destruct (rewrap_migrates _ _ _ _ _ Hwf Hrw Hpm Hw) as (m & m' & Hm & Hv & E1 & E2 & E3 & E4).
  assert (R1 : refiled (view w) (view w1)).
  { intros k m0 Hm0. rewrite Hv. destruct (decide (k = kr_key_id s)) as [->|Hne].
    - exists m'. rewrite lookup_insert_eq. rewrite Hm in Hm0. by injection Hm0 as <-.
    - exists m0. by rewrite lookup_insert_ne. }
  destruct (IH w1) as (Hwf2 & R2 & O2); [done| | |done|].
  - intros q [= <-]. destruct (R1 _ _ Hpm) as (pm' & ? & Et & _). exists pm'. by rewrite Et.
  - intros k m0. rewrite Hv, lookup_insert_Some. intros [[<- <-]|[Hne Hk]] Hmig.
    + destruct Hmig as (_ & _ & Hn). rewrite E4 in Hn. by specialize (Hn Hskip).
    + assert (Hin : k ∈ kr_key_id <$> s :: ss) by (by eapply Hon).
      rewrite fmap_cons, elem_of_cons in Hin. destruct Hin as [->|?]; [done|done].
  - split_and!; [done| |done]. intros k m0 (m1 & Hm1 & F1 & F2 & F3)%R1.
    destruct (R2 _ _ Hm1) as (m2 & ? & G1 & G2 & G3). exists m2. split_and!; congruence.
Qed.

(** ** The whole command *)

Definition complete (v : gmap string KeyMetadata) (l : list KeyMetadata) : Prop :=
  forall m, m ∈ l <-> exists k, v !! k = Some m.

Lemma list_complete e w l : wf_view (view w) -> st_list e (store w) = Ok l -> complete (view w) l.
Proof. intros Hwf Hl m. apply (list_view _ _ _ Hl). intros k m' Hm. by apply (wf_plain _ _ (Hwf _ _ Hm)). Qed.

Lemma has_level_at v l n t : complete v l -> has_level l t n = true <-> at_level v n t.
Proof.
  intros Hc. rewrite has_level_iff. split.
  - intros (m & [k Hk]%Hc & ?). by exists k, m.
  - intros (k & m & Hk & ?). exists m. split; [|done]. apply Hc. eauto.
Qed.

Definition all_levels (opts : MigrationOptions) (v : gmap string KeyMetadata) : Prop :=
  forall n t, (n, t) ∈ levels opts -> at_level v n t.

(** A plan is empty exactly when nothing is left. *)
Lemma plan_empty {E} opts v l t p :
  wf_view v -> complete v l -> plan_migration (E := E) l opts t = Ok p ->
  is_empty p = true <-> all_levels opts v /\ only opts [] v.
Proof.
  intros Hwf Hc (q & [Hq _]%plan_keys_Ok & E1)%bind_Ok. injection E1 as <-. unfold is_empty. cbn.
  assert (H1 : length (plan_create l opts) = 0%nat <-> all_levels opts v).
  { split.
    - intros Hn n lt Hin. apply (has_level_at v l); [done|]. destruct (has_level l lt n) eqn:Eh; [done|].
      apply (created_iff _ _ _ _ Hin) in Eh as (c & Hcr & _). apply length_zero_iff_nil in Hn. rewrite Hn in Hcr.
      by apply elem_of_nil in Hcr.
    - intros Ha. unfold plan_create. rewrite !(proj2 (has_level_at v l _ _ Hc)); [done|apply Ha..];
        unfold levels; set_solver. }
  assert (H2 : length q.1 = 0%nat <-> only opts [] v).
  { rewrite <- (length_fmap kr_key_id), Hq, length_fmap. split.
    - intros Hn k m Hk Hm. apply length_zero_iff_nil in Hn. assert (Hin : m ∈ filter (to_migrate opts) l).
      { apply list_elem_of_filter. split; [done|]. apply Hc. eauto. }
      rewrite Hn in Hin. by apply elem_of_nil in Hin.
    - intros Ho. destruct (filter (to_migrate opts) l) as [|m r] eqn:Ef; [done|].
      assert (Hin : m ∈ filter (to_migrate opts) l) by (rewrite Ef; apply list_elem_of_here).
      apply list_elem_of_filter in Hin as [Hm [k Hk]%Hc]. specialize (Ho k m Hk Hm). by apply elem_of_nil in Ho. }
  rewrite andb_true_iff, !bool_decide_eq_true. by rewrite H1, H2.
Qed.

Lemma list_or_default_Ok {E} w w' l :
  list_or_default (E := E) w = (w', Ok l) -> wf_view (view w) ->
  is_ok (st_list (rd_st (tape w (pos w))) (store w)) = true ->
  calm w w' /\ complete (view w) l.
Proof.
  intros H Hwf Hok. pose proof (keeps_list_or_default (E := E) calm (fun _ _ C => C) w) as C.
  rewrite H in C. split; [done|].
  unfold list_or_default in H. apply bindM_Ok in H as (w1 & r & Hr%attempt_Ok & H).
  unfold storage_list, st_query in Hr. injection Hr as _ Hr. unfold reading in Hr.
  destruct (st_list _ (store w)) as [l0|e] eqn:El; [|done].
  destruct r as [l1|]; [|done]. injection Hr as ->. injection H as _ <-. by eapply list_complete.
Qed.

Lemma resolve_existing_ok opts v l c x :
  complete v l -> wf_view v -> x ∈ levels opts -> resolved opts v c -> resolved opts v (resolve_existing l c x).
Proof.
  intros Hc Hwf Hx Hr. unfold resolve_existing. destruct (List.find _ l) as [m|] eqn:Ef; [|done].
  apply find_some in Ef as [Hin Hl]. unfold is_level in Hl. bool_hyps.
  apply list_elem_of_In, Hc in Hin as [k Hk]. pose proof (wf_id _ _ (Hwf _ _ Hk)) as Hid.
  intros n i. rewrite lookup_insert_Some. intros [[<- <-]|[_ Hi]]; [|by apply Hr].
  exists m. rewrite Hid. split; [done|]. destruct x as [a b]; cbn in *. by subst.
Qed.

(** What the execution of a plan of the current keys achieves, if it counts no error. *)
Lemma execute_settles {E} N opts keys t0 plan w w' :
  wf_view (view w) -> supply N w -> (pos w' <= N)%nat -> root_name opts <> kek_name opts ->
  skip_already_wrapped opts = true ->
  is_ok (st_list (rd_st (tape w (pos w))) (store w)) = true ->
  complete (view w) keys -> plan_migration (E := E) keys opts t0 = Ok plan ->
  execute_plan (E := E) plan opts w = (w', Ok 0) ->
  wf_view (view w') /\ all_levels opts (view w') /\ only opts [] (view w').
Proof.
  intros Hwf HS HN Hne Hskip Hok Hc (q & [Hq _]%plan_keys_Ok & E1)%bind_Ok. injection E1 as <-.
  unfold execute_plan. cbn [keys_to_create keys_to_rewrap].
  intros (w1 & all & Hall & (w2 & [c n] & Hcr & (w3 & n3 & Hrw & Hx)%bindM_Ok)%bindM_Ok)%bindM_Ok.
  apply list_or_default_Ok in Hall as [C1 Hall]; [|done..]. injection Hx as <- Hx.
  pose proof (create_all_counts _ _ _ _ _ _ _ Hcr) as Hn. cbn [snd fst] in Hrw.
  pose proof (rewrap_all_counts _ _ _ _ _ _ Hrw) as Hn3.
  assert (n3 = 0) as -> by (destruct (0 <? n3) eqn:Hb; [done|]; bool_hyps; lia).
  assert (n = 0) as -> by lia.
  pose proof (calm_view _ _ C1) as V1. pose proof (calm_legal _ _ C1) as L1.
  assert (P3 : (pos w2 <= pos w3)%nat).
  { pose proof (keeps_rewrap_all (E := E) legal (c !! kek_name opts) q.1 0 w2) as L. rewrite Hrw in L. apply L. }
  assert (Hwf1 : wf_view (view w1)) by (by rewrite V1).
  destruct (create_all_Ok (E := E) N opts (plan_create keys opts)
    (foldl (resolve_existing all) ∅ (levels opts)) 0 w1 w2 c) as (Hwf2 & A2 & Hc2 & Hl2);
    [done| |lia| | |done|].
  - eapply supply_later; [exact HS|apply C1|apply C1|]. intros k. rewrite V1. by left.
  - apply Forall_forall. intros s Hs. unfold planned, levels. unfold plan_create in Hs.
    rewrite !elem_of_app in Hs. rewrite !elem_of_cons.
    destruct Hs as [Hs|[Hs|Hs]]; destruct (has_level _ _ _); cbn [negb] in Hs;
      try (by apply elem_of_nil in Hs); apply list_elem_of_singleton in Hs as ->; vm_compute type_of_text; auto.
  - rewrite V1. rewrite V1 in *. unfold levels. cbn [foldl].
    repeat (apply resolve_existing_ok; [done|done|unfold levels; set_solver|]). by intros ??.
  - destruct (rewrap_all_Ok (E := E) opts (c !! kek_name opts) q.1 0 w2 w3) as (Hwf3 & R3 & O3);
      [done|done| | |done|].
    + intros p (pm & Hpm & Hin)%Hc2. exists pm. split; [done|]. unfold levels in Hin. rewrite !elem_of_cons in Hin.
      destruct Hin as [[= ? ?]|[[= _ ->]|[[= ->]|Hin]]]; [congruence|done..|by apply elem_of_nil in Hin].
    + intros k m Hk Hm. destruct (proj2 A2 k m Hk) as [Hk1|Hnd]; [|by destruct Hm].
      rewrite V1 in Hk1. rewrite Hq, <- (wf_id _ _ (Hwf _ _ Hk1)). apply list_elem_of_fmap_2.
      apply list_elem_of_filter. split; [done|]. apply Hc. eauto.
    + split_and!; [done| |done]. intros m t Hin. apply (at_level_refiled (view w2)); [done|].
      destruct (has_level keys t m) eqn:Eh.
      * apply (at_level_mono (view w1)); [apply A2|]. rewrite V1. by apply (has_level_at _ keys).
      * apply (created_iff _ _ _ _ Hin) in Eh as (s & Hs & <- & <-).
        by apply (proj1 (Forall_forall _ _) Hl2).
Qed.

(** C14: A migration that reports success is complete: where listings succeed and the
    names of the root and of the key-encrypting key differ, a plan made afterwards, from
    any listing of the resulting store and at any time, finds nothing left to create or
    to rewrap. *)
Theorem migration_settles {E} N opened root domain kek w w' :
  wf_view (view w) -> supply N w -> (pos w' <= N)%nat -> root <> kek ->
  (forall i s, is_ok (st_list (rd_st (tape w i)) s) = true) ->
  cmd_hierarchy (E := E) opened false true root domain kek w = (w', Ok 0) ->
  forall e l t p, st_list e (store w') = Ok l ->
    plan_migration (E := E) l (mkOptions root domain kek true true) t = Ok p -> is_empty p = true.
Proof.
  intros Hwf HS HN Hne Hok H e l t p Hl Hp. unfold cmd_hierarchy in H. cbn [negb andb] in H.
  destruct opened as [[]|]; [|by injection H].
  apply bindM_Ok in H as (w1 & keys & Hk & H). apply list_or_default_Ok in Hk as [C1 Hc]; [|done..].
  apply bindM_Ok in H as (w2 & t0 & Ht & H). apply keeps_Ok in Ht; [|apply _].
  apply bindM_Ok in H as (w3 & plan & [-> Hpl]%lift_Ok & H).
  assert (C2 : calm w w2) by (by transitivity w1). pose proof (calm_view _ _ C2) as V2.
  assert (Hfin : wf_view (view w') /\ all_levels (mkOptions root domain kek true true) (view w') /\
                 only (mkOptions root domain kek true true) [] (view w')).
  { destruct (is_empty plan) eqn:Ee.
    - injection H as <-. rewrite V2. split; [done|]. by apply (plan_empty _ _ _ _ _ Hwf Hc Hpl).
    - eapply (execute_settles N _ keys t0 plan w2); rewrite ?V2; try done.
      + eapply supply_later; [exact HS|apply C2|apply C2|]. intros k. rewrite V2. by left.
      + rewrite (calm_tape _ _ C2). apply Hok. }
  destruct Hfin as [Hwf' Hfin]. by apply (plan_empty _ _ _ _ _ Hwf' (list_complete _ _ _ Hwf' Hl) Hp).
Qed.

(** The migration does not last: it rewraps a key without giving it a parent, so
    whatever was done to a key without parent before, its next rotation leaves a current
    version wrapped by no parent key, and a data key is due for migration again. *)
Theorem rotation_undoes_migration cs w k m w' k' :
  wf_view (view w) -> fresh_ids w -> view w !! k = Some m -> parent_id m = None ->
  (forall m1, view (run cs w) !! k = Some m1 -> Z.of_nat (length (versions m1)) < 2 ^ 32 - 1) ->
  rotate k (run cs w) = (w', Ok k') ->
  exists m', view w' !! k = Some m' /\ Hierarchy.parent_ref m' = None /\
    (key_type m = DataEncrypting -> to_migrate default_options m').
Proof.
  intros Hwf Hf Hm Hp Hlen Hr. pose proof (lg_keys _ _ (run_legal cs w Hwf) Hwf) as [Hwf1 _].
  apply rotate_Ok in Hr as (m1 & pk & sk & x & wx & wy & nonce & t & Hm1 & _ & C & Hx & Hv); [|done].
  pose proof (run_evolves cs w k m m1 Hwf Hf Hm Hm1) as Hev. rewrite (ev_parent _ _ Hev), Hp in Hx.
  apply wrap_Ok in Hx as [_ [(q & ? & ? & ? & [=] & _)|(_ & _ & Hx & _)]].
  set (m' := set_updated _ _) in Hv. exists m'.
  assert (Hcur : Hierarchy.parent_ref m' = None).
  { pose proof (KsKeep.next_number _ _ (Hwf1 _ _ Hm1) (Hlen _ Hm1)) as Hn.
    unfold Hierarchy.parent_ref, current_key_version, get_version.
    change (versions m') with (versions m1 ++ [new_version (current_version m') t pk x nonce]).
    rewrite (find_after_update m' (versions m1) (new_version (current_version m') t pk x nonce) [] (fun v => v));
      [done| |done|done].
    apply Forall_forall. intros v Hv0 E. apply Hn, list_elem_of_fmap. by exists v. }
  split_and!; [by rewrite Hv, lookup_insert_eq|done|]. intros Ht. split_and!; [|by left|done].
  change (key_type m1 = DataEncrypting). by rewrite (ev_type _ _ Hev).
Qed.
End laws.
End MigrationLaws.
