(* ===== verification/ApiLaws.v ===== *)
(** * What the server can do to the keystore

    Every request runs commands of the keystore only; the scope of an API key
    bounds which of its routes can change anything; a scoped key stays inside
    its domains; failed decryptions look alike. *)

From S2P Require Import Prelude.
From S2P Require Import Text.
From S2P Require Import F64.
From S2P Require Import Types.
From S2P Require Import Hierarchy.
From S2P Require Import Enforcer.
From S2P Require Import Policy.
From S2P Require Import AuditLog.
From S2P Require Import Threat.
From S2P Require Import Storage.
From S2P Require Import Signer.
From S2P Require Import KeystoreBase.
From S2P Require Import KeystoreWrap.
From S2P Require Import Keystore.
From S2P Require Import KeystoreCrypto.
From S2P Require Import KeystoreSign.
From S2P Require Import KeystoreFrame.
From S2P Require Import KeystoreLaws.
From S2P Require Import KeystoreRuns.
From S2P Require Import KeystoreGates.
From S2P Require Import ApiBase.
From S2P Require Import ApiKeys.
From S2P Require Import ApiLimit.
From S2P Require Import Api.
From S2P Require Import ApiServer.
Import Types.

Module ApiLaws.
Import Keystore KsCrypto KsSign KsLaws KsRuns KsGates ApiBase Api ApiServer.

Section traced.
Context {PF : Platform} {J : Json} {SJ : ApiKeys.StoreJson} (timestamp_opt : Z -> option Z).

(** ** Commands behind the handlers *)

(** The second world is reached by commands of the keystore. *)
Definition traced (w w' : World) : Prop := exists cs, w' = run cs w.

#[local] Instance traced_preorder : PreOrder traced.
Proof.
  split.
  - intros w. by exists [].
  - intros w1 w2 w3 [c1 ->] [c2 ->]. exists (c1 ++ c2). by rewrite run_commands_app.
Qed.

Lemma traced_exec c w w' : w' = exec c w -> traced w w'.
Proof. intros ->. by exists [c]. Qed.

#[local] Instance traced_tick {E} : Keeps (E := E) traced tick.
Proof. intros w. by apply (traced_exec CmdRead). Qed.
#[local] Instance traced_now {E} : Keeps (E := E) traced now.
Proof. unfold now. apply _. Qed.
#[local] Instance traced_fill {E} n : Keeps (E := E) traced (fill_bytes n).
Proof. unfold fill_bytes. apply _. Qed.
#[local] Instance traced_query {A} f : Keeps (A := A) traced (st_query f).
Proof. intros w. by apply (traced_exec CmdRead). Qed.
#[local] Instance traced_get k : Keeps traced (get k).
Proof. unfold get, storage_get. apply _. Qed.
#[local] Instance traced_list : Keeps traced list_keys.
Proof. unfold list_keys, storage_list. apply _. Qed.
#[local] Instance traced_draw {E} : Keeps (E := E) traced draw.
Proof. unfold draw. apply _. Qed.

(** The errors have any type: the command is the same at each. *)
Ltac one_command c :=
  intros w; apply (traced_exec c); cbn [exec];
  unfold current_threat_level, record_threat_event, reset_threat_state, record_audit_event, record_system, record, now, tick,
    with_threat; cbv [mbind M_bind mret M_ret modify]; by repeat case_match.

#[local] Instance traced_level {E} : Keeps (E := E) traced current_threat_level.
Proof. one_command CmdThreatLevel. Qed.
#[local] Instance traced_audit {E} a : Keeps (E := E) traced (record_audit_event a).
Proof. one_command (CmdAudit a). Qed.
#[local] Instance traced_event {E} kd sev d : Keeps (E := E) traced (record_threat_event (event_of kd sev d)).
Proof. one_command (CmdThreatEvent kd sev d). Qed.
#[local] Instance traced_reset {E} : Keeps (E := E) traced reset_threat_state.
Proof. one_command CmdResetThreat. Qed.

(** Looking at the assessor. *)
#[local] Instance traced_look {E A} (f : Threat.ThreatAssessor -> A) :
  Keeps (E := E) traced (with_threat (fun a => Some (a, [], f a))).
Proof.
  intros w. exists []. unfold with_threat. cbn. destruct (threat w) as [a|] eqn:Et; [|done]. destruct w. cbn in *. subst.
  unfold set_trail, set_threat. cbn. by rewrite app_nil_r.
Qed.
#[local] Instance traced_score {E} : Keeps (E := E) traced threat_score.
Proof. unfold threat_score. apply _. Qed.
#[local] Instance traced_history {E} : Keeps (E := E) traced threat_history.
Proof. unfold threat_history. apply _. Qed.
#[local] Instance traced_summary {E} p : Keeps (E := E) traced (policy_adaptation_summary p).
Proof. unfold policy_adaptation_summary. apply _. Qed.

(** Not unfolded when commands are compared. *)
#[local] Opaque resolve_domain_for_key.

#[local] Instance traced_resolve k : Keeps traced (resolve_domain_for_key k).
Proof. intros w. by apply (traced_exec (CmdResolveDomain k)). Qed.
#[local] Instance traced_generate n t p par : Keeps traced (generate n t p par).
Proof. intros w. by apply (traced_exec (CmdGenerate n t p par)). Qed.
#[local] Instance traced_signing n p par : Keeps traced (generate_signing_key n p par).
Proof. intros w. by apply (traced_exec (CmdGenerateSigning n p par)). Qed.
#[local] Instance traced_activate k : Keeps traced (activate k).
Proof. intros w. by apply (traced_exec (CmdActivate k)). Qed.
#[local] Instance traced_rotate k : Keeps traced (rotate k).
Proof. intros w. by apply (traced_exec (CmdRotate k)). Qed.
#[local] Instance traced_revoke k r : Keeps traced (revoke k r).
Proof. intros w. by apply (traced_exec (CmdRevoke k r)). Qed.
#[local] Instance traced_destroy k : Keeps traced (destroy k).
Proof. intros w. by apply (traced_exec (CmdDestroy k)). Qed.
#[local] Instance traced_encrypt a pt aad ctx : Keeps traced (encrypt_authorized a pt aad ctx).
Proof. intros w. by apply (traced_exec (CmdEncryptAuthorized a pt aad ctx)). Qed.
#[local] Instance traced_decrypt a b aad ctx : Keeps traced (decrypt_authorized a b aad ctx).
Proof. intros w. by apply (traced_exec (CmdDecryptAuthorized a b aad ctx)). Qed.
#[local] Instance traced_sign a m : Keeps traced (sign_authorized a m).
Proof. intros w. by apply (traced_exec (CmdSignAuthorized a m)). Qed.
#[local] Instance traced_verify k m p : Keeps traced (verify_signature k m p).
Proof. intros w. by apply (traced_exec (CmdVerify k m p)). Qed.
#[local] Instance traced_metrics : Keeps traced security_metrics.
Proof. intros w. by apply (traced_exec CmdSecurityMetrics). Qed.
#[local] Instance traced_expire : Keeps traced expire_due_keys.
Proof. intros w. by apply (traced_exec CmdExpireDue). Qed.

(** The server's calls on the shared enforcer. *)
Lemma traced_enforcer {E A} (f : Enforcer.StateEnforcer -> Enforcer.StateEnforcer * A) c :
  (forall s, (f s).1 = (Enforcer.exec s c).1) -> Keeps (E := E) traced (with_enforcer f).
Proof.
  intros Hf w. destruct (enforcer w) as [s|] eqn:Es.
  - apply (traced_exec (CmdEnforcer c)). specialize (Hf s). cbn [exec]. unfold with_enforcer, enforcer_call, asks.
    cbv [mbind M_bind]. rewrite Es. destruct (f s), (Enforcer.exec s c). cbn in *. by subst.
  - exists []. unfold with_enforcer, asks. cbv [mbind M_bind]. by rewrite Es.
Qed.

#[local] Instance traced_register {E} k d : Keeps (E := E) traced (register_key k d).
Proof. by apply (traced_enforcer _ (Enforcer.CRegister k d)). Qed.
#[local] Instance traced_enforcer_revoke {E} k : Keeps (E := E) traced (enforcer_revoke k).
Proof. by apply (traced_enforcer _ (Enforcer.CRevoke k)). Qed.

Lemma traced_authorizing f on_deny (c : Enforcer.Draw -> Enforcer.call) :
  (forall s d, (f s d).1 = (Enforcer.exec s (c d)).1) -> Keeps traced (authorizing f on_deny).
Proof.
  intros Hf. unfold authorizing. apply keeps_bind; [apply _..|]. intros d.
  apply keeps_bind; [apply _| |intros []; apply _]. by apply (traced_enforcer _ (c d)).
Qed.

(** ** The handlers *)

Ltac authorizing_by c := apply (traced_authorizing _ _ c); by intros s d.

#[local] Instance traced_domain_access auth op k : Keeps traced (authorize_domain_access auth op k).
Proof. unfold authorize_domain_access. keeps_walk. Qed.
#[local] Instance traced_domain_or_none {E} k : Keeps (E := E) traced (domain_or_none k).
Proof. unfold domain_or_none. keeps_walk. Qed.
#[local] Instance traced_readable auth k : Keeps traced (lookup_readable_key_or_deny auth k).
Proof. unfold lookup_readable_key_or_deny. keeps_walk. Qed.
#[local] Instance traced_global auth : Keeps traced (global_only auth).
Proof. unfold global_only. apply _. Qed.
#[local] Instance traced_filter {E} auth l : Keeps (E := E) traced (filter_keys auth l).
Proof. induction l as [|m l IH]; cbn [filter_keys]; keeps_walk. Qed.
#[local] Instance traced_as_err {A} (m : M KeystoreError A) : Keeps traced m -> Keeps traced (as_err m).
Proof. unfold as_err. apply _. Qed.
#[local] Instance traced_as_err500 {A} (m : M KeystoreError A) : Keeps traced m -> Keeps traced (as_err500 m).
Proof. unfold as_err500. apply _. Qed.
#[local] Instance traced_payload h : Keeps traced (decode_payload h).
Proof. unfold decode_payload. apply _. Qed.
#[local] Instance traced_verifying_key v : Keeps traced (decode_verifying_key v).
Proof. unfold decode_verifying_key. apply _. Qed.
#[local] Instance traced_api k dom e m : Keeps traced (authorizing (fun s d => Enforcer.authorize_api_request s d k dom e m) enforcer_denied).
Proof. authorizing_by (fun d => Enforcer.CApi d k dom e m). Qed.
#[local] Instance traced_rotation k k' dom : Keeps traced (authorizing (fun s d => Enforcer.authorize_key_rotation s d k k' dom) enforcer_denied).
Proof. authorizing_by (fun d => Enforcer.CRotate d k k' dom). Qed.
#[local] Instance traced_auth_encrypt k dom : Keeps traced (authorizing (fun s d => Enforcer.authorize_encrypt s d k dom None) enforcer_denied).
Proof. authorizing_by (fun d => Enforcer.CEncrypt d k dom None). Qed.
#[local] Instance traced_auth_decrypt k dom f : Keeps traced (authorizing (fun s d => Enforcer.authorize_decrypt s d k dom) f).
Proof. authorizing_by (fun d => Enforcer.CDecrypt d k dom). Qed.
#[local] Instance traced_auth_sign k dom m : Keeps traced (authorizing (fun s d => Enforcer.authorize_sign s d k dom m) enforcer_denied).
Proof. authorizing_by (fun d => Enforcer.CSign d k dom m). Qed.

Lemma run_handler_traced m a : Keeps traced m -> traced (ks a) (ks (run_handler m a).1).
Proof. intros H. specialize (H (ks a)). unfold run_handler. by destruct (m (ks a)). Qed.

Lemma handle_traced e auth r a : traced (ks a) (ks (handle timestamp_opt e auth r a).1).
Proof.
  destruct r; cbn [handle]; try reflexivity;
    try (destruct (ApiKeys.create_api_key _ _ _ _ _ _ _); reflexivity);
    try (destruct (ApiKeys.revoke_api_key _ _ _ _ _); reflexivity);
    apply run_handler_traced.
  all: unfold get_status, get_metrics, list_keys_handler, generate_key, Api.get_key, activate_key, rotate_key, revoke_key,
    destroy_key, encrypt_data, decrypt_data, sign_data, verify_signature_handler, issue_assertion, verify_assertion,
    get_verifying_key, get_threat, post_threat_event, reset_threat, threat_done, get_policies, expire_due; keeps_walk.
Qed.

Lemma effect_traced m resp a : Keeps traced m -> traced (ks a) (ks (effect m resp a).1).
Proof. intros H. apply run_handler_traced. apply _. Qed.

Lemma auth_middleware_traced e q a : traced (ks a) (ks (auth_middleware timestamp_opt e q a).1).
Proof.
  unfold auth_middleware. repeat case_match; try reflexivity.
  - etransitivity; [|apply handle_traced]. reflexivity.
  - apply effect_traced. unfold auth_failure. apply keeps_bind; [apply _| |intros; apply _].
    exact (traced_event Threat.AuthFailure (F64.lit 5 10) (Some ("invalid API key from " +:+ remote q)%string)).
Qed.

Lemma step_traced s a : traced (ks a) (ks (step timestamp_opt s a).1).
Proof.
  destruct s as [e q|t]; cbn [step].
  - unfold rate_limit_middleware. case_match; [apply auth_middleware_traced|]. destruct (ApiLimit.check _ _ _ _) as [l ok].
    case_match; [|apply (auth_middleware_traced e q (set_limiter l a))].
    apply (effect_traced _ _ (set_limiter l a)).
    exact (traced_event Threat.RapidAccessPattern (F64.lit 3 10) (Some ("rate limit exceeded: " +:+ remote q)%string)).
  - apply traced_expire.
Qed.

(** ** Requests behind the handlers *)

Definition keyed (c c' : ApiKeys.Control) : Prop := exists rs, c' = ApiKeys.run rs c.

#[local] Instance keyed_preorder : PreOrder keyed.
Proof.
  split.
  - intros c. by exists [].
  - intros c1 c2 c3 [r1 ->] [r2 ->]. exists (r1 ++ r2). unfold ApiKeys.run. by rewrite foldl_app.
Qed.

Lemma run_handler_control m a : control (run_handler m a).1 = control a.
Proof. unfold run_handler. by destruct (m (ks a)). Qed.

Lemma handle_keyed e auth r a : keyed (control a) (control (handle timestamp_opt e auth r a).1).
Proof.
  destruct r; cbn [handle].
  all: lazymatch goal with
       | |- keyed _ (control (run_handler _ _).1) => rewrite run_handler_control; reflexivity
       | |- keyed _ (control (_, _).1) => reflexivity
       | |- _ => idtac
       end.
  - exists [ApiKeys.RCreate (hash_api_key e) (minted e) (saving e) (api_keys_path a) auth req]. cbn.
    by destruct (ApiKeys.create_api_key _ _ _ _ _ _ _).
  - exists [ApiKeys.RRevoke (saving e) (api_keys_path a) auth id0]. cbn. by destruct (ApiKeys.revoke_api_key _ _ _ _ _).
Qed.

Lemma effect_control m resp a : control (effect m resp a).1 = control a.
Proof. apply run_handler_control. Qed.

Lemma auth_keyed e q a : keyed (control a) (control (auth_middleware timestamp_opt e q a).1).
Proof.
  unfold auth_middleware. repeat case_match; rewrite ?effect_control; try reflexivity.
  etransitivity; [|apply handle_keyed]. cbn. eexists [ApiKeys.RTouch _ _ _ _]. reflexivity.
Qed.

Lemma step_keyed s a : keyed (control a) (control (step timestamp_opt s a).1).
Proof.
  destruct s as [e q|t]; cbn [step]; [|reflexivity]. unfold rate_limit_middleware. case_match; [apply auth_keyed|].
  destruct (ApiLimit.check _ _ _ _) as [l ok]. case_match; [by rewrite effect_control|apply (auth_keyed e q (set_limiter l a))].
Qed.

Context {PL : PlatformLaws PF}.

(** C8: the server refines the keystore and the store of API keys: whatever requests
    arrive, in any order and from any caller, and however its background tasks run, what
    they do to the keystore is a run of the keystore's commands, and what they do to the
    API keys is a run of creations, revocations and marks of use. So a stored key that
    is still there has only evolved (same identity, parent and policy, a state reached
    by valid transitions), and one that was destroyed stays destroyed, with no key
    material. *)
Theorem server_refines_keystore l a :
  (exists cs, ks (steps timestamp_opt l a) = run cs (ks a)) /\
  (exists rs, control (steps timestamp_opt l a) = ApiKeys.run rs (control a)) /\
  (wf_view (view (ks a)) -> wf_view (view (ks (steps timestamp_opt l a))) /\
   (fresh_ids (ks a) -> forall k m m', view (ks a) !! k = Some m -> view (ks (steps timestamp_opt l a)) !! k = Some m' ->
     evolves m m' /\
     (state m = Destroyed -> state m' = Destroyed /\ Forall (fun v => secret_key_material v = Purged) (versions m')))).
Proof.
  assert (T : traced (ks a) (ks (steps timestamp_opt l a)) /\ keyed (control a) (control (steps timestamp_opt l a))).
  { revert a. induction l as [|s l IH]; intros a; [by split|]. cbn [steps]. destruct (IH (step timestamp_opt s a).1).
    split; (etransitivity; [|done]); [apply step_traced|apply step_keyed]. }
  destruct T as [[cs E] Hc]. split; [by exists cs|]. split; [done|]. intros Hwf. rewrite E.
  pose proof (proj1 (lg_keys _ _ (run_legal cs _ Hwf) Hwf)) as Hwf'. split; [done|]. intros Hf k m m' Hm Hm'.
  pose proof (run_evolves cs _ _ _ _ Hwf Hf Hm Hm') as He. split; [done|]. intros Hd.
  apply (destroyed_stays _ _ _ (Hwf' _ _ Hm') He Hd).
Qed.
End traced.
End ApiLaws.
