(* ===== verification/ApiAccess.v ===== *)
(** * Access control of the server

    The scope that each route demands, what a request without it can change, the
    domains of a scoped API key, and the answers of the decryption route. *)

From S2P Require Import Prelude.
From S2P Require Import Text.
From S2P Require Import F64.
From S2P Require Import Types.
From S2P Require Import Hierarchy.
From S2P Require Import Enforcer.
From S2P Require Import Policy.
From S2P Require Import AuditLog.
From S2P Require Import Threat.
From S2P Require Import Storage.
From S2P Require Import Signer.
From S2P Require Import KeystoreBase.
From S2P Require Import KeystoreWrap.
From S2P Require Import Keystore.
From S2P Require Import KeystoreCrypto.
From S2P Require Import KeystoreSign.
From S2P Require Import KeystoreFrame.
From S2P Require Import KeystoreLaws.
From S2P Require Import KeystoreRuns.
From S2P Require Import KeystoreGates.
From S2P Require Import ApiBase.
From S2P Require Import ApiKeys.
From S2P Require Import ApiLimit.
From S2P Require Import Api.
From S2P Require Import ApiServer.
From S2P Require Import ApiStart.
Import Types.

Module ApiAccess.
Import Keystore KsCrypto KsSign KsLaws KsRuns KsGates ApiBase Api ApiServer.

(** ** Ends of paths *)

(** The two texts agree as far as the shorter one goes. *)
Fixpoint agree (l1 l2 : list Ascii.ascii) : bool :=
  match l1, l2 with a :: l1, b :: l2 => Ascii.eqb a b && agree l1 l2 | _, _ => true end.

Lemma agree_app l1 r1 l2 r2 : l1 ++ r1 = l2 ++ r2 -> agree l1 l2 = true.
Proof.
  revert l2. induction l1 as [|a l1 IH]; intros [|b l2]; cbn; try done. intros [= -> H].
  by rewrite Ascii.eqb_refl, (IH _ H).
Qed.

Definition letters (s : string) : list Ascii.ascii := reverse (String.list_ascii_of_string s).

Lemma letters_app p s : letters (p +:+ s) = letters s ++ letters p.
Proof.
  unfold letters. rewrite <- reverse_app. f_equal. induction p as [|c p IH]; [done|]. rewrite append_cons. cbn. by rewrite IH.
Qed.

Lemma str_drop_split n s : exists p, s = p +:+ str_drop n s.
Proof.
  revert s. induction n as [|n IH]; intros s; [by exists ""%string|]. destruct s as [|c s]; [by exists ""%string|].
  destruct (IH s) as [p Hp]. exists (String.String c p). cbn. rewrite append_cons. by rewrite <- Hp.
Qed.

Lemma ends_apart p s x : agree (letters s) (letters x) = false -> Text.ends_with (p +:+ s) x = false.
Proof.
  intros Ha. apply not_true_iff_false. unfold Text.ends_with. intros [_ H]%andb_true_iff. apply bool_decide_eq_true in H.
  destruct (str_drop_split (String.length (p +:+ s) - String.length x) (p +:+ s)) as [r Hr]. rewrite H in Hr.
  apply (f_equal letters) in Hr. rewrite !letters_app in Hr. apply agree_app in Hr. congruence.
Qed.

Lemma length_append p s : String.length (p +:+ s) = (String.length p + String.length s)%nat.
Proof. induction p as [|c p IH]; [done|]. rewrite append_cons. cbn. by rewrite IH. Qed.
Lemma ends_same p s : Text.ends_with (p +:+ s) s = true.
Proof.
  unfold Text.ends_with. rewrite length_append. apply andb_true_iff. split; [apply Nat.leb_le; lia|]. apply bool_decide_eq_true.
  replace (_ - _)%nat with (String.length p) by lia. apply str_drop_app.
Qed.

(** ** The scope of each route *)

Section access.
Context {PF : Platform} {J : Json} {SJ : ApiKeys.StoreJson} (timestamp_opt : Z -> option Z).

Definition needs (r : Route) : option Scope :=
  match r with
  | RDashboard | RHealth => None
  | RListApiKeys | RCreateApiKey _ | RRevokeApiKey _ => Some Admin
  | REncrypt _ _ | RDecrypt _ | RSign _ _ | RIssue _ => Some Encrypt
  | RGenerate _ | RActivate _ | RRotate _ | RRevoke _ _ | RDestroy _ | RThreatEvent _ | RThreatReset | RExpire => Some Manage
  | _ => Some Read
  end.

(** A path below [/api/keys/] is none of the fixed ones. *)
Lemma keys_scope seg action method :
  required_scope (key_path seg action) method =
  if Text.ends_with (key_path seg action) "/encrypt" || Text.ends_with (key_path seg action) "/sign" then Some Encrypt
  else if Text.ends_with (key_path seg action) "/verifying-key" then Some Read
  else if bool_decide (method = "POST"%string \/ method = "DELETE"%string) then Some Manage else Some Read.
Proof.
  unfold required_scope. rewrite !(bool_decide_false (key_path _ _ = _)) by done.
  rewrite (bool_decide_false (_ \/ _)) by (by intros []). change (str_starts_with (key_path seg action) "/api/auth/") with false.
  rewrite !orb_false_r, !orb_false_l. by destruct (Text.ends_with _ "/encrypt"), (Text.ends_with _ "/sign").
Qed.

Lemma key_path_app seg action : key_path seg action = ("/api/keys/" +:+ seg) +:+ action.
Proof. done. Qed.

(** The scope that the middleware demands is that of the route; a key whose
    identifier is [encrypt] or [sign] could be read with [Encrypt] only. *)
Lemma required_scope_route seg r :
  required_scope (path_of seg r) (method_of r) = needs r \/
  (exists id, r = RGetKey id) /\ required_scope (path_of seg r) (method_of r) = Some Encrypt.
Proof.
  destruct r; cbn [path_of method_of needs]; try (left; vm_compute; reflexivity).
  all: try (rewrite keys_scope, !key_path_app; left;
            rewrite ?ends_same, ?(ends_apart _ _ "/encrypt"), ?(ends_apart _ _ "/sign"), ?(ends_apart _ _ "/verifying-key") by reflexivity;
            reflexivity).
  rewrite keys_scope. destruct (Text.ends_with _ "/encrypt" || Text.ends_with _ "/sign"); [right; by split; [eexists|]|].
  left. by destruct (Text.ends_with _ "/verifying-key").
Qed.

(** ** Routes that only read *)

(** What the assessor has been told; its level and the history of levels follow
    from that and from the clock. *)
Record same_signals (a a' : Threat.ThreatAssessor) : Prop := mkSame {
  ss_config : Threat.config a' = Threat.config a;
  ss_events : Threat.events a' = Threat.events a;
  ss_override : Threat.manual_override a' = Threat.manual_override a;
  ss_audit : Threat.has_audit a' = Threat.has_audit a;
}.
#[local] Instance same_signals_preorder : PreOrder same_signals.
Proof. split; [done|]. intros a b c [] []. split; congruence. Qed.

(** What a reader may change: entries are added to the audit trail, and the
    threat level is brought up to date; the events and the override stay. *)
Record looked (w w' : World) : Prop := mkLooked {
  lk_calm : calm w w';
  lk_trail : exists l, trail w' = trail w ++ l;
  lk_threat : option_relation same_signals (fun _ => False) (fun _ => False) (threat w) (threat w');
}.

#[local] Instance looked_preorder : PreOrder looked.
Proof.
  split.
  - intros w. split; [reflexivity|exists []; by rewrite app_nil_r|]. by destruct (threat w); cbn.
  - intros w1 w2 w3 [C1 [l1 L1] T1] [C2 [l2 L2] T2]. split.
    + by etransitivity.
    + exists (l1 ++ l2). by rewrite L2, L1, app_assoc.
    + destruct (threat w1), (threat w2), (threat w3); try done. cbn in *. by etransitivity.
Qed.

#[local] Instance calm_of_looked {E A} (m : M E A) : Keeps looked m -> Keeps calm m | 20.
Proof. apply keeps_weaken. by intros w w' []. Qed.

Lemma looked_same w w' : calm w w' -> threat w' = threat w -> (exists l, trail w' = trail w ++ l) -> looked w w'.
Proof. intros C Ht Hl. split; [done..|]. rewrite Ht. by destruct (threat w); cbn. Qed.

Lemma looked_threat {E A} f :
  (forall a, exists a' evs (x : A), f a = Some (a', evs, x) /\ same_signals a a') -> Keeps (E := E) looked (with_threat f).
Proof.
  intros H w. pose proof (calm_with_threat (E := E) f w) as C. unfold with_threat in *.
  destruct (threat w) as [a|] eqn:Ea; [|reflexivity]. destruct (H a) as (a' & evs & x & Hf & Hs). rewrite Hf in *.
  split; cbn in *; [done|by eexists|by rewrite Ea].
Qed.

#[local] Instance looked_tick {E} : Keeps (E := E) looked tick.
Proof. intros w. apply looked_same; [apply (calm_tick (E := E))|done|exists []; by rewrite app_nil_r]. Qed.
#[local] Instance looked_now {E} : Keeps (E := E) looked now.
Proof. unfold now. apply _. Qed.
#[local] Instance looked_query {A} f : Keeps (A := A) looked (st_query f).
Proof. intros w. apply looked_same; [apply calm_query|done|exists []; by rewrite app_nil_r]. Qed.
#[local] Instance looked_record {E} e : Keeps (E := E) looked (record e).
Proof. intros w. apply looked_same; [apply (calm_record (E := E))|done|by eexists]. Qed.

Lemma recompute_signals t1 t2 t3 a : same_signals a (Threat.recompute_level t1 t2 t3 a).1.
Proof. unfold Threat.recompute_level. by case_bool_decide. Qed.
Lemma level_signals t1 t2 t3 a : same_signals a (Threat.current_level t1 t2 t3 a).1.1.
Proof.
  unfold Threat.current_level. pose proof (recompute_signals t1 t2 t3 a) as H. by destruct (Threat.recompute_level _ _ _ _).
Qed.
Lemma metrics_signals t1 t2 t3 t4 t5 n c a : same_signals a (Threat.security_metrics t1 t2 t3 t4 t5 n c a).1.1.
Proof.
  unfold Threat.security_metrics. pose proof (level_signals t1 t2 t3 a) as H. by destruct (Threat.current_level _ _ _ _) as [[??]?].
Qed.
Lemma looked_assessed {E A} (f : Threat.ThreatAssessor -> Threat.ThreatAssessor * list Audit.AuditEvent * A) :
  (forall a, same_signals a (f a).1.1) -> Keeps (E := E) looked (with_threat (fun a => Some (f a))).
Proof. intros H. apply looked_threat. intros a. specialize (H a). destruct (f a) as [[a' evs] x]. by exists a', evs, x. Qed.

#[local] Instance looked_level {E} : Keeps (E := E) looked current_threat_level.
Proof.
  unfold current_threat_level. repeat (apply keeps_bind; [apply _..|intros ?]). apply looked_assessed. intros x. apply level_signals.
Qed.
#[local] Instance looked_score {E} : Keeps (E := E) looked threat_score.
Proof. unfold threat_score. apply keeps_bind; [apply _..|intros t]. by apply (looked_assessed (fun a => (a, [], Threat.raw_score t a))). Qed.
#[local] Instance looked_history {E} : Keeps (E := E) looked threat_history.
Proof. by apply (looked_assessed (fun a => (a, [], Threat.level_history a))). Qed.
#[local] Instance looked_summary {E} p : Keeps (E := E) looked (policy_adaptation_summary p).
Proof. unfold policy_adaptation_summary. apply _. Qed.
#[local] Instance looked_get k : Keeps looked (get k).
Proof. unfold get, storage_get. apply _. Qed.
#[local] Instance looked_resolve k : Keeps looked (resolve_domain_for_key k).
Proof.
  unfold resolve_domain_for_key. generalize MAX_DEPTH, 0, k at 2. intros n. induction n as [|n IH]; intros d c; cbn [resolve_from]; apply _.
Qed.
#[local] Instance looked_all_keys : Keeps looked list_keys.
Proof. unfold list_keys, storage_list. apply _. Qed.
#[local] Instance looked_audit {E} a : Keeps (E := E) looked (record_audit_event a).
Proof. unfold record_audit_event, record_system. apply _. Qed.
#[local] Instance looked_evaluate {E} p m : Keeps (E := E) looked (evaluate_now p m).
Proof. unfold evaluate_now. apply _. Qed.
#[local] Instance looked_compliant lv l n : Keeps looked (count_compliant lv l n).
Proof. revert n. induction l as [|m l IH]; intros n; cbn [count_compliant]; keeps_walk. Qed.
#[local] Instance looked_metrics : Keeps looked security_metrics.
Proof.
  unfold security_metrics, storage_list. repeat (apply keeps_bind; [apply _..|intros ?]). apply looked_assessed. intros x. apply metrics_signals.
Qed.
#[local] Instance looked_decode s : Keeps looked (Wrap.decode_hex s).
Proof. unfold Wrap.decode_hex. apply _. Qed.
#[local] Instance looked_verify k m p : Keeps looked (verify_signature k m p).
Proof. unfold verify_signature, record_key. keeps_walk. Qed.
#[local] Instance looked_global auth : Keeps looked (global_only auth).
Proof. unfold global_only. apply _. Qed.
#[local] Instance looked_domain_access auth op k : Keeps looked (authorize_domain_access auth op k).
Proof. unfold authorize_domain_access. keeps_walk. Qed.
#[local] Instance looked_domain_or_none {E} k : Keeps (E := E) looked (domain_or_none k).
Proof. unfold domain_or_none. keeps_walk. Qed.
#[local] Instance looked_readable auth k : Keeps looked (lookup_readable_key_or_deny auth k).
Proof. unfold lookup_readable_key_or_deny. keeps_walk. Qed.
#[local] Instance looked_filter {E} auth l : Keeps (E := E) looked (filter_keys auth l).
Proof. induction l as [|m l IH]; cbn [filter_keys]; keeps_walk. Qed.
#[local] Instance looked_as_err {A} (m : M KeystoreError A) : Keeps looked m -> Keeps looked (as_err m).
Proof. unfold as_err. apply _. Qed.
#[local] Instance looked_as_err500 {A} (m : M KeystoreError A) : Keeps looked m -> Keeps looked (as_err500 m).
Proof. unfold as_err500. apply _. Qed.
#[local] Instance looked_payload h : Keeps looked (decode_payload h).
Proof. unfold decode_payload. apply _. Qed.
#[local] Instance looked_verifying_key v : Keeps looked (decode_verifying_key v).
Proof. unfold decode_verifying_key. apply _. Qed.

Lemma run_handler_looked m a : Keeps looked m -> looked (ks a) (ks (run_handler m a).1).
Proof. intros H. specialize (H (ks a)). unfold run_handler. by destruct (m (ks a)). Qed.
Lemma handler_control m a : control (run_handler m a).1 = control a.
Proof. unfold run_handler. by destruct (m (ks a)). Qed.

Lemma read_looked e auth r a :
  needs r = Some Read -> looked (ks a) (ks (handle timestamp_opt e auth r a).1).
Proof.
  destruct r; cbn [needs handle]; try done; intros _; apply run_handler_looked.
  all: unfold get_status, get_metrics, list_keys_handler, Api.get_key, verify_signature_handler, verify_assertion,
    get_verifying_key, get_threat, get_policies; keeps_walk.
Qed.

Lemma read_control e auth r a :
  needs r = Some Read -> control (handle timestamp_opt e auth r a).1 = control a.
Proof. destruct r; cbn [needs handle]; try done; intros _; apply handler_control. Qed.

(** ** Who gets through *)

(** The request carries an active API key with the scope that the route demands. *)
Record admitted (e : Env) (q : Request) (a : App) (entry : ApiKeys.ApiKeyEntry) (s : Scope) : Prop := {
  ad_bearer : exists v p h, authorization q = Some v /\ strip_prefix v "Bearer " = Some p /\ hash_api_key e p = Some h /\
    ApiKeys.key_hash entry = hex_encode h;
  ad_entry : entry ∈ ApiKeys.keys (control a);
  ad_active : ApiKeys.active entry = true;
  ad_required : required_scope (path_of (segment q) (route q)) (method_of (route q)) = Some s;
  ad_scope : has_scope (ApiKeys.en_scopes entry) s = true;
}.

Definition context_of (entry : ApiKeys.ApiKeyEntry) : AuthContext :=
  mkAuth (ApiKeys.id entry) (ApiKeys.name entry) (ApiKeys.en_scopes entry) (ApiKeys.en_allowed_domains entry).

(** The answer of the middleware, or of a public page. *)
Definition turned_away (r : Route) (o : option Response) : Prop :=
  match o with
  | None => True
  | Some resp => needs r = None /\ unauthenticated r = Some resp \/
      status resp ∈ [UNAUTHORIZED; FORBIDDEN; TOO_MANY_REQUESTS; SERVICE_UNAVAILABLE]
  end.

(** The assessor was told of one event of these kinds: it is appended, and the
    oldest may be dropped. *)
Record noted (kinds : list Threat.ThreatEventKind) (a a' : Threat.ThreatAssessor) : Prop := mkNoted {
  nt_config : Threat.config a' = Threat.config a;
  nt_override : Threat.manual_override a' = Threat.manual_override a;
  nt_event : exists ev n, Threat.te_kind ev ∈ kinds /\ Threat.events a' = drop n (Threat.events a ++ [ev]);
}.

(** What a request that is turned away leaves behind.  The API keys and the file
    they are kept in are as before, and so is the keystore except for its audit
    trail, which only grows, and its threat state: that is as before, or a failed
    authentication or the crossing of the rate limit was noted, or the lock was
    poisoned by a clock that went out of range. *)
Record unaffected (a a' : App) : Prop := mkUnaffected {
  un_calm : calm (ks a) (ks a');
  un_control : control a' = control a;
  un_path : api_keys_path a' = api_keys_path a;
  un_trail : exists l, trail (ks a') = trail (ks a) ++ l;
  un_threat : threat (ks a') = threat (ks a) \/ threat (ks a') = None \/
    exists t t', threat (ks a) = Some t /\ threat (ks a') = Some t' /\
      noted [Threat.AuthFailure; Threat.RapidAccessPattern] t t';
}.

Lemma unaffected_limiter l a : unaffected a (set_limiter l a).
Proof. split; try done; [exists []; by rewrite app_nil_r|by left]. Qed.
Lemma unaffected_refl a : unaffected a a.
Proof. split; try done; [exists []; by rewrite app_nil_r|by left]. Qed.

(** What an event that is not a manual override does to the assessor. *)
Lemma record_noted t1 t2 t3 t4 ev a a' evs :
  Threat.te_kind ev ∈ [Threat.AuthFailure; Threat.RapidAccessPattern] ->
  Threat.record_event t1 t2 t3 t4 ev a = Some (a', evs) -> noted [Threat.AuthFailure; Threat.RapidAccessPattern] a a'.
Proof.
  intros Hk. unfold Threat.record_event.
  assert (Ha : Threat.apply_manual a (Threat.te_kind ev) = a) by (unfold Threat.apply_manual; destruct (Threat.te_kind ev); try done; exfalso; set_solver).
  rewrite Ha. destruct (Threat.prune_old_events _ _) as [b|] eqn:Eb; [|done]. cbn. intros [= E].
  pose proof (recompute_signals t2 t3 t4 b) as [Hc He Ho _]. rewrite E in *. cbn in *.
  unfold Threat.prune_old_events in Eb. destruct (instant_sub _ _) as [cut|]; [|done]. injection Eb as <-. cbn in *.
  split; [done|done|]. rewrite He. exists ev.
  assert (D : forall es, exists n, Threat.drop_old cut es = drop n es).
  { induction es as [|x es [n IH]]; [by exists 0%nat|]. cbn. destruct (Threat.timestamp x <? cut); [by exists (S n)|by exists 0%nat]. }
  destruct (D (Threat.events a ++ [ev])) as [n ->]. rewrite drop_drop. by eexists.
Qed.

(** A side effect of the middleware: it fails only by a panic, and notes one event. *)
Record side_effect (m : M Response unit) : Prop := mkSide {
  sd_silent : forall w e, (m w).2 <> Err (Fail e);
  sd_calm : Keeps calm m;
  sd_trail : forall w, exists l, trail (m w).1 = trail w ++ l;
  sd_threat : forall w, threat (m w).1 = None \/
    exists t t', threat w = Some t /\ threat (m w).1 = Some t' /\ noted [Threat.AuthFailure; Threat.RapidAccessPattern] t t';
}.

Lemma side_event kind sev (d : string) :
  kind ∈ [Threat.AuthFailure; Threat.RapidAccessPattern] ->
  side_effect (record_threat_event (fun t => Threat.with_detail (Threat.event_new t kind sev) d)).
Proof.
  intros Hk. split; [intros w e|apply _|intros w|intros w].
  - unfold record_threat_event, now, tick, with_threat. cbv [mbind M_bind mret M_ret]. by repeat case_match.
  - unfold record_threat_event, now, tick, with_threat. cbv [mbind M_bind mret M_ret]. cbn [threat advance trail].
    destruct (threat w) as [a|]; cbn; [|exists []; by rewrite app_nil_r].
    destruct (Threat.record_event _ _ _ _ _ _) as [[a' evs]|]; cbn; [by eexists|exists []; by rewrite app_nil_r].
  - unfold record_threat_event, now, tick, with_threat. cbv [mbind M_bind mret M_ret]. cbn [threat advance trail].
    destruct (threat w) as [a|] eqn:Ea; cbn; [|by left].
    destruct (Threat.record_event _ _ _ _ _ _) as [[a' evs]|] eqn:Er; cbn; [|by left]. right. exists a, a'.
    split_and!; [done..|]. by eapply record_noted; [|exact Er].
Qed.

Lemma side_failure ip : side_effect (auth_failure ip).
Proof.
  unfold auth_failure. destruct (side_event Threat.AuthFailure (F64.lit 5 10) ("invalid API key from " +:+ ip)) as [S C T H]; [set_solver|].
  split; [intros w e; specialize (S w)|apply _|intros w; specialize (T w)|intros w; specialize (H w)].
  - cbv [mbind M_bind]. destruct (record_threat_event _ w) as [w1 [[]|f]]; [done|]. cbn in *. congruence.
  - cbv [mbind M_bind]. destruct (record_threat_event _ w) as [w1 [[]|f]]; [|done]. destruct T as [l Hl]. cbn in *.
    rewrite Hl, <- app_assoc. by eexists.
  - cbv [mbind M_bind]. by destruct (record_threat_event _ w) as [w1 [[]|f]].
Qed.
Lemma side_limit ip : side_effect (limit_exceeded ip).
Proof. apply side_event. set_solver. Qed.

Lemma effect_unaffected m resp a :
  side_effect m -> unaffected a (effect m resp a).1 /\ ((effect m resp a).2 = None \/ (effect m resp a).2 = Some resp).
Proof.
  intros [S C T H]. specialize (C (ks a)). specialize (S (ks a)). specialize (T (ks a)). specialize (H (ks a)).
  unfold effect, run_handler. cbv [mbind M_bind mret M_ret].
  destruct (m (ks a)) as [w [[]|[e|]]]; cbn in *; (split; [split; cbn; [done..|by right]|]); [by right|by destruct (S e)|by left].
Qed.

Lemma required_needs q : required_scope (path_of (segment q) (route q)) (method_of (route q)) = Some Read -> needs (route q) = Some Read.
Proof. destruct (required_scope_route (segment q) (route q)) as [->|[_ ->]]; done. Qed.
Lemma required_none q : required_scope (path_of (segment q) (route q)) (method_of (route q)) = None -> needs (route q) = None.
Proof. destruct (required_scope_route (segment q) (route q)) as [->|[_ ->]]; done. Qed.

Lemma authenticate_Some h s entry :
  ApiKeys.authenticate h s = Some entry -> entry ∈ s /\ ApiKeys.active entry = true /\ ApiKeys.key_hash entry = hex_encode h.
Proof. intros [H1 H2]%find_some. apply list_elem_of_In in H1. cbn beta in H2. bool_hyps. done. Qed.

Definition outcome (e : Env) (q : Request) (a : App) (x : App * option Response) : Prop :=
  unaffected a x.1 /\ turned_away (route q) x.2 \/
  exists entry s a1, admitted e q a entry s /\ ks a1 = ks a /\ api_keys_path a1 = api_keys_path a /\
    control a1 = ApiKeys.touch_and_save (touching e) (api_keys_path a) (touched_at e) (ApiKeys.id entry) (control a) /\
    ApiKeys.cores (ApiKeys.keys (control a1)) = ApiKeys.cores (ApiKeys.keys (control a)) /\
    x = handle timestamp_opt e (context_of entry) (route q) a1 /\
    (s = Read -> looked (ks a) (ks x.1) /\ control x.1 = control a1).

Lemma away a e q a' o : unaffected a a' -> turned_away (route q) o -> outcome e q a (a', o).
Proof. intros. left. by split. Qed.

Lemma effect_away e q a m resp :
  side_effect m -> status resp ∈ [UNAUTHORIZED; FORBIDDEN; TOO_MANY_REQUESTS; SERVICE_UNAVAILABLE] ->
  outcome e q a (effect m resp a).
Proof.
  intros Hm Hr. destruct (effect_unaffected m resp a Hm) as [Hu Ho]. left. split; [done|].
  destruct Ho as [->| ->]; cbn; [done|by right].
Qed.

Lemma auth_outcome e q a : outcome e q a (auth_middleware timestamp_opt e q a).
Proof.
  pose proof (unaffected_refl a) as U. unfold auth_middleware. destruct (required_scope _ _) as [s|] eqn:Es.
  2: { apply required_none in Es. apply away; [done|]. destruct (unauthenticated (route q)) eqn:Eu; [|done].
       left. by split. }
  case_bool_decide; [apply away; [done|right; set_solver]|].
  destruct (authorization q ≫= _) as [p|] eqn:Ep; [|apply away; [done|right; set_solver]].
  destruct (hash_api_key e p) as [h|] eqn:Eh; [|by apply away].
  destruct (ApiKeys.authenticate h _) as [entry|] eqn:Ea; [|apply effect_away; [apply side_failure|set_solver]].
  apply authenticate_Some in Ea as (H1 & H2 & H3). destruct (ApiLimit.check _ _ _ _) as [l ok].
  pose proof (unaffected_limiter l a) as Ul.
  destruct (negb ok); [apply away; [done|right; set_solver]|].
  destruct (has_scope _ s) eqn:Hs; cbn [negb]; [|apply away; [done|right; set_solver]].
  right. exists entry, s. eexists. split; [|split; [|split; [|split; [|split; [|split; [reflexivity|]]]]]]; [|done..|apply ApiKeys.touch_cores|].
  - split; try done. destruct (authorization q) as [v|] eqn:Ev; [|done]. by exists v, p, h.
  - intros ->. apply required_needs in Es. split; [by apply (read_looked e _ _ (set_control _ (set_limiter l a)))|by apply read_control].
Qed.

Lemma outcome_limiter e q l a x : outcome e q (set_limiter l a) x -> outcome e q a x.
Proof. intros [[[] ?]|(entry & s & a1 & [] & H)]; [by left|]. right. by exists entry, s, a1. Qed.

(** C9: Access control: a request either is turned away (a public page, 401, 403, 429,
    503, or a panic) or carries an active API key, known by the hash of the bearer
    token, that has the scope which the route demands; then only the key's last use is
    noted and the handler runs with the identity, the scopes and the domains of that
    key. A request that is turned away changes no key, no API key and no policy: at most
    it adds to the audit trail and has one failed authentication or crossing of the rate
    limit noted in the threat state. A request that only got through because of [Read]
    changes nothing but the audit trail, which grows, and the threat level, which is
    brought up to date from the same events and the same override. *)
Theorem access_control e q a :
  let x := step timestamp_opt (Serve e q) a in
  unaffected a x.1 /\ turned_away (route q) x.2 \/
  exists entry s a1, admitted e q a entry s /\ ks a1 = ks a /\ api_keys_path a1 = api_keys_path a /\
    control a1 = ApiKeys.touch_and_save (touching e) (api_keys_path a) (touched_at e) (ApiKeys.id entry) (control a) /\
    ApiKeys.cores (ApiKeys.keys (control a1)) = ApiKeys.cores (ApiKeys.keys (control a)) /\
    x = handle timestamp_opt e (context_of entry) (route q) a1 /\
    (s = Read -> looked (ks a) (ks x.1) /\ control x.1 = control a1).
Proof.
  cbn zeta. cbn [step]. unfold rate_limit_middleware. case_bool_decide; [apply auth_outcome|].
  destruct (ApiLimit.check _ _ _ _) as [l ok]. apply (outcome_limiter e q l).
  destruct (negb ok); [apply effect_away; [apply side_limit|set_solver]|apply auth_outcome].
Qed.

(** ** Domains *)

Context {PL : PlatformLaws PF}.

(** The key whose domain the handler resolves first: a failed resolution is a
    refusal.  For a new key it is the parent. *)
Definition target (r : Route) : option string :=
  match r with
  | RGetKey k | RActivate k | RRotate k | RRevoke k _ | RDestroy k | REncrypt k _ | RSign k _ => Some k
  | RDecrypt (Some req) => Some (blob_key_id (dr_blob req))
  | RIssue req => Some (ai_signing_key_id req)
  | RGenerate req => gk_parent_id req
  | _ => None
  end.

(** The key of the routes that go through [lookup_readable_key_or_deny], which
    reads the key, resolves its domain, and takes a key without a domain for
    readable. *)
Definition read_target (r : Route) : option string :=
  match r with
  | RVerifyingKey k => Some k
  | RVerify req => Some (vr_key_id req)
  | RVerifyAssertion req => Some (av_signing_key_id req)
  | _ => None
  end.

(** [m] ends in a refusal, and only reads. *)
Definition denied {A} (m : M Response A) (w : World) : Prop :=
  exists w' r, m w = (w', Err (Fail r)) /\ looked w w' /\ ApiKeys.refused r.

Lemma denied_bind {A B} (m : M Response A) (f : A -> M Response B) w : denied m w -> denied (m ≫= f) w.
Proof. intros (w' & r & E & H). exists w', r. split; [|done]. cbv [mbind M_bind]. by rewrite E. Qed.

Lemma denied_or_throw {A B} (o : option A) r (f : A -> M Response B) w :
  ApiKeys.refused r -> (forall a, denied (f a) w) -> denied (or_throw o r ≫= f) w.
Proof. intros Hr Hf. destruct o; cbn; [apply Hf|]. by exists w, r. Qed.

Lemma denied_some {A B} (x : A) r (f : A -> M Response B) w : denied (f x) w -> denied (or_throw (Some x) r ≫= f) w.
Proof. done. Qed.

(** A read before the denial. *)
Lemma denied_after {A B} (m : M Response A) (f : A -> M Response B) w :
  Keeps looked m -> (forall w' e, m w = (w', Err e) -> exists r, e = Fail r /\ ApiKeys.refused r) ->
  (forall w' x, m w = (w', Ok x) -> denied (f x) w') -> denied (m ≫= f) w.
Proof.
  intros K He Hf. specialize (K w). unfold denied. cbv [mbind M_bind]. destruct (m w) as [w1 [x|e]] eqn:E; cbn in K.
  - destruct (Hf _ _ eq_refl) as (w' & r & E' & C & Hr). exists w', r. split_and!; [done| |done]. by etransitivity.
  - destruct (He _ _ eq_refl) as (r & -> & Hr). by exists w1, r.
Qed.

Lemma denied_now {B} (f : Z -> M Response B) w : (forall t w', calm w w' -> denied (f t) w') -> denied (now ≫= f) w.
Proof. intros Hf. apply denied_after; [apply _|done|]. intros w' x [= <- <-]. apply Hf, (calm_tick (E := unit) w). Qed.

Lemma same_domain v k d d' : in_domain v k d -> in_domain v k d' -> d = d'.
Proof. apply in_domain_stable. intros x m m' H H'. by simplify_eq. Qed.

Lemma access_denied auth op k d ds w :
  allowed_domains auth = Some ds -> in_domain (view w) k d -> d ∉ ds -> op <> ListKeys ->
  denied (authorize_domain_access auth op (Some k)) w.
Proof.
  intros Ha Hd Hn Hop. unfold authorize_domain_access.
  replace (is_global_admin auth) with false by (unfold is_global_admin; by rewrite Ha).
  assert (D : denied (target_domain ← mapping (unresolved op) (resolve_domain_for_key k);
    _ ← throw_if (negb (bool_decide (target_domain ∈ ds))) (outside op target_domain);
    mret (M := M Response) (Some target_domain)) w).
  { apply denied_after; [apply _| |].
    - pose proof (ApiStart.resolve_no_panic k w) as N. unfold mapping. destruct (resolve_domain_for_key k w) as [w1 [x|[e|]]]; [done| |done].
      intros w' ? [= _ <-]. eexists. split; [done|]. destruct op; by left.
    - intros w' d' H%mapping_Ok%resolve_Ok. rewrite (same_domain _ _ _ _ H Hd), bool_decide_false by done.
      eexists w', _. split; [reflexivity|]. split; [reflexivity|]. destruct op; (by left) || (by right). }
  rewrite Ha. destruct op; [|done|..]; try (apply denied_some, D); exists w; eexists; (split_and!; [done|done|by right]).
Qed.

(** The domain of the key, if it can be resolved after the key was read. *)
Definition resolvable (k : string) (w : World) : Prop := is_ok (resolve_domain_for_key k (advance w)).2 = true.

Lemma readable_denied auth k d ds w :
  allowed_domains auth = Some ds -> in_domain (view w) k d -> d ∉ ds -> resolvable k w ->
  denied (lookup_readable_key_or_deny auth k) w.
Proof.
  intros Ha Hd Hn Hr. unfold lookup_readable_key_or_deny.
  replace (is_global_admin auth) with false by (unfold is_global_admin; by rewrite Ha).
  apply denied_after; [apply _| |].
  { unfold mapping, get, storage_get, st_query. cbv [mbind M_bind].
    destruct (st_get _ _ _) as [[m|]|e]; cbn; intros w' e' [= _ <-]; eexists; (split; [done|by right]). }
  intros w' m Hm%mapping_Ok%get_world. subst w'.
  pose proof (looked_resolve k (advance w)) as L. unfold resolvable in Hr. unfold denied, domain_or_none, attempt.
  cbv [mbind M_bind mret M_ret]. destruct (resolve_domain_for_key k (advance w)) as [w1 [d'|e]] eqn:E; [|done]. cbn in L.
  apply resolve_Ok in E. rewrite (same_domain _ _ _ _ E Hd). unfold caller_can_read_key. rewrite Ha, bool_decide_false by done.
  eexists w1, _. split; [reflexivity|]. split; [done|by right].
Qed.

Lemma domain_or_none_Some {E} k w w' d : domain_or_none (E := E) k w = (w', Ok (Some d)) -> in_domain (view w) k d.
Proof.
  unfold domain_or_none, attempt. cbv [mbind M_bind mret M_ret].
  destruct (resolve_domain_for_key k w) as [w1 [d'|[e|]]] eqn:Er; try done. intros [= _ <-]. by eapply resolve_Ok.
Qed.

Lemma filter_keys_inside {E} auth l w w' ds out :
  allowed_domains auth = Some ds -> filter_keys (E := E) auth l w = (w', Ok out) ->
  forall kr, kr ∈ out -> exists m d, m ∈ l /\ kr = key_to_response m /\ in_domain (view w) (id m) d /\ d ∈ ds.
Proof.
  intros Ha. revert w w' out. induction l as [|m l IH]; intros w w' out; cbn [filter_keys].
  { intros [= _ <-] kr Hk. by apply elem_of_nil in Hk. }
  intros (w1 & o & E1 & H)%bindM_Ok. pose proof (keeps_Ok _ _ _ _ E1) as C.
  apply bindM_Ok in H as (w2 & out' & E2 & H). injection H as <- <-. specialize (IH _ _ _ E2).
  assert (IH' : forall kr, kr ∈ out' -> exists m' d, m' ∈ m :: l /\ kr = key_to_response m' /\ in_domain (view w) (id m') d /\ d ∈ ds).
  { intros kr (m' & d & Hm & Hk)%IH. exists m', d. rewrite <- (calm_view _ _ C). split; [by right|done]. }
  rewrite Ha. destruct o as [d|]; [|exact IH']. apply domain_or_none_Some in E1.
  case_bool_decide as Hin; [|exact IH']. intros kr [->|Hk]%elem_of_cons; [|by apply IH'].
  exists m, d. split_and!; [by left|done..].
Qed.

Lemma filter_keys_total {E} auth l w e : (filter_keys (E := E) auth l w).2 <> Err (Fail e).
Proof.
  revert w. induction l as [|m l IH]; intros w; [done|]. cbn [filter_keys]. cbv [mbind M_bind mret M_ret].
  assert (D : (domain_or_none (E := E) (id m) w).2 <> Err (Fail e)).
  { unfold domain_or_none, attempt. cbv [mbind M_bind mret M_ret]. by destruct (resolve_domain_for_key _ _) as [w1 [x|[y|]]]. }
  destruct (domain_or_none (id m) w) as [w1 [o|f]]; [|cbn in *; congruence]. specialize (IH w1).
  destruct (filter_keys auth l w1) as [w2 [out|f]]; [done|cbn in *; congruence].
Qed.

Lemma listing_fails auth w w' r : list_keys_handler auth w = (w', Err (Fail r)) -> exists msg, r = err500 msg.
Proof.
  unfold list_keys_handler, as_err500, mapping. cbv [mbind M_bind mret M_ret].
  destruct (list_keys w) as [w1 [keys|[e|]]]; [|intros [= _ <-]; by eexists|done].
  destruct (is_global_admin auth); [done|]. pose proof (fun x => filter_keys_total (E := Response) auth keys w1 x) as H.
  destruct (filter_keys auth keys w1) as [w2 [out|[e|]]]; [done|by destruct (H e)|done].
Qed.

(** C10: An API key that is confined to some domains is refused, with 400 or 403 and
    without any effect but what a reader leaves, on every route that uses or manages a
    key of another domain, reads its record or creates one below it, whatever its
    scopes. The three routes that verify with a key or hand out its verifying key refuse
    it too, provided the key's domain can be resolved once the key was read (a storage
    error at that point lets the request through). The list of keys that it is given
    only has keys of its own domains. *)
Theorem cross_domain_denied e auth a ds :
  allowed_domains auth = Some ds ->
  (forall r k d, target r = Some k \/ read_target r = Some k /\ resolvable k (ks a) ->
     in_domain (view (ks a)) k d -> d ∉ ds ->
     exists resp, (handle timestamp_opt e auth r a).2 = Some resp /\ ApiKeys.refused resp /\
       looked (ks a) (ks (handle timestamp_opt e auth r a).1) /\ control (handle timestamp_opt e auth r a).1 = control a) /\
  (forall l, (handle timestamp_opt e auth RListKeys a).2 = Some (json_ok (BKeys l)) -> forall kr, kr ∈ l ->
     exists m d, kr = key_to_response m /\ in_domain (view (ks a)) (id m) d /\ d ∈ ds).
Proof.
  intros Ha. split.
  - intros r k d Ht Hd Hn.
    assert (G : forall m, denied m (ks a) -> exists resp, (run_handler m a).2 = Some resp /\ ApiKeys.refused resp /\
      looked (ks a) (ks (run_handler m a).1) /\ control (run_handler m a).1 = control a).
    { intros m (w' & resp & E & C & Hr). unfold run_handler. rewrite E. by exists resp. }
    assert (D : forall op w, calm (ks a) w -> op <> ListKeys -> denied (authorize_domain_access auth op (Some k)) w).
    { intros op w C Hop. eapply access_denied; [done| |done|done]. by rewrite (calm_view _ _ C). }
    destruct Ht as [Ht|[Ht Hr]].
    + destruct r; cbn [target] in Ht; try done; cbn [handle]; try injection Ht as ->; apply G.
      * unfold generate_key. apply denied_or_throw; [by left|]. intros kt. rewrite Ht. apply denied_bind, D; [done|by destruct kt].
      * by apply denied_bind, D.
      * by apply denied_bind, D.
      * unfold rotate_key. apply denied_now. intros t w C. by apply denied_bind, D.
      * by apply denied_bind, D.
      * by apply denied_bind, D.
      * by apply denied_bind, D.
      * destruct body0 as [req|]; [|done]. injection Ht as <-. by apply denied_some, denied_bind, D.
      * apply denied_or_throw; [by left|]. intros p. by apply denied_bind, D.
      * injection Ht as <-. by apply denied_bind, D.
    + pose proof (readable_denied auth k d ds (ks a) Ha Hd Hn Hr) as R.
      destruct r; cbn [read_target] in Ht; try done; injection Ht as <-; by apply G, denied_bind.
  - intros l. cbn [handle]. unfold run_handler. destruct (list_keys_handler auth (ks a)) as [w' r] eqn:E. cbn. intros Hl.
    assert (Hr : r = Ok (json_ok (BKeys l))).
    { destruct r as [x|[x|]]; [by injection Hl as ->| |done]. injection Hl as ->. exfalso.
      by destruct (listing_fails _ _ _ _ E). }
    subst r. unfold list_keys_handler in E. replace (is_global_admin auth) with false in E by (unfold is_global_admin; by rewrite Ha). apply bindM_Ok in E as (w1 & keys & E1 & E). apply keeps_Ok in E1; [|apply _].
    apply bindM_Ok in E as (w2 & out & E2 & [= _ <-]). intros kr Hk.
    destruct (filter_keys_inside _ _ _ _ _ _ Ha E2 kr Hk) as (m & d & _ & Hm & Hin). rewrite (calm_view _ _ E1) in Hin. by exists m, d.
Qed.

(** ** The decryption route *)

(** Every failure of [m] is [o]. *)
Class Fails (o : Response) {A} (m : M Response A) : Prop := fails : forall w r, (m w).2 = Err (Fail r) -> r = o.

#[local] Instance fails_bind {o A B} (m : M Response A) (f : A -> M Response B) :
  Fails o m -> (forall a, Fails o (f a)) -> Fails o (m ≫= f).
Proof.
  intros Hm Hf w r. specialize (Hm w). cbv [mbind M_bind]. destruct (m w) as [w' [a|e]]; cbn in *; [apply Hf|].
  intros [= ->]. by apply Hm.
Qed.
#[local] Instance fails_ret {o A} (a : A) : Fails o (mret a).
Proof. done. Qed.
#[local] Instance fails_throw {o A} : Fails o (throw (A := A) o).
Proof. by intros w r [= ->]. Qed.
#[local] Instance fails_throw_if {o} b : Fails o (throw_if b o).
Proof. intros w r. by destruct b; [intros [= ->]|]. Qed.
#[local] Instance fails_or_throw {o A} (x : option A) : Fails o (or_throw x o).
Proof. intros w r. by destruct x; [|intros [= ->]]. Qed.
#[local] Instance fails_mapping {o E A} (m : M E A) : Fails o (mapping (fun _ => o) m).
Proof. intros w r. unfold mapping. destruct (m w) as [w' [a|[e|]]]; [done| |done]. by intros [= ->]. Qed.
#[local] Instance fails_enforcer {o A} (f : Enforcer.StateEnforcer -> Enforcer.StateEnforcer * A) : Fails o (with_enforcer f).
Proof.
  intros w r. unfold with_enforcer, asks, modify. cbv [mbind M_bind mret M_ret].
  destruct (enforcer w) as [s|]; [by destruct (f s)|done].
Qed.
#[local] Instance fails_draw {o} : Fails o draw.
Proof. done. Qed.

#[local] Instance fails_authorizing {o} f : Fails o (authorizing f (fun _ => o)).
Proof.
  apply fails_bind; [apply fails_draw|]. intros d. apply fails_bind; [apply fails_enforcer|]. intros []; apply _.
Qed.

#[local] Instance fails_domain auth k : Fails opaque_failure (authorize_domain_access auth OpDecrypt (Some k)).
Proof.
  unfold authorize_domain_access. destruct (is_global_admin auth); [apply _|]. cbn [unresolved outside].
  apply fails_bind; [by intros ??|]. intros x. apply fails_bind; [apply (fails_mapping (resolve_domain_for_key x))|].
  intros d. apply _.
Qed.

Lemma domain_access_Ok auth op k w w' o :
  op <> ListKeys -> authorize_domain_access auth op (Some k) w = (w', Ok o) ->
  calm w w' /\ forall ds, allowed_domains auth = Some ds -> exists d, in_domain (view w) k d /\ d ∈ ds.
Proof.
  intros Hop H. pose proof (keeps_Ok _ _ _ _ H) as C. split; [done|]. intros ds Hds.
  unfold authorize_domain_access in H. replace (is_global_admin auth) with false in H by (unfold is_global_admin; by rewrite Hds).
  rewrite Hds in H. destruct op; try done.
  all: apply bindM_Ok in H as (? & x & Hx & H); apply or_throw_Ok in Hx as [[= <-] ->];
    apply bindM_Ok in H as (w1 & d & Hd%mapping_Ok%resolve_Ok & H);
    apply bindM_Ok in H as (? & [] & [Hin _]%throw_if_Ok & _); bool_hyps; by exists d.
Qed.

Lemma authorizing_Ok f od w w' x :
  authorizing f od w = (w', Ok x) -> store w' = store w /\ replay w' = replay w.
Proof.
  unfold authorizing. intros (w1 & d & E1 & H)%bindM_Ok. apply keeps_Ok in E1; [|unfold draw; apply _].
  apply bindM_Ok in H as (w2 & r & E2 & H). unfold with_enforcer, asks, modify in E2. cbv [mbind M_bind mret M_ret] in *.
  destruct (enforcer w1) as [s|]; [|done]. destruct (f s d) as [s' r']. injection E2 as <- <-.
  destruct r'; [|done]. injection H as <- <-. by destruct E1.
Qed.

(** C20: The decryption route has one failure: whatever is wrong (a body that is not a
    request, a key that does not exist or lies in another domain, a denial of the
    enforcer, a replayed or forged ciphertext), the answer is the same; and a plaintext
    is only returned for a key inside the caller's domains. *)
Theorem decrypt_route_uniform e auth body a :
  match (handle timestamp_opt e auth (RDecrypt body) a).2 with
  | None => True
  | Some resp =>
      resp = opaque_failure \/
      exists req authz w1 w2 pt, body = Some req /\ store w1 = store (ks a) /\ replay w1 = replay (ks a) /\
        decrypt_authorized authz (dr_blob req) (bytes_of_string (dr_aad req)) (bytes_of_string (dr_context req)) w1 = (w2, Ok pt) /\
        resp = json_ok (BPlaintext (from_utf8_lossy pt)) /\
        forall ds, allowed_domains auth = Some ds -> exists d, in_domain (view (ks a)) (blob_key_id (dr_blob req)) d /\ d ∈ ds
  end.
Proof.
  cbn [handle]. unfold run_handler. assert (F : Fails opaque_failure (decrypt_data auth body)).
  { unfold decrypt_data. apply fails_bind; [apply _|]. intros req. apply fails_bind; [apply fails_domain|]. intros rd.
    apply fails_bind; [apply fails_authorizing|]. intros ctx. apply fails_bind; [apply fails_mapping|]. apply _. }
  specialize (F (ks a)). destruct (decrypt_data auth body (ks a)) as [w' r] eqn:E. cbn in *.
  destruct r as [resp|[resp|]]; cbn; [|left; by apply F|done]. right. unfold decrypt_data in E.
  apply bindM_Ok in E as (? & req & [-> ->]%or_throw_Ok & E).
  apply bindM_Ok in E as (w1 & rd & Hd & E). apply domain_access_Ok in Hd as [C Hd]; [|done].
  apply bindM_Ok in E as (w2 & ctx & [Hs Hr]%authorizing_Ok & E).
  apply bindM_Ok in E as (w3 & pt & Hp%mapping_Ok & E). injection E as <- <-.
  exists req, ctx, w2, w3, pt. destruct C. split_and!; congruence || done.
Qed.
End access.
End ApiAccess.
