(* ===== verification/Examples.v ===== *)
(** * Concrete instances of the parameters

    Small executable functions that satisfy the laws assumed of third-party
    code, so that every theorem that relies on them can be applied to concrete
    data.  They are not the real primitives. *)

From Stdlib Require Import SpecFloat Ascii.
From S2P Require Import Prelude.
From S2P Require Import Wire.
From S2P Require Import WireV2.
From S2P Require Import Crypto.
From S2P Require Import KemP384.
From S2P Require Import AwsLc.
From S2P Require Import Signer.
From S2P Require Import Types.
From S2P Require Import AuditLog.
From S2P Require Import F64.
From S2P Require Import Threat.
From S2P Require Import Storage.
From S2P Require Import FileStore.
From S2P Require Import Text.
From S2P Require Import Backup.
From S2P Require Import Graph.
From S2P Require Import Anchors.
Import Types.

Module Toy.

Definition pad (n : nat) (x : list byte) : list byte := take n (x ++ replicate n Byte.x00).

Lemma length_pad n x : length (pad n x) = n.
Proof. unfold pad. rewrite length_take, length_app, length_replicate. lia. Qed.

(** ** Primitives *)

Definition tag (k n a : list byte) : list byte := pad 16 (a ++ k ++ n).

Definition gcm_enc (k n m a : list byte) : option (list byte) := Some (m ++ tag k n a).
Definition gcm_dec (k n c a : list byte) : option (list byte) :=
  let i := (length c - 16)%nat in
  if bool_decide (drop i c = tag k n a) then Some (take i c) else None.

#[global] Instance primitives : Primitives := {
  Sha256 := pad 32;
  Sha3_256 := pad 32;
  hkdf_expand salt ikm info n := Some (pad (Z.to_nat n) (ikm ++ info));
  gcm_encrypt := gcm_enc;
  gcm_decrypt := gcm_dec;
  x25519_public := pad 32;
  x25519_dh _ _ := replicate 32 Byte.x00;
  was_contributory _ := true;
  EncapKey := byte;
  DecapKey := byte;
  mlkem_generate s := default Byte.x00 (head s);
  ek_of b := b;
  ek_new l := head l;
  ek_bytes := replicate 1184;
  dk_from_expanded l := head l;
  dk_bytes := replicate 2400;
  mlkem_encapsulate _ ek := (replicate 1088 ek, replicate 32 ek);
  mlkem_decapsulate dk _ := replicate 32 dk;
}.

#[global] Instance hmac_toy : HmacSha256 := fun k m => pad 32 (m ++ k).

#[global] Instance primitive_laws : PrimitiveLaws primitives.
Proof.
  assert (L : forall n x, len (pad n x) = Z.of_nat n) by (intros; by rewrite length_pad).
  split; try (intros; apply L); try (intros; cbn; by rewrite length_replicate); try done.
  - intros k n m a c [= <-]. rewrite length_app. unfold tag. rewrite length_pad. lia.
  - intros k n c a m. cbn. unfold gcm_dec. case_bool_decide as E; [|done]. intros [= <-].
    apply (f_equal length) in E. unfold tag in E. rewrite length_drop, length_pad in E.
    rewrite length_take. lia.
  - intros k n m a c [= <-]. cbn. unfold gcm_dec.
    assert (Hl : (length (m ++ tag k n a) - 16)%nat = length m)
      by (rewrite length_app; unfold tag; rewrite length_pad; lia).
    rewrite Hl, drop_app_length, bool_decide_true by done. by rewrite take_app_length.
Qed.

(** ** Signatures: the signature repeats the seed and the message *)

(** Points and keys of the P-384 suite are single bytes. *)
#[global] Instance p384 : P384Primitives := {
  P384PublicKey := byte;
  P384SecretKey := byte;
  p384_generate l := default Byte.x00 (head l);
  p384_try_generate l := head l;
  p384_from_slice l := match l with b :: r => if bool_decide (r = replicate 47 b) then Some b else None | [] => None end;
  p384_to_bytes := replicate 48;
  p384_public_key b := b;
  from_sec1_bytes l :=
    match l with _ :: b :: r => if bool_decide (r = replicate 95 b) then Some b else None | _ => None end;
  to_sec1_uncompressed b := Byte.x04 :: replicate 96 b;
  diffie_hellman a b := be_bytes 48 (Z_of_byte a + Z_of_byte b);
  EncapKey1024 := byte;
  DecapKey1024 := byte;
  from_seed l := default Byte.x00 (head l);
  encapsulation_key b := b;
  ek1024_new l := match l with b :: r => if bool_decide (r = replicate 1567 b) then Some b else None | [] => None end;
  ek1024_bytes := replicate 1568;
  mlkem1024_encapsulate r ek := (replicate 1568 ek, replicate 32 ek);
  mlkem1024_decapsulate dk _ := replicate 32 dk;
  to_expanded_bytes := replicate 3168;
}.

Lemma parse_replicate n (b : byte) : match replicate (S n) b with
  | b :: r => if bool_decide (r = replicate n b) then Some b else None | [] => None end = Some b.
Proof. cbn. by rewrite bool_decide_eq_true_2. Qed.

Lemma replicate_parse n (l : list byte) b :
  match l with b :: r => if bool_decide (r = replicate n b) then Some b else None | [] => None end = Some b ->
  replicate (S n) b = l.
Proof. destruct l as [|c r]; [done|]. case_bool_decide; [|done]. intros [= ->]. cbn. by f_equal. Qed.

#[global] Instance p384_primitive_laws : P384Laws p384.
Proof.
  split; cbn -[replicate be_bytes].
  - intros pk. cbn -[replicate]. by rewrite length_replicate.
  - done.
  - intros pk. apply (parse_replicate 95).
  - intros [|t l] pk _ [= ->]. cbn -[replicate]. intros H%(replicate_parse 95). by f_equal.
  - intros sk. by rewrite length_replicate.
  - apply (parse_replicate 47).
  - intros bs sk _. apply (replicate_parse 47).
  - intros a b. by rewrite Z.add_comm.
  - intros ek. by rewrite length_replicate.
  - apply (parse_replicate 1567).
  - intros bs ek _. apply (replicate_parse 1567).
  - intros _ ek. by rewrite length_replicate.
  - done.
Qed.

(** A module that computes the same functions. *)
#[global] Instance awslc : AwsLcModule := {
  lc_sha256 := Sha256;
  lc_sha3_256 := Sha3_256;
  lc_hkdf := hkdf_expand;
  lc_seal_randnonce drawn k m a :=
    n ← drawn; if bool_decide (length n = 12%nat) then Some (n, (m, tag k n a)) else None;
  lc_seal := gcm_enc;
  lc_open := gcm_dec;
  LcPrivateKey := byte;
  lc_generate := head;
  lc_from_private_key := p384_from_slice;
  lc_compute_public_key b := Some (to_sec1_uncompressed b);
  lc_agree b bs := diffie_hellman b <$> from_sec1_bytes bs;
  LcEncapsulationKey := byte;
  LcDecapsulationKey := byte;
  lc_ek_new := ek1024_new;
  lc_ek_bytes ek := Some (ek1024_bytes ek);
  lc_encapsulate r ek := Some (mlkem1024_encapsulate r ek);
  lc_dk_generate := head;
  lc_dk_new := head;
  lc_dk_bytes dk := Some (to_expanded_bytes dk);
  lc_dk_ek dk := Some (encapsulation_key dk);
  lc_decapsulate dk ct := Some (mlkem1024_decapsulate dk ct);
}.

#[global] Instance awslc_laws : AwsLcLaws primitives p384 awslc.
Proof.
  refine {| scalar_of := fun b : LcPrivateKey => (b : P384SecretKey);
            encap_of := fun b : LcEncapsulationKey => (b : EncapKey1024) |}; try done.
  - intros drawn k m a n c t. cbn. destruct drawn as [n'|]; [|done]. cbn. case_bool_decide; [|done].
    intros [= <- <- <-]. split; [lia|done].
  - intros bs _. cbn -[replicate]. by destruct (match bs with [] => None | b :: r => _ end).
  - intros bs _. cbn -[replicate]. by destruct (match bs with [] => None | b :: r => _ end).
  - intros r e ct ss [= <- <-]. by exists r.
Qed.

Definition sig_of (seed m : list byte) : list byte := pad 3309 (pad 32 seed ++ m).

#[global] Instance mldsa : MlDsa := {
  seed_try_from s := bool_decide (len s = 32);
  vk_try_from v := bool_decide (len v = 1952);
  sig_try_from g := bool_decide (len g = 3309);
  vk_encode s := pad 1952 (pad 32 s);
  try_sign s m := Ok (sig_of s m);
  sig_decodes _ := true;
  vk_verify v m g := bool_decide (g = sig_of (take 32 v) m);
}.

#[global] Instance mldsa_laws : MlDsaLaws mldsa.
Proof.
  assert (L : forall n x, len (pad n x) = Z.of_nat n) by (intros; by rewrite length_pad).
  split; try done; intros; [apply L|]. injection H as <-. split_and!; [apply L|done|].
  apply bool_decide_eq_true. unfold sig_of. cbn [vk_encode mldsa].
  assert (E : take 32 (pad 1952 (pad 32 s)) = pad 32 s).
  { unfold pad at 1. rewrite take_take. change (32 `min` 1952)%nat with 32%nat.
    rewrite take_app_le by (rewrite length_pad; lia). apply take_ge. rewrite length_pad. lia. }
  rewrite E. f_equal. unfold pad at 2. rewrite take_app_le by (rewrite length_pad; lia).
  symmetry. rewrite take_ge by (rewrite length_pad; lia). done.
Qed.

(** ** Hashes and hexadecimal *)

#[global] Instance digest32 : Digest := pad 32.
#[global] Instance digest32_laws : DigestLaws digest32.
Proof. split. intros. apply length_pad. Qed.

Definition digit (n : nat) : Ascii.ascii :=
  Ascii.ascii_of_nat (if (n <? 10)%nat then 48 + n else 87 + n).
Definition digit_val (c : Ascii.ascii) : option nat :=
  let n := Ascii.nat_of_ascii c in
  if ((48 <=? n) && (n <=? 57))%nat then Some (n - 48)%nat
  else if ((97 <=? n) && (n <=? 102))%nat then Some (n - 87)%nat else None.

Fixpoint enc (l : list byte) : string :=
  match l with
  | [] => ""
  | b :: l =>
      let n := N.to_nat (Byte.to_N b) in
      String.String (digit (n / 16)) (String.String (digit (n mod 16)) (enc l))
  end.
Fixpoint dec (s : string) : option (list byte) :=
  match s with
  | "" => Some []
  | String.String a (String.String b s) =>
      x ← digit_val a; y ← digit_val b; l ← dec s;
      c ← Byte.of_N (N.of_nat (16 * x + y)); Some (c :: l)
  | _ => None
  end.

#[global] Instance hex : Hex := {| hex_encode := enc; hex_decode := dec |}.

Lemma dec_cons b s :
  dec (String.String (digit (N.to_nat (Byte.to_N b) / 16))
        (String.String (digit (N.to_nat (Byte.to_N b) mod 16)) s)) = (fun l => b :: l) <$> dec s.
Proof. destruct b; cbn; destruct (dec s); done. Qed.

Lemma digits_hex b :
  is_hex_digit (digit (N.to_nat (Byte.to_N b) / 16)) = true /\
  is_hex_digit (digit (N.to_nat (Byte.to_N b) mod 16)) = true.
Proof. by destruct b. Qed.

Lemma dec_length n s l : (String.length s <= n)%nat -> dec s = Some l -> String.length s = (2 * length l)%nat.
Proof.
  revert s l. induction n as [|n IH]; intros s l Hn; (destruct s as [|a s]; [by intros [= <-]|]).
  { cbn in Hn. lia. }
  destruct s as [|b s]; [done|]. cbn [dec String.length] in *.
  destruct (digit_val a), (digit_val b); cbn; try done. destruct (dec s) as [l'|] eqn:E; cbn; [|done].
  destruct (Byte.of_N _); cbn; [|done]. intros [= <-].
  assert (H : String.length s = (2 * length l')%nat) by (apply IH; [lia|done]). cbn. lia.
Qed.

#[global] Instance hex_laws : HexLaws hex.
Proof.
  split; cbn [hex_encode hex_decode hex].
  - induction b as [|x b IH]; [done|]. cbn [enc]. by rewrite dec_cons, IH.
  - induction b as [|x b IH]; [done|]. cbn [enc all_hex].
    destruct (digits_hex x) as [-> ->]. done.
  - induction b as [|x b IH]; [done|]. cbn [enc String.length length]. rewrite IH. lia.
  - intros s b. by apply (dec_length (String.length s)).
Qed.

(** ** Time *)

Definition DAY : Z := 86400 * NANOS_PER_SEC.

#[global] Instance chrono : Chrono := {
  num_days d := Z.quot d DAY;
  num_hours d := Z.quot d (3600 * NANOS_PER_SEC);
  num_minutes d := Z.quot d (60 * NANOS_PER_SEC);
  num_seconds d := Z.quot d NANOS_PER_SEC;
  TimeDelta_MAX := (2 ^ 63 - 1) * 1000000;
  from_std d := if d <=? (2 ^ 63 - 1) * 1000000 then Some d else None;
  instant_sub a b := if (a - b) <? - (8 * 10 ^ 21) then None else Some (a - b);
  to_rfc3339 t := pretty t;
}.

#[global] Instance floats : FloatLib := {
  powf x y := if F64.ge y (F64.of_Z 1) then x else F64.of_Z 1;
  fmt1 x := "x.x";
}.

(** ** Audit lines: the chain fields in a prefix-free binary text *)

Fixpoint bits (p : positive) : string :=
  match p with
  | xH => "." | xO p => String.String "0"%char (bits p) | xI p => String.String "1"%char (bits p)
  end.
Fixpoint unbits (s : string) : positive :=
  match s with
  | String.String c s =>
      if Ascii.eqb c "0"%char then xO (unbits s)
      else if Ascii.eqb c "1"%char then xI (unbits s) else xH
  | "" => xH
  end.

Lemma unbits_bits p : unbits (bits p) = p.
Proof. induction p as [p IH|p IH|]; cbn; rewrite ?IH; done. Qed.

#[global] Instance audit_json : Audit.AuditJson := {
  to_json e := Some (String.String "{"%char
    (bits (encode (Audit.ev_sequence e, Audit.ev_prev_hash e, Audit.ev_actor e))));
  parse_line s :=
    match s with
    | String.String "{"%char s =>
        (fun p : option Z * option string * string => p.1) <$> decode (unbits s)
    | _ => None
    end;
  blank s := bool_decide (s = ""%string);
}.

#[global] Instance audit_json_laws : Audit.AuditJsonLaws audit_json.
Proof.
  split.
  - intros e s [= <-]. cbn. by rewrite unbits_bits, decode_encode.
  - by intros e s [= <-].
  - done.
Qed.
(** ** JSON: a value is its own text; an object prints a binary encoding *)

Lemma bits_inj p q : bits p = bits q -> p = q.
Proof. intros E. by rewrite <- (unbits_bits p), E, unbits_bits. Qed.

#[global] Instance json_text : Json := {
  json := string;
  j_string s := "s" +:+ s;
  j_number z := "n" +:+ bits (encode z);
  j_object m := "o" +:+ bits (encode m);
  json_to_string s := Ok s;
}.

#[global] Instance json_text_laws : JsonLaws json_text.
Proof.
  split; cbn; intros; simplify_eq; try done.
  - by apply (inj encode), bits_inj.
  - by apply (inj encode), bits_inj.
Qed.


(** ** Key files: only one record can be stored *)

Definition stored_key : KeyMetadata :=
  mkKeyMetadata "k" "name" DataEncrypting Active None None 0 0 None None None None
    [mkKeyVersion 1 0 "00" (Encrypted "enc:00") None None (Some "00"%string) None] 1 0 ∅.

#[global] Instance key_json : KeyJson := {
  print_key m := if bool_decide (m = as_text stored_key) then Ok [Byte.x7b] else Err "unsupported"%string;
  parse_key b := if bool_decide (b = [Byte.x7b]) then Ok (as_text stored_key) else Err "not JSON"%string;
}.
#[global] Instance key_json_laws : KeyJsonLaws key_json.
Proof.
  split; cbn.
  - intros m b. case_bool_decide as E; [|done]. intros [= <-]. by rewrite E.
  - intros n m. rewrite bool_decide_false; [done|]. by destruct n as [|[|n]].
Qed.

(** ** Backups of one given key, at a time that the text repeats *)

Definition one_key_json (key : KeyMetadata) : Backup.BackupJson := {|
  Backup.print_payload p :=
    if bool_decide (Backup.keys p = [as_text key] /\ Backup.schema_version p = 1 /\ Backup.key_count p = 1)
    then Ok (String.list_byte_of_string (bits (encode (Backup.payload_created_at p)))) else Err "unsupported"%string;
  Backup.parse_payload b :=
    match decode (unbits (String.string_of_list_byte b)) with
    | Some t => Ok (Backup.mkPayload 1 t [as_text key] 1)
    | None => Err "not JSON"%string
    end;
|}.
Lemma one_key_json_laws key : Backup.BackupJsonLaws (one_key_json key).
Proof.
  split. intros [v t ks n] b. unfold Backup.map_keys. cbn. case_bool_decide as E; [|done]. destruct E as (-> & -> & ->). intros [= <-].
  rewrite String.string_of_list_byte_of_string, unbits_bits, decode_encode. done.
Qed.

#[global] Instance backup_json : Backup.BackupJson := one_key_json stored_key.
#[global] Instance backup_json_laws : Backup.BackupJsonLaws backup_json := one_key_json_laws stored_key.

(** ** The order of a hash map, and receipts *)

#[global] Instance hash_order : Graph.HashOrder := fun m => (map_to_list m).*2.
#[global] Instance hash_order_laws : Graph.HashOrderLaws hash_order.
Proof. by intros m. Qed.

#[global] Instance receipt_json : Anchors.ReceiptJson := {
  to_string r := Ok (bits (encode (Anchors.entry_number r, Anchors.hash_hex r, Anchors.timestamp r,
                       Anchors.receipt_witness_id r, Anchors.proof r)));
  from_str s :=
    match decode (unbits s) with
    | Some (n, h, t, w, p) => Ok (Anchors.mkReceipt n h t w p)
    | None => Err "not JSON"%string
    end;
}.

Lemma single_line_bits p : Text.single_line (bits p).
Proof.
  split.
  - induction p as [p IH|p IH|]; cbn [bits Text.split_lines]; [by rewrite IH..|done].
  - induction p as [p IH|p IH|]; cbn [bits Text.strip_cr]; [| |done]; rewrite IH; by destruct p.
Qed.

#[global] Instance receipt_json_laws : Anchors.ReceiptJsonLaws receipt_json.
Proof.
  split.
  - intros [n h t w p] s [= <-]. cbn. by rewrite unbits_bits, decode_encode.
  - intros r s [= <-]. apply single_line_bits.
Qed.

End Toy.
