(* ===== verification/Witnesses.v ===== *)
(** * The properties at concrete inputs

    Each lemma applies one property to data on which its hypotheses hold, with
    the parameters instantiated by the functions of [Examples]. *)

From Stdlib Require Import SpecFloat Sorted.
From S2P Require Import Prelude.
From S2P Require Import Wire.
From S2P Require Import WireV2.
From S2P Require Import Crypto.
From S2P Require Import Envelope.
From S2P Require Import Stream.
From S2P Require Import StreamV3.
From S2P Require Import KemP384.
From S2P Require Import AwsLc.
From S2P Require Import Enforcer.
From S2P Require Import F64.
From S2P Require Import Types.
From S2P Require Import Hierarchy.
From S2P Require Import Policy.
From S2P Require Import AuditLog.
From S2P Require Import Threat.
From S2P Require Import Replay.
From S2P Require Import Signer.
From S2P Require Import Storage.
From S2P Require Import FileStore.
From S2P Require Import Examples.
Import Toy.

(** ** Envelopes *)

Definition sk0 : Kem.SecretKey (P := primitives) := {| Kem.sk_x25519 := replicate 32 Byte.x07; Kem.mlkem := Byte.x05 |}.
Definition rnd0 : kem_draws := (Some (replicate 32 Byte.x01), Some (replicate 32 Byte.x02)).
Definition nonce0 : option (list byte) := Some (replicate 12 Byte.x09).
Definition msg : list byte := bytes_of_string "attack at dawn".
Definition aad0 : list byte := bytes_of_string "aad".
Definition ctx0 : list byte := bytes_of_string "ctx".

Notation hybrid := (Kem.HybridX25519MlKem768Provider (P := primitives)).

Definition ok_default {E A} (r : result E A) (d : A) : A := match r with Ok a => a | Err _ => d end.

Definition envelope : list byte :=
  Eval vm_compute in
  ok_default (Engine.encrypt (P := primitives) (K := hybrid) rnd0 nonce0 (Kem.public_key sk0) msg aad0 ctx0) [].
Definition envelope_v1 : list byte :=
  Eval vm_compute in
  ok_default (Engine.encrypt_v1_compat (K := hybrid) rnd0 nonce0 (Kem.public_key sk0) msg aad0 ctx0) [].

Lemma decrypt_encrypt_witness :
  Engine.decrypt (K := hybrid) sk0 envelope aad0 ctx0 = Ok msg.
Proof.
  apply (Engine.decrypt_encrypt (K := hybrid) rnd0 nonce0 sk0 (Kem.public_key sk0) msg aad0 ctx0 envelope);
    [done|done|by vm_compute].
Defined.

Lemma decrypt_encrypt_v1_witness :
  Engine.decrypt (K := hybrid) sk0 envelope_v1 aad0 ctx0 = Ok msg.
Proof.
  apply (Engine.decrypt_encrypt_v1 (K := hybrid) rnd0 nonce0 sk0 (Kem.public_key sk0) msg aad0 ctx0 envelope_v1);
    [done|done|by vm_compute].
Defined.

Lemma decoders_never_panic_witness :
  Engine.decrypt (P := primitives) (K := hybrid) sk0 msg aad0 ctx0 <> Err Panic.
Proof. apply (Sdk.decoders_never_panic sk0 msg aad0 ctx0). Defined.

Lemma inspect_of_opened_witness :
  exists info, Sdk.inspect envelope = Ok info /\ Sdk.streaming info = false /\
    Sdk.plaintext_bytes info = len msg /\ Sdk.total_bytes info = len envelope.
Proof.
  apply (Sdk.inspect_of_opened (K := hybrid) sk0 envelope aad0 ctx0 msg). by vm_compute.
Defined.

Definition header0 : list byte := Eval vm_compute in take 98 envelope.
Definition transcript0 : list byte :=
  Eval vm_compute in ok_default (WireV2.kdf_transcript header0 msg ctx0) [].
Definition bound0 : list byte :=
  Eval vm_compute in ok_default (WireV2.associated_data header0 msg ctx0 aad0) [].

Lemma kdf_transcript_injective_witness :
  WireV2.get_prefix header0 WireV2.HEADER_BOUND_LEN = WireV2.get_prefix header0 WireV2.HEADER_BOUND_LEN /\
  msg = msg /\ ctx0 = ctx0.
Proof.
  apply (WireV2.kdf_transcript_injective header0 msg ctx0 header0 msg ctx0 transcript0); by vm_compute.
Defined.

Lemma associated_data_injective_witness :
  WireV2.get_prefix header0 WireV2.HEADER_BOUND_LEN = WireV2.get_prefix header0 WireV2.HEADER_BOUND_LEN /\
  msg = msg /\ ctx0 = ctx0 /\ aad0 = aad0.
Proof.
  apply (WireV2.associated_data_injective header0 msg ctx0 aad0 header0 msg ctx0 aad0 bound0); by vm_compute.
Defined.

Definition tlv0 : list byte :=
  Eval vm_compute in ok_default (AadBuilder.build_aad "alice" "bob" "/r" 5 6 msg) [].

Lemma build_aad_injective_witness :
  "alice"%string = "alice"%string /\ "bob"%string = "bob"%string /\ "/r"%string = "/r"%string /\
  5 = 5 /\ 6 = 6 /\ msg = msg.
Proof.
  apply (AadBuilder.build_aad_injective "alice" "bob" "/r" 5 6 msg "alice" "bob" "/r" 5 6 msg tlv0);
    try (unfold U64_MAX; lia); by vm_compute.
Defined.

(** ** The P-384 suite *)

Definition p384_sk : KemP384.P384MlKem1024SecretKey (Q := p384) := KemP384.mkSecret Byte.x07 (replicate 64 Byte.x05).
Definition p384_bytes : list byte := KemP384.PublicKey_to_bytes (KemP384.public_key_of p384_sk).
Definition p384_envelope : list byte :=
  Eval vm_compute in
  ok_default (KemP384.seal (P := primitives) rnd0 nonce0 (KemP384.public_key_of p384_sk) msg aad0 ctx0) [].

Lemma p384_public_key_canonical_witness :
  len p384_bytes = 1665 /\ KemP384.PublicKey_from_bytes p384_bytes = Ok (KemP384.public_key_of p384_sk).
Proof. split; [by vm_compute|]. by apply (KemP384.p384_public_key_canonical p384_bytes (KemP384.public_key_of p384_sk)). Defined.

(** What the P-384 engine opens the X25519 engine rejects. *)
Lemma suites_disjoint_witness :
  KemP384.open p384_sk p384_envelope aad0 ctx0 = Ok msg /\ Engine.decrypt (K := hybrid) sk0 p384_envelope aad0 ctx0 = Err reject.
Proof.
  split; [by vm_compute|].
  apply (proj2 (KemP384.suites_disjoint sk0 p384_sk p384_envelope aad0 ctx0 aad0 ctx0 msg)). by vm_compute.
Defined.

Definition fips_envelope : list byte :=
  Eval vm_compute in
  ok_default (WireV2.seal (CB := AwsLc.AwsLcBackend) (K := AwsLc.AwsLcHybridP384MlKem1024Provider (Q := p384))
    rnd0 nonce0 (KemP384.public_key_of p384_sk) msg aad0 ctx0) [].

Lemma builds_interchangeable_witness :
  WireV2.open (CB := RustCryptoBackend (P := primitives)) (K := KemP384.HybridP384MlKem1024Provider (Q := p384))
    p384_sk fips_envelope aad0 ctx0 = Ok msg.
Proof.
  apply (proj1 (proj2 (proj2 (AwsLc.builds_interchangeable p384_sk [] aad0 ctx0 rnd0 nonce0 msg fips_envelope eq_refl)))).
  by vm_compute.
Defined.

(** ** Streams *)

Definition stream_enc : Stream.StreamEncryptor :=
  Eval vm_compute in
  ok_default (Stream.enc_new (P := primitives) rnd0 (Kem.public_key sk0) ctx0)
    {| Stream.enc_key := []; Stream.enc_header := []; Stream.next_index := 0; Stream.finalized := false |}.
Definition chunks0 : list (option (list byte) * list byte) := [(nonce0, msg); (nonce0, aad0)].
Definition cs0 : list (list byte) :=
  Eval vm_compute in ok_default (Stream.encrypt_all (P := primitives) stream_enc aad0 chunks0) [].

Lemma stream_roundtrip_witness :
  exists d, Stream.dec_from_header sk0 (Stream.enc_header stream_enc) ctx0 = Ok d /\
    let '(d', acc) := Stream.decrypt_run d ((fun c => (c, aad0)) <$> cs0) in
    Stream.done_ d' = true /\ (fun x => x.1.2) <$> acc = [msg; aad0].
Proof.
  apply (Stream.stream_roundtrip rnd0 sk0 ctx0 aad0 stream_enc chunks0 cs0).
  - by vm_compute.
  - by repeat constructor.
  - done.
  - by vm_compute.
Defined.

Definition no_stream : StreamV3.EncryptedStreamV3 := StreamV3.mkStream [] [] [].
Definition id0 : list byte := replicate 16 Byte.x2a.
Definition v3_of (chunks : list (list byte)) : StreamV3.EncryptedStreamV3 :=
  ok_default (StreamV3.encrypt_stream_v3 (P := primitives) rnd0 id0 (Kem.public_key sk0) chunks aad0 ctx0) no_stream.
Definition stream3 : StreamV3.EncryptedStreamV3 := Eval vm_compute in v3_of [msg; []; aad0].

Lemma stream_v3_roundtrip_witness :
  StreamV3.decrypt_stream_v3 sk0 (StreamV3.es_header stream3) (StreamV3.frames stream3)
    (StreamV3.es_final_tag stream3) aad0 ctx0 = Ok (msg ++ aad0).
Proof. apply (StreamV3.stream_v3_roundtrip rnd0 id0 sk0 [msg; []; aad0] aad0 ctx0 stream3); by vm_compute. Defined.

Lemma stream_v3_untampered_witness :
  len (StreamV3.frames stream3) = 3 /\
  StreamV3.frames stream3 = StreamV3.frames stream3 /\
  StreamV3.es_final_tag stream3 = StreamV3.es_final_tag stream3 /\ msg ++ aad0 = msg ++ aad0.
Proof.
  split; [done|].
  apply (StreamV3.stream_v3_untampered sk0 (StreamV3.es_header stream3) (StreamV3.frames stream3)
    (StreamV3.frames stream3) (StreamV3.es_final_tag stream3) (StreamV3.es_final_tag stream3) aad0 ctx0
    (msg ++ aad0) (msg ++ aad0)); [by vm_compute|done|by vm_compute].
Defined.

(** Cut after the second frame, the stream is refused whatever the tag. *)
Example truncated_refused :
  StreamV3.decrypt_stream_v3 sk0 (StreamV3.es_header stream3) (take 2 (StreamV3.frames stream3))
    (StreamV3.es_final_tag stream3) aad0 ctx0 = Err reject.
Proof. by vm_compute. Qed.

Definition dec0 : Stream.StreamDecryptor :=
  {| Stream.dec_key := Stream.enc_key stream_enc; Stream.expected_index := 1; Stream.done_ := false |}.
(** The chunks arrive twice and out of order. *)
Definition inputs0 : list (list byte * list byte) :=
  (fun c => (c, aad0)) <$> (rev cs0 ++ cs0 ++ cs0).

Lemma decryptor_accepts_in_order_witness :
  Stream.expected_index (Stream.decrypt_run (P := primitives) dec0 inputs0).1 = 3.
Proof.
  destruct (Stream.decrypt_run (P := primitives) dec0 inputs0) as [d' acc] eqn:E.
  destruct (Stream.decryptor_accepts_in_order dec0 inputs0 d' acc eq_refl eq_refl E) as [H _].
  cbn [fst]. rewrite H. apply (f_equal snd) in E. cbn in E. subst acc. by vm_compute.
Defined.

(** ** Enforcer *)

Definition enf0 : Enforcer.StateEnforcer :=
  Enforcer.register_key (Enforcer.new None None 1).1 "key-1" (Some "domain-a"%string).
Definition draw0 : Enforcer.Draw :=
  {| Enforcer.d_nonce := 77; Enforcer.d_issue := 10 ^ 18; Enforcer.d_stamp := 10 ^ 18 |}.
Definition call0 : Enforcer.call := Enforcer.CEncrypt draw0 "key-1" (Some "domain-a"%string) None.
Definition ctx_enc : Enforcer.AuthorizedContext :=
  Enforcer.context_new (Enforcer.mkToken 77 1) Enforcer.Encrypt "key-1" (Some "domain-a"%string)
    Enforcer.Active (Enforcer.PEncrypt None) (10 ^ 18).

Lemma authorize_iff_witness :
  (exists ctx, (Enforcer.exec enf0 call0).2 = Enforcer.AGrant (Ok ctx)) <->
  Enforcer.key_allowed enf0 "key-1" (Some "domain-a"%string) /\ Enforcer.side_condition enf0 call0.
Proof. apply (Enforcer.authorize_iff enf0 call0 "key-1"). reflexivity. Defined.

Lemma revoked_denied_forever_witness :
  (Enforcer.exec (Enforcer.run (Enforcer.revoke_key enf0 "key-1")
     [Enforcer.CRegister "key-1" None]).1 call0).2 =
  Enforcer.AGrant (Err (Enforcer.InvalidKeyState "Key key-1 is revoked")).
Proof.
  apply (Enforcer.revoked_denied_forever enf0 "key-1" [Enforcer.CRegister "key-1" None] call0).
  reflexivity.
Defined.

Lemma validate_sound_witness :
  exists pre c post d, [call0] = pre ++ c :: post /\ Enforcer.drawn c = Some d /\
    Enforcer.d_nonce d = 77.
Proof.
  destruct (Enforcer.validate_sound enf0 [call0] ctx_enc (10 ^ 18 + 5) (10 ^ 18 + 6))
    as (_ & _ & pre & c & post & d & H1 & H2 & H3 & _); [by vm_compute..|].
  exists pre, c, post, d. done.
Defined.

Lemma capability_one_shot_witness :
  (Enforcer.validate ctx_enc
     (Enforcer.run (Enforcer.validate ctx_enc (Enforcer.exec enf0 call0).1 (10 ^ 18) (10 ^ 18)).1
        [Enforcer.CRevoke "x"]).1 (10 ^ 18) (10 ^ 18)).2 =
  Err "StateEnforcer denied: capability token is invalid or forged"%string.
Proof.
  apply (Enforcer.capability_one_shot (Enforcer.exec enf0 call0).1 ctx_enc (10 ^ 18) (10 ^ 18)
    [Enforcer.CRevoke "x"]); [done|reflexivity|].
  repeat constructor. intros d [=].
Defined.

(** ** Types and hierarchy *)

Lemma lifecycle_table_witness :
  Types.can_encrypt Types.Destroyed = false /\ Types.can_decrypt Types.Destroyed = false.
Proof.
  apply (Types.lifecycle_table Types.Revoked Types.Destroyed); [|by left].
  apply Types.reaches_step with Types.Destroyed; [done|constructor].
Defined.

Lemma material_roundtrip_witness :
  Types.deserialize (Types.serialize (Types.Plaintext "00ff")) = Types.Plaintext "00ff".
Proof. apply (Types.material_roundtrip (Types.Plaintext "00ff")). by split_and!. Defined.

(** ** Audit *)

Definition ev0 : Audit.AuditEvent := Audit.system_event 5 Audit.KeyActivated.
Definition ev1 : Audit.AuditEvent := Audit.with_actor (Audit.system_event 6 Audit.KeyGenerated) "bob".
Definition session1 : Audit.ChainState * list string :=
  Eval vm_compute in default (Audit.chain_new, []) (Audit.session 1000 false Audit.chain_new [] [ev0; ev1]).
Definition session2 : Audit.ChainState * list string :=
  Eval vm_compute in default (Audit.chain_new, []) (Audit.session 1000 false Audit.chain_new session1.2 [ev0]).

Lemma to_json_total e : is_Some (Audit.to_json e).
Proof. by eexists. Defined.

Lemma restart_breaks_chain_witness :
  Audit.verify_chain session2.2 = Audit.ChainBroken 2 2.
Proof.
  apply (Audit.restart_breaks_chain 1000 false [ev0; ev1] session1.1 session1.2 ev0 []
    session2.1 session2.2 to_json_total); by vm_compute.
Defined.

Lemma verifier_blind_spots_witness :
  Audit.verify_chain (take 1 session1.2 ++ default ""%string (Audit.to_json ev0) :: drop 1 session1.2) =
  Audit.ChainIntact 3 (Audit.prev_hash session1.1).
Proof.
  apply (Audit.verifier_blind_spots (take 1 session1.2) (default ""%string (Audit.to_json ev0))
    (drop 1 session1.2) None 2 (Audit.prev_hash session1.1)); by vm_compute.
Defined.



(** ** Replay *)

Definition menv (t : Z) : Replay.MemEnv := {| Replay.me_evict := t; Replay.me_insert := t |}.
Definition fenv (t : Z) : Replay.FileEnv :=
  {| Replay.fe_evict := t; Replay.fe_insert := t; Replay.fe_elapsed := from_secs t; Replay.fe_flush := t;
     Replay.fe_reset := from_secs t; Replay.fe_io := None |}.
Definition fs0 : Replay.FileReplayStore :=
  {| Replay.claims := ∅; Replay.ops_since_flush := 0; Replay.last_flush := from_secs 1000;
     Replay.default_ttl_secs := 500; Replay.disk := Replay.Missing |}.

(** Sixty other claims and a failing flush in between. *)
Definition busy : list (Replay.FileEnv * Replay.fop) :=
  ((fun i => (fenv (1001 + i), Replay.FClaim [Byte.x02; byte_of_Z i] 1)) <$> seqZ 0 60) ++
  [(Replay.mkFileEnv 1070 1070 0 1070 0 (Some "disk full"%string), Replay.FFlush); (fenv 1080, Replay.FRelease [Byte.x03])].

Lemma claimed_once_witness :
  (Replay.memory_claim (menv 30) [Byte.x01] 1
     (Replay.mrun [(menv 20, Replay.MClaim [Byte.x02] 1); (menv 21, Replay.MRelease [Byte.x02])]
        (Replay.memory_claim (menv 10) [Byte.x01] 1 (Replay.memory_new 100)).1)).2 = Ok false /\
  (Replay.file_claim (fenv 1100) [Byte.x01] 1
     (Replay.frun busy (Replay.file_claim (fenv 1000) [Byte.x01] 1 fs0).1)).2 = Ok false.
Proof.
  split.
  - refine (proj1 Replay.claimed_once (menv 10) [Byte.x01] 1 (Replay.memory_new 100) _ _ (menv 30) 1 _ _ _).
    + by vm_compute.
    + by repeat constructor.
    + by vm_compute.
  - refine (proj2 Replay.claimed_once (fenv 1000) [Byte.x01] 1 fs0 _ busy (fenv 1100) 1 _ _ _).
    + by vm_compute.
    + apply Forall_app. split; [|by repeat constructor]. apply Forall_fmap, Forall_forall. intros i Hi%elem_of_seqZ.
      split; [|done]. cbn. unfold Replay.cutoff, saturating_sub. lia.
    + by vm_compute.
Defined.

Lemma replay_preimage_injective_witness :
  "d"%string = "d"%string /\ "k"%string = "k"%string /\ 1 = 1 /\
  replicate 12 Byte.x00 = replicate 12 Byte.x00 /\ @nil byte = [].
Proof.
  apply (Replay.replay_preimage_injective "d" "k" 1 (replicate 12 Byte.x00) []
    "d" "k" 1 (replicate 12 Byte.x00) []); try done; unfold U32_MAX; lia.
Defined.

Lemma crash_loses_at_most_99_witness :
  exists s' lost,
    Replay.restart 1003 0 (Replay.frun [(fenv 1001, Replay.FClaim [Byte.x01] 1);
      (fenv 1002, Replay.FClaim [Byte.x02] 1)] fs0) = Ok s' /\
    Z.of_nat (size (lost : gset (list byte))) <= 99.
Proof.
  destruct (Replay.crash_loses_at_most_99 1000 (from_secs 1000) (from_secs 500) fs0
    [(fenv 1001, Replay.FClaim [Byte.x01] 1); (fenv 1002, Replay.FClaim [Byte.x02] 1)] 1003 0)
    as (s' & lost & H1 & H2 & _).
  - reflexivity.
  - repeat constructor; done.
  - done.
  - exists s', lost. done.
Defined.

Lemma durable_restart_witness :
  exists s', Replay.restart 1003 0 (Replay.force_flush (fenv 1002)
    (Replay.file_claim (fenv 1001) [Byte.x01] 1 fs0).1).1 = Ok s' /\
    Replay.claims s' !! [Byte.x01] = Some 1001.
Proof.
  destruct (Replay.durable_restart 1002 1003 0 (Replay.force_flush (fenv 1002)
    (Replay.file_claim (fenv 1001) [Byte.x01] 1 fs0).1).1) as (s' & H1 & _ & H3).
  - reflexivity.
  - done.
  - exists s'. split; [exact H1|]. apply H3. by vm_compute.
Defined.

(** ** Threat levels and policies *)

Definition a0 : Threat.ThreatAssessor := Threat.assessor_new 0 Threat.default_config.

Lemma level_transition_witness :
  Threat.next_level (Threat.at_level a0 (Threat.next_level a0 (F64.of_Z 16))) (F64.of_Z 16)
  = Threat.next_level a0 (F64.of_Z 16).
Proof. apply (Threat.level_transition a0 (F64.of_Z 16) eq_refl), Threat.default_sane. Defined.

Definition clk : Z * Z * Z * Z := (0, 0, 0, 0).
Definition esc : Threat.ThreatEvent := Threat.event_new 0 Threat.ManualEscalation (F64.of_Z 0).
Definition beat : Threat.ThreatEvent := Threat.event_new 0 Threat.Heartbeat (F64.of_Z 0).
Definition a1 : Threat.ThreatAssessor :=
  Eval vm_compute in default a0 (Threat.exec clk (Threat.OEvent esc) a0).
Definition a2 : Threat.ThreatAssessor :=
  Eval vm_compute in default a0 (Threat.run [(clk, Threat.OEvent beat); (clk, Threat.OQuery)] a1).

Lemma manual_escalation_sticks_witness :
  Threat.value (Threat.current a1) <= Threat.value (Threat.current_level 0 0 0 a2).2.
Proof.
  apply (Threat.manual_escalation_sticks clk esc a0 a1
    [(clk, Threat.OEvent beat); (clk, Threat.OQuery)] a2 0 0 0).
  - reflexivity.
  - by vm_compute.
  - repeat constructor; cbn; congruence.
  - by vm_compute.
Defined.

Definition ver0 : Types.KeyVersion :=
  Types.mkKeyVersion 1 0 "aa" (Types.Plaintext "bb") None None None None.
Definition meta0 : Types.KeyMetadata :=
  Types.mkKeyMetadata "k" "n" Types.DataEncrypting Types.Active None None 0 0 (Some 0) None None None
    [ver0] 1 0 ∅.

Lemma rotation_needed_iff_witness :
  exists v, Policy.evaluate (100 * DAY) (100 * DAY) (Policy.default_dek None) meta0 = Some v /\
    Policy.needs_rotation v = true.
Proof.
  apply (Policy.rotation_needed_iff (100 * DAY) (100 * DAY) (Policy.default_dek None) meta0 0);
    try reflexivity.
  exists [], (from_secs (90 * 86400)), []. split_and!; [done|constructor|by vm_compute].
Defined.

(** Two keys that wrap each other. *)
Definition wrapped_by (p : string) : Types.KeyVersion :=
  Types.mkKeyVersion 1 0 "aa" (Types.CitadelWrapped "ckw:bb") (Some p) (Some 1) None None.
Definition in_cycle (k p : string) : Types.KeyMetadata :=
  Types.mkKeyMetadata k k Types.KeyEncrypting Types.Active None (Some p) 0 0 (Some 0) None None None
    [wrapped_by p] 1 0 ∅.

Lemma validate_reports_cycles_witness :
  exists vs, Hierarchy.validate_wrapping_graph 3 [in_cycle "a" "b"; in_cycle "b" "a"] = Some vs /\
    (Hierarchy.has_cycle vs <-> Hierarchy.cyclic (Hierarchy.by_id [in_cycle "a" "b"; in_cycle "b" "a"])).
Proof.
  destruct (Hierarchy.validate_reports_cycles 3 [in_cycle "a" "b"; in_cycle "b" "a"])
    as (vs & H1 & H2 & _); [cbn; lia|].
  exists vs. split; [exact H1|exact H2].
Defined.

(** ** Assertions *)

Definition issuer0 : Assertion.Issuer := Assertion.mkIssuer "key" 1 (replicate 32 Byte.x07).

Lemma issued_verifies_witness :
  exists a, Assertion.issue_inner 1000 (replicate 16 Byte.x01) issuer0 (j_string "sub") 60 None None None = Ok a /\
    is_ok (Assertion.verify (fun _ => None) (fun _ => "bad hex"%string) 1059 0 0
             (vk_encode (replicate 32 Byte.x07)) a) = true.
Proof.
  eexists. split; [vm_compute; reflexivity|].
  apply (Assertion.issued_verifies (fun _ => None) (fun _ => "bad hex"%string) 1000 (replicate 16 Byte.x01)
    issuer0 (j_string "sub") 60 None None None _ (vk_encode (replicate 32 Byte.x07)) 1059 0 0);
    vm_compute; reflexivity.
Defined.

(** ** The file backend *)

Definition fs_ok : FileBackend.FsEnv := {|
  FileBackend.fe_lock_poisoned := false; FileBackend.fe_umask := 18; FileBackend.fe_write := FileBackend.Written;
  FileBackend.fe_rename := None; FileBackend.fe_open_dir := None; FileBackend.fe_sync_dir := None;
  FileBackend.fe_remove := None; FileBackend.fe_metadata := None; FileBackend.fe_read _ := None;
  FileBackend.fe_readdir := None; FileBackend.fe_entry := None;
  FileBackend.fe_order d := (map_to_list d).*1; FileBackend.fe_order_all d := reflexivity _ |}.
(** The disk is full. *)
Definition fs_full : FileBackend.FsEnv := {|
  FileBackend.fe_lock_poisoned := false; FileBackend.fe_umask := 18;
  FileBackend.fe_write := FileBackend.WriteFails 0 "no space"; FileBackend.fe_rename := Some "no space"%string;
  FileBackend.fe_open_dir := None; FileBackend.fe_sync_dir := None;
  FileBackend.fe_remove := None; FileBackend.fe_metadata := None; FileBackend.fe_read _ := None;
  FileBackend.fe_readdir := None; FileBackend.fe_entry := None;
  FileBackend.fe_order d := (map_to_list d).*1; FileBackend.fe_order_all d := reflexivity _ |}.

Definition dir0 : gmap string FileBackend.File :=
  (FileBackend.run_io (FileBackend.put fs_ok Toy.stored_key) ∅).1.

Lemma stays_private_witness :
  map_Forall (fun _ f => FileBackend.private f = true) dir0 /\
  Forall FileBackend.all_private (FileBackend.overwrite_key_file fs_ok "k" dir0).1.
Proof.
  assert (H : map_Forall (fun _ f => FileBackend.private f = true) dir0)
    by (refine (proj1 (bool_decide_eq_true _) _); by vm_compute).
  split; [exact H|]. apply (FileBackend.stays_private fs_ok Toy.stored_key "k" dir0 H).
Defined.

Lemma failed_destroy_blocks_listings_witness :
  is_ok (FileBackend.list_keys fs_ok dir0) = true /\
  is_ok (FileBackend.list_keys fs_ok (FileBackend.run_io (FileBackend.put fs_full Toy.stored_key)
    (FileBackend.run_io (FileBackend.overwrite_key_file fs_ok "k") dir0).1).1) = false.
Proof.
  split; [by vm_compute|].
  refine (proj1 (FileBackend.failed_destroy_blocks_listings fs_ok fs_full fs_ok "k" Toy.stored_key dir0
    Types.Active "p" _ _ _ _ _ _)).
  - by vm_compute.
  - eexists. split; [vm_compute; reflexivity|done].
  - by vm_compute.
  - done.
  - by vm_compute.
  - done.
Defined.
