(* ===== verification/KeystoreWitnesses.v ===== *)
(** * The keystore's properties at a concrete keystore

    An in-memory keystore with a four-level hierarchy built by its own
    operations, on which each property is applied. *)

From S2P Require Import Prelude.
From S2P Require Import Wire.
From S2P Require Import WireV2.
From S2P Require Import Crypto.
From S2P Require Import Envelope.
From S2P Require Import Enforcer.
From S2P Require Import F64.
From S2P Require Import Types.
From S2P Require Import Hierarchy.
From S2P Require Import Policy.
From S2P Require Import AuditLog.
From S2P Require Import Threat.
From S2P Require Import Storage.
From S2P Require Import Replay.
From S2P Require Import Signer.
From S2P Require Import KeystoreBase.
From S2P Require Import KeystoreWrap.
From S2P Require Import Keystore.
From S2P Require Import KeystoreCrypto.
From S2P Require Import KeystoreSign.
From S2P Require Import KeystoreFrame.
From S2P Require Import KeystoreLaws.
From S2P Require Import KeystoreCascade.
From S2P Require Import KeystoreRuns.
From S2P Require Import KeystoreGates.
From S2P Require Import KeystoreOnce.
From S2P Require Import KeystoreAuth.
From S2P Require Import KeystoreOps.
From S2P Require Import KeystoreSeal.
From S2P Require Import KeystoreKeep.
From S2P Require Import KeystoreRoundtrip.
From S2P Require Import KeystoreAvailable.
From S2P Require Import Examples.
Import Types Keystore KsCrypto KsLaws KsRuns.

#[global] Instance platform : Platform := {
  pf_primitives := Toy.primitives;
  pf_storage := Storage.InMemory;
  pf_replay := Replay.MemoryReplay;
  pf_chrono := Toy.chrono;
  pf_float := Toy.floats;
  pf_hex := Toy.hex;
  pf_digest := Toy.digest32;
  pf_mldsa := Toy.mldsa;
  hex_error _ := "bad hex"%string;
  hkdf_error := "too long"%string;
}.

#[global] Instance platform_laws : PlatformLaws platform.
Proof.
  split; [exact Toy.primitive_laws|exact Storage.InMemory_laws|exact Replay.MemoryReplay_laws|exact Toy.hex_laws
    |exact Toy.mldsa_laws].
Defined.

(** One reading a second; the first random byte is the position. *)
Definition clock (i : nat) : Z := from_secs (Z.of_nat (Nat.min i 250)).
Definition reading_at (i : nat) : Reading := {|
  rd_now := clock i;
  rd_byte := fun j => byte_of_Z (Z.of_nat (Nat.min i 250 + j));
  rd_no_random := false;
  rd_st := ();
  rd_rs := {| Replay.me_evict := clock i; Replay.me_insert := clock i |};
|}.

Definition empty : World := {|
  store := (∅ : gmap string KeyMetadata);
  trail := [];
  threat := Some (Threat.assessor_new 0 Threat.default_config);
  replay := Replay.memory_new (from_secs 86400);
  enforcer := Some (Enforcer.new None None 1).1;
  policies := ∅;
  master_key := Some (replicate 32 Byte.x07);
  env_var := fun _ => None;
  tape := reading_at;
  pos := 0;
|}.

(** Identifiers come from the tape: position of the draw in each generation. *)
Definition id_at (i : nat) : string := hex_encode (rd_bytes (reading_at i) 0 16).
Definition gen_id (t : KeyType) (par : option string) (w : World) : string :=
  match (generate "k" t None par w).2 with Ok k => k | Err _ => "" end.

Definition root_id : string := Eval vm_compute in gen_id Root None empty.
Definition after_root : World := exec (CmdGenerate "root" Root None None) empty.
Definition domain_id : string := Eval vm_compute in gen_id Domain (Some root_id) after_root.
Definition after_domain : World := exec (CmdGenerate "dom" Domain None (Some root_id)) after_root.
Definition kek_id : string := Eval vm_compute in gen_id KeyEncrypting (Some domain_id) after_domain.
Definition after_kek : World := exec (CmdGenerate "kek" KeyEncrypting None (Some domain_id)) after_domain.
Definition dek_id : string := Eval vm_compute in gen_id DataEncrypting (Some kek_id) after_kek.

Definition setup : list command := [
  CmdGenerate "root" Root None None;
  CmdGenerate "dom" Domain None (Some root_id);
  CmdGenerate "kek" KeyEncrypting None (Some domain_id);
  CmdGenerate "dek" DataEncrypting None (Some kek_id);
  CmdActivate root_id; CmdActivate domain_id; CmdActivate kek_id; CmdActivate dek_id;
  CmdEnforcer (Enforcer.CRegister dek_id (Some domain_id))].
(** The worlds along the way are kept evaluated. *)
Ltac frozen w :=
  let s := eval vm_compute in (store w) in
  let l := eval vm_compute in (trail w) in
  let a := eval vm_compute in (threat w) in
  let r := eval vm_compute in (replay w) in
  let e := eval vm_compute in (enforcer w) in
  let p := eval vm_compute in (policies w) in
  let m := eval vm_compute in (master_key w) in
  let n := eval vm_compute in (pos w) in
  exact {| store := s; trail := l; threat := a; replay := r; enforcer := e; policies := p;
           master_key := m; env_var := fun _ => None; tape := reading_at; pos := n |}.

Ltac evaluated := lazymatch goal with |- _ = ?r => vm_cast_no_check (eq_refl r) end.

Definition ready : World := ltac:(frozen (run setup empty)).
Lemma ready_eq : run setup empty = ready.
Proof. evaluated. Qed.

Definition state_of (w : World) (k : string) : option KeyState := state <$> view w !! k.

Example ready_states :
  (state_of ready <$> [root_id; domain_id; kek_id; dek_id]) = replicate 4 (Some Active).
Proof. by vm_compute. Qed.

Definition ready_pos : nat := Eval vm_compute in pos ready.

Lemma empty_wf : wf_view (view empty).
Proof. intros k m Hm. destruct (lookup_empty_Some (M := gmap string) k m Hm). Qed.

Lemma ready_legal : legal empty ready.
Proof. rewrite <- ready_eq. apply run_legal, empty_wf. Qed.
Lemma ready_wf : wf_view (view ready).
Proof. apply (lg_keys _ _ ready_legal), empty_wf. Qed.

(** The identifiers still to be drawn are new. *)
Lemma ready_fresh : fresh_ids ready.
Proof.
  intros i Hi. unfold name_at.
  replace (tape ready i) with (reading_at (Nat.min i 250)).
  2: { rewrite (lg_tape _ _ ready_legal).
       change (reading_at (Nat.min i 250) = reading_at i). unfold reading_at, clock.
       by replace (Nat.min (Nat.min i 250) 250) with (Nat.min i 250) by lia. }
  assert (Hp : (ready_pos <= Nat.min i 250 <= 250)%nat).
  { assert (E : pos ready = ready_pos) by (by vm_compute). rewrite E in Hi. unfold ready_pos in *. lia. }
  assert (G : forallb (fun j => bool_decide (view ready !! id_at j = None)) (seq ready_pos (251 - ready_pos)) = true)
    by (by vm_compute).
  rewrite forallb_forall in G. specialize (G (Nat.min i 250)). apply bool_decide_eq_true in G; [exact G|].
  apply in_seq. lia.
Qed.

Definition msg : list byte := bytes_of_string "attack at dawn".
Definition aad0 : list byte := bytes_of_string "aad".
Definition ctx0 : list byte := bytes_of_string "ctx".

Definition no_blob : EncryptedBlob := mkBlob "" 0 "" 0.
Definition encrypted_world : World := ltac:(frozen (encrypt dek_id msg aad0 ctx0 ready).1).
Definition blob0 : EncryptedBlob := Eval vm_compute in
  match (encrypt dek_id msg aad0 ctx0 ready).2 with Ok b => b | Err _ => no_blob end.
Lemma encrypted_eq : encrypt dek_id msg aad0 ctx0 ready = (encrypted_world, Ok blob0).
Proof. evaluated. Qed.

Example roundtrip : (decrypt blob0 aad0 ctx0 encrypted_world).2 = Ok msg.
Proof. by vm_compute. Qed.

(** ** Lifecycle *)

Definition no_key : KeyMetadata :=
  mkKeyMetadata "" "" Root Pending None None 0 0 None None None None [] 0 0 ∅.
Definition key_in (w : World) (k : string) : KeyMetadata := default no_key (view w !! k).

(** Only the answers are evaluated, not the worlds. *)
Lemma key_in_lookup w k : bool_decide (is_Some (view w !! k)) = true -> view w !! k = Some (key_in w k).
Proof. intros [m Hm]%bool_decide_eq_true. unfold key_in. by rewrite Hm. Qed.
Lemma answers {E A} (m : M E A) w r : (m w).2 = r -> m w = ((m w).1, r).
Proof. intros <-. by destruct (m w). Qed.

Ltac run_answer :=
  match goal with |- ?m ?w = (_, ?r) =>
    let H := fresh in assert (H : (m w).2 = r) by (by vm_compute); exact (answers m w r H) end.

Definition later : list command := [
  CmdRotate dek_id; CmdRevokeCascade 9 kek_id "compromised"; CmdDestroy kek_id;
  CmdActivate dek_id; CmdGenerate "k2" KeyEncrypting None (Some domain_id)].

Lemma lifecycle_sound_witness :
  state (key_in (run later ready) kek_id) = Destroyed /\
  evolves (key_in ready kek_id) (key_in (run later ready) kek_id).
Proof.
  split; [by vm_compute|].
  apply (lifecycle_sound later ready kek_id (key_in ready kek_id) (key_in (run later ready) kek_id)
    ready_wf ready_fresh); apply key_in_lookup; by vm_compute.
Defined.

Definition cascaded : World := ltac:(frozen (revoke_cascade 9 kek_id "compromised" ready).1).
Lemma cascaded_eq : revoke_cascade 9 kek_id "compromised" ready = (cascaded, Ok (Some (1, 1, []))).
Proof. evaluated. Qed.

Lemma revoke_cascade_suspends_witness : KsCascade.is_suspended (view cascaded) dek_id.
Proof.
  destruct (KsCascade.revoke_cascade_suspends 9 kek_id "compromised" ready cascaded
    (Some (1, 1, [])) ready_wf) as (n & errs & [= <- <-] & _ & H).
  - apply Nat.leb_le. by vm_compute.
  - exact cascaded_eq.
  - apply H. apply (KsCascade.below_child _ _ _ _ (key_in ready dek_id)).
    + apply key_in_lookup. by vm_compute.
    + by vm_compute.
    + left. by vm_compute.
    + by vm_compute.
    + set_solver.
Defined.

Definition generated : World := (generate "k" DataEncrypting None (Some kek_id) ready).1.

Lemma generate_requires_witness :
  DataEncrypting <> Signing /\ state_of generated (id_at (ready_pos + 1)) = Some Pending.
Proof.
  split; [|by vm_compute].
  apply (KsOps.generate_requires "k" DataEncrypting None (Some kek_id) ready
    generated (id_at (ready_pos + 1))).
  - unfold generated. run_answer.
  - by vm_compute.
Defined.

Lemma rewrap_under_itself_loses_key_witness :
  exists m' kv', view (rewrap kek_id (Some kek_id) ready).1 !! kek_id = Some m' /\
    current_key_version m' = Some kv'.
Proof.
  destruct (KsOps.rewrap_under_itself_loses_key kek_id (key_in ready kek_id) ready
    (rewrap kek_id (Some kek_id) ready).1) as (m' & kv' & H1 & H2 & _).
  - exact ready_wf.
  - apply key_in_lookup. by vm_compute.
  - by vm_compute.
  - run_answer.
  - exists m', kv'. split; [exact H1|exact H2].
Defined.

(** ** Encryption and decryption *)

Definition decrypted_world : World := ltac:(frozen (decrypt blob0 aad0 ctx0 encrypted_world).1).
Lemma decrypted_eq : decrypt blob0 aad0 ctx0 encrypted_world = (decrypted_world, Ok msg).
Proof. evaluated. Qed.
Definition between : list command := [
  CmdEncrypt dek_id msg aad0 ctx0; CmdDecrypt blob0 ctx0 aad0; CmdRotate dek_id].

Lemma encrypted_legal : legal ready encrypted_world.
Proof. change encrypted_world with (encrypted_world, Ok (E := fault string) blob0).1.
  rewrite <- encrypted_eq. apply KsRuns.legal_encrypt. Qed.

Lemma decrypt_once_witness :
  is_ok (decrypt blob0 aad0 ctx0 (run between decrypted_world)).2 = false.
Proof.
  apply (KsOnce.decrypt_once encrypted_world decrypted_world blob0 aad0 ctx0 msg between blob0 aad0 ctx0).
  - apply (lg_keys _ _ encrypted_legal), ready_wf.
  - intros i Hi. unfold name_at. rewrite (lg_tape _ _ encrypted_legal).
    assert (E : view ready !! hex_encode (rd_bytes (tape ready i) 0 16) = None ->
                view encrypted_world !! hex_encode (rd_bytes (tape ready i) 0 16) = None).
    { assert (Ev : encrypt dek_id msg aad0 ctx0 ready = (encrypted_world, Ok blob0))
        by (unfold encrypted_world; run_answer).
      destruct (KsGates.encrypt_Ok _ _ _ _ _ _ _ Ev) as (m & v & pk & d & ct & D).
      destruct (KsGates.en_counted _ _ _ _ _ _ _ _ _ _ _ _ D) as [t ->].
      pose proof (KsGates.en_key _ _ _ _ _ _ _ _ _ _ _ _ D) as Hm.
      rewrite (wf_id _ _ (ready_wf _ _ Hm)), lookup_insert_None. intros Hn. split; [done|].
      intros E. rewrite <- E in Hn. congruence. }
    apply E, ready_fresh. pose proof (lg_pos _ _ encrypted_legal). lia.
  - exact decrypted_eq.
  - done.
  - intros i j [_ Hij] _. change (saturating_sub (clock j) (clock i) < from_secs 86400).
    unfold saturating_sub, clock, from_secs, NANOS_PER_SEC. lia.
Defined.

(** The capability is granted by the bound enforcer. *)
Definition draw0 : Enforcer.Draw := {| Enforcer.d_nonce := 77; Enforcer.d_issue := clock ready_pos;
  Enforcer.d_stamp := clock ready_pos |}.
Definition granting : list command := [
  CmdEnforcer (Enforcer.CEncrypt draw0 dek_id (Some domain_id) None)].
Definition granted : World := ltac:(frozen (run granting ready)).
Definition grant_of (c : Enforcer.call) (w : World) : option Enforcer.AuthorizedContext :=
  s ← enforcer w;
  match (Enforcer.exec s c).2 with Enforcer.AGrant (Ok a) => Some a | _ => None end.
Definition no_authz : Enforcer.AuthorizedContext :=
  Enforcer.context_new (Enforcer.mkToken 0 0) Enforcer.Verify "" None Enforcer.Pending Enforcer.PVerify 0.
Definition authz_e : Enforcer.AuthorizedContext :=
  default no_authz (grant_of (Enforcer.CEncrypt draw0 dek_id (Some domain_id) None) ready).
Definition blob1 : EncryptedBlob :=
  match (encrypt_authorized authz_e msg aad0 ctx0 granted).2 with Ok b => b | Err _ => no_blob end.

Lemma encrypt_authorized_requires_witness :
  KsGates.in_domain (view granted) dek_id domain_id.
Proof.
  destruct (KsAuth.encrypt_authorized_requires authz_e msg aad0 ctx0 granted
    (encrypt_authorized authz_e msg aad0 ctx0 granted).1 blob1) as (w1 & m & v & pk & d & ct & Ha & _).
  - run_answer.
  - apply (KsAuth.ad_domain _ _ _ _ _ Ha). by vm_compute.
Defined.



Lemma fail_closed_witness :
  (encrypt_authorized authz_e msg aad0 ctx0 (set_enforcer None ready)).1 = set_enforcer None ready.
Proof.
  destruct (KsAuth.fail_closed authz_e blob0 msg aad0 ctx0 (set_enforcer None ready) eq_refl) as [-> _].
  done.
Defined.

Lemma decrypt_errors_uniform_witness :
  exists e, (decrypt blob0 ctx0 aad0 encrypted_world).2 = Err e /\ (e = Fail OPAQUE \/ e = Panic).
Proof.
  exists (Fail OPAQUE). split; [by vm_compute|].
  apply (KsAuth.decrypt_errors_uniform blob0 ctx0 aad0 encrypted_world
    (decrypt blob0 ctx0 aad0 encrypted_world).1 (Fail OPAQUE)). run_answer.
Defined.

(** ** End to end *)

Definition horizon : nat := 240.

Lemma byte_of_Z_inj a b : 0 <= a < 256 -> 0 <= b < 256 -> byte_of_Z a = byte_of_Z b -> a = b.
Proof.
  intros Ha Hb E. apply (f_equal Z_of_byte) in E. rewrite !Z_of_byte_of_Z, !Z.mod_small in E by lia. done.
Qed.

Lemma id_at_ne i j : Nat.min i 250 <> Nat.min j 250 -> id_at i <> id_at j.
Proof.
  unfold id_at. intros Hj E. apply (f_equal (hex_decode (Hex := Toy.hex))) in E.
  rewrite !(hex_decode_encode (H := Toy.hex) (HexLaws := Toy.hex_laws)) in E.
  apply (f_equal (fun o => o ≫= head)) in E. cbn in E. injection E as E.
  apply byte_of_Z_inj in E; lia.
Qed.

Lemma id_at_inj i j : (i < j < horizon)%nat -> id_at i <> id_at j.
Proof. unfold horizon. intros Hj. apply id_at_ne. lia. Qed.

Lemma empty_start : KsKeep.empty_at horizon empty.
Proof. split; [done|]. split; [done|]. intros i j _. exact (id_at_inj i j). Qed.

Definition upkeep : list command := [
  CmdRotate dek_id; CmdRotate kek_id; CmdRewrap dek_id (Some kek_id); CmdRotate domain_id;
  CmdRewrap kek_id (Some domain_id)].
Definition maintained : World := ltac:(frozen (run upkeep encrypted_world)).
Lemma maintained_eq : run upkeep encrypted_world = maintained.
Proof. evaluated. Qed.

Lemma decrypt_returns_plaintext_witness :
  (decrypt blob0 aad0 ctx0 maintained).2 = Ok msg /\ msg = msg.
Proof.
  assert (E : (decrypt blob0 aad0 ctx0 maintained).2 = Ok msg) by (by vm_compute). split; [exact E|].
  apply (KsRoundtrip.decrypt_returns_plaintext horizon empty setup upkeep dek_id msg aad0 ctx0
    encrypted_world blob0 (decrypt blob0 aad0 ctx0 maintained).1 msg empty_start); rewrite ?maintained_eq.
  - rewrite ready_eq. exact encrypted_eq.
  - exact (answers _ _ _ E).
  - apply Nat.leb_le. by vm_compute.
Defined.

Definition chain : KeyVersion -> bool := KsAvailable.chain_within 5 (view maintained).

Lemma decrypt_available_witness : exists w2, decrypt blob0 aad0 ctx0 maintained = (w2, Ok msg).
Proof.
  rewrite <- maintained_eq.
  apply (KsAvailable.decrypt_available horizon empty setup upkeep dek_id msg aad0 ctx0
    encrypted_world blob0 (key_in maintained dek_id) domain_id
    (check_cryptoperiod dek_id (key_in maintained dek_id) (advance maintained)).1 empty_start);
    rewrite ?maintained_eq.
  - rewrite ready_eq. exact encrypted_eq.
  - apply Nat.leb_le. by vm_compute.
  - intros i _ k st. reflexivity.
  - apply key_in_lookup. by vm_compute.
  - by vm_compute.
  - intros kv Hkv.
    assert (E : chain <$> get_version (key_in maintained dek_id) (key_version blob0) = Some true) by (by vm_compute).
    rewrite Hkv in E. by injection E.
  - by vm_compute.
  - run_answer.
  - intros e ct nonce _ _. reflexivity.
Defined.

(** A signing key in the same hierarchy. *)
Definition signing : command := CmdGenerateSigning "signer" None kek_id.
Definition sig_id : string :=
  Eval vm_compute in match (KsSign.generate_signing_key "signer" None kek_id ready).2 with Ok k => k | Err _ => "" end.
Definition signer_cmds : list command := setup ++ [signing; CmdActivate sig_id].
Definition signer_ready : World := ltac:(frozen (run [signing; CmdActivate sig_id] ready)).
Lemma signer_ready_eq : run signer_cmds empty = signer_ready.
Proof. unfold signer_cmds. rewrite run_commands_app, ready_eq. evaluated. Qed.
Definition signed_world : World := ltac:(frozen (KsSign.sign sig_id msg signer_ready).1).
Definition no_sig : KsSign.SignedPayload := KsSign.mkSigned "" 0 "" 0.
Definition sig0 : KsSign.SignedPayload := Eval vm_compute in
  match (KsSign.sign sig_id msg signer_ready).2 with Ok s => s | Err _ => no_sig end.
Lemma signed_eq : KsSign.sign sig_id msg signer_ready = (signed_world, Ok sig0).
Proof. evaluated. Qed.
Definition kept : World := ltac:(frozen (run upkeep signed_world)).
Lemma kept_eq : run upkeep signed_world = kept.
Proof. evaluated. Qed.

Lemma signature_verifies_witness :
  (KsSign.verify_signature sig_id msg sig0 kept).2 = Ok true /\ true = true.
Proof.
  assert (E : (KsSign.verify_signature sig_id msg sig0 kept).2 = Ok true) by (by vm_compute).
  split; [exact E|].
  apply (KsRoundtrip.signature_verifies horizon empty signer_cmds upkeep sig_id msg signed_world sig0
    (KsSign.verify_signature sig_id msg sig0 kept).1 true empty_start); rewrite ?kept_eq.
  - rewrite signer_ready_eq. exact signed_eq.
  - exact (answers _ _ _ E).
  - apply Nat.leb_le. by vm_compute.
Defined.

Definition rotated_signer : World := ltac:(frozen (rotate sig_id signer_ready).1).
Lemma rotated_eq : rotate sig_id signer_ready = (rotated_signer, Ok sig_id).
Proof. evaluated. Qed.

Lemma rotate_bricks_signing_key_witness :
  state_of rotated_signer sig_id = Some Active /\
  KsSign.sign sig_id msg (run [] rotated_signer) <>
    ((KsSign.sign sig_id msg (run [] rotated_signer)).1, Ok no_sig).
Proof.
  split; [by vm_compute|].
  apply (KsRoundtrip.rotate_bricks_signing_key horizon empty signer_cmds [] sig_id rotated_signer sig_id
    (key_in signer_ready sig_id) msg (KsSign.sign sig_id msg (run [] rotated_signer)).1 no_sig empty_start);
    rewrite ?signer_ready_eq.
  - apply key_in_lookup. by vm_compute.
  - by vm_compute.
  - exact rotated_eq.
  - apply Nat.leb_le. by vm_compute.
Defined.
