(* ===== verification/MigrationWitnesses.v ===== *)
(** * A migration at a concrete keystore

    A data key generated without a parent in a development environment is
    migrated, and rotated afterwards. *)

From S2P Require Import Prelude.
From S2P Require Import F64.
From S2P Require Import Types.
From S2P Require Import Hierarchy.
From S2P Require Import Storage.
From S2P Require Import KeystoreBase.
From S2P Require Import KeystoreWrap.
From S2P Require Import Keystore.
From S2P Require Import Migration.
From S2P Require Import KeystoreLaws.
From S2P Require Import KeystoreRuns.
From S2P Require Import MigrationLaws.
From S2P Require Import Examples.
From S2P Require Import KeystoreWitnesses.
Import Types Keystore KsLaws KsRuns Migration.

Definition development : World := {|
  store := store empty; trail := []; threat := threat empty; replay := replay empty;
  enforcer := enforcer empty; policies := ∅; master_key := master_key empty;
  env_var := fun x => if bool_decide (x = "CITADEL_ALLOW_FLAT_DEKS"%string) then Some "1"%string
                      else if bool_decide (x = "CITADEL_ENV"%string) then Some "development"%string else None;
  tape := reading_at; pos := 0;
|}.

Definition flat_id : string :=
  Eval vm_compute in match (generate "dek" DataEncrypting None None development).2 with Ok k => k | Err _ => "" end.
(** The process of the command line has no development variables. *)
Definition flat : World :=
  ltac:(frozen (run [CmdGenerate "dek" DataEncrypting None None; CmdActivate flat_id] development)).
Definition migrated : World :=
  ltac:(frozen (cmd_hierarchy (E := KeystoreError) (Ok ()) false true "root" "dom" "kek" flat).1).
Lemma migrated_eq : cmd_hierarchy (E := KeystoreError) (Ok ()) false true "root" "dom" "kek" flat = (migrated, Ok 0).
Proof. evaluated. Qed.

Definition parent_of (w : World) (k : string) : option string := view w !! k ≫= Hierarchy.parent_ref.

Example wrapped_by_kek : (bool_decide (is_Some (parent_of migrated flat_id)), bool_decide (parent_of flat flat_id = None))
  = (true, true).
Proof. by vm_compute. Qed.

Lemma flat_wf : wf_view (view flat).
Proof.
  assert (E : view flat = view (run [CmdGenerate "dek" DataEncrypting None None; CmdActivate flat_id] development))
    by evaluated.
  rewrite E. apply (lg_keys _ _ (run_legal _ development empty_wf)), empty_wf.
Qed.

Lemma flat_position : (0 < pos flat)%nat /\ (pos migrated <= horizon)%nat.
Proof. split; [apply Nat.ltb_lt|apply Nat.leb_le]; by vm_compute. Qed.

(** The only key was drawn first. *)
Lemma flat_view : view flat = {[ id_at 0 := key_in flat flat_id ]}.
Proof. evaluated. Qed.

Lemma flat_fresh : fresh_ids flat.
Proof.
  intros i Hi. change (name_at flat i) with (id_at i). rewrite flat_view.
  apply lookup_singleton_ne, id_at_ne. destruct flat_position. lia.
Qed.

Lemma flat_supply : MigrationLaws.supply horizon flat.
Proof. intros i Hi HN. split; [by apply flat_fresh|]. intros j Hj. exact (id_at_inj i j Hj). Qed.

Definition opts0 : MigrationOptions := mkOptions "root" "dom" "kek" true true.
Definition listed : list KeyMetadata := (map_to_list (view migrated)).*2.
Definition plan_after : MigrationPlan :=
  match plan_migration (E := KeystoreError) listed opts0 0 with Ok p => p | Err _ => mkPlan [] [] [] 0 end.

Lemma migration_settles_witness : length listed = 4%nat /\ is_empty plan_after = true.
Proof.
  split; [by vm_compute|].
  apply (MigrationLaws.migration_settles (E := KeystoreError) horizon (Ok ()) "root" "dom" "kek" flat migrated flat_wf flat_supply
    (proj2 flat_position)) with (e := ()) (l := listed) (t := 0).
  - done.
  - intros i s. reflexivity.
  - exact migrated_eq.
  - reflexivity.
  - evaluated.
Defined.

Definition rotated_world : World := (rotate flat_id migrated).1.

Lemma rotation_undoes_migration_witness :
  exists m', view rotated_world !! flat_id = Some m' /\ Hierarchy.parent_ref m' = None /\
    (key_type (key_in flat flat_id) = DataEncrypting -> to_migrate default_options m').
Proof.
  assert (E : run [CmdMigrate (Ok ()) false true "root" "dom" "kek"] flat = migrated).
  { cbn [run exec]. by rewrite migrated_eq. }
  apply (MigrationLaws.rotation_undoes_migration [CmdMigrate (Ok ()) false true "root" "dom" "kek"] flat flat_id
    (key_in flat flat_id) rotated_world flat_id flat_wf); rewrite ?E.
  - apply flat_fresh.
  - apply key_in_lookup. by vm_compute.
  - by vm_compute.
  - intros m1 Hm1. assert (Hl : length ∘ versions <$> view migrated !! flat_id = Some 1%nat) by (by vm_compute).
    rewrite Hm1 in Hl. injection Hl as Hl. rewrite Hl. lia.
  - unfold rotated_world. run_answer.
Defined.

(** With one name for the root and the key-encryption key, of which only the
    latter is there, the command reports success and migrates nothing. *)
Definition second_id : string :=
  Eval vm_compute in match (generate "dek2" DataEncrypting None None
    (set_store (store migrated) {| store := store development; trail := []; threat := threat empty; replay := replay empty;
       enforcer := enforcer empty; policies := ∅; master_key := master_key empty; env_var := env_var development;
       tape := reading_at; pos := pos migrated |})).2 with Ok k => k | Err _ => "" end.
Definition second : World := ltac:(frozen
  (run [CmdGenerate "dek2" DataEncrypting None None; CmdActivate second_id]
    {| store := store migrated; trail := []; threat := threat empty; replay := replay empty;
       enforcer := enforcer empty; policies := ∅; master_key := master_key empty; env_var := env_var development;
       tape := reading_at; pos := pos migrated |})).
Definition clash : World * result (fault KeystoreError) Z := cmd_hierarchy (Ok ()) false true "kek" "dom" "kek" second.

Example shared_name_migrates_nothing : (clash.2, parent_of clash.1 second_id) = (Ok 0, None).
Proof. by vm_compute. Qed.
