(* ===== verification/SystemWitnesses.v ===== *)
(** * Storage, custody and configuration at concrete inputs *)

From S2P Require Import Prelude.
From S2P Require Import Types.
From S2P Require Import F64.
From S2P Require Import Hierarchy.
From S2P Require Import AuditLog.
From S2P Require Import Threat.
From S2P Require Import Policy.
From S2P Require Import Storage.
From S2P Require Import FileStore.
From S2P Require Import Backup.
From S2P Require Import Replay.
From S2P Require Import Text.
From S2P Require Import RootKey.
From S2P Require Import Anchors.
From S2P Require Import KeystoreBase.
From S2P Require Import KeystoreWrap.
From S2P Require Import Keystore.
From S2P Require Import KeystoreSign.
From S2P Require Import Migration.
From S2P Require Import Graph.
From S2P Require Import Doctor.
From S2P Require Import KeystoreLaws.
From S2P Require Import KeystoreRuns.
From S2P Require Import KeystoreInit.
From S2P Require Import Cli.
From S2P Require Import EncryptTool.
From S2P Require Import Examples.
From S2P Require Import Witnesses.
From S2P Require Import KeystoreWitnesses.

(** ** The file backend *)

Lemma stored_tagged : Types.all_tagged Toy.stored_key.
Proof. by apply Forall_singleton. Qed.

Lemma put_atomic_witness :
  (FileBackend.run_io (FileBackend.put fs_ok Toy.stored_key) dir0).2 = Ok () /\
  length (FileBackend.put fs_ok Toy.stored_key dir0).1 = 3%nat /\
  Forall (fun d' => FileBackend.view d' = FileBackend.view dir0
      \/ FileBackend.view d' = <[ "k"%string := Toy.stored_key ]> (FileBackend.view dir0))
    (FileBackend.put fs_ok Toy.stored_key dir0).1.
Proof.
  split; [by vm_compute|]. split; [by vm_compute|]. exact (proj1 (FileBackend.put_atomic fs_ok Toy.stored_key dir0 stored_tagged)).
Defined.

(** ** Backups *)

Definition backup0 : list byte :=
  match Backup.create_backup "" 7 9 (replicate 12 Byte.x03) [Toy.stored_key] (replicate 32 Byte.x07) with
  | Ok b => b
  | Err _ => []
  end.

Lemma backup_roundtrip_witness :
  take 8 backup0 = Backup.BACKUP_MAGIC ++ [Backup.BACKUP_VERSION] /\ Backup.restore_backup "" backup0 (replicate 32 Byte.x07) = Ok [Toy.stored_key] /\
  is_ok (Backup.restore_backup "" backup0 (replicate 32 Byte.x08)) = false.
Proof.
  split; [by vm_compute|]. split; [|by vm_compute].
  refine (proj1 (Backup.backup_roundtrip "" 7 9 (replicate 12 Byte.x03) [Toy.stored_key] (replicate 32 Byte.x07)
    backup0 _ _ _ _)); [by apply Forall_singleton, stored_tagged|lia|done|by vm_compute].
Defined.

(** ** The key graph: one tree, and two keys on a cycle *)

Definition graph_key (k : string) (p : option string) : Types.KeyMetadata :=
  Types.mkKeyMetadata k "name" Types.DataEncrypting Types.Active None p 0 0 None None None None [] 1 0 ∅.
Definition graph_keys : list Types.KeyMetadata :=
  [graph_key "a" None; graph_key "b" (Some "a"%string); graph_key "c" (Some "d"%string); graph_key "d" (Some "c"%string)].

Lemma forest_shows_grounded_witness :
  exists g, Graph.build 4 graph_keys = Ok g /\ Graph.total_keys g = 4%nat /\
    concat (map Graph.flatten (Graph.roots g)) = ["a"; "b"]%string /\ ~ Graph.grounded graph_keys (graph_key "c" (Some "d"%string)).
Proof.
  destruct (Graph.forest_shows_grounded (HO := Toy.hash_order) graph_keys 4) as (g & Hg & Ht & _ & _ & Hk).
  - by apply (bool_decide_unpack _).
  - apply Forall_forall. by repeat constructor.
  - done.
  - assert (E : concat (map Graph.flatten (Graph.roots g)) = ["a"; "b"]%string).
    { revert Hg. vm_compute. by intros [= <-]. }
    exists g. split_and!; [done..|]. rewrite <- Hk by (unfold graph_keys; set_solver). rewrite E. cbn.
    by apply (bool_decide_unpack _).
Defined.

(** ** Diagnostics *)

Definition tree_key (k : string) (t : Types.KeyType) (s : Types.KeyState) (p : option string) : Types.KeyMetadata :=
  Types.mkKeyMetadata k k t s None p 0 0 None None None None
    [Types.mkKeyVersion 1 0 "" (Types.CitadelWrapped "00") p None None None] 1 0 ∅.
Definition tree (s : Types.KeyState) : list Types.KeyMetadata :=
  [tree_key "r" Types.Root s None; tree_key "d" Types.Domain Types.Active (Some "r"%string);
   tree_key "k" Types.KeyEncrypting Types.Active (Some "d"%string)].

Definition doctor_env (x : string) : option string :=
  if bool_decide (x = "CITADEL_MASTER_KEY"%string) then Some (hex_encode (replicate 32 Byte.x07))
  else if bool_decide (x = "CITADEL_REPLAY_STORE"%string) then Some "file"%string else None.
Definition machine : Doctor.Machine :=
  Doctor.mkMachine "data" (fun _ => Doctor.Mode 16832) false (fun _ => ""%string) (fun _ => 0) (fun _ => 0).
Definition green_report : list Doctor.DoctorCheck :=
  match Doctor.run doctor_env machine (Some (tree Types.Active)) with Some (r, _) => r | None => [] end.

Lemma doctor_green_witness :
  length green_report = 14%nat /\ Doctor.healthy (tree Types.Active) (tree_key "k" Types.KeyEncrypting Types.Active (Some "d"%string)).
Proof.
  split; [by vm_compute|].
  destruct (Doctor.doctor_green doctor_env machine (Some (tree Types.Active)) green_report)
    as (keys & E & _ & _ & _ & _ & _ & _ & _ & H & _); [by vm_compute|].
  injection E as <-. apply H. by right; right; left.
Defined.

Lemma ranked_tree s : Doctor.ranked (tree s).
Proof.
  intros k p Hk (pid & Hp & Hl). unfold tree in Hk.
  repeat (apply elem_of_cons in Hk as [->|Hk]; [cbn in Hp; simplify_eq; vm_compute in Hl; by simplify_eq|]).
  by apply elem_of_nil in Hk.
Qed.

(** The root revoked, both keys below it are reported, the second one at distance two. *)
Lemma split_state_exact_witness :
  Doctor.status (Doctor.check_no_active_children_under_revoked (tree Types.Revoked)) = Doctor.Fail /\
  ~ (forall k a, k ∈ tree Types.Revoked -> Doctor.in_use k ->
       tc (Doctor.parent (Hierarchy.by_id (tree Types.Revoked))) k a -> ~ Doctor.dead a).
Proof.
  split; [by vm_compute|]. intros H.
  by apply (proj2 (Doctor.split_state_exact (tree Types.Revoked) (ranked_tree Types.Revoked))) in H.
Defined.

(** A key whose first version is in plaintext passes, once it has a second one. *)
Definition half_wrapped : Types.KeyMetadata :=
  Types.mkKeyMetadata "k" "k" Types.Root Types.Active None None 0 0 None None None None
    [Types.mkKeyVersion 1 0 "" (Types.Plaintext "00") None None None None;
     Types.mkKeyVersion 2 0 "" (Types.Encrypted "enc:00") None None None None] 2 0 ∅.
Example old_plaintext_passes : Doctor.status (Doctor.check_no_plaintext_keys [half_wrapped]) = Doctor.Pass.
Proof. by vm_compute. Qed.

(** A store that cannot be read is reported like an empty one. *)
Example unreadable_store_is_fresh : Doctor.run doctor_env machine None = Doctor.run doctor_env machine (Some []).
Proof. done. Qed.

(** ** Custody *)

Lemma load_root_key_iff_witness :
  let dir := RootKey.mkMeta RootKey.Directory 448 1000 4096 2 in
  let file := RootKey.mkMeta RootKey.Regular 384 1000 32 1 in
  let key := (fun i => byte_of_Z (i * i)) <$> seqZ 1 32 in
  let os m := RootKey.mkOs (Some ("/keys"%string, Ok dir)) (Ok ("Uid:" +:+ " 1 1000 1" +:+ Text.newline)) (Ok ()) (Ok m)
    key None [] (Ok ()) (Ok ()) in
  RootKey.load_root_key "/keys/root" (os file) = Ok key /\
  is_ok (RootKey.load_root_key "/keys/root" (os (RootKey.mkMeta RootKey.Regular 416 1000 32 1))) = false /\
  RootKey.private_file file 1000.
Proof.
  intros dir file key os.
  assert (H : RootKey.load_root_key "/keys/root" (os file) = Ok key) by (by vm_compute).
  split; [exact H|]. split; [by vm_compute|].
  destruct (proj1 (RootKey.load_root_key_iff _ _ _) H) as ((d & md & mf & eu & _ & _ & E1 & E2 & _ & Hp) & _).
  injection E1 as <-. vm_compute in E2. injection E2 as <-. exact Hp.
Defined.

Definition anchor_env : Anchors.Env := Anchors.mkEnv "now" None None None.
Definition anchor_file : option string := (Anchors.file_publish "r" anchor_env 0 [Byte.x01] None).1.

Lemma readable_none : Anchors.readable None.
Proof. split; [done|]. constructor. Qed.

(** An entry number that a restarted log uses again keeps its first hash. *)
Lemma verify_published_witness :
  Anchors.file_verify anchor_env 0 [Byte.x01] anchor_file = Ok true /\
  Anchors.file_verify anchor_env 0 [Byte.x02] (Anchors.file_publish "r" anchor_env 0 [Byte.x02] anchor_file).1 = Ok false.
Proof.
  assert (H : forall f, Anchors.file_publish "r" anchor_env 0 [Byte.x01] f
     = ((Anchors.file_publish "r" anchor_env 0 [Byte.x01] f).1, Ok (Anchors.mkReceipt 0 "01" "now" "file:r" "fsync-0")))
    by done.
  split.
  - etransitivity; [apply (Anchors.verify_published _ _ _ _ _ _ _ anchor_env [Byte.x01] readable_none (H None) eq_refl)|].
    by vm_compute.
  - assert (H2 : Anchors.file_publish "r" anchor_env 0 [Byte.x02] anchor_file
     = ((Anchors.file_publish "r" anchor_env 0 [Byte.x02] anchor_file).1,
        Ok (Anchors.mkReceipt 0 "02" "now" "file:r" "fsync-0"))) by done.
    etransitivity; [apply (Anchors.verify_published _ _ _ _ _ _ _ anchor_env [Byte.x02]
      (Anchors.readable_publish _ _ _ _ _ _ _ readable_none (H None)) H2 eq_refl)|].
    by vm_compute.
Defined.

(** ** A keystore without a master key *)

Definition process0 (env : string -> option string) : KsInit.Process := {|
  KsInit.p_store := store empty; KsInit.p_trail := []; KsInit.p_env := env;
  KsInit.p_tape := reading_at; KsInit.p_pos := 0;
|}.
Definition key_text : string := "0707070707070707070707070707070707070707070707070707070707070707".

Lemma no_master_key_fails_closed_witness :
  let short v := fun x => if bool_decide (x = "CITADEL_MASTER_KEY"%string) then Some v else None in
  let with_key v := (KsInit.new (process0 (short v)) (Replay.memory_new (from_secs 86400))).1 in
  is_ok (Keystore.generate "root" Types.Root None None (with_key key_text)).2 = true /\
  is_ok (Keystore.generate "root" Types.Root None None (with_key "0707"%string)).2 = false.
Proof.
  intros short with_key. split; [by vm_compute|].
  refine (proj1 (KsInit.no_master_key_fails_closed (process0 (short "0707"%string)) _ [] "root" Types.Root None None "k" _ _ _)).
  - exact empty_wf.
  - by vm_compute.
  - done.
Defined.

(** ** The command line *)

Definition cli_key : Types.KeyMetadata :=
  Types.mkKeyMetadata "k" "name" Types.Root Types.Active None None 0 0 None None None None
    [Types.mkKeyVersion 1 0 "" (Types.Encrypted "enc:00") None None None None] 1 0 ∅.
Definition cli_env (x : string) : option string :=
  if bool_decide (x = "CITADEL_MASTER_KEY"%string) then Some key_text else None.
Definition cli_host (s : gmap string Types.KeyMetadata) : Cli.Host :=
  Cli.mkHost (Ok ()) false (KsInit.mkProcess (s : st_state) [] cli_env reading_at 0)
    (Replay.memory_new (from_secs 86400)) (fun _ => ()).
Definition one_key : gmap string Types.KeyMetadata := {[ "k"%string := cli_key ]}.

Lemma one_key_wf : KsLaws.wf_view one_key.
Proof. intros k m H. unfold one_key in H. apply lookup_singleton_Some in H as [<- <-]. by split. Qed.

Lemma one_key_tagged : map_Forall (fun _ => Types.all_tagged) one_key.
Proof.
  apply map_Forall_singleton. unfold Types.all_tagged. apply Forall_singleton.
  reflexivity.
Qed.

Definition last_days : list (Cli.Host * Cli.KeyAction) :=
  [(cli_host ∅, Cli.Revoke "k" "lost"); (cli_host ∅, Cli.Destroy "k" true); (cli_host ∅, Cli.Rotate "k");
   (cli_host ∅, Cli.Generate "new" "ROOT" None None true)].

Lemma cli_sessions_sound_witness :
  size (st_view (Cli.session last_days (one_key : st_state, [])).1) = 2%nat /\
  exists m', st_view (Cli.session last_days (one_key : st_state, [])).1 !! "k"%string = Some m' /\
    Types.state m' = Types.Destroyed /\ KsLaws.evolves cli_key m'.
Proof.
  split; [by vm_compute|].
  assert (E : Types.state <$> st_view (Cli.session last_days (one_key : st_state, [])).1 !! "k"%string = Some Types.Destroyed)
    by (by vm_compute).
  destruct (st_view _ !! _) as [m'|] eqn:Em; [|done]. injection E as E. exists m'. split; [done|]. split; [done|].
  refine (proj1 (Cli.cli_sessions_sound last_days (one_key : st_state) [] "k" cli_key m' one_key_wf _ eq_refl Em)).
  repeat constructor; intros i Hi; apply (f_equal String.length) in Hi; by rewrite length_hex_encode in Hi.
Defined.

Definition cli_backup : option (list byte) * Z :=
  Cli.cmd_create (BJ := Toy.one_key_json cli_key) (cli_host one_key) 7 9 (replicate 12 Byte.x03) (Ok ()).
Definition cli_data : list byte := match cli_backup.1 with Some d => d | None => [] end.
Definition cli_restored : st_state * Z :=
  Cli.cmd_restore (BJ := Toy.one_key_json cli_key) (cli_host ∅) (Ok cli_data) false false.

Lemma disaster_recovery_witness : cli_backup.2 = 0 /\ st_view cli_restored.1 = one_key.
Proof.
  split; [by vm_compute|].
  refine (Cli.disaster_recovery (BJ := Toy.one_key_json cli_key) (BL := Toy.one_key_json_laws cli_key)
    (cli_host one_key) 7 9 (replicate 12 Byte.x03) (Ok ()) cli_data (cli_host ∅) cli_restored.1 one_key_wf one_key_tagged _ _ _ _ _ _);
    try done; by vm_compute.
Defined.

(** A restore in which every key conflicts still ends with exit code 0. *)
Example conflict_exits_0 :
  Cli.cmd_restore (BJ := Toy.one_key_json cli_key) (cli_host one_key) (Ok cli_data) false false = ((one_key : st_state), 0).
Proof. by vm_compute. Qed.

(** ** The file encryption tool *)

Definition tool_env : EncryptTool.Env := EncryptTool.mkEnv 18 (fun _ => None) (fun _ => EncryptTool.Written).
Definition tool_draws : EncryptTool.Draws :=
  EncryptTool.mkDraws (Some (replicate 32 Byte.x01, replicate 32 Byte.x02)) (Some (replicate 32 Byte.x03), Some (replicate 32 Byte.x04))
    (Some (replicate 12 Byte.x05)).
Definition tool (args : list string) (d : gmap string EncryptTool.File) : gmap string EncryptTool.File * Z :=
  EncryptTool.main id tool_env tool_draws ("citadel" :: args)%string d.

(** Generate keys, seal a file and open it: the three exit codes and the content of the file opened. *)
Definition tool_session (f : string) : Z * Z * Z * option (list byte) * option (list byte) :=
  let d0 := {[ f := EncryptTool.mkFile (bytes_of_string "letter") 384; "x"%string := EncryptTool.mkFile [Byte.x07] 384 ]} in
  let '(d1, c1) := tool ["keygen"; "--name"; "me"]%string d0 in
  let '(d2, c2) := tool ["seal"; "--key"; "me.pub"; "--in"; f]%string d1 in
  let '(d3, c3) := tool ["open"; "--in"; f +:+ ".ctd"; "--key"; "me.sec"]%string (delete f d2) in
  (c1, c2, c3, EncryptTool.content <$> d3 !! f, EncryptTool.content <$> d3 !! "x"%string).

Example tool_opens_what_it_sealed :
  tool_session "letter.txt" = (0, 0, 0, Some (bytes_of_string "letter"), Some [Byte.x07]).
Proof. by vm_compute. Qed.

(** Sealing and opening [x.ctd] does not restore it, and overwrites [x]. *)
Example tool_overwrites_another_file :
  tool_session "x.ctd" = (0, 0, 0, None, Some (bytes_of_string "letter")).
Proof. by vm_compute. Qed.
