(* ===== verification/ApiWitnesses.v ===== *)
(** * The server at concrete inputs *)

From S2P Require Import Prelude.
From S2P Require Import Crypto.
From S2P Require Import Types.
From S2P Require Import F64.
From S2P Require Import Hierarchy.
From S2P Require Import Enforcer.
From S2P Require Import AuditLog.
From S2P Require Import Threat.
From S2P Require Import Policy.
From S2P Require Import RootKey.
From S2P Require Import Storage.
From S2P Require Import Replay.
From S2P Require Import Signer.
From S2P Require Import KeystoreBase.
From S2P Require Import KeystoreWrap.
From S2P Require Import Keystore.
From S2P Require Import KeystoreCrypto.
From S2P Require Import KeystoreSign.
From S2P Require Import KeystoreLaws.
From S2P Require Import KeystoreCascade.
From S2P Require Import KeystoreRuns.
From S2P Require Import KeystoreGates.
From S2P Require Import KeystoreInit.
From S2P Require Import ApiBase.
From S2P Require Import ApiKeys.
From S2P Require Import ApiLimit.
From S2P Require Import Api.
From S2P Require Import ApiServer.
From S2P Require Import ApiStart.
From S2P Require Import ApiBoot.
From S2P Require Import ApiLaws.
From S2P Require Import ApiAccess.
From S2P Require Import Examples.
From S2P Require Import Witnesses.
From S2P Require Import KeystoreWitnesses.
From S2P Require Import SystemWitnesses.
Import ApiBase.

(** ** The parameters *)

Definition packed : Type :=
  (string * string * string * list string * string * bool * option string * option (list string))%type.
Definition pack (e : ApiKeys.ApiKeyEntry) : packed :=
  (ApiKeys.id e, ApiKeys.name e, ApiKeys.key_hash e, as_str <$> ApiKeys.en_scopes e, ApiKeys.created_at e,
   ApiKeys.active e, ApiKeys.last_used e, ApiKeys.en_allowed_domains e).
Definition unpack (p : packed) : ApiKeys.ApiKeyEntry :=
  let '(i, n, h, s, c, a, l, d) := p in ApiKeys.mkEntry i n h (omap from_str s) c a l d.

Lemma unpack_pack e : unpack (pack e) = e.
Proof.
  destruct e as [i n h s c a l d]. cbn. f_equal. induction s as [|x s IH]; [done|]. destruct x; cbn; by rewrite IH.
Qed.

#[global] Instance store_json : ApiKeys.StoreJson := {
  to_string_pretty l := Ok (Toy.bits (encode (pack <$> l)));
  store_from_str s :=
    match decode (Toy.unbits s) with Some l => Ok (unpack <$> l) | None => Err "not JSON"%string end;
}.
#[global] Instance store_json_laws : ApiKeys.StoreJsonLaws store_json.
Proof.
  split. intros l s [= <-]. cbn. rewrite Toy.unbits_bits, decode_encode. f_equal.
  induction l as [|e l IH]; [done|]. cbn [fmap list_fmap]. by rewrite unpack_pack, IH.
Qed.

Definition no_failure : ApiKeys.SaveEnv := ApiKeys.mkSaveEnv None None None None None.
Definition hash0 (key : string) : option (list byte) := Some (Toy.pad 32 (bytes_of_string key)).
Definition mint (b : byte) : ApiKeys.Minted := ApiKeys.mkMinted (replicate 32 b) (replicate 8 b) "now".
Definition scoped (l : list Scope) (d : string) : AuthContext := mkAuth "ck" "scoped" l (Some [d]).
Definition global : AuthContext := mkAuth "ck_bootstrap" "bootstrap-admin" [Admin] None.

(** ** The store of API keys *)

Definition boot_env (x : string) : option string :=
  if bool_decide (x = "CITADEL_API_KEY"%string) then Some "secret"%string else None.
Definition boot : ApiKeys.Control :=
  match ApiKeys.bootstrap_api_keys boot_env hash0 "now" no_failure None "/data" None with
  | Ok c => c
  | Err _ => ApiKeys.mkControl [] None
  end.
Definition creating (b : byte) (auth : AuthContext) (l : list string) (ds : option (list string)) : ApiKeys.request :=
  ApiKeys.RCreate hash0 (mint b) no_failure "/data/api-keys.json" auth (Build_CreateApiKeyReq "k" l ds).

Lemma global_access_is_admin_witness :
  length (ApiKeys.keys (ApiKeys.run [creating Byte.x01 global ["read"]%string None;
                                      creating Byte.x02 global ["read"]%string (Some ["d"]%string)] boot)) = 2%nat /\
  ApiKeys.well_scoped (ApiKeys.keys (ApiKeys.run [creating Byte.x01 global ["read"]%string None;
                                                    creating Byte.x02 global ["read"]%string (Some ["d"]%string)] boot)).
Proof.
  split; [by vm_compute|].
  apply (ApiKeys.global_access_is_admin boot_env hash0 "now" no_failure None "/data" None). evaluated.
Defined.

(** A global admin, an admin of the domain [d], and a user of the domain [e]. *)
Definition other : ApiKeys.ApiKeyEntry := ApiKeys.mkEntry "ck_e" "e" "00" [Encrypt] "then" true None (Some ["e"]%string).
Definition three : ApiKeys.Control :=
  ApiKeys.mkControl (ApiKeys.keys boot ++
    [ApiKeys.mkEntry "ck" "scoped" "11" [Admin; Encrypt] "then" true None (Some ["d"]%string); other]) None.
Definition attempts : list ApiKeys.request :=
  [creating Byte.x03 (scoped [Admin; Encrypt] "d") ["encrypt"]%string (Some ["d"]%string);
   creating Byte.x04 (scoped [Admin; Encrypt] "d") ["admin"]%string (Some ["d"]%string);
   creating Byte.x05 (scoped [Admin; Encrypt] "d") ["encrypt"]%string (Some ["e"]%string);
   ApiKeys.RRevoke no_failure "/data/api-keys.json" (scoped [Admin; Encrypt] "d") "ck_e"].

Lemma scoped_admins_contained_witness :
  length (ApiKeys.keys (ApiKeys.run attempts three)) = 4%nat /\
  ApiKeys.core other ∈ ApiKeys.cores (ApiKeys.keys (ApiKeys.run attempts three)).
Proof.
  split; [by vm_compute|]. apply (ApiKeys.scoped_admins_contained ["d"]%string three attempts).
  - unfold ApiKeys.well_scoped. apply (bool_decide_unpack _). by vm_compute.
  - intros r auth Hr Ha. unfold attempts in Hr. rewrite !elem_of_cons, elem_of_nil in Hr.
    destruct Hr as [->|[->|[->|[->|[]]]]]; injection Ha as <-; (split; [done|]); by exists ["d"]%string.
  - unfold three, ApiKeys.cores. cbn [ApiKeys.keys]. rewrite fmap_app. set_solver.
  - intros (l & [= <-] & H). set_solver.
Defined.

Lemma admin_remains_witness :
  ApiKeys.has_admin (ApiKeys.keys (ApiKeys.run [ApiKeys.RRevoke no_failure "p" global "ck_bootstrap"] three)).
Proof.
  unfold ApiKeys.has_admin. apply (ApiKeys.admin_remains three). apply Exists_exists. eexists. split; [by left|]. split; [done|]. by left.
Defined.

(** The last key with global access can be revoked while an admin of one domain is active. *)
Example last_global_admin :
  (fun e => is_global_admin (ApiAccess.context_of e)) <$>
    (filter (fun e => ApiKeys.active e = true)
       (ApiKeys.keys (ApiKeys.run [ApiKeys.RRevoke no_failure "p" global "ck_bootstrap"] three))) = [false; false].
Proof. by vm_compute. Qed.

(** ** Domains *)

Definition app0 : ApiServer.App := ApiServer.mkApp ready three (ApiLimit.new 0 (F64.of_Z 20) 50) "p".
Definition env0 : ApiServer.Env := ApiServer.mkEnv 0 0 hash0 (mint Byte.x07) no_failure no_failure "now".

(** ** A session of the bootstrap admin: revoke a key, then destroy it *)

Definition asks (r : ApiServer.Route) : ApiServer.Step :=
  ApiServer.Serve env0 (ApiServer.mkRequest "10.0.0.1" (Some "Bearer secret"%string) "x" r).
Definition session : list ApiServer.Step :=
  [asks (ApiServer.RRevoke dek_id (Build_RevokeReq "lost")); ApiServer.Tick 5; asks (ApiServer.RDestroy dek_id);
   asks (ApiServer.RRotate dek_id)].
Definition served : World := ltac:(frozen (ApiServer.ks (ApiServer.steps (fun _ => None) session app0))).
Lemma served_eq : ApiServer.ks (ApiServer.steps (fun _ => None) session app0) = served.
Proof. evaluated. Qed.

Lemma server_refines_keystore_witness :
  (exists cs, served = KsRuns.run cs ready) /\
  Types.state (key_in served dek_id) = Types.Destroyed /\ KsLaws.evolves (key_in ready dek_id) (key_in served dek_id).
Proof.
  destruct (ApiLaws.server_refines_keystore (fun _ => None) session app0) as (Hr & _ & H).
  rewrite served_eq in Hr, H. split; [exact Hr|]. split; [by vm_compute|].
  assert (H1 : view ready !! dek_id = Some (key_in ready dek_id)) by (apply key_in_lookup; by vm_compute).
  assert (H2 : view served !! dek_id = Some (key_in served dek_id)) by (apply key_in_lookup; by vm_compute).
  exact (proj1 (proj2 (H ready_wf) ready_fresh dek_id _ _ H1 H2)).
Defined.

Definition asked : DecryptReq := Build_DecryptReq blob0 "aad" "ctx".
Definition app1 : ApiServer.App := ApiServer.mkApp encrypted_world three (ApiLimit.new 0 (F64.of_Z 20) 50) "p".

Lemma decrypt_route_uniform_witness :
  exists authz w1 w2 pt, KsCrypto.decrypt_authorized authz blob0 (bytes_of_string "aad") (bytes_of_string "ctx") w1 = (w2, Ok pt) /\
    (ApiServer.handle (fun _ => None) env0 global (ApiServer.RDecrypt (Some asked)) app1).2
    = Some (json_ok (BPlaintext (Api.from_utf8_lossy pt))).
Proof.
  pose proof (ApiAccess.decrypt_route_uniform (fun _ => None) env0 global (Some asked) app1) as H.
  assert (E : status <$> (ApiServer.handle (fun _ => None) env0 global (ApiServer.RDecrypt (Some asked)) app1).2 = Some OK)
    by (by vm_compute).
  destruct ((ApiServer.handle (fun _ => None) env0 global (ApiServer.RDecrypt (Some asked)) app1).2) as [resp|]; [|discriminate E].
  destruct H as [->|(req & authz & w1 & w2 & pt & [= <-] & _ & _ & Hd & -> & _)]; [discriminate E|].
  by exists authz, w1, w2, pt.
Defined.

Lemma cross_domain_denied_witness :
  let answer r := (ApiServer.handle (fun _ => None) env0 (scoped [Manage; Read] "elsewhere") r app0).2 in
  (exists resp, answer (ApiServer.RDestroy dek_id) = Some resp /\ ApiKeys.refused resp) /\
  (exists resp, answer (ApiServer.RVerifyingKey dek_id) = Some resp /\ ApiKeys.refused resp) /\
  (forall l, answer ApiServer.RListKeys = Some (json_ok (BKeys l)) -> l = []).
Proof.
  destruct (ApiAccess.cross_domain_denied (fun _ => None) env0 (scoped [Manage; Read] "elsewhere") app0 ["elsewhere"]%string)
    as [D L]; [done|].
  assert (Hd : KsGates.in_domain (view ready) dek_id domain_id)
    by (apply (KsGates.resolve_Ok dek_id ready (Keystore.resolve_domain_for_key dek_id ready).1); run_answer).
  assert (Hn : domain_id ∉ ["elsewhere"]%string) by (by apply (bool_decide_unpack _)).
  split_and!.
  - destruct (D (ApiServer.RDestroy dek_id) dek_id domain_id) as (resp & H & Hr & _); [by left|done..|]. by exists resp.
  - destruct (D (ApiServer.RVerifyingKey dek_id) dek_id domain_id) as (resp & H & Hr & _);
      [right; split; [done|by vm_compute]|done..|]. by exists resp.
  - intros l H. specialize (L l H). by vm_compute in H; injection H as <-.
Defined.

(** The denial of encryption tells an existing key of another domain from a missing one, and names its domain. *)
Example encrypt_tells_existence :
  let ask k := (ApiServer.handle (fun _ => None) env0 (scoped [Encrypt] "elsewhere")
                  (ApiServer.REncrypt k (Build_EncryptReq "p" "a" "c")) app0).2 in
  ask dek_id = Some (deny FORBIDDEN ("access denied for domain " +:+ domain_id)) /\
  ask "missing"%string = Some (deny BAD_REQUEST ("cannot resolve domain: " +:+ Types.display_error (Types.KeyNotFound "missing"))).
Proof. split; by vm_compute. Qed.

(** ** Starting *)

Definition vars0 : ApiStart.Variables :=
  [("CITADEL_MASTER_KEY", key_text); ("CITADEL_REPLAY_STORE", "file")]%string.
Definition replays0 : ApiStart.Replays := ApiStart.mkReplays (Replay.memory_new 1) (Ok (Replay.memory_new 2)) (Err "no"%string).
Definition os0 : RootKey.Os := RootKey.mkOs None (Err "") (Err "") (Err "") [] None [] (Err "") (Err "").

Definition strong_text : string := hex_encode ((fun i => byte_of_Z (i * i * 7 + i)) <$> seqZ 1 32).
Definition vars1 : ApiStart.Variables :=
  [("CITADEL_MASTER_KEY", strong_text); ("CITADEL_REPLAY_STORE", "file"); ("CITADEL_API_KEY", "secret")]%string.
Definition found0 : ApiBoot.Found := {|
  ApiBoot.read_error := None; ApiBoot.api_keys_file := None; ApiBoot.saving := no_failure; ApiBoot.now_text := "now";
  ApiBoot.is_fresh := true; ApiBoot.process := process0 (ApiStart.var vars1); ApiBoot.replays := replays0;
  ApiBoot.hash_1 := os0; ApiBoot.hash_2 := os0; ApiBoot.open_1 := os0; ApiBoot.open_2 := os0;
  ApiBoot.rate_limit_rps := None; ApiBoot.started := 0;
  ApiBoot.demo_enforcer := fun _ => (Enforcer.new None None 1).1; ApiBoot.new_enforcer := (Enforcer.new None None 1).1;
|}.

Lemma server_starts_protected_witness :
  exists a k, ApiBoot.build_app false vars1 found0 = Ok a /\ master_key (ApiServer.ks a) = Some k /\ length k = 32%nat /\
    KsInit.load_master_key_from_env (ApiStart.var vars1) = Some k.
Proof.
  destruct (ApiBoot.build_app false vars1 found0) as [a|e] eqn:E.
  2: { exfalso. assert (H : is_ok (ApiBoot.build_app false vars1 found0) = true) by (by vm_compute). by rewrite E in H. }
  destruct (ApiBoot.server_starts_protected false vars1 found0 a None None 1) as ((k & Hk & Hl & _ & Hv) & _).
  - by vm_compute.
  - done.
  - exact empty_wf.
  - done.
  - exact E.
  - exists a, k. split_and!; [reflexivity|exact Hk|exact Hl|]. apply Hv. by vm_compute.
Defined.

(** The master key [0707..] is accepted by the gate of [create_keystore], and panics when an API key is hashed. *)
Example weak_master_key :
  ApiStart.check_master_key (fun _ => "bad"%string) vars0 = Ok () /\
  ApiStart.hash_api_key (fun _ => "bad"%string) vars0 os0 os0 "secret" = None.
Proof. split; by vm_compute. Qed.

Lemma start_registers_every_key_witness :
  state_of cascaded kek_id = Some Types.Revoked /\
  exists s, enforcer (ApiStart.init_enforcer (E := Types.KeystoreError) (Enforcer.new None None 1).1 cascaded).1 = Some s /\
    is_ok (Enforcer.authorize_encrypt s draw0 kek_id None None).2 = true.
Proof.
  split; [by vm_compute|].
  destruct (ApiStart.start_registers_every_key None None 1 cascaded) as (_ & s & Hs & _ & _ & H).
  - pose proof (KsCascade.legal_cascade_wf 9 kek_id "compromised" ready ready_wf) as L. rewrite cascaded_eq in L.
    apply (KsLaws.lg_keys _ _ L), ready_wf.
  - by vm_compute.
  - exists s. split; [exact Hs|]. apply (H kek_id (key_in cascaded kek_id) draw0). apply key_in_lookup. by vm_compute.
Defined.
