(* ===== verification/FfiWitnesses.v ===== *)
(** * The theorems of [FfiLaws] at concrete inputs

    A host whose memory is a few words and buffers, and an allocator that hands
    out the first address above all memory in use. *)

From S2P Require Import Prelude.
From S2P Require Import Wire.
From S2P Require Import WireV2.
From S2P Require Import Crypto.
From S2P Require Import KemP384.
From S2P Require Import Examples.
From S2P Require Import Ffi.
From S2P Require Import FfiLaws.
Import Toy.

Definition top (m : memory) : Z := map_fold (fun i _ acc => Z.max (i + 1) acc) 4096 m.

#[global] Instance bump : Allocator := {|
  alloc_at _ m size := if top m + size <=? 2 ^ 64 then top m else 0;
|}.

Lemma top_above m : 4096 <= top m /\ forall i, is_Some (m !! i) -> i < top m.
Proof.
  unfold top. apply (map_fold_weak_ind (fun t m => 4096 <= t /\ forall i, is_Some (m !! i) -> i < t)).
  - split; [done|]. intros i [? ?]. by rewrite lookup_empty in *.
  - intros i x m' t _ [H1 H2]. split; [lia|]. intros j [y Hj].
    apply lookup_insert_Some in Hj as [[<- _]|[_ Hj]]; [lia|]. specialize (H2 j (mk_is_Some _ _ Hj)). lia.
Qed.

#[global] Instance bump_laws : AllocatorLaws bump.
Proof.
  split. cbn. intros _ m size Hs. destruct (top m + size <=? 2 ^ 64) eqn:E; [|done]. intros _.
  destruct (top_above m) as [H1 H2]. split_and!; [lia..|]. intros i Hi.
  destruct (m !! i) as [x|] eqn:Ei; [|done]. specialize (H2 i (mk_is_Some _ _ Ei)). lia.
Qed.

(** ** A history: generate keys, then free one with a wrong length *)

(** Four words at 8, 16, 24 and 32. *)
Definition cells : memory := map_seqZ 8 (replicate 32 None).
Definition start : Ffi.World := Ffi.mkWorld cells ∅ ∅ 0 [].
Definition drawn : list byte * list byte := (replicate 32 Byte.x01, replicate 32 Byte.x02).
Definition seal_draws : kem_draws := (Some drawn.1, Some drawn.2).
Definition generate_call : Ffi.Call := Ffi.Keygen (Some drawn) 8 16 24 32.
Definition generated : Ffi.World := (Ffi.invoke generate_call start).1.

Lemma generate_ok : (Ffi.invoke generate_call start).2 = Some Ffi.CITADEL_OK.
Proof. by vm_compute. Qed.

(** The secret key is where the third word says. *)
Definition secret : Z := default 0 (Ffi.cell (Ffi.mem generated) 24).

Lemma cell_ok_dec w p :
  bool_decide (p mod 8 = 0 /\ Forall (fun i => is_Some (Ffi.mem w !! i)) (seqZ p 8)) = true -> Ffi.cell_ok w p.
Proof.
  intros [H1 H2]%bool_decide_eq_true _. split; [done|]. intros i Hi. rewrite Forall_forall in H2.
  by apply H2, elem_of_seqZ.
Qed.

Lemma c_boundary_safe_witness :
  exists w', Ffi.invoke (Ffi.Free secret 7) generated = (w', Some Ffi.CITADEL_OK) /\
    Ffi.registry w' = Ffi.live w' /\ Forall (Forall (eq (Some Byte.x00))) (Ffi.released w').
Proof.
  assert (Hw : FfiLaws.reachable generated).
  { eapply (FfiLaws.reach_call start generate_call).
    - apply FfiLaws.reach_start.
    - repeat split; apply cell_ok_dec; by vm_compute.
    - rewrite <- generate_ok. apply surjective_pairing. }
  destruct (FfiLaws.c_boundary_safe generated (Ffi.Free secret 7) Hw I) as (w' & rc & E & _ & _ & H).
  exists w'. split; [|exact H]. rewrite E. f_equal. apply (f_equal snd) in E. cbn in E. rewrite <- E.
  by vm_compute.
Defined.

(** ** Sealing and opening *)

Definition suite : Ffi.Suite := Ffi.suite_a3 (P := primitives).
#[global] Instance suite_laws : SuiteLaws suite := FfiLaws.suite_a3_laws.
Definition keys : list byte * list byte := Ffi.s_generate (Suite := suite) drawn.
Definition letter : list byte := bytes_of_string "attack at dawn".

(** A host that keeps two buffers at 1000 and at [far]. *)
Definition far : Z := 100000.
Definition host (near_bytes far_bytes : list byte) : Ffi.World :=
  Ffi.mkWorld (map_seqZ far (Some <$> far_bytes) ∪ (map_seqZ 1000 (Some <$> near_bytes) ∪ cells)) ∅ ∅ 0 [].
Definition sealed : Ffi.World * option Z :=
  Ffi.ffi_guard (Ffi.seal_impl (S := suite) seal_draws (Some (replicate 12 Byte.x09)) 1000 1216 far 14 0 0 0 5 8 16)
    (host keys.1 letter).

Lemma host_sound a b : Ffi.sound (host a b).
Proof. split; cbn; [done|by intros ?? ?%lookup_empty_Some|by intros ???? ?%lookup_empty_Some|done]. Qed.

Lemma far_load a b : Ffi.load (Ffi.mem (host a b)) far (len b) = Some b.
Proof.
  apply Ffi.load_Some. split; [lia|]. intros k x Hx. apply lookup_union_Some_l.
  apply lookup_map_seqZ_Some_inv. by rewrite list_lookup_fmap, Hx.
Qed.

Lemma near_load a b : len a <= 4000 -> Ffi.load (Ffi.mem (host a b)) 1000 (len a) = Some a.
Proof.
  intros Ha. apply Ffi.load_Some. split; [lia|]. intros k x Hx. pose proof (lookup_lt_Some _ _ _ Hx). cbn.
  rewrite lookup_union_r by (apply lookup_map_seqZ_None; unfold far; lia). apply lookup_union_Some_l.
  apply lookup_map_seqZ_Some_inv. by rewrite list_lookup_fmap, Hx.
Qed.

Lemma host_outputs a b : FfiLaws.outputs (host a b) 8 16.
Proof.
  assert (H : forall p, Ffi.cell_ok start p -> Ffi.cell_ok (host a b) p).
  { intros p Hp Hp0. destruct (Hp Hp0) as [? Hm]. split; [done|]. intros i Hi. cbn.
    rewrite !lookup_union_is_Some. right. right. by apply Hm. }
  unfold FfiLaws.outputs, Ffi.separate. split_and!; [done..| | |lia]; apply H, cell_ok_dec; by vm_compute.
Qed.

Lemma near_input a b n : len a = n -> n <= 4000 -> FfiLaws.input (host a b) 8 16 1000 n a.
Proof.
  intros <- Ha. unfold FfiLaws.input, Ffi.separate, Ffi.ISIZE_MAX. split_and!; try lia. by apply near_load.
Qed.

Lemma far_input a b n : len b = n -> n <= 10000 -> FfiLaws.input (host a b) 8 16 far n b.
Proof.
  intros <- Hb. unfold FfiLaws.input, Ffi.separate, Ffi.ISIZE_MAX, far. split_and!; try lia. apply far_load.
Qed.

Lemma no_input w n : FfiLaws.optional_input w 8 16 0 n [].
Proof. left. split; [by left|done]. Qed.

Lemma sealed_ok : sealed.2 = Some Ffi.CITADEL_OK.
Proof. by vm_compute. Qed.

(** The ciphertext of the letter: header, encapsulation, letter and tag. *)
Lemma sealed_length : Ffi.cell (Ffi.mem sealed.1) 16 = Some (1248).
Proof. by vm_compute. Qed.

Lemma c_roundtrip_witness :
  exists buf ct, Ffi.holds sealed.1 8 16 buf ct /\
    exists v rc, Ffi.ffi_guard (Ffi.open_impl (S := suite) 1000 2432 far 1248 0 0 0 5 8 16) (host keys.2 ct) = (v, Some rc) /\
      (rc = Ffi.CITADEL_OK /\ (exists out, Ffi.holds v 8 16 out letter) \/ rc = Ffi.CITADEL_ERR_ALLOC).
Proof.
  destruct (FfiLaws.c_roundtrip (S := suite) drawn seal_draws (Some (replicate 12 Byte.x09)) (host keys.1 letter)
    1000 1216 far 14 0 0 0 5 8 16 letter [] [] sealed.1) as (buf & ct & Hb & Hopen).
  - by vm_compute.
  - done.
  - apply host_sound.
  - apply host_outputs.
  - apply near_input; [by vm_compute|done].
  - apply far_input; [by vm_compute|done].
  - apply no_input.
  - apply no_input.
  - rewrite <- sealed_ok. apply surjective_pairing.
  - exists buf, ct. split; [exact Hb|]. destruct Hb as (_ & Hl & _). rewrite sealed_length in Hl. injection Hl as Hl.
    apply Hopen; [apply host_sound|apply host_outputs|apply near_input; [by vm_compute|done]
                 |by apply far_input|apply no_input..].
Defined.
